(** * A shallow embedding of the self-healing monitoring pipeline

    Sources embedded here:
    - [src/monitoring/ErrorMonitor.ts]: the failure store
      [ErrorMonitorClass], the facade [MonitoringSystem] and the recovery
      boundary [ErrorBoundary];
    - [src/monitoring/ConsoleInterceptor.ts]: the capture layer
      [ConsoleInterceptorClass] and the remediation registry
      [FixRegistryClass].

    The three singletons and the browser storage form one [World]; every
    method is a computation in a small state-and-exception monad over it.
    What the host runtime supplies (the clock, [navigator], [window],
    stack capture) is read from a [Host] record handed to each call. *)

From Stdlib Require Import ZArith QArith List String Ascii Bool Lia Sorted Permutation.
From stdpp Require Import base list.
Import ListNotations.

Local Open Scope string_scope.
Local Open Scope Z_scope.

(** ** The host runtime: strings

    JavaScript strings are modelled by [string]: sequences of code units
    below 256.  Relational comparison of two strings in JavaScript is the
    lexicographic order on code units, which is [String.compare]. *)
Module Js.

(** The double-quote character, for messages that embed one. *)
Definition dquote : string := String (ascii_of_nat 34) EmptyString.

(** [s.includes(pat)] *)
Fixpoint includes (s pat : string) : bool :=
  String.prefix pat s ||
  match s with
  | EmptyString => false
  | String _ s' => includes s' pat
  end.

(** [a > b] on strings *)
Definition gt (a b : string) : bool :=
  match String.compare a b with Gt => true | _ => false end.

(** Truthiness of an optional string: [undefined] and [''] are falsy. *)
Definition truthy (o : option string) : bool :=
  match o with
  | Some s => negb (String.eqb s EmptyString)
  | None => false
  end.

(** [o || d] for an optional string *)
Definition or_else (o : option string) (d : string) : string :=
  match o with
  | Some s => if String.eqb s EmptyString then d else s
  | None => d
  end.

(** [s.toLowerCase()], on the letters A to Z. *)
Definition lower_ascii (c : ascii) : ascii :=
  let n := nat_of_ascii c in
  if ((65 <=? n) && (n <=? 90))%nat then ascii_of_nat (n + 32) else c.
Fixpoint toLowerCase (s : string) : string :=
  match s with
  | EmptyString => EmptyString
  | String c s' => String (lower_ascii c) (toLowerCase s')
  end.

(** [xs.join(' ')] *)
Definition join_space (xs : list string) : string := String.concat " " xs.

(** [xs.slice(0, n)] *)
Definition slice0 {A} (n : nat) (xs : list A) : list A := take n xs.

(** [xs.slice(-n)]: the last [n] elements. *)
Definition slice_last {A} (n : nat) (xs : list A) : list A :=
  drop (length xs - n) xs.

End Js.

(** ** The host runtime: [Date]

    Time values are milliseconds since the epoch.  The calendar functions
    are those of the ECMAScript specification (Day, DayFromYear,
    YearFromTime, MonthFromTime, DateFromTime, ...), all with floor
    division, and [toISOString] renders [YYYY-MM-DDTHH:mm:ss.sssZ], with
    the expanded six-digit year outside 0..9999. *)
Module JsDate.

Definition msPerDay : Z := 86400000.
Definition msPerHour : Z := 3600000.
Definition msPerMinute : Z := 60000.
Definition msPerSecond : Z := 1000.

Definition Day (t : Z) : Z := t / msPerDay.
Definition TimeWithinDay (t : Z) : Z := t mod msPerDay.

Definition DayFromYear (y : Z) : Z :=
  365 * (y - 1970) + (y - 1969) / 4 - (y - 1901) / 100 + (y - 1601) / 400.

(** The year containing day number [d]: the largest [y] with
    [DayFromYear y <= d].  The mean-year estimate is off by at most one. *)
Definition YearFromDay (d : Z) : Z :=
  let y0 := 1970 + (400 * d) / 146097 in
  if d <? DayFromYear y0 then y0 - 1
  else if DayFromYear (y0 + 1) <=? d then y0 + 1
  else y0.

Definition YearFromTime (t : Z) : Z := YearFromDay (Day t).

Definition DaysInYear (y : Z) : Z :=
  if negb (y mod 4 =? 0) then 365
  else if negb (y mod 100 =? 0) then 366
  else if negb (y mod 400 =? 0) then 365
  else 366.

(** 1 in a leap year, 0 otherwise. *)
Definition InLeapYear (y : Z) : Z := DaysInYear y - 365.

Definition DayWithinYear (d : Z) : Z := d - DayFromYear (YearFromDay d).

(** Month number 0..11 of the day [dwy] of a year with leap flag [l]. *)
Definition MonthFromDay (l dwy : Z) : Z :=
  if dwy <? 31 then 0
  else if dwy <? 59 + l then 1
  else if dwy <? 90 + l then 2
  else if dwy <? 120 + l then 3
  else if dwy <? 151 + l then 4
  else if dwy <? 181 + l then 5
  else if dwy <? 212 + l then 6
  else if dwy <? 243 + l then 7
  else if dwy <? 273 + l then 8
  else if dwy <? 304 + l then 9
  else if dwy <? 334 + l then 10
  else 11.

(** Day of the month 1..31. *)
Definition DateFromDay (l dwy : Z) : Z :=
  match MonthFromDay l dwy with
  | 0 => dwy + 1
  | 1 => dwy - 30
  | 2 => dwy - 58 - l
  | 3 => dwy - 89 - l
  | 4 => dwy - 119 - l
  | 5 => dwy - 150 - l
  | 6 => dwy - 180 - l
  | 7 => dwy - 211 - l
  | 8 => dwy - 242 - l
  | 9 => dwy - 272 - l
  | 10 => dwy - 303 - l
  | _ => dwy - 333 - l
  end.

Definition MonthFromTime (t : Z) : Z :=
  MonthFromDay (InLeapYear (YearFromTime t)) (DayWithinYear (Day t)).
Definition DateFromTime (t : Z) : Z :=
  DateFromDay (InLeapYear (YearFromTime t)) (DayWithinYear (Day t)).
Definition HourFromTime (t : Z) : Z := (t / msPerHour) mod 24.
Definition MinFromTime (t : Z) : Z := (t / msPerMinute) mod 60.
Definition SecFromTime (t : Z) : Z := (t / msPerSecond) mod 60.
Definition msFromTime (t : Z) : Z := t mod msPerSecond.

Definition digit (d : Z) : ascii := ascii_of_N (48 + Z.to_N d).

(** [n] written with exactly [w] decimal digits, zero padded. *)
Fixpoint dec (w : nat) (n : Z) : string :=
  match w with
  | O => EmptyString
  | S w' => dec w' (n / 10) ++ String (digit (n mod 10)) EmptyString
  end.

Definition year_string (y : Z) : string :=
  if (0 <=? y) && (y <=? 9999) then dec 4 y
  else if y <? 0 then "-" ++ dec 6 (- y)
  else "+" ++ dec 6 y.

(** [new Date(t).toISOString()] *)
Definition toISOString (t : Z) : string :=
  year_string (YearFromTime t) ++ "-" ++ dec 2 (MonthFromTime t + 1) ++ "-" ++
  dec 2 (DateFromTime t) ++ "T" ++ dec 2 (HourFromTime t) ++ ":" ++
  dec 2 (MinFromTime t) ++ ":" ++ dec 2 (SecFromTime t) ++ "." ++
  dec 3 (msFromTime t) ++ "Z".

(** The time values whose ISO rendering has a four-digit year:
    0000-01-01T00:00:00.000Z up to 9999-12-31T23:59:59.999Z. *)
Definition minTime : Z := -62167219200000.
Definition maxTime : Z := 253402300799999.

End JsDate.


(** ** Values exchanged between the components *)

(** A JavaScript [Error]: its [message] and its [stack]. *)
Module JsError.
Record t := { message : string; stack : option string }.
End JsError.

(** The level of a console call ([CapturedMessage['level']]). *)
Inductive Level := error | warn | info | debug | log.

Definition Level_eqb (a b : Level) : bool :=
  match a, b with
  | error, error | warn, warn | info, info | debug, debug | log, log => true
  | _, _ => false
  end.

(** One argument of a console call, by the case [processMessage] makes
    of it: a string, an [Error], an object (with what [JSON.stringify]
    gives for it, [None] when it throws, and what [String] gives), or
    anything else (with what [String] gives). *)
Inductive Arg :=
| ArgString (s : string)
| ArgError (e : JsError.t)
| ArgObject (json : option string) (str : string)
| ArgOther (str : string).

(** Values of the open [context] mapping of a report. *)
Inductive JsValue :=
| VString (s : string)
| VNumber (n : Z)
| VLevel (l : Level)
| VArgs (args : list Arg)
| VOpaque (what : string).

(** React's [ErrorInfo]. *)
Record ErrorInfo := { componentStack : option string }.

(** [ErrorReport['type']] *)
Inductive ErrorType :=
| react_boundary | console_error | unhandled_rejection | runtime_error.

(** [interface ErrorReport] *)
Module ErrorReport.
Record t := {
  type : ErrorType;
  error : JsError.t;
  errorInfo : option ErrorInfo;
  timestamp : string;
  context : option (list (string * JsValue));
  userAgent : option string;
  url : option string;
  userId : option string;
  sessionId : option string
}.
End ErrorReport.

(** [interface CapturedMessage] *)
Module CapturedMessage.
Record t := {
  level : Level;
  message : string;
  args : list Arg;
  timestamp : string;
  stack : option string
}.
End CapturedMessage.

(** A compiled regular expression, by its [test] method.  Expressions
    with the global or sticky flag, whose [test] depends on [lastIndex],
    are outside the model. *)
Record RegExp := { test : string -> bool }.

(** [string | RegExp] *)
Inductive Pattern :=
| PString (s : string)
| PRegExp (r : RegExp).

(** What the host supplies to one call: the clock, the globals the code
    probes with [typeof], the stack a fresh [Error] captures, and whether
    writing the snapshot ([JSON.stringify] and [localStorage.setItem])
    completes. *)
Record Host := {
  now : Z;                                (* Date.now() *)
  navigator_userAgent : option string;    (* None: typeof navigator === 'undefined' *)
  window_location_href : option string;   (* None: typeof window === 'undefined' *)
  window_gc : option bool;                (* None: no gc in window; Some false: gc() throws *)
  new_Error_stack : option string;        (* new Error().stack *)
  performance_now : Z;                    (* performance.now(), in ms *)
  storage_write_ok : bool
}.

(** The outcome of a callback: it returns a value or throws. *)
Inductive Outcome (A : Type) :=
| Returns (a : A)
| Throws (e : JsError.t).
Arguments Returns {A} a.
Arguments Throws {A} e.

(** [interface ErrorFix].  The four fields [registerFix] tests for
    presence are optional here, the others are as the interface types
    them.  [fixFunction] is given by how its promise settles; the side
    effects of a fix function on the rest of the program are not
    modelled.  A condition is a zero-argument closure over the host.
    The numbers [priority] and [timesUsed] are integers and
    [successRate] is a rational: rounding is not modelled, and a
    division by zero, which JavaScript answers with [Infinity] or [NaN],
    does not arise for a count that starts at 0. *)
Inductive Category := dependency | configuration | runtime | ui | build.

Module ErrorFix.
Record t := {
  id : option string;
  name : option string;
  description : string;
  errorPattern : option Pattern;
  errorTypes : list string;
  fixFunction :
    option (JsError.t -> option (list (string * JsValue)) -> Host -> Outcome bool);
  conditions : option (list (Host -> Outcome bool));
  priority : Z;
  category : Category;
  successRate : option Q;
  lastUsed : option string;
  timesUsed : option Z
}.

(** [{ ...fix, successRate: r, lastUsed: u, timesUsed: n }] *)
Definition with_stats (f : t) (r : Q) (u : string) (n : Z) : t :=
  {| id := id f; name := name f; description := description f;
     errorPattern := errorPattern f; errorTypes := errorTypes f;
     fixFunction := fixFunction f; conditions := conditions f;
     priority := priority f; category := category f;
     successRate := Some r; lastUsed := Some u; timesUsed := Some n |}.
End ErrorFix.

(** A reference to an [ErrorFix] object: its index in the object store
    of the [World].  The registry, the history and the callers of
    [applyFix] share the objects they refer to. *)
Abbreviation FixRef := nat.

(** An entry of [fixHistory]; [fix_] is its field [fix]. *)
Module FixAttempt.
Record t := {
  fix_ : FixRef;
  success : bool;
  timestamp : string;
  error : JsError.t
}.
End FixAttempt.

(** [interface ConsoleInterceptorConfig] *)
Record ConsoleInterceptorConfig := {
  captureErrors : bool;
  captureWarnings : bool;
  captureInfo : bool;
  captureDebug : bool;
  filterPatterns : option (list Pattern);
  maxCapturedMessages : nat;
  preserveOriginal : bool
}.

(** ** The state of the three singletons *)

(** [class ErrorMonitorClass].  A listener is given by whether it throws
    on a report. *)
Module ErrorMonitorClass.
Record t := {
  errors : list ErrorReport.t;
  maxStoredErrors : nat;
  sessionId : string;
  listeners : list (ErrorReport.t -> Outcome unit)
}.

Definition with_errors (s : t) (es : list ErrorReport.t) : t :=
  {| errors := es; maxStoredErrors := maxStoredErrors s;
     sessionId := sessionId s; listeners := listeners s |}.

(** The state the constructor leaves, for a generated session id. *)
Definition new (session : string) : t :=
  {| errors := []; maxStoredErrors := 100; sessionId := session; listeners := [] |}.
End ErrorMonitorClass.

(** [class ConsoleInterceptorClass] *)
Module ConsoleInterceptorClass.
Record t := {
  isIntercepting : bool;
  capturedMessages : list CapturedMessage.t;
  config : ConsoleInterceptorConfig;
  listeners : list (CapturedMessage.t -> Outcome unit)
}.

Definition with_capturedMessages (s : t) (ms : list CapturedMessage.t) : t :=
  {| isIntercepting := isIntercepting s; capturedMessages := ms;
     config := config s; listeners := listeners s |}.
End ConsoleInterceptorClass.

(** [class FixRegistryClass] *)
Module FixRegistryClass.
Record t := {
  fixes : list FixRef;
  fixHistory : list FixAttempt.t
}.

Definition with_fixes (s : t) (fs : list FixRef) : t :=
  {| fixes := fs; fixHistory := fixHistory s |}.
Definition with_fixHistory (s : t) (h : list FixAttempt.t) : t :=
  {| fixes := fixes s; fixHistory := h |}.
End FixRegistryClass.

(** What [localStorage] holds under the key ['error-monitor-data']: a
    text, modelled by what [JSON.parse] makes of it.  [Unparsable] is a
    text [JSON.parse] rejects; in [Snapshot], [errors] is [None] when
    [data.errors] is missing or is not an array.  The entries of a
    snapshot are kept as the reports they were written from; the text
    [JSON.stringify] writes has of the [Error] of a report an empty
    object, so the [error] of an entry of a snapshot is outside of what
    is modelled. *)
Inductive Stored :=
| Unparsable
| Snapshot (errors : option (list ErrorReport.t)) (timestamp : string) (sessionId : string).

(** What the pipeline does to the outside, in order. *)
Inductive Effect :=
| OriginalSink (l : Level) (args : list Arg)        (* a call of an original console method *)
| Console (l : Level) (text : string)               (* a call of the pipeline on the global console *)
| Logged (r : ErrorReport.t)                        (* logger.error('Error reported', ...) *)
| Notified (i : nat) (r : ErrorReport.t)            (* the i-th listener of the store is called *)
| Delivered (i : nat) (m : CapturedMessage.t).      (* the i-th capture listener is called *)

(** ** The world and the monad

    A call of the pipeline on the global console is recorded in [trace]
    and is not dispatched again to the interceptor. *)
Record World := {
  monitor : ErrorMonitorClass.t;
  interceptor : ConsoleInterceptorClass.t;
  registry : FixRegistryClass.t;
  objects : list ErrorFix.t;                 (* the ErrorFix objects, by reference *)
  localStorage : option (option Stored);     (* None: typeof localStorage === 'undefined' *)
  trace : list Effect
}.

Definition with_monitor (w : World) (m : ErrorMonitorClass.t) : World :=
  {| monitor := m; interceptor := interceptor w; registry := registry w;
     objects := objects w; localStorage := localStorage w; trace := trace w |}.
Definition with_interceptor (w : World) (c : ConsoleInterceptorClass.t) : World :=
  {| monitor := monitor w; interceptor := c; registry := registry w;
     objects := objects w; localStorage := localStorage w; trace := trace w |}.
Definition with_registry (w : World) (r : FixRegistryClass.t) : World :=
  {| monitor := monitor w; interceptor := interceptor w; registry := r;
     objects := objects w; localStorage := localStorage w; trace := trace w |}.
Definition with_objects (w : World) (o : list ErrorFix.t) : World :=
  {| monitor := monitor w; interceptor := interceptor w; registry := registry w;
     objects := o; localStorage := localStorage w; trace := trace w |}.
Definition with_localStorage (w : World) (s : option (option Stored)) : World :=
  {| monitor := monitor w; interceptor := interceptor w; registry := registry w;
     objects := objects w; localStorage := s; trace := trace w |}.
Definition with_trace (w : World) (t : list Effect) : World :=
  {| monitor := monitor w; interceptor := interceptor w; registry := registry w;
     objects := objects w; localStorage := localStorage w; trace := t |}.

(** A computation returns a value or throws, and leaves a world. *)
Definition M (A : Type) : Type := World -> Outcome A * World.

Definition ret {A} (a : A) : M A := fun w => (Returns a, w).

Definition bind {A B} (m : M A) (k : A -> M B) : M B :=
  fun w =>
    match m w with
    | (Returns a, w') => k a w'
    | (Throws e, w') => (Throws e, w')
    end.

Definition throw {A} (e : JsError.t) : M A := fun w => (Throws e, w).

(** [try { m } catch (e) { h e }] *)
Definition try_catch {A} (m : M A) (h : JsError.t -> M A) : M A :=
  fun w =>
    match m w with
    | (Returns a, w') => (Returns a, w')
    | (Throws e, w') => h e w'
    end.

Definition gets {A} (f : World -> A) : M A := fun w => (Returns (f w), w).
Definition modify (f : World -> World) : M unit := fun w => (Returns tt, f w).
Definition emit (e : Effect) : M unit :=
  modify (fun w => with_trace w (trace w ++ [e])).

(** The settlement of a callback, as a computation. *)
Definition call {A} (o : Outcome A) : M A :=
  match o with
  | Returns a => ret a
  | Throws e => throw e
  end.

(** The notations [x ← m; k] and [m;; k] are those of stdpp's monads. *)
#[export] Instance M_ret : MRet M := @ret.
#[export] Instance M_bind : MBind M := fun A B k m => bind m k.

(** [new Error(msg)] thrown or passed around for its message alone. *)
Definition Error_ (msg : string) : JsError.t :=
  {| JsError.message := msg; JsError.stack := None |}.

(** [xs.forEach((x, i) => body i x)] *)
Fixpoint forEach_from {A} (i : nat) (xs : list A) (body : nat -> A -> M unit) : M unit :=
  match xs with
  | [] => ret tt
  | x :: xs' => body i x;; forEach_from (S i) xs' body
  end.
Definition forEach {A} (xs : list A) (body : nat -> A -> M unit) : M unit :=
  forEach_from 0 xs body.

(** [xs.sort(cmp)]: the stable sort of ECMAScript, as an insertion sort.
    An element stays behind the elements before it that do not compare
    greater. *)
Fixpoint sort_insert {A} (cmp : A -> A -> Z) (x : A) (ys : list A) : list A :=
  match ys with
  | [] => [x]
  | y :: ys' => if cmp y x <=? 0 then y :: sort_insert cmp x ys' else x :: y :: ys'
  end.
Definition js_sort {A} (cmp : A -> A -> Z) (xs : list A) : list A :=
  fold_left (fun acc x => sort_insert cmp x acc) xs [].

(** ** [ErrorMonitor]: the failure store *)

Definition ErrorType_eqb (a b : ErrorType) : bool :=
  match a, b with
  | react_boundary, react_boundary | console_error, console_error
  | unhandled_rejection, unhandled_rejection | runtime_error, runtime_error => true
  | _, _ => false
  end.

(** [m[k] = (m[k] || 0) + 1] on a [Record<string, number>], kept as an
    association list in the order the keys were first written.  On an
    object literal a key that is the name of a property every object
    inherits (['constructor'], ['toString'], ['__proto__'], ...) is not
    [undefined] before its first write: such keys are outside of what
    is modelled. *)
Fixpoint bump {K} (eqb : K -> K -> bool) (k : K) (m : list (K * Z)) : list (K * Z) :=
  match m with
  | [] => [(k, 1)]
  | (k', n) :: m' => if eqb k' k then (k', n + 1) :: m' else (k', n) :: bump eqb k m'
  end.

(** An entry of [ErrorStats.topErrors]. *)
Module TopError.
Record t := { message : string; count : Z; lastOccurred : string }.
End TopError.

(** [interface ErrorStats] *)
Record ErrorStats := {
  totalErrors : nat;
  errorsByType : list (ErrorType * Z);
  errorsByMessage : list (string * Z);
  recentErrors : list ErrorReport.t;
  topErrors : list TopError.t
}.

Module ErrorMonitor.
Import ErrorMonitorClass.

Definition set_errors (es : list ErrorReport.t) : M unit :=
  modify (fun w => with_monitor w (with_errors (monitor w) es)).

(** [private persistErrors()] *)
Definition persistErrors (h : Host) : M unit :=
  ls ← gets localStorage;
  match ls with
  | None => ret tt
  | Some _ =>
      try_catch
        (this ← gets monitor;
         let errorData :=
           Snapshot (Some (Js.slice0 20 (errors this)))
                    (JsDate.toISOString (now h)) (sessionId this) in
         if storage_write_ok h
         then modify (fun w => with_localStorage w (Some (Some errorData)))
         else throw (Error_ "QuotaExceededError"))
        (fun _ => emit (Console warn "Failed to persist errors to localStorage:"))
  end.

(** [{ ...report, sessionId: this.sessionId, userAgent: ..., url: ... }] *)
Definition enhance (h : Host) (session : string) (report : ErrorReport.t) : ErrorReport.t :=
  {| ErrorReport.type := ErrorReport.type report;
     ErrorReport.error := ErrorReport.error report;
     ErrorReport.errorInfo := ErrorReport.errorInfo report;
     ErrorReport.timestamp := ErrorReport.timestamp report;
     ErrorReport.context := ErrorReport.context report;
     ErrorReport.userId := ErrorReport.userId report;
     ErrorReport.sessionId := Some session;
     ErrorReport.userAgent := navigator_userAgent h;
     ErrorReport.url := window_location_href h |}.

(** [public reportError(report)] *)
Definition reportError (h : Host) (report : ErrorReport.t) : M unit :=
  this ← gets monitor;
  (* Enhance report with additional context *)
  let enhancedReport := enhance h (sessionId this) report in
  (* Store error *)
  set_errors (enhancedReport :: errors this);;
  this ← gets monitor;
  (if (maxStoredErrors this <? length (errors this))%nat
   then set_errors (Js.slice0 (maxStoredErrors this) (errors this))
   else ret tt);;
  emit (Logged enhancedReport);;
  this ← gets monitor;
  forEach (listeners this) (fun i listener =>
    try_catch
      (emit (Notified i enhancedReport);; call (listener enhancedReport))
      (fun _ => emit (Console error "Error in error listener:")));;
  persistErrors h.

(** [public loadPersistedErrors()] *)
Definition loadPersistedErrors (h : Host) : M unit :=
  ls ← gets localStorage;
  match ls with
  | None => ret tt
  | Some item =>
      try_catch
        (match item with
         | None => ret tt
         | Some Unparsable => throw (Error_ "SyntaxError")
         | Some (Snapshot None _ _) => ret tt
         | Some (Snapshot (Some data_errors) _ _) =>
             let oneDayAgo := JsDate.toISOString (now h - 24 * 60 * 60 * 1000) in
             let recentErrors :=
               List.filter (fun e => Js.gt (ErrorReport.timestamp e) oneDayAgo)
                           data_errors in
             this ← gets monitor;
             set_errors (recentErrors ++ errors this)
         end)
        (fun _ => emit (Console warn "Failed to load persisted errors:"))
  end.

(** [public getErrorStats()].  A JavaScript engine enumerates the keys
    of [errorsByMessage] that are canonical array indices first; here
    all keys are enumerated in insertion order. *)
Definition getErrorStats (this : t) : ErrorStats :=
  let errorsByType :=
    fold_left (fun acc e => bump ErrorType_eqb (ErrorReport.type e) acc)
              (errors this) [] in
  let errorsByMessage :=
    fold_left
      (fun acc e =>
         bump String.eqb
              (Js.or_else (Some (JsError.message (ErrorReport.error e))) "Unknown error")
              acc)
      (errors this) [] in
  let topErrors :=
    Js.slice0 10
      (js_sort (fun a b => TopError.count b - TopError.count a)
         (map (fun '(message, count) =>
                 {| TopError.message := message;
                    TopError.count := count;
                    TopError.lastOccurred :=
                      Js.or_else
                        (option_map ErrorReport.timestamp
                           (List.find
                              (fun e => String.eqb (JsError.message (ErrorReport.error e)) message)
                              (errors this)))
                        EmptyString |})
              errorsByMessage)) in
  {| totalErrors := length (errors this);
     errorsByType := errorsByType;
     errorsByMessage := errorsByMessage;
     recentErrors := Js.slice0 10 (errors this);
     topErrors := topErrors |}.

(** [public getRecentErrors(limit = 10)] *)
Definition getRecentErrors (this : t) (limit : nat) : list ErrorReport.t :=
  Js.slice0 limit (errors this).

(** [public clearErrors()] *)
Definition clearErrors : M unit :=
  set_errors [];;
  ls ← gets localStorage;
  match ls with
  | None => ret tt
  | Some _ => modify (fun w => with_localStorage w (Some None))
  end.

End ErrorMonitor.

(** ** [FixRegistry]: the remediation registry *)
Module FixRegistry.
Import FixRegistryClass.

(** Truthiness of [fix.errorPattern]: a regular expression is an
    object, a string is truthy unless empty. *)
Definition pattern_truthy (p : option Pattern) : bool :=
  match p with
  | Some (PString s) => negb (String.eqb s EmptyString)
  | Some (PRegExp _) => true
  | None => false
  end.

(** [a === b] on optional strings *)
Definition same_id (a b : option string) : bool :=
  match a, b with
  | Some x, Some y => String.eqb x y
  | None, None => true
  | _, _ => false
  end.

Definition priority_of (objs : list ErrorFix.t) (r : FixRef) : Z :=
  match objs !! r with
  | Some f => ErrorFix.priority f
  | None => 0
  end.

Definition set_fixes (fs : list FixRef) : M unit :=
  modify (fun w => with_registry w (with_fixes (registry w) fs)).
Definition set_fixHistory (hs : list FixAttempt.t) : M unit :=
  modify (fun w => with_registry w (with_fixHistory (registry w) hs)).

(** [private sortFixesByPriority()] *)
Definition sortFixesByPriority : M unit :=
  this ← gets registry;
  objs ← gets objects;
  set_fixes (js_sort (fun a b => priority_of objs b - priority_of objs a) (fixes this)).

(** [public registerFix(fix)] *)
Definition registerFix (h : Host) (f : ErrorFix.t) : M unit :=
  if negb (Js.truthy (ErrorFix.id f)) || negb (Js.truthy (ErrorFix.name f))
     || negb (pattern_truthy (ErrorFix.errorPattern f))
     || negb (bool_decide (is_Some (ErrorFix.fixFunction f)))
  then throw (Error_ "Invalid fix registration: missing required fields")
  else
    this ← gets registry;
    objs ← gets objects;
    if existsb (fun r => match objs !! r with
                         | Some g => same_id (ErrorFix.id g) (ErrorFix.id f)
                         | None => false
                         end) (fixes this)
    then throw (Error_ ("Fix with ID " ++ Js.dquote ++ Js.or_else (ErrorFix.id f) EmptyString
                        ++ Js.dquote ++ " already exists"))
    else
      let completeFix :=
        ErrorFix.with_stats f
          (default 0%Q (ErrorFix.successRate f))
          (Js.or_else (ErrorFix.lastUsed f) (JsDate.toISOString (now h)))
          (default 0 (ErrorFix.timesUsed f)) in
      modify (fun w => with_objects w (objects w ++ [completeFix]));;
      set_fixes (fixes this ++ [length objs]);;
      sortFixesByPriority.

(** The loop over [fix.conditions] in [matchesFix]. *)
Fixpoint check_conditions (h : Host) (cs : list (Host -> Outcome bool)) : M bool :=
  match cs with
  | [] => ret true
  | condition :: cs' =>
      ok ← try_catch (call (condition h)) (fun _ => ret false);
      if negb ok then ret false else check_conditions h cs'
  end.

(** [private async matchesFix(error, fix)] *)
Definition matchesFix (h : Host) (err : JsError.t) (f : ErrorFix.t) : M bool :=
  let pattern := ErrorFix.errorPattern f in
  let message := JsError.message err in
  let stack := Js.or_else (JsError.stack err) EmptyString in
  let patternMatches :=
    match pattern with
    | Some (PRegExp r) => test r message || test r stack
    | Some (PString p) => Js.includes message p || Js.includes stack p
    | None => Js.includes message "undefined" || Js.includes stack "undefined"
    end in
  if negb patternMatches then ret false
  else
    match ErrorFix.conditions f with
    | Some cs => check_conditions h cs
    | None => ret true
    end.

(** The object a reference points to.  Every reference the methods
    receive is to an object of the store. *)
Definition deref (r : FixRef) : M ErrorFix.t :=
  objs ← gets objects;
  match objs !! r with
  | Some f => ret f
  | None => throw (Error_ "TypeError")
  end.

(** The loop of [findFix]. *)
Fixpoint findFix_loop (h : Host) (err : JsError.t) (fs : list FixRef) : M (option FixRef) :=
  match fs with
  | [] => ret None
  | r :: fs' =>
      f ← deref r;
      matches ← matchesFix h err f;
      if matches : bool then ret (Some r) else findFix_loop h err fs'
  end.

(** [public async findFix(error)] *)
Definition findFix (h : Host) (err : JsError.t) : M (option FixRef) :=
  this ← gets registry;
  findFix_loop h err (fixes this).

Definition push_history (a : FixAttempt.t) : M unit :=
  this ← gets registry;
  set_fixHistory (fixHistory this ++ [a]).

(** [public async applyFix(fix, error, context?)] *)
Definition applyFix (h : Host) (r : FixRef) (err : JsError.t)
    (context : option (list (string * JsValue))) : M bool :=
  try_catch
    (f ← deref r;
     emit (Console log "Applying fix:");;
     success ← match ErrorFix.fixFunction f with
               | Some fixFunction => call (fixFunction err context h)
               | None => throw (Error_ "TypeError")
               end;
     (* Update fix statistics *)
     let timesUsed := default 0 (ErrorFix.timesUsed f) + 1 in
     let lastUsed := JsDate.toISOString (now h) in
     let successRate :=
       if success : bool then
         let currentSuccessRate := default 0%Q (ErrorFix.successRate f) in
         let currentTimesUsed := timesUsed in
         Some (((currentSuccessRate * inject_Z (currentTimesUsed - 1)) + 1)
               / inject_Z currentTimesUsed)%Q
       else ErrorFix.successRate f in
     let f' :=
       {| ErrorFix.id := ErrorFix.id f; ErrorFix.name := ErrorFix.name f;
          ErrorFix.description := ErrorFix.description f;
          ErrorFix.errorPattern := ErrorFix.errorPattern f;
          ErrorFix.errorTypes := ErrorFix.errorTypes f;
          ErrorFix.fixFunction := ErrorFix.fixFunction f;
          ErrorFix.conditions := ErrorFix.conditions f;
          ErrorFix.priority := ErrorFix.priority f;
          ErrorFix.category := ErrorFix.category f;
          ErrorFix.successRate := successRate;
          ErrorFix.lastUsed := Some lastUsed;
          ErrorFix.timesUsed := Some timesUsed |} in
     modify (fun w => with_objects w (<[r := f']> (objects w)));;
     (* Record fix attempt *)
     push_history {| FixAttempt.fix_ := r; FixAttempt.success := success;
                     FixAttempt.timestamp := JsDate.toISOString (now h);
                     FixAttempt.error := err |};;
     (* Keep only recent history *)
     this ← gets registry;
     (if (100 <? length (fixHistory this))%nat
      then set_fixHistory (Js.slice_last 50 (fixHistory this))
      else ret tt);;
     ret success)
    (fun fixError =>
       emit (Console error "Failed to apply fix");;
       push_history {| FixAttempt.fix_ := r; FixAttempt.success := false;
                       FixAttempt.timestamp := JsDate.toISOString (now h);
                       FixAttempt.error := err |};;
       ret false).

(** One of the rules [initializeBasicFixes] registers.  Its pattern,
    [/Maximum update depth exceeded|Memory leak/i], is an alternative
    of two literal texts matched without regard to case.  Of its fix
    function the answer is modelled, not the line it writes with
    [console.warn]. *)
Definition memory_leak : ErrorFix.t :=
  {| ErrorFix.id := Some "memory-leak";
     ErrorFix.name := Some "Memory Leak Prevention";
     ErrorFix.description := "Attempts to clean up potential memory leaks";
     ErrorFix.errorPattern :=
       Some (PRegExp {| test := fun s =>
               Js.includes (Js.toLowerCase s) "maximum update depth exceeded"
               || Js.includes (Js.toLowerCase s) "memory leak" |});
     ErrorFix.errorTypes := ["react_boundary"; "runtime_error"];
     ErrorFix.fixFunction :=
       Some (fun _ _ h =>
               (* Force garbage collection if available *)
               match window_location_href h, window_gc h with
               | Some _, Some true => Returns true
               | _, _ => Returns false
               end);
     ErrorFix.conditions := None;
     ErrorFix.priority := 5;
     ErrorFix.category := runtime;
     ErrorFix.successRate := None;
     ErrorFix.lastUsed := None;
     ErrorFix.timesUsed := None |}.

(** [public removeFix(fixId)] *)
Definition removeFix (fixId : string) : M bool :=
  this ← gets registry;
  objs ← gets objects;
  let is_it r := match objs !! r with
                 | Some g => same_id (ErrorFix.id g) (Some fixId)
                 | None => false
                 end in
  match list_find (fun r => is_it r = true) (fixes this) with
  | Some (index, _) => set_fixes (delete index (fixes this));; ret true
  | None => ret false
  end.

(** [public getAllFixes()] *)
Definition getAllFixes (this : t) : list FixRef := fixes this.

End FixRegistry.

(** ** [ConsoleInterceptor]: the capture layer *)
Module ConsoleInterceptor.
Import ConsoleInterceptorClass.

(** The conversion of one argument in [processMessage]. *)
Definition stringify (arg : Arg) : string :=
  match arg with
  | ArgString s => s
  | ArgError e => JsError.message e
  | ArgObject (Some json) _ => json
  | ArgObject None str => str
  | ArgOther str => str
  end.

(** [private shouldFilterMessage(message)] *)
Definition shouldFilterMessage (cfg : ConsoleInterceptorConfig) (message : string) : bool :=
  match filterPatterns cfg with
  | None => false
  | Some patterns =>
      existsb (fun pattern =>
                 match pattern with
                 | PRegExp r => test r message
                 | PString p => Js.includes message p
                 end) patterns
  end.

Definition isError (arg : Arg) : bool :=
  match arg with ArgError _ => true | _ => false end.

(** [private reportToErrorMonitor(capturedMessage, args)] *)
Definition reportToErrorMonitor (h : Host) (capturedMessage : CapturedMessage.t)
    (args : list Arg) : M unit :=
  try_catch
    (let err :=
       match List.find isError args with
       | Some (ArgError e) => e
       | _ =>
           {| JsError.message := CapturedMessage.message capturedMessage;
              JsError.stack :=
                if Js.truthy (CapturedMessage.stack capturedMessage)
                then CapturedMessage.stack capturedMessage
                else new_Error_stack h |}
       end in
     ErrorMonitor.reportError h
       {| ErrorReport.type := console_error;
          ErrorReport.error := err;
          ErrorReport.errorInfo := None;
          ErrorReport.timestamp := CapturedMessage.timestamp capturedMessage;
          ErrorReport.context :=
            Some [("level", VLevel (CapturedMessage.level capturedMessage));
                  ("args", VArgs args);
                  ("originalMessage", VString (CapturedMessage.message capturedMessage))];
          ErrorReport.userAgent := None;
          ErrorReport.url := None;
          ErrorReport.userId := None;
          ErrorReport.sessionId := None |})
    (fun e => emit (OriginalSink error
                      [ArgString "Failed to report console error to ErrorMonitor:"; ArgError e])).

Definition set_capturedMessages (ms : list CapturedMessage.t) : M unit :=
  modify (fun w => with_interceptor w (with_capturedMessages (interceptor w) ms)).

(** [private processMessage(level, args)] *)
Definition processMessage (h : Host) (level : Level) (args : list Arg) : M unit :=
  (* Convert arguments to string message *)
  let message := Js.join_space (map stringify args) in
  this ← gets interceptor;
  (* Apply filters *)
  if shouldFilterMessage (config this) message then ret tt
  else
    (* Capture stack trace for errors *)
    let stack := if Level_eqb level error then new_Error_stack h else None in
    let capturedMessage :=
      {| CapturedMessage.level := level;
         CapturedMessage.message := message;
         CapturedMessage.args := args;
         CapturedMessage.timestamp := JsDate.toISOString (now h);
         CapturedMessage.stack := stack |} in
    (* Store message *)
    set_capturedMessages (capturedMessage :: capturedMessages this);;
    this ← gets interceptor;
    (if (maxCapturedMessages (config this) <? length (capturedMessages this))%nat
     then set_capturedMessages
            (Js.slice0 (maxCapturedMessages (config this)) (capturedMessages this))
     else ret tt);;
    (* Notify listeners *)
    this ← gets interceptor;
    forEach (listeners this) (fun i listener =>
      try_catch
        (emit (Delivered i capturedMessage);; call (listener capturedMessage))
        (fun e => emit (OriginalSink error
                          [ArgString "Error in console interceptor listener:"; ArgError e])));;
    (* Report errors to ErrorMonitor *)
    if Level_eqb level error then reportToErrorMonitor h capturedMessage args
    else ret tt.

(** The function [createInterceptor(level)] returns, applied to the
    arguments of one console call. *)
Definition createInterceptor (level : Level) (h : Host) (args : list Arg) : M unit :=
  this ← gets interceptor;
  (if preserveOriginal (config this) then emit (OriginalSink level args) else ret tt);;
  try_catch
    (processMessage h level args)
    (fun e => emit (OriginalSink error [ArgString "Error in console interceptor:"; ArgError e])).

(** The part of [getStats()] the facade reads, and the total. *)
Definition getStats_totalMessages (this : t) : nat := length (capturedMessages this).
Definition getStats_isIntercepting (this : t) : bool := isIntercepting this.

End ConsoleInterceptor.

(** ** [MonitoringSystem]: the facade *)

(** The [status] of [getSystemHealth]. *)
Inductive Status := healthy | warning | critical.

(** The result of [getSystemHealth]; [systemUptime] is the number of the
    text [`${n}s`]. *)
Record SystemHealth := {
  status : Status;
  health_errorMonitor : bool;
  health_consoleInterceptor : bool;
  health_fixRegistry : bool;
  health_recentErrors : nat;
  systemUptime : Z
}.

Module MonitoringSystem.

(** [public getSystemHealth()] *)
Definition getSystemHealth (h : Host) (w : World) : SystemHealth :=
  let errorStats := ErrorMonitor.getErrorStats (monitor w) in
  (* Calculate recent errors (last 5 minutes) *)
  let fiveMinutesAgo := JsDate.toISOString (now h - 5 * 60 * 1000) in
  let recentErrors :=
    length (List.filter (fun e => Js.gt (ErrorReport.timestamp e) fiveMinutesAgo)
                        (recentErrors errorStats)) in
  let status :=
    if (10 <? recentErrors)%nat then critical
    else if (5 <? recentErrors)%nat then warning
    else healthy in
  {| status := status;
     health_errorMonitor := true;
     health_consoleInterceptor :=
       ConsoleInterceptor.getStats_isIntercepting (interceptor w);
     health_fixRegistry := (0 <? length (FixRegistry.getAllFixes (registry w)))%nat;
     health_recentErrors := recentErrors;
     systemUptime := performance_now h / 1000 |}.

End MonitoringSystem.

(** ** [ErrorBoundary]: the recovery boundary *)
Module ErrorBoundary.

(** [interface State]; [error_] is its field [error]. *)
Record State := {
  hasError : bool;
  error_ : option JsError.t;
  errorInfo : option ErrorInfo;
  isRecovering : bool;
  recoveryAttempts : Z;
  autoFixApplied : bool
}.

(** The timer [setTimeout] returned: its delay and whether it is
    still to fire. *)
Record Timer := { delay : Z; pending : bool }.

(** A mounted boundary: its React state, its two private fields, and
    of its props the [onError] handler, by whether it throws. *)
Record t := {
  state : State;
  recoveryTimer : option Timer;
  maxRecoveryAttempts : Z;
  props_onError : option (Outcome unit)
}.

Definition with_state (b : t) (s : State) : t :=
  {| state := s; recoveryTimer := recoveryTimer b;
     maxRecoveryAttempts := maxRecoveryAttempts b; props_onError := props_onError b |}.
Definition with_recoveryTimer (b : t) (tm : option Timer) : t :=
  {| state := state b; recoveryTimer := tm;
     maxRecoveryAttempts := maxRecoveryAttempts b; props_onError := props_onError b |}.

(** [constructor(props)] *)
Definition new (onError : option (Outcome unit)) : t :=
  {| state := {| hasError := false; error_ := None; errorInfo := None;
                 isRecovering := false; recoveryAttempts := 0;
                 autoFixApplied := false |};
     recoveryTimer := None;
     maxRecoveryAttempts := 3;
     props_onError := onError |}.

(** [static getDerivedStateFromError(error)], merged into the state. *)
Definition getDerivedStateFromError (err : JsError.t) (s : State) : State :=
  {| hasError := true; error_ := Some err; errorInfo := errorInfo s;
     isRecovering := isRecovering s; recoveryAttempts := recoveryAttempts s;
     autoFixApplied := autoFixApplied s |}.

Definition set_isRecovering (v : bool) (s : State) : State :=
  {| hasError := hasError s; error_ := error_ s; errorInfo := errorInfo s;
     isRecovering := v; recoveryAttempts := recoveryAttempts s;
     autoFixApplied := autoFixApplied s |}.
Definition set_autoFixApplied (v : bool) (s : State) : State :=
  {| hasError := hasError s; error_ := error_ s; errorInfo := errorInfo s;
     isRecovering := isRecovering s; recoveryAttempts := recoveryAttempts s;
     autoFixApplied := v |}.

Definition clearTimeout (tm : Timer) : Timer := {| delay := delay tm; pending := false |}.

(** [private scheduleRecovery()] *)
Definition scheduleRecovery (b : t) : t :=
  (* Clear any existing timer, then schedule recovery after a delay *)
  with_recoveryTimer b
    (Some {| delay := 2000 + recoveryAttempts (state b) * 1000; pending := true |}).

(** The callback [scheduleRecovery] hands to [setTimeout], run when the
    timer fires. *)
Definition recoveryTimer_fires (b : t) : t :=
  match recoveryTimer b with
  | Some tm =>
      if pending tm then
        let prevState := state b in
        with_recoveryTimer
          (with_state b
             {| hasError := false; error_ := None; errorInfo := None;
                isRecovering := false;
                recoveryAttempts := recoveryAttempts prevState + 1;
                autoFixApplied := autoFixApplied prevState |})
          (Some (clearTimeout tm))
      else b
  | None => b
  end.

(** [private async attemptAutoRecovery(error)], with its awaits run to
    completion. *)
Definition attemptAutoRecovery (h : Host) (err : JsError.t) (b : t) : M t :=
  let recoveryAttempts := recoveryAttempts (state b) in
  if maxRecoveryAttempts b <=? recoveryAttempts then
    emit (Console warn "Max recovery attempts reached for error:");;
    ret b
  else
    let b := with_state b (set_isRecovering true (state b)) in
    try_catch
      ((* Check if we have a known fix for this error *)
       found ← FixRegistry.findFix h err;
       match found with
       | Some r =>
           emit (Console log "Applying auto-fix:");;
           success ← FixRegistry.applyFix h r err None;
           if success : bool then
             ret (scheduleRecovery (with_state b (set_autoFixApplied true (state b))))
           else
             (* Generic recovery attempt - wait and retry *)
             ret (scheduleRecovery b)
       | None => ret (scheduleRecovery b)
       end)
      (fun _ =>
         emit (Console error "Recovery attempt failed:");;
         ret (with_state b (set_isRecovering false (state b)))).

(** [componentDidCatch(error, errorInfo)], entered after React has
    merged [getDerivedStateFromError(error)] into the state. *)
Definition componentDidCatch (h : Host) (err : JsError.t) (info : ErrorInfo) (b : t) : M t :=
  let b := with_state b
             {| hasError := hasError (state b); error_ := Some err; errorInfo := Some info;
                isRecovering := isRecovering (state b);
                recoveryAttempts := recoveryAttempts (state b);
                autoFixApplied := autoFixApplied (state b) |} in
  (* Report error to monitoring system *)
  ErrorMonitor.reportError h
    {| ErrorReport.type := react_boundary;
       ErrorReport.error := err;
       ErrorReport.errorInfo := Some info;
       ErrorReport.timestamp := JsDate.toISOString (now h);
       ErrorReport.context :=
         Some [("component", match componentStack info with
                             | Some s => VString s
                             | None => VOpaque "undefined"
                             end);
               ("props", VOpaque "props")];
       ErrorReport.userAgent := None;
       ErrorReport.url := None;
       ErrorReport.userId := None;
       ErrorReport.sessionId := None |};;
  (* Call user-defined error handler *)
  match props_onError b with
  | Some onError => call onError
  | None => ret tt
  end;;
  (* Attempt automatic recovery *)
  attemptAutoRecovery h err b.

(** A render failure of the children: React merges the derived state
    and calls [componentDidCatch]. *)
Definition child_throws (h : Host) (err : JsError.t) (info : ErrorInfo) (b : t) : M t :=
  componentDidCatch h err info (with_state b (getDerivedStateFromError err (state b))).

(** [componentWillUnmount()] *)
Definition componentWillUnmount (b : t) : t :=
  match recoveryTimer b with
  | Some tm => with_recoveryTimer b (Some (clearTimeout tm))
  | None => b
  end.

(** [private handleManualRetry] *)
Definition handleManualRetry (b : t) : t :=
  with_state b
    {| hasError := false; error_ := None; errorInfo := None;
       isRecovering := false;
       recoveryAttempts := recoveryAttempts (state b);
       autoFixApplied := false |}.

(** What [render()] shows. *)
Inductive Rendered := Children | ErrorDisplay.

Definition render (b : t) : Rendered :=
  if hasError (state b) then ErrorDisplay else Children.

End ErrorBoundary.

(** ** The store and the capture layer on one stack

    [reportError] writes to the global console when a listener throws,
    and [persistErrors] when the snapshot cannot be written.  While the
    interceptor runs, [console.error] is the function
    [createInterceptor('error')] returned, which reports the line to
    the store: [reportError] is entered again, under the first call.
    In the modules [ErrorMonitor] and [ConsoleInterceptor] above such a
    line is an entry of the trace.  Here it is a call of what the
    console is bound to. *)

(** What a method of the global console is bound to: the method the
    constructor of the interceptor saved, or the function
    [createInterceptor(level)] returned. *)
Inductive Binding :=
| Original
| Interceptor (level : Level).

(** The five methods of [console] the interceptor replaces. *)
Record GlobalConsole := {
  on_error : Binding;
  on_warn : Binding;
  on_info : Binding;
  on_debug : Binding;
  on_log : Binding
}.

Definition originalConsole : GlobalConsole :=
  {| on_error := Original; on_warn := Original; on_info := Original;
     on_debug := Original; on_log := Original |}.

(** [console[method]] *)
Definition bound (c : GlobalConsole) (method : Level) : Binding :=
  match method with
  | error => on_error c
  | warn => on_warn c
  | info => on_info c
  | debug => on_debug c
  | log => on_log c
  end.

Module Reentrant.

(** The methods of the store, for the console they write to:
    [console_call method h args] is [console[method](...args)]. *)
Module Store.
Section Console.
Variable console_call : Level -> Host -> list Arg -> M unit.

(** [private persistErrors()] *)
Definition persistErrors (h : Host) : M unit :=
  ls ← gets localStorage;
  match ls with
  | None => ret tt
  | Some _ =>
      try_catch
        (this ← gets monitor;
         let errorData :=
           Snapshot (Some (Js.slice0 20 (ErrorMonitorClass.errors this)))
                    (JsDate.toISOString (now h)) (ErrorMonitorClass.sessionId this) in
         if storage_write_ok h
         then modify (fun w => with_localStorage w (Some (Some errorData)))
         else throw (Error_ "QuotaExceededError"))
        (fun e => console_call warn h
                    [ArgString "Failed to persist errors to localStorage:"; ArgError e])
  end.

(** [public reportError(report)] *)
Definition reportError (h : Host) (report : ErrorReport.t) : M unit :=
  this ← gets monitor;
  (* Enhance report with additional context *)
  let enhancedReport := ErrorMonitor.enhance h (ErrorMonitorClass.sessionId this) report in
  (* Store error *)
  ErrorMonitor.set_errors (enhancedReport :: ErrorMonitorClass.errors this);;
  this ← gets monitor;
  (if (ErrorMonitorClass.maxStoredErrors this <? length (ErrorMonitorClass.errors this))%nat
   then ErrorMonitor.set_errors
          (Js.slice0 (ErrorMonitorClass.maxStoredErrors this) (ErrorMonitorClass.errors this))
   else ret tt);;
  (* Log error *)
  emit (Logged enhancedReport);;
  (* Notify listeners *)
  this ← gets monitor;
  forEach (ErrorMonitorClass.listeners this) (fun i listener =>
    try_catch
      (emit (Notified i enhancedReport);; call (listener enhancedReport))
      (fun e => console_call error h [ArgString "Error in error listener:"; ArgError e]));;
  (* Persist to localStorage if available *)
  persistErrors h.

End Console.
End Store.

(** The methods of the capture layer, each for the method it calls. *)
Module Capture.

Section ReportToErrorMonitor.
(** [ErrorMonitor.reportError(report)] *)
Variable ErrorMonitor_reportError : Host -> ErrorReport.t -> M unit.

(** [private reportToErrorMonitor(capturedMessage, args)] *)
Definition reportToErrorMonitor (h : Host) (capturedMessage : CapturedMessage.t)
    (args : list Arg) : M unit :=
  try_catch
    (let err :=
       match List.find ConsoleInterceptor.isError args with
       | Some (ArgError e) => e
       | _ =>
           {| JsError.message := CapturedMessage.message capturedMessage;
              JsError.stack :=
                if Js.truthy (CapturedMessage.stack capturedMessage)
                then CapturedMessage.stack capturedMessage
                else new_Error_stack h |}
       end in
     ErrorMonitor_reportError h
       {| ErrorReport.type := console_error;
          ErrorReport.error := err;
          ErrorReport.errorInfo := None;
          ErrorReport.timestamp := CapturedMessage.timestamp capturedMessage;
          ErrorReport.context :=
            Some [("level", VLevel (CapturedMessage.level capturedMessage));
                  ("args", VArgs args);
                  ("originalMessage", VString (CapturedMessage.message capturedMessage))];
          ErrorReport.userAgent := None;
          ErrorReport.url := None;
          ErrorReport.userId := None;
          ErrorReport.sessionId := None |})
    (fun e => emit (OriginalSink error
                      [ArgString "Failed to report console error to ErrorMonitor:"; ArgError e])).

End ReportToErrorMonitor.

Section ProcessMessage.
(** [this.reportToErrorMonitor(capturedMessage, args)] *)
Variable this_reportToErrorMonitor : Host -> CapturedMessage.t -> list Arg -> M unit.

(** [private processMessage(level, args)] *)
Definition processMessage (h : Host) (level : Level) (args : list Arg) : M unit :=
  (* Convert arguments to string message *)
  let message := Js.join_space (map ConsoleInterceptor.stringify args) in
  this ← gets interceptor;
  (* Apply filters *)
  if ConsoleInterceptor.shouldFilterMessage (ConsoleInterceptorClass.config this) message
  then ret tt
  else
    (* Capture stack trace for errors *)
    let stack := if Level_eqb level error then new_Error_stack h else None in
    let capturedMessage :=
      {| CapturedMessage.level := level;
         CapturedMessage.message := message;
         CapturedMessage.args := args;
         CapturedMessage.timestamp := JsDate.toISOString (now h);
         CapturedMessage.stack := stack |} in
    (* Store message *)
    ConsoleInterceptor.set_capturedMessages
      (capturedMessage :: ConsoleInterceptorClass.capturedMessages this);;
    this ← gets interceptor;
    (if (maxCapturedMessages (ConsoleInterceptorClass.config this)
         <? length (ConsoleInterceptorClass.capturedMessages this))%nat
     then ConsoleInterceptor.set_capturedMessages
            (Js.slice0 (maxCapturedMessages (ConsoleInterceptorClass.config this))
                       (ConsoleInterceptorClass.capturedMessages this))
     else ret tt);;
    (* Notify listeners *)
    this ← gets interceptor;
    forEach (ConsoleInterceptorClass.listeners this) (fun i listener =>
      try_catch
        (emit (Delivered i capturedMessage);; call (listener capturedMessage))
        (fun e => emit (OriginalSink error
                          [ArgString "Error in console interceptor listener:"; ArgError e])));;
    (* Report errors to ErrorMonitor *)
    if Level_eqb level error then this_reportToErrorMonitor h capturedMessage args
    else ret tt.

End ProcessMessage.

Section CreateInterceptor.
(** [this.processMessage(level, args)] *)
Variable this_processMessage : Host -> Level -> list Arg -> M unit.

(** The function [createInterceptor(level)] returns, applied to the
    arguments of one console call. *)
Definition createInterceptor (level : Level) (h : Host) (args : list Arg) : M unit :=
  this ← gets interceptor;
  (if preserveOriginal (ConsoleInterceptorClass.config this)
   then emit (OriginalSink level args) else ret tt);;
  try_catch
    (this_processMessage h level args)
    (fun e => emit (OriginalSink error [ArgString "Error in console interceptor:"; ArgError e])).

End CreateInterceptor.
End Capture.

(** The [RangeError] of a call that finds no room on the stack. *)
Definition stack_overflow : JsError.t := Error_ "Maximum call stack size exceeded".

(** A call of one of the methods that call each other in a circle. *)
Inductive Call :=
| console_ (method : Level) (h : Host) (args : list Arg)
| processMessage_ (h : Host) (level : Level) (args : list Arg)
| reportToErrorMonitor_ (h : Host) (capturedMessage : CapturedMessage.t) (args : list Arg)
| reportError_ (h : Host) (report : ErrorReport.t).

(** The call on a stack with room for [depth] frames, on the console
    [c].  Each of the four methods takes one frame, and a call that
    finds none throws.  A call of the console goes to the original
    method or to the function installed for a level. *)
Fixpoint within (depth : nat) (c : GlobalConsole) (call : Call) : M unit :=
  match depth with
  | O => throw stack_overflow
  | S d =>
      match call with
      | console_ method h args =>
          match bound c method with
          | Original => emit (OriginalSink method args)
          | Interceptor level =>
              Capture.createInterceptor
                (fun h level args => within d c (processMessage_ h level args))
                level h args
          end
      | processMessage_ h level args =>
          Capture.processMessage
            (fun h capturedMessage args =>
               within d c (reportToErrorMonitor_ h capturedMessage args))
            h level args
      | reportToErrorMonitor_ h capturedMessage args =>
          Capture.reportToErrorMonitor
            (fun h report => within d c (reportError_ h report))
            h capturedMessage args
      | reportError_ h report =>
          Store.reportError
            (fun method h args => within d c (console_ method h args))
            h report
      end
  end.

End Reentrant.

(** ** Notions the properties are stated with *)

(** Worlds that differ at most in their trace. *)
Definition same_state (w w' : World) : Prop :=
  monitor w' = monitor w /\ interceptor w' = interceptor w /\
  registry w' = registry w /\ objects w' = objects w /\
  localStorage w' = localStorage w.


(** A sequence of [reportError] calls, each with the host it runs in. *)
Definition report_all (calls : list (Host * ErrorReport.t)) : M unit :=
  forEach calls (fun _ c => ErrorMonitor.reportError (fst c) (snd c)).

(** A sequence of [reportError] calls, each with the host it runs in,
    on the console [c] and with room for [depth] frames.  The calls
    are made by callers of their own: one that throws does not keep the
    next from being made. *)
Definition report_all_within (depth : nat) (c : GlobalConsole)
    (calls : list (Host * ErrorReport.t)) : M unit :=
  forEach calls (fun _ call =>
    try_catch (Reentrant.within depth c (Reentrant.reportError_ (fst call) (snd call)))
              (fun _ => ret tt)).

(** The reports of a sequence of calls as the store enhances them, in
    the order of the calls. *)
Definition enhanced (session : string) (calls : list (Host * ErrorReport.t))
  : list ErrorReport.t :=
  map (fun c => ErrorMonitor.enhance (fst c) session (snd c)) calls.

(** The events a trace shows stored, in the order they were stored:
    [reportError] logs each event where it stores it. *)
Fixpoint reported (t : list Effect) : list ErrorReport.t :=
  match t with
  | [] => []
  | Logged r :: t' => r :: reported t'
  | _ :: t' => reported t'
  end.

(** A computation keeps the ledger when, from a ledger within the
    capacity, it returns or throws and has changed the ledger only by
    storing events at its front, each of them logged, and cutting it to
    the capacity; the capacity and the session id are as they were.
    [P] is what else is known of what it adds to the trace. *)
Definition keeps_ledger (P : list Effect -> Prop) {A} (m : M A) : Prop :=
  forall w,
    (length (ErrorMonitorClass.errors (monitor w))
     <= ErrorMonitorClass.maxStoredErrors (monitor w))%nat ->
    exists o w' added,
      m w = (o, w')
      /\ trace w' = (trace w ++ added)%list
      /\ P added
      /\ ErrorMonitorClass.maxStoredErrors (monitor w')
         = ErrorMonitorClass.maxStoredErrors (monitor w)
      /\ ErrorMonitorClass.sessionId (monitor w') = ErrorMonitorClass.sessionId (monitor w)
      /\ ErrorMonitorClass.errors (monitor w')
         = take (ErrorMonitorClass.maxStoredErrors (monitor w))
                (rev (reported added) ++ ErrorMonitorClass.errors (monitor w)).

(** No method of the console is bound to the function installed for
    the level [error], the one that reports to the store. *)
Definition reports_nothing (c : GlobalConsole) : Prop :=
  forall method, bound c method <> Interceptor error.

(** ** Concrete inputs the model is run on *)

(** A browser host at 2023-11-14T22:13:20.000Z. *)
Definition example_host : Host :=
  {| now := 1700000000000;
     navigator_userAgent := Some "Mozilla/5.0";
     window_location_href := Some "http://localhost:3000/";
     window_gc := None;
     new_Error_stack := Some "Error at <anonymous>";
     performance_now := 12345;
     storage_write_ok := true |}.

(** A configuration of the interceptor: errors and warnings captured,
    the literal filter ["noisy-warning"]. *)
Definition example_config : ConsoleInterceptorConfig :=
  {| captureErrors := true; captureWarnings := true;
     captureInfo := false; captureDebug := false;
     filterPatterns := Some [PString "noisy-warning"];
     maxCapturedMessages := 200;
     preserveOriginal := true |}.

(** A world with an empty ledger, an empty capture buffer, no rule
    registered and an empty [localStorage]. *)
Definition example_world : World :=
  {| monitor := ErrorMonitorClass.new "session_1700000000000_k3j9x2m1q";
     interceptor :=
       {| ConsoleInterceptorClass.isIntercepting := true;
          ConsoleInterceptorClass.capturedMessages := [];
          ConsoleInterceptorClass.config := example_config;
          ConsoleInterceptorClass.listeners := [fun _ => Returns tt] |};
     registry := {| FixRegistryClass.fixes := []; FixRegistryClass.fixHistory := [] |};
     objects := [];
     localStorage := Some None;
     trace := [] |}.

(** The console as [start] binds it for [example_config]. *)
Definition example_console : GlobalConsole :=
  {| on_error := Interceptor error; on_warn := Interceptor warn;
     on_info := Original; on_debug := Original; on_log := Original |}.

(** [example_world] with a listener of the store that throws before one
    that returns. *)
Definition example_throwing_listener_world : World :=
  with_monitor example_world
    {| ErrorMonitorClass.errors := [];
       ErrorMonitorClass.maxStoredErrors := 100;
       ErrorMonitorClass.sessionId := "session_1700000000000_k3j9x2m1q";
       ErrorMonitorClass.listeners :=
         [fun _ => Throws (Error_ "listener crashed"); fun _ => Returns tt] |}.

(** A report that already carries a session id, a user agent and a url. *)
Definition example_report : ErrorReport.t :=
  {| ErrorReport.type := runtime_error;
     ErrorReport.error := {| JsError.message := "x is not defined"; JsError.stack := None |};
     ErrorReport.errorInfo := None;
     ErrorReport.timestamp := "2023-11-14T22:13:19.000Z";
     ErrorReport.context := None;
     ErrorReport.userAgent := Some "curl/8.0";
     ErrorReport.url := Some "http://example.org/";
     ErrorReport.userId := Some "u42";
     ErrorReport.sessionId := Some "session_of_the_reporter" |}.

(** A required field of the rule is absent. *)
Definition missing_required (f : ErrorFix.t) : Prop :=
  ErrorFix.id f = None \/ ErrorFix.name f = None \/
  ErrorFix.errorPattern f = None \/ ErrorFix.fixFunction f = None.

(** The four required fields are present and truthy. *)
Definition has_required (f : ErrorFix.t) : Prop :=
  Js.truthy (ErrorFix.id f) = true /\ Js.truthy (ErrorFix.name f) = true /\
  FixRegistry.pattern_truthy (ErrorFix.errorPattern f) = true /\
  is_Some (ErrorFix.fixFunction f).

(** A rule with the id of [f] is registered in [w]. *)
Definition id_registered (f : ErrorFix.t) (w : World) : Prop :=
  exists r g, In r (FixRegistryClass.fixes (registry w)) /\ objects w !! r = Some g
              /\ ErrorFix.id g = ErrorFix.id f.

(** The object [registerFix] stores for [f]. *)
Definition completeFix (h : Host) (f : ErrorFix.t) : ErrorFix.t :=
  ErrorFix.with_stats f
    (default 0%Q (ErrorFix.successRate f))
    (Js.or_else (ErrorFix.lastUsed f) (JsDate.toISOString (now h)))
    (default 0 (ErrorFix.timesUsed f)).

(** The registry refers to objects of the store only, and lists them by
    descending priority. *)
Definition refs_valid (w : World) : Prop :=
  Forall (fun r => (r < length (objects w))%nat) (FixRegistryClass.fixes (registry w)).
Definition sorted_by_priority (w : World) : Prop :=
  StronglySorted
    (fun a b => FixRegistry.priority_of (objects w) b <= FixRegistry.priority_of (objects w) a)
    (FixRegistryClass.fixes (registry w)).

(** What it is for a rule to match a failure event, in the words of the
    specification and from the rule alone: its matcher tests positive
    against the message or against the stack trace of the event (an
    event without a stack trace has the empty one), and every one of its
    optional condition callbacks returns true.  That [matchesFix]
    computes it is a lemma. *)
Definition matcher_tests_positive (p : Pattern) (text : string) : bool :=
  match p with
  | PString s => Js.includes text s
  | PRegExp r => test r text
  end.

Definition condition_returns_true (h : Host) (condition : Host -> Outcome bool) : bool :=
  match condition h with
  | Returns true => true
  | _ => false
  end.

Definition rule_matches (h : Host) (err : JsError.t) (f : ErrorFix.t) : bool :=
  match ErrorFix.errorPattern f with
  | Some p =>
      (matcher_tests_positive p (JsError.message err)
       || matcher_tests_positive p (Js.or_else (JsError.stack err) EmptyString))
      && forallb (condition_returns_true h) (default [] (ErrorFix.conditions f))
  | None => false
  end.

(** The rule [r] refers to matches the error. *)
Definition matches (h : Host) (err : JsError.t) (w : World) (r : FixRef) : Prop :=
  exists f, objects w !! r = Some f /\ rule_matches h err f = true.

(** Every rule of the registry has a matcher, as [registerFix] requires
    of the rules it takes. *)
Definition rules_have_matchers (w : World) : Prop :=
  Forall (fun r => exists f, objects w !! r = Some f /\ is_Some (ErrorFix.errorPattern f))
         (FixRegistryClass.fixes (registry w)).

(** A sequence of registrations, each guarded as [importRegistry] guards
    its own: a registration that throws is skipped. *)
Definition register_all (calls : list (Host * ErrorFix.t)) : M unit :=
  forEach calls (fun _ c =>
    try_catch (FixRegistry.registerFix (fst c) (snd c)) (fun _ => ret tt)).

(** [example_world] once the rule [memory_leak] is registered. *)
Definition example_registry_world : World :=
  snd (FixRegistry.registerFix example_host FixRegistry.memory_leak example_world).

(** A rule as [importRegistry] may read one: no [id]. *)
Definition example_rule_without_id : ErrorFix.t :=
  {| ErrorFix.id := None;
     ErrorFix.name := Some "Nameless";
     ErrorFix.description := "A rule read from a text that lacks its id";
     ErrorFix.errorPattern := Some (PString "boom");
     ErrorFix.errorTypes := ["runtime_error"];
     ErrorFix.fixFunction := Some (fun _ _ _ => Returns false);
     ErrorFix.conditions := None;
     ErrorFix.priority := 1;
     ErrorFix.category := runtime;
     ErrorFix.successRate := None;
     ErrorFix.lastUsed := None;
     ErrorFix.timesUsed := None |}.

(** A rule of priority 3 for every message that mentions a leak. *)
Definition example_leak_rule : ErrorFix.t :=
  {| ErrorFix.id := Some "leak-advice";
     ErrorFix.name := Some "Leak advice";
     ErrorFix.description := "Suggests looking for the leak";
     ErrorFix.errorPattern := Some (PString "leak");
     ErrorFix.errorTypes := ["runtime_error"];
     ErrorFix.fixFunction := Some (fun _ _ _ => Returns false);
     ErrorFix.conditions := None;
     ErrorFix.priority := 3;
     ErrorFix.category := runtime;
     ErrorFix.successRate := None;
     ErrorFix.lastUsed := None;
     ErrorFix.timesUsed := None |}.

(** An error both [example_leak_rule] and [memory_leak] match. *)
Definition example_error : JsError.t :=
  {| JsError.message := "Memory leak detected"; JsError.stack := None |}.

(** A rule of priority 9 whose condition throws when it is called. *)
Definition example_guarded_rule : ErrorFix.t :=
  {| ErrorFix.id := Some "guarded";
     ErrorFix.name := Some "Guarded rule";
     ErrorFix.description := "Applies only when its probe of the host answers";
     ErrorFix.errorPattern := Some (PString "leak");
     ErrorFix.errorTypes := ["runtime_error"];
     ErrorFix.fixFunction := Some (fun _ _ _ => Returns true);
     ErrorFix.conditions :=
       Some [fun _ => Returns true; fun _ => Throws (Error_ "probe is not a function")];
     ErrorFix.priority := 9;
     ErrorFix.category := runtime;
     ErrorFix.successRate := None;
     ErrorFix.lastUsed := None;
     ErrorFix.timesUsed := None |}.

(** [example_world] once [example_guarded_rule] and [example_leak_rule]
    are registered. *)
Definition example_guarded_world : World :=
  snd (register_all [(example_host, example_guarded_rule); (example_host, example_leak_rule)]
                    example_world).

(** [example_host] with a [window.gc] that returns. *)
Definition example_host_gc : Host :=
  {| now := now example_host + 1000;
     navigator_userAgent := navigator_userAgent example_host;
     window_location_href := window_location_href example_host;
     window_gc := Some true;
     new_Error_stack := new_Error_stack example_host;
     performance_now := performance_now example_host + 1000;
     storage_write_ok := true |}.

(** A rule whose fix function throws. *)
Definition example_throwing_rule : ErrorFix.t :=
  {| ErrorFix.id := Some "crashing";
     ErrorFix.name := Some "Crashing fix";
     ErrorFix.description := "Its fix function rejects";
     ErrorFix.errorPattern := Some (PString "leak");
     ErrorFix.errorTypes := ["runtime_error"];
     ErrorFix.fixFunction := Some (fun _ _ _ => Throws (Error_ "fix crashed"));
     ErrorFix.conditions := None;
     ErrorFix.priority := 1;
     ErrorFix.category := runtime;
     ErrorFix.successRate := None;
     ErrorFix.lastUsed := None;
     ErrorFix.timesUsed := None |}.

(** [example_world] once [memory_leak] (reference 0) and
    [example_throwing_rule] (reference 1) are registered. *)
Definition example_apply_world : World :=
  snd (register_all [(example_host, FixRegistry.memory_leak);
                     (example_host, example_throwing_rule)]
                    example_world).

(** One round of a boundary: its children throw, the boundary
    schedules its recovery, and the timer fires. *)
Definition fail_and_recover (h : Host) (err : JsError.t) (info : ErrorInfo)
    (b : ErrorBoundary.t) : M ErrorBoundary.t :=
  b' ← ErrorBoundary.child_throws h err info b;
  ret (ErrorBoundary.recoveryTimer_fires b').

(** A fresh boundary taken through [maxRecoveryAttempts] rounds and one
    more failure of its children. *)
Definition example_exhausted_boundary : M ErrorBoundary.t :=
  let info := {| componentStack := Some "in App" |} in
  b1 ← fail_and_recover example_host example_error info (ErrorBoundary.new None);
  b2 ← fail_and_recover example_host example_error info b1;
  b3 ← fail_and_recover example_host example_error info b2;
  ErrorBoundary.child_throws example_host example_error info b3.

(** [example_world] once [example_leak_rule] (reference 0) and
    [memory_leak] (reference 1) are registered, in this order. *)
Definition example_priority_world : World :=
  snd (register_all [(example_host, example_leak_rule); (example_host, FixRegistry.memory_leak)]
                    example_world).

(** A rule of priority 7 for messages about cross-origin requests. *)
Definition example_cors_rule : ErrorFix.t :=
  {| ErrorFix.id := Some "cors-advice";
     ErrorFix.name := Some "CORS advice";
     ErrorFix.description := "Suggests a proxy";
     ErrorFix.errorPattern := Some (PString "CORS");
     ErrorFix.errorTypes := ["runtime_error"];
     ErrorFix.fixFunction := Some (fun _ _ _ => Returns false);
     ErrorFix.conditions := None;
     ErrorFix.priority := 7;
     ErrorFix.category := configuration;
     ErrorFix.successRate := None;
     ErrorFix.lastUsed := None;
     ErrorFix.timesUsed := None |}.

(** A rule of priority 9 for every message that mentions memory. *)
Definition example_urgent_rule : ErrorFix.t :=
  {| ErrorFix.id := Some "memory-alarm";
     ErrorFix.name := Some "Memory alarm";
     ErrorFix.description := "Raises the alarm on every message about memory";
     ErrorFix.errorPattern := Some (PString "Memory");
     ErrorFix.errorTypes := ["runtime_error"];
     ErrorFix.fixFunction := Some (fun _ _ _ => Returns false);
     ErrorFix.conditions := Some [fun _ => Returns true];
     ErrorFix.priority := 9;
     ErrorFix.category := runtime;
     ErrorFix.successRate := None;
     ErrorFix.lastUsed := None;
     ErrorFix.timesUsed := None |}.

(** [example_world] once [example_leak_rule] (reference 0, priority 3),
    [memory_leak] (reference 1, priority 5) and [example_urgent_rule]
    (reference 2, priority 9) are registered: all three match
    [example_error]. *)
Definition example_three_matching_world : World :=
  snd (register_all [(example_host, example_leak_rule);
                     (example_host, FixRegistry.memory_leak);
                     (example_host, example_urgent_rule)]
                    example_world).

(** [example_world] once [example_leak_rule] (reference 0, priority 3),
    [memory_leak] (reference 1, priority 5), [example_cors_rule]
    (reference 2, priority 7) and [example_guarded_rule] (reference 3,
    priority 9) are registered.  The first two match [example_error];
    the matcher of the third does not test positive on it; a condition
    of the fourth throws. *)
Definition example_mixed_world : World :=
  snd (register_all [(example_host, example_leak_rule);
                     (example_host, FixRegistry.memory_leak);
                     (example_host, example_cors_rule);
                     (example_host, example_guarded_rule)]
                    example_world).

(** [example_apply_world] after one application of [memory_leak] on a
    host with [window.gc], and after a second on a host without. *)
Definition example_after_success : World :=
  snd (FixRegistry.applyFix example_host_gc 0%nat example_error None example_apply_world).
Definition example_after_failure : World :=
  snd (FixRegistry.applyFix example_host 0%nat example_error None example_after_success).

(** [example_apply_world] after one application of
    [example_throwing_rule]. *)
Definition example_after_throw : World :=
  snd (FixRegistry.applyFix example_host_gc 1%nat example_error None example_apply_world).

(** Lexicographic combination of two comparisons. *)
Definition lexc (c1 c2 : comparison) : comparison :=
  match c1 with Eq => c2 | _ => c1 end.

(** A stored event that occurred [age] milliseconds before the time of
    [example_host]. *)
Definition example_event_aged (age : Z) : ErrorReport.t :=
  {| ErrorReport.type := runtime_error;
     ErrorReport.error := {| JsError.message := "x is not defined"; JsError.stack := None |};
     ErrorReport.errorInfo := None;
     ErrorReport.timestamp := JsDate.toISOString (now example_host - age);
     ErrorReport.context := None;
     ErrorReport.userAgent := Some "Mozilla/5.0";
     ErrorReport.url := Some "http://localhost:3000/";
     ErrorReport.userId := None;
     ErrorReport.sessionId := Some "session_1699900000000_a1b2c3d4e" |}.

(** [example_world] with a snapshot of an earlier session in
    [localStorage]: one event aged one hour, one aged twenty-five. *)
Definition example_snapshot_world : World :=
  with_localStorage example_world
    (Some (Some (Snapshot (Some [example_event_aged 3600000; example_event_aged 90000000])
                          "2023-11-14T21:13:20.000Z" "session_1699900000000_a1b2c3d4e"))).

(** * More of the code *)

(** ** The host runtime: lower case

    [s.toLowerCase()] on strings of code units below 256: the letters A
    to Z, and the letters of the Latin-1 range from 192 to 222 but for
    the sign 215, are moved up by 32. *)
Module JsText.

Definition lower_unit (c : ascii) : ascii :=
  let n := nat_of_ascii c in
  if ((65 <=? n) && (n <=? 90) || (192 <=? n) && (n <=? 214)
      || (216 <=? n) && (n <=? 222))%nat
  then ascii_of_nat (n + 32) else c.

Fixpoint toLowerCase (s : string) : string :=
  match s with
  | EmptyString => EmptyString
  | String c s' => String (lower_unit c) (toLowerCase s')
  end.

(** [s.split('T')[0]]: the text before the first [T]. *)
Fixpoint before_T (s : string) : string :=
  match s with
  | EmptyString => EmptyString
  | String c s' => if Ascii.eqb c "T" then EmptyString else String c (before_T s')
  end.

End JsText.

(** ** [ErrorMonitor]: the queries *)

(** The text of an [ErrorReport['type']]. *)
Definition ErrorType_text (t : ErrorType) : string :=
  match t with
  | react_boundary => "react_boundary"
  | console_error => "console_error"
  | unhandled_rejection => "unhandled_rejection"
  | runtime_error => "runtime_error"
  end.

Module ErrorMonitorQueries.
Import ErrorMonitorClass.

(** [public getErrorTrends()].  [localeCompare] is the collation of the
    host.  The days are enumerated in the order of their first entry of
    the ledger before they are sorted. *)
Definition getErrorTrends (localeCompare : string -> string -> Z) (this : t)
  : list (string * Z) :=
  let trends :=
    fold_left
      (fun acc e => bump String.eqb (JsText.before_T (ErrorReport.timestamp e)) acc)
      (errors this) [] in
  js_sort (fun a b => localeCompare (fst a) (fst b)) trends.

End ErrorMonitorQueries.

(** ** [ConsoleInterceptor]: the queries *)

(** The text of a [CapturedMessage['level']]. *)
Definition Level_text (l : Level) : string :=
  match l with
  | error => "error"
  | warn => "warn"
  | info => "info"
  | debug => "debug"
  | log => "log"
  end.

Module ConsoleInterceptorQueries.
Import ConsoleInterceptorClass.

(** [xs.slice(0, limit)] for an integer [limit]: a negative one counts
    from the end. *)
Definition slice_to {A} (limit : Z) (xs : list A) : list A :=
  if limit <? 0
  then take (Z.to_nat (Z.max (Z.of_nat (length xs) + limit) 0)) xs
  else take (Z.to_nat limit) xs.

(** [limit ? xs.slice(0, limit) : xs], [limit] an integer or
    [undefined]. *)
Definition limited {A} (limit : option Z) (xs : list A) : list A :=
  match limit with
  | Some n => if n =? 0 then xs else slice_to n xs
  | None => xs
  end.

(** [public getCapturedMessages(limit?)] *)
Definition getCapturedMessages (this : t) (limit : option Z) : list CapturedMessage.t :=
  limited limit (capturedMessages this).

(** [public getMessagesByLevel(level, limit?)] *)
Definition getMessagesByLevel (this : t) (level : Level) (limit : option Z)
  : list CapturedMessage.t :=
  let filtered :=
    List.filter (fun msg => Level_eqb (CapturedMessage.level msg) level)
                (capturedMessages this) in
  limited limit filtered.

(** The result of [getStats()]. *)
Record Stats := {
  totalMessages : nat;
  messagesByLevel : list (Level * Z);
  recentMessages : list CapturedMessage.t;
  stats_isIntercepting : bool
}.

(** [public getStats()] *)
Definition getStats (this : t) : Stats :=
  let messagesByLevel :=
    fold_left (fun acc msg => bump Level_eqb (CapturedMessage.level msg) acc)
              (capturedMessages this)
              [(error, 0); (warn, 0); (info, 0); (debug, 0); (log, 0)] in
  {| totalMessages := length (capturedMessages this);
     messagesByLevel := messagesByLevel;
     recentMessages := Js.slice0 5 (capturedMessages this);
     stats_isIntercepting := isIntercepting this |}.

(** [public searchMessages(query)] *)
Definition searchMessages (this : t) (query : string) : list CapturedMessage.t :=
  let lowerQuery := JsText.toLowerCase query in
  List.filter
    (fun msg =>
       Js.includes (JsText.toLowerCase (CapturedMessage.message msg)) lowerQuery
       || Js.includes (JsText.toLowerCase (Level_text (CapturedMessage.level msg))) lowerQuery)
    (capturedMessages this).

End ConsoleInterceptorQueries.

(** ** [FixRegistry]: the history, the statistics and the import *)

(** An element of the array [parsed.fixes] of [importRegistry]:
    [null], whose properties cannot be read; a number, a text or a
    boolean, whose properties are [undefined]; or an object, given by
    the rule its fields make.  JSON has no functions: in a text that
    [exportRegistry] wrote, the rules have no [fixFunction]. *)
Inductive JsonItem :=
| ItemNull
| ItemPrimitive
| ItemObject (fix_ : ErrorFix.t).

(** What [JSON.parse(data)] makes of the text: it throws; or it yields
    [null]; or a value whose [fixes] is an array ([Some]), or is not
    ([None]). *)
Inductive Parsed :=
| ParseError
| ParsedNull
| ParsedValue (fixes : option (list JsonItem)).

(** An entry of the record [getFixStats()] returns. *)
Module FixStat.
Record t := { successRate : Q; timesUsed : Z; lastUsed : string }.
End FixStat.

Module FixRegistryQueries.
Import FixRegistryClass.

(** [public getFixHistory()]: most recent first. *)
Definition getFixHistory (this : t) : list FixAttempt.t := rev (fixHistory this).

(** [stats[k] = v] on a record, kept as an association list in the
    order the keys were first written.  A JavaScript engine enumerates
    the keys that are array indices first, and a write to ['__proto__']
    makes no key. *)
Fixpoint record_set {V} (k : option string) (v : V) (m : list (option string * V))
  : list (option string * V) :=
  match m with
  | [] => [(k, v)]
  | (k', v') :: m' =>
      if FixRegistry.same_id k' k then (k', v) :: m' else (k', v') :: record_set k v m'
  end.

(** The loop of [getFixStats]. *)
Fixpoint getFixStats_loop (fs : list FixRef) (stats : list (option string * FixStat.t))
  : M (list (option string * FixStat.t)) :=
  match fs with
  | [] => ret stats
  | r :: fs' =>
      f ← FixRegistry.deref r;
      getFixStats_loop fs'
        (record_set (ErrorFix.id f)
           {| FixStat.successRate := default 0%Q (ErrorFix.successRate f);
              FixStat.timesUsed := default 0 (ErrorFix.timesUsed f);
              FixStat.lastUsed := Js.or_else (ErrorFix.lastUsed f) "Never" |}
           stats)
  end.

(** [public getFixStats()] *)
Definition getFixStats : M (list (option string * FixStat.t)) :=
  this ← gets registry;
  getFixStats_loop (fixes this) [].

(** [public importRegistry(data)], from what [JSON.parse] makes of
    [data]. *)
Definition importRegistry (h : Host) (parsed : Parsed) : M unit :=
  try_catch
    (match parsed with
     | ParseError => throw (Error_ "SyntaxError")
     | ParsedNull => throw (Error_ "TypeError")
     | ParsedValue None => ret tt
     | ParsedValue (Some items) =>
         (* Validate and import fixes *)
         forEach items (fun _ item =>
           match item with
           | ItemNull => throw (Error_ "TypeError")
           | ItemPrimitive => ret tt
           | ItemObject f =>
               if Js.truthy (ErrorFix.id f) && Js.truthy (ErrorFix.name f)
                  && FixRegistry.pattern_truthy (ErrorFix.errorPattern f)
               then try_catch (FixRegistry.registerFix h f)
                              (fun _ => emit (Console warn "Failed to import fix"))
               else ret tt
           end)
     end)
    (fun _ =>
       emit (Console error "Failed to import fix registry:");;
       throw (Error_ "Invalid registry data format")).

End FixRegistryQueries.

(** ** The global console and the life cycle of the interceptor *)

(** [console[method] = b] *)
Definition rebind (c : GlobalConsole) (method : Level) (b : Binding) : GlobalConsole :=
  match method with
  | error => {| on_error := b; on_warn := on_warn c;
                on_info := on_info c; on_debug := on_debug c;
                on_log := on_log c |}
  | warn => {| on_error := on_error c; on_warn := b;
               on_info := on_info c; on_debug := on_debug c;
               on_log := on_log c |}
  | info => {| on_error := on_error c; on_warn := on_warn c;
               on_info := b; on_debug := on_debug c;
               on_log := on_log c |}
  | debug => {| on_error := on_error c; on_warn := on_warn c;
                on_info := on_info c; on_debug := b;
                on_log := on_log c |}
  | log => {| on_error := on_error c; on_warn := on_warn c;
              on_info := on_info c; on_debug := on_debug c;
              on_log := b |}
  end.

(** The pipeline and the global console it is installed on. *)
Record Session := {
  world : World;
  console : GlobalConsole
}.

Definition with_world (s : Session) (w : World) : Session :=
  {| world := w; console := console s |}.
Definition with_console (s : Session) (c : GlobalConsole) : Session :=
  {| world := world s; console := c |}.

(** A computation on a session; one on the world is one on the session
    that leaves the console as it is bound. *)
Definition SM (A : Type) : Type := Session -> Outcome A * Session.

Definition sret {A} (a : A) : SM A := fun s => (Returns a, s).
Definition sbind {A B} (m : SM A) (k : A -> SM B) : SM B :=
  fun s =>
    match m s with
    | (Returns a, s') => k a s'
    | (Throws e, s') => (Throws e, s')
    end.
#[export] Instance SM_ret : MRet SM := @sret.
#[export] Instance SM_bind : MBind SM := fun A B k m => sbind m k.

Definition lift {A} (m : M A) : SM A :=
  fun s => let (o, w) := m (world s) in (o, with_world s w).
Definition sgets {A} (f : Session -> A) : SM A := fun s => (Returns (f s), s).
Definition smodify (f : Session -> Session) : SM unit := fun s => (Returns tt, f s).

(** [console[method](...args)], by what the method is bound to. *)
Definition console_call (h : Host) (method : Level) (args : list Arg) : SM unit :=
  c ← sgets console;
  match bound c method with
  | Original => lift (emit (OriginalSink method args))
  | Interceptor level => lift (ConsoleInterceptor.createInterceptor level h args)
  end.

(** [Partial<ConsoleInterceptorConfig>]: for each key, whether it is
    there, and its value. *)
Record PartialConfig := {
  has_captureErrors : option bool;
  has_captureWarnings : option bool;
  has_captureInfo : option bool;
  has_captureDebug : option bool;
  has_filterPatterns : option (option (list Pattern));
  has_maxCapturedMessages : option nat;
  has_preserveOriginal : option bool
}.

(** [{ ...config, ...custom }] *)
Definition spread (cfg : ConsoleInterceptorConfig) (custom : PartialConfig)
  : ConsoleInterceptorConfig :=
  {| captureErrors := default (captureErrors cfg) (has_captureErrors custom);
     captureWarnings := default (captureWarnings cfg) (has_captureWarnings custom);
     captureInfo := default (captureInfo cfg) (has_captureInfo custom);
     captureDebug := default (captureDebug cfg) (has_captureDebug custom);
     filterPatterns := default (filterPatterns cfg) (has_filterPatterns custom);
     maxCapturedMessages := default (maxCapturedMessages cfg) (has_maxCapturedMessages custom);
     preserveOriginal := default (preserveOriginal cfg) (has_preserveOriginal custom) |}.

Module ConsoleInterceptorLifecycle.
Import ConsoleInterceptorClass.

Definition set_config (cfg : ConsoleInterceptorConfig) : M unit :=
  modify (fun w => with_interceptor w
    {| isIntercepting := isIntercepting (interceptor w);
       capturedMessages := capturedMessages (interceptor w);
       config := cfg;
       listeners := listeners (interceptor w) |}).

Definition set_isIntercepting (v : bool) : M unit :=
  modify (fun w => with_interceptor w
    {| isIntercepting := v;
       capturedMessages := capturedMessages (interceptor w);
       config := config (interceptor w);
       listeners := listeners (interceptor w) |}).

(** [console[method] = this.createInterceptor(level)] *)
Definition install (method level : Level) : SM unit :=
  smodify (fun s => with_console s (rebind (console s) method (Interceptor level))).

(** [public start(customConfig?)] *)
Definition start (h : Host) (customConfig : option PartialConfig) : SM unit :=
  this ← lift (gets interceptor);
  if isIntercepting this then
    console_call h warn [ArgString "Console interceptor is already running"]
  else
    (* Merge custom config *)
    match customConfig with
    | Some custom => lift (set_config (spread (config this) custom))
    | None => sret tt
    end;;
    lift (set_isIntercepting true);;
    (* Intercept console methods *)
    this ← lift (gets interceptor);
    (if captureErrors (config this) then install error error else sret tt);;
    (if captureWarnings (config this) then install warn warn else sret tt);;
    (if captureInfo (config this) then install info info;; install log log else sret tt);;
    (if captureDebug (config this) then install debug debug else sret tt);;
    console_call h log [ArgString "🔍 Console interceptor started - monitoring for errors"].

(** [public stop()] *)
Definition stop (h : Host) : SM unit :=
  this ← lift (gets interceptor);
  if negb (isIntercepting this) then sret tt
  else
    (* Restore original console methods *)
    smodify (fun s => with_console s originalConsole);;
    lift (set_isIntercepting false);;
    console_call h log [ArgString "🔍 Console interceptor stopped"].

(** [public updateConfig(newConfig)] *)
Definition updateConfig (h : Host) (newConfig : PartialConfig) : SM unit :=
  this ← lift (gets interceptor);
  let wasIntercepting := isIntercepting this in
  (if wasIntercepting then stop h else sret tt);;
  this ← lift (gets interceptor);
  lift (set_config (spread (config this) newConfig));;
  (if wasIntercepting then start h None else sret tt).

(** [public getConfig()] and [public isRunning()] *)
Definition getConfig (this : t) : ConsoleInterceptorConfig := config this.
Definition isRunning (this : t) : bool := isIntercepting this.

End ConsoleInterceptorLifecycle.

(** ** [MonitoringSystem]: the life cycle *)

From Stdlib Require Import DecimalString.

(** The text of a count in a template literal. *)
Definition number_text (n : nat) : string := NilZero.string_of_uint (Nat.to_uint n).

(** A call of [console.group] or of [console.groupEnd], which the
    interceptor never replaces. *)
Inductive GroupCall :=
| Group (label : string)
| GroupEnd.

(** The singleton of [MonitoringSystem] over the session: its flag, the
    timers [restart] has set and that are still to fire, and the groups
    it opened on the console. *)
Record System := {
  session : Session;
  initialized : bool;
  restart_timers : nat;
  groups : list GroupCall
}.

Definition with_session (y : System) (s : Session) : System :=
  {| session := s; initialized := initialized y;
     restart_timers := restart_timers y; groups := groups y |}.
Definition with_initialized (y : System) (v : bool) : System :=
  {| session := session y; initialized := v;
     restart_timers := restart_timers y; groups := groups y |}.
Definition with_restart_timers (y : System) (n : nat) : System :=
  {| session := session y; initialized := initialized y;
     restart_timers := n; groups := groups y |}.
Definition with_groups (y : System) (g : list GroupCall) : System :=
  {| session := session y; initialized := initialized y;
     restart_timers := restart_timers y; groups := g |}.

Definition YM (A : Type) : Type := System -> Outcome A * System.

Definition yret {A} (a : A) : YM A := fun y => (Returns a, y).
Definition ybind {A B} (m : YM A) (k : A -> YM B) : YM B :=
  fun y =>
    match m y with
    | (Returns a, y') => k a y'
    | (Throws e, y') => (Throws e, y')
    end.
#[export] Instance YM_ret : MRet YM := @yret.
#[export] Instance YM_bind : MBind YM := fun A B k m => ybind m k.

Definition ytry_catch {A} (m : YM A) (handler : JsError.t -> YM A) : YM A :=
  fun y =>
    match m y with
    | (Returns a, y') => (Returns a, y')
    | (Throws e, y') => handler e y'
    end.

(** A computation on the session, and one on the world, as
    computations on the system. *)
Definition on_session {A} (m : SM A) : YM A :=
  fun y => let (o, s) := m (session y) in (o, with_session y s).
Definition on_world {A} (m : M A) : YM A := on_session (lift m).
Definition ygets {A} (f : System -> A) : YM A := fun y => (Returns (f y), y).
Definition ymodify (f : System -> System) : YM unit := fun y => (Returns tt, f y).

(** The listeners [setupErrorListeners] adds write a line with
    [console.log] and return. *)
Definition monitoring_capture_listener : CapturedMessage.t -> Outcome unit :=
  fun _ => Returns tt.
Definition monitoring_report_listener : ErrorReport.t -> Outcome unit :=
  fun _ => Returns tt.

Module MonitoringSystemLifecycle.

(** [ConsoleInterceptor.addListener(listener)], without the function it
    returns. *)
Definition ConsoleInterceptor_addListener (listener : CapturedMessage.t -> Outcome unit)
  : M unit :=
  modify (fun w => with_interceptor w
    {| ConsoleInterceptorClass.isIntercepting :=
         ConsoleInterceptorClass.isIntercepting (interceptor w);
       ConsoleInterceptorClass.capturedMessages :=
         ConsoleInterceptorClass.capturedMessages (interceptor w);
       ConsoleInterceptorClass.config := ConsoleInterceptorClass.config (interceptor w);
       ConsoleInterceptorClass.listeners :=
         ConsoleInterceptorClass.listeners (interceptor w) ++ [listener] |}).

(** [ErrorMonitor.addListener(listener)], without the function it
    returns. *)
Definition ErrorMonitor_addListener (listener : ErrorReport.t -> Outcome unit) : M unit :=
  modify (fun w => with_monitor w
    {| ErrorMonitorClass.errors := ErrorMonitorClass.errors (monitor w);
       ErrorMonitorClass.maxStoredErrors := ErrorMonitorClass.maxStoredErrors (monitor w);
       ErrorMonitorClass.sessionId := ErrorMonitorClass.sessionId (monitor w);
       ErrorMonitorClass.listeners :=
         ErrorMonitorClass.listeners (monitor w) ++ [listener] |}).

(** [private setupErrorListeners()] *)
Definition setupErrorListeners : M unit :=
  (* Listen to console errors and provide real-time feedback *)
  ConsoleInterceptor_addListener monitoring_capture_listener;;
  (* Listen to error monitor reports *)
  ErrorMonitor_addListener monitoring_report_listener.

Definition console_log (h : Host) (text : string) : YM unit :=
  on_session (console_call h log [ArgString text]).

Definition console_group (label : string) : YM unit :=
  ymodify (fun y => with_groups y (groups y ++ [Group label])).
Definition console_groupEnd : YM unit :=
  ymodify (fun y => with_groups y (groups y ++ [GroupEnd])).

(** [private displaySystemStatus()] *)
Definition displaySystemStatus (h : Host) : YM unit :=
  errorStats ← on_world (gets (fun w => ErrorMonitor.getErrorStats (monitor w)));
  consoleStats ← on_world (gets (fun w => ConsoleInterceptorQueries.getStats (interceptor w)));
  fixStats ← on_world FixRegistryQueries.getFixStats;
  console_group "📈 Monitoring System Status";;
  console_log h ("🔢 Total Errors Tracked: " ++ number_text (totalErrors errorStats));;
  console_log h ("📝 Console Messages: "
                 ++ number_text (ConsoleInterceptorQueries.totalMessages consoleStats));;
  console_log h ("🔧 Available Fixes: " ++ number_text (length fixStats));;
  console_log h ("🎯 Console Interceptor: "
                 ++ if ConsoleInterceptorQueries.stats_isIntercepting consoleStats
                    then "Active" else "Inactive");;
  console_groupEnd.

(** The configuration [initialize] starts the interceptor with. *)
Definition initial_config : PartialConfig :=
  {| has_captureErrors := Some true;
     has_captureWarnings := Some true;
     has_captureInfo := Some false;
     has_captureDebug := Some false;
     has_filterPatterns := None;
     has_maxCapturedMessages := None;
     has_preserveOriginal := None |}.

(** [public initialize()] *)
Definition initialize (h : Host) : YM unit :=
  this_initialized ← ygets initialized;
  if this_initialized : bool then
    on_session (console_call h warn [ArgString "Monitoring system is already initialized"])
  else
    console_log h "🚀 Initializing Self-Healing Monitoring System...";;
    ytry_catch
      ((* Load persisted errors *)
       on_world (ErrorMonitor.loadPersistedErrors h);;
       console_log h "✅ Error Monitor: Loaded persisted errors";;
       (* Start console interception *)
       on_session (ConsoleInterceptorLifecycle.start h (Some initial_config));;
       console_log h "✅ Console Interceptor: Started monitoring";;
       (* Set up error listeners *)
       on_world setupErrorListeners;;
       console_log h "✅ Error Listeners: Configured";;
       ymodify (fun y => with_initialized y true);;
       console_log h "🎉 Self-Healing Monitoring System is now active!";;
       (* Display system status *)
       displaySystemStatus h)
      (fun e =>
         on_session (console_call h error
           [ArgString "❌ Failed to initialize monitoring system:"; ArgError e])).

(** [public shutdown()] *)
Definition shutdown (h : Host) : YM unit :=
  this_initialized ← ygets initialized;
  if negb this_initialized then yret tt
  else
    console_log h "🛑 Shutting down monitoring system...";;
    ytry_catch
      (on_session (ConsoleInterceptorLifecycle.stop h);;
       ymodify (fun y => with_initialized y false);;
       console_log h "✅ Monitoring system shutdown complete")
      (fun e =>
         on_session (console_call h error
           [ArgString "❌ Error during monitoring system shutdown:"; ArgError e])).

(** [public isInitialized()] *)
Definition isInitialized (y : System) : bool := initialized y.

(** [public restart()]: the shutdown, and a timer of one second. *)
Definition restart (h : Host) : YM unit :=
  shutdown h;;
  ymodify (fun y => with_restart_timers y (S (restart_timers y))).

(** The callback [restart] hands to [setTimeout], run when a timer
    fires. *)
Definition restart_timer_fires (h : Host) : YM unit :=
  pending ← ygets restart_timers;
  match pending with
  | O => yret tt
  | S n =>
      ymodify (fun y => with_restart_timers y n);;
      initialize h
  end.

End MonitoringSystemLifecycle.
(** ** Notions the further properties are stated with *)


(** What calling the listeners of the store on the report [e] adds to
    the trace: each listener is called, and the error of one that throws
    is written to the console. *)
Fixpoint store_listeners_trace (i : nat) (ls : list (ErrorReport.t -> Outcome unit))
    (e : ErrorReport.t) : list Effect :=
  match ls with
  | [] => []
  | l :: ls' =>
      (Notified i e ::
       match l e with
       | Returns _ => []
       | Throws _ => [Console error "Error in error listener:"]
       end) ++ store_listeners_trace (S i) ls' e
  end.

(** The same for the listeners of the interceptor, whose errors go to
    the original console. *)
Fixpoint capture_listeners_trace (i : nat) (ls : list (CapturedMessage.t -> Outcome unit))
    (m : CapturedMessage.t) : list Effect :=
  match ls with
  | [] => []
  | l :: ls' =>
      (Delivered i m ::
       match l m with
       | Returns _ => []
       | Throws e =>
           [OriginalSink error [ArgString "Error in console interceptor listener:"; ArgError e]]
       end) ++ capture_listeners_trace (S i) ls' m
  end.

(** What [persistErrors] leaves in [localStorage] and adds to the trace,
    for the ledger [es] of the session [session]. *)
Definition persisted (h : Host) (session : string) (es : list ErrorReport.t)
    (ls : option (option Stored)) : option (option Stored) :=
  match ls with
  | None => None
  | Some old =>
      if storage_write_ok h
      then Some (Some (Snapshot (Some (take 20 es)) (JsDate.toISOString (now h)) session))
      else Some old
  end.
Definition persist_trace (h : Host) (ls : option (option Stored)) : list Effect :=
  match ls with
  | None => []
  | Some _ =>
      if storage_write_ok h then []
      else [Console warn "Failed to persist errors to localStorage:"]
  end.

(** The interceptor does not run.  [stop] has then put back the
    original methods of the console, and [start] has not replaced them
    yet: what the pipeline writes to the console is not captured. *)
Definition interceptor_idle (w : World) : Prop :=
  ConsoleInterceptorClass.isIntercepting (interceptor w) = false.

(** What a JSON text keeps of an event as it is: the texts among its
    fields, and the [componentStack] of the error info.  Of the
    [Error] it keeps nothing, and of the context what is data. *)
Definition json_kept (e : ErrorReport.t)
  : ErrorType * string * option string * option string * option string * option string
    * option ErrorInfo :=
  (ErrorReport.type e, ErrorReport.timestamp e, ErrorReport.sessionId e,
   ErrorReport.userAgent e, ErrorReport.url e, ErrorReport.userId e,
   ErrorReport.errorInfo e).

(** The names of the properties every object literal inherits: those
    of [Object.prototype] in ECMAScript, with its annex B.  Reading
    [m[k]] for one of them on a record that has no key [k] of its own
    does not give [undefined], and writing [m['__proto__']] makes no
    key. *)
Definition inherited_names : list string :=
  ["constructor"; "hasOwnProperty"; "isPrototypeOf"; "propertyIsEnumerable";
   "toLocaleString"; "toString"; "valueOf"; "__proto__";
   "__defineGetter__"; "__defineSetter__"; "__lookupGetter__"; "__lookupSetter__"].

(** None of the keys is the name of an inherited property. *)
Definition own_keys (ks : list string) : bool :=
  forallb (fun k => negb (existsb (String.eqb k) inherited_names)) ks.

(** The indices of the listeners of the store a trace shows called. *)
Fixpoint notified_indices (t : list Effect) : list nat :=
  match t with
  | [] => []
  | Notified i _ :: t' => i :: notified_indices t'
  | _ :: t' => notified_indices t'
  end.

(** The sum of the counts of a [Record<string, number>]. *)
Definition total_count {K} (m : list (K * Z)) : Z :=
  fold_right (fun kv acc => snd kv + acc) 0 m.

(** [m[k] || 0] on a [Record<string, number>]. *)
Fixpoint record_get {K} (eqb : K -> K -> bool) (m : list (K * Z)) (k : K) : Z :=
  match m with
  | [] => 0
  | (k', n) :: m' => if eqb k' k then n else record_get eqb m' k
  end.

(** The number of the keys [ks] equal to [k]. *)
Definition occurrences {K} (eqb : K -> K -> bool) (ks : list K) (k : K) : Z :=
  Z.of_nat (length (List.filter (fun k' => eqb k' k) ks)).

(** The key [getErrorStats] counts an event under in [errorsByMessage]. *)
Definition message_key (e : ErrorReport.t) : string :=
  Js.or_else (Some (JsError.message (ErrorReport.error e))) "Unknown error".

(** The entry of [topErrors] for the message [message] counted [count]
    times in the ledger [es]: [lastOccurred] is the timestamp of the
    first entry of the ledger with that message, or [''] . *)
Definition top_entry (es : list ErrorReport.t) (message : string) (count : Z) : TopError.t :=
  {| TopError.message := message;
     TopError.count := count;
     TopError.lastOccurred :=
       Js.or_else
         (option_map ErrorReport.timestamp
            (List.find (fun e => String.eqb (JsError.message (ErrorReport.error e)) message) es))
         EmptyString |}.

(** An error of the message ["Network Error"], without a stack. *)
Definition example_network_error : JsError.t :=
  {| JsError.message := "Network Error"; JsError.stack := None |}.

(** A ledger of two events of one day and one of the day before,
    newest first. *)
Definition example_ledger : ErrorMonitorClass.t :=
  {| ErrorMonitorClass.errors :=
       [ {| ErrorReport.type := runtime_error;
            ErrorReport.error := example_network_error;
            ErrorReport.errorInfo := None;
            ErrorReport.timestamp := "2023-11-14T22:13:19.000Z";
            ErrorReport.context := None; ErrorReport.userAgent := None;
            ErrorReport.url := None; ErrorReport.userId := None;
            ErrorReport.sessionId := Some "session_1700000000000_k3j9x2m1q" |};
         {| ErrorReport.type := console_error;
            ErrorReport.error := example_error;
            ErrorReport.errorInfo := None;
            ErrorReport.timestamp := "2023-11-14T08:00:00.000Z";
            ErrorReport.context := None; ErrorReport.userAgent := None;
            ErrorReport.url := None; ErrorReport.userId := None;
            ErrorReport.sessionId := Some "session_1700000000000_k3j9x2m1q" |};
         {| ErrorReport.type := runtime_error;
            ErrorReport.error := example_network_error;
            ErrorReport.errorInfo := None;
            ErrorReport.timestamp := "2023-11-13T23:59:59.999Z";
            ErrorReport.context := None; ErrorReport.userAgent := None;
            ErrorReport.url := None; ErrorReport.userId := None;
            ErrorReport.sessionId := Some "session_1700000000000_k3j9x2m1q" |} ];
     ErrorMonitorClass.maxStoredErrors := 100;
     ErrorMonitorClass.sessionId := "session_1700000000000_k3j9x2m1q";
     ErrorMonitorClass.listeners := [] |}.

(** The record [processMessage] makes of a call. *)
Definition captured (h : Host) (level : Level) (args : list Arg) : CapturedMessage.t :=
  {| CapturedMessage.level := level;
     CapturedMessage.message := Js.join_space (map ConsoleInterceptor.stringify args);
     CapturedMessage.args := args;
     CapturedMessage.timestamp := JsDate.toISOString (now h);
     CapturedMessage.stack := if Level_eqb level error then new_Error_stack h else None |}.

(** The report [reportToErrorMonitor] hands to the store for a captured
    message: the first [Error] among the arguments, or else an [Error]
    made of the message and the stack captured. *)
Definition console_report (h : Host) (m : CapturedMessage.t) (args : list Arg) : ErrorReport.t :=
  {| ErrorReport.type := console_error;
     ErrorReport.error :=
       match List.find ConsoleInterceptor.isError args with
       | Some (ArgError e) => e
       | _ => {| JsError.message := CapturedMessage.message m;
                 JsError.stack := if Js.truthy (CapturedMessage.stack m)
                                  then CapturedMessage.stack m
                                  else new_Error_stack h |}
       end;
     ErrorReport.errorInfo := None;
     ErrorReport.timestamp := CapturedMessage.timestamp m;
     ErrorReport.context :=
       Some [("level", VLevel (CapturedMessage.level m));
             ("args", VArgs args);
             ("originalMessage", VString (CapturedMessage.message m))];
     ErrorReport.userAgent := None;
     ErrorReport.url := None;
     ErrorReport.userId := None;
     ErrorReport.sessionId := None |}.

(** The indices of the capture listeners a trace shows called. *)
Fixpoint delivered_indices (t : list Effect) : list nat :=
  match t with
  | [] => []
  | Delivered i _ :: t' => i :: delivered_indices t'
  | _ :: t' => delivered_indices t'
  end.

(** The world once a call that is not filtered is in the buffer and the
    capture listeners are called. *)
Definition after_capture (h : Host) (level : Level) (args : list Arg) (w : World) : World :=
  let this := interceptor w in
  let m := captured h level args in
  with_trace
    (with_interceptor w
       (ConsoleInterceptorClass.with_capturedMessages this
          (take (maxCapturedMessages (ConsoleInterceptorClass.config this))
                (m :: ConsoleInterceptorClass.capturedMessages this))))
    (trace w ++ capture_listeners_trace 0 (ConsoleInterceptorClass.listeners this) m).



(** [example_world] with a capture listener that throws before the one
    that returns, and a buffer of two entries at most. *)
Definition example_capture_world : World :=
  with_interceptor example_world
    {| ConsoleInterceptorClass.isIntercepting := true;
       ConsoleInterceptorClass.capturedMessages :=
         [captured example_host warn [ArgString "first"];
          captured example_host warn [ArgString "second"]];
       ConsoleInterceptorClass.config :=
         {| captureErrors := true; captureWarnings := true;
            captureInfo := false; captureDebug := false;
            filterPatterns := Some [PString "noisy-warning"];
            maxCapturedMessages := 2;
            preserveOriginal := true |};
       ConsoleInterceptorClass.listeners :=
         [fun _ => Throws (Error_ "listener crashed"); fun _ => Returns tt] |}.

(** The id of the rule a reference points to. *)
Definition id_of (objs : list ErrorFix.t) (r : FixRef) : option string :=
  match objs !! r with
  | Some f => ErrorFix.id f
  | None => None
  end.

(** The registry is in order: its references are to objects of the
    store, each of them a rule with the four required fields; no two of
    its rules share an id; and the rules are listed by descending
    priority. *)
Definition registry_ok (w : World) : Prop :=
  Forall (fun r => exists f, objects w !! r = Some f /\ has_required f)
         (FixRegistryClass.fixes (registry w))
  /\ NoDup (map (id_of (objects w)) (FixRegistryClass.fixes (registry w)))
  /\ sorted_by_priority w.

(** The rule [applyFix] leaves in the place of [f] when the fix
    function settles with [success]. *)
Definition applied (h : Host) (f : ErrorFix.t) (success : bool) : ErrorFix.t :=
  {| ErrorFix.id := ErrorFix.id f; ErrorFix.name := ErrorFix.name f;
     ErrorFix.description := ErrorFix.description f;
     ErrorFix.errorPattern := ErrorFix.errorPattern f;
     ErrorFix.errorTypes := ErrorFix.errorTypes f;
     ErrorFix.fixFunction := ErrorFix.fixFunction f;
     ErrorFix.conditions := ErrorFix.conditions f;
     ErrorFix.priority := ErrorFix.priority f;
     ErrorFix.category := ErrorFix.category f;
     ErrorFix.successRate :=
       if success
       then Some ((default 0%Q (ErrorFix.successRate f)
                   * inject_Z (default 0%Z (ErrorFix.timesUsed f) + 1 - 1)%Z + 1)
                  / inject_Z (default 0%Z (ErrorFix.timesUsed f) + 1)%Z)%Q
       else ErrorFix.successRate f;
     ErrorFix.lastUsed := Some (JsDate.toISOString (now h));
     ErrorFix.timesUsed := Some (default 0 (ErrorFix.timesUsed f) + 1) |}.

(** The entry [applyFix] adds to the history. *)
Definition attempt (h : Host) (r : FixRef) (success : bool) (err : JsError.t) : FixAttempt.t :=
  {| FixAttempt.fix_ := r; FixAttempt.success := success;
     FixAttempt.timestamp := JsDate.toISOString (now h);
     FixAttempt.error := err |}.

(** A call on the registry by one of its clients: a registration, as
    [importRegistry] guards its own; a removal; the application of the
    rule at a position of [getAllFixes()], when there is one; and the
    search and application of [attemptAutoRecovery]. *)
Inductive RegistryCall :=
| CallRegister (h : Host) (f : ErrorFix.t)
| CallRemove (fixId : string)
| CallApplyNth (h : Host) (i : nat) (err : JsError.t)
               (context : option (list (string * JsValue)))
| CallRecover (h : Host) (err : JsError.t).

Definition registry_call (c : RegistryCall) : M unit :=
  match c with
  | CallRegister h f => try_catch (FixRegistry.registerFix h f) (fun _ => ret tt)
  | CallRemove fixId => FixRegistry.removeFix fixId;; ret tt
  | CallApplyNth h i err context =>
      this ← gets registry;
      match FixRegistry.getAllFixes this !! i with
      | Some r => FixRegistry.applyFix h r err context;; ret tt
      | None => ret tt
      end
  | CallRecover h err =>
      found ← FixRegistry.findFix h err;
      match found with
      | Some r => FixRegistry.applyFix h r err None;; ret tt
      | None => ret tt
      end
  end.

Definition registry_calls (cs : list RegistryCall) : M unit :=
  forEach cs (fun _ c => registry_call c).

(** Calls on the registry of [example_world]: two registrations, a
    recovery that applies a rule, a registration under an id that is
    taken, a removal, and the registration again. *)
Definition example_registry_calls : list RegistryCall :=
  [CallRegister example_host example_leak_rule;
   CallRegister example_host FixRegistry.memory_leak;
   CallRecover example_host_gc example_error;
   CallRegister example_host FixRegistry.memory_leak;
   CallRemove "memory-leak";
   CallApplyNth example_host 0 example_error None;
   CallRegister example_host FixRegistry.memory_leak].

(** The applications of one rule, one after the other, with their
    answers. *)
Fixpoint apply_each (r : FixRef)
    (calls : list (Host * JsError.t * option (list (string * JsValue)))) : M (list bool) :=
  match calls with
  | [] => ret []
  | (h, err, context) :: calls' =>
      b ← FixRegistry.applyFix h r err context;
      bs ← apply_each r calls';
      ret (b :: bs)
  end.

(** The number of the answers [true]. *)
Definition successes (bs : list bool) : Z :=
  Z.of_nat (length (List.filter (fun b : bool => b) bs)).

(** The number of the calls on which the fix function [fn] settles. *)
Definition settled
    (fn : JsError.t -> option (list (string * JsValue)) -> Host -> Outcome bool)
    (calls : list (Host * JsError.t * option (list (string * JsValue)))) : Z :=
  Z.of_nat (length (List.filter
                      (fun c : Host * JsError.t * option (list (string * JsValue)) =>
                         match fn (snd (fst c)) (snd c) (fst (fst c)) with
                         | Returns _ => true
                         | Throws _ => false
                         end) calls)).

(** What [JSON.parse] makes of a registry exported with one rule: the
    fields of [memory_leak] but for its function, and a pattern that is
    no [RegExp] any more; and of an array that holds [null]. *)
Definition example_imported_rule : ErrorFix.t :=
  {| ErrorFix.id := Some "memory-leak";
     ErrorFix.name := Some "Memory Leak Prevention";
     ErrorFix.description := "Attempts to clean up potential memory leaks";
     ErrorFix.errorPattern := Some (PString "Memory leak");
     ErrorFix.errorTypes := ["react_boundary"; "runtime_error"];
     ErrorFix.fixFunction := None;
     ErrorFix.conditions := None;
     ErrorFix.priority := 5;
     ErrorFix.category := runtime;
     ErrorFix.successRate := Some 0%Q;
     ErrorFix.lastUsed := Some "2023-11-14T22:13:20.000Z";
     ErrorFix.timesUsed := Some 0 |}.

(** What happens to a mounted boundary: its children throw while they
    render; its recovery timer fires; the user asks for a retry; it is
    unmounted. *)
Inductive BoundaryEvent :=
| ChildThrows (h : Host) (err : JsError.t) (info : ErrorInfo)
| TimerFires
| ManualRetry
| Unmount.

Definition boundary_event (ev : BoundaryEvent) (b : ErrorBoundary.t) : M ErrorBoundary.t :=
  match ev with
  | ChildThrows h err ei => ErrorBoundary.child_throws h err ei b
  | TimerFires => ret (ErrorBoundary.recoveryTimer_fires b)
  | ManualRetry => ret (ErrorBoundary.handleManualRetry b)
  | Unmount => ret (ErrorBoundary.componentWillUnmount b)
  end.

Fixpoint boundary_events (evs : list BoundaryEvent) (b : ErrorBoundary.t) : M ErrorBoundary.t :=
  match evs with
  | [] => ret b
  | ev :: evs' => b' ← boundary_event ev b; boundary_events evs' b'
  end.

(** The recovery timer of the boundary is still to fire. *)
Definition timer_pending (b : ErrorBoundary.t) : bool :=
  match ErrorBoundary.recoveryTimer b with
  | Some tm => ErrorBoundary.pending tm
  | None => false
  end.

(** The attempts of the boundary are within its budget, and a timer
    that is still to fire leaves room for the attempt it will count. *)
Definition within_budget (b : ErrorBoundary.t) : Prop :=
  0 <= ErrorBoundary.recoveryAttempts (ErrorBoundary.state b)
    <= ErrorBoundary.maxRecoveryAttempts b
  /\ (timer_pending b = true ->
      ErrorBoundary.recoveryAttempts (ErrorBoundary.state b)
      < ErrorBoundary.maxRecoveryAttempts b).

(** The [onError] handler of the boundary, if there is one, returns. *)
Definition handler_returns (b : ErrorBoundary.t) : bool :=
  match ErrorBoundary.props_onError b with
  | Some (Throws _) => false
  | _ => true
  end.

(** The report [componentDidCatch] hands to the store. *)
Definition boundary_report (h : Host) (err : JsError.t) (info : ErrorInfo) : ErrorReport.t :=
  {| ErrorReport.type := react_boundary;
     ErrorReport.error := err;
     ErrorReport.errorInfo := Some info;
     ErrorReport.timestamp := JsDate.toISOString (now h);
     ErrorReport.context :=
       Some [("component", match componentStack info with
                           | Some s => VString s
                           | None => VOpaque "undefined"
                           end);
             ("props", VOpaque "props")];
     ErrorReport.userAgent := None;
     ErrorReport.url := None;
     ErrorReport.userId := None;
     ErrorReport.sessionId := None |}.

(** The world [reportError] leaves. *)
Definition after_report (h : Host) (report : ErrorReport.t) (w : World) : World :=
  let e := ErrorMonitor.enhance h (ErrorMonitorClass.sessionId (monitor w)) report in
  let es := take (ErrorMonitorClass.maxStoredErrors (monitor w))
                 (e :: ErrorMonitorClass.errors (monitor w)) in
  {| monitor := ErrorMonitorClass.with_errors (monitor w) es;
     interceptor := interceptor w;
     registry := registry w;
     objects := objects w;
     localStorage := persisted h (ErrorMonitorClass.sessionId (monitor w)) es (localStorage w);
     trace :=
       (trace w ++ [Logged e]
        ++ store_listeners_trace 0 (ErrorMonitorClass.listeners (monitor w)) e
        ++ persist_trace h (localStorage w))%list |}.

(** The boundary once React has merged the derived state and
    [componentDidCatch] has set the error and its info. *)
Definition caught (err : JsError.t) (info : ErrorInfo) (b : ErrorBoundary.t) : ErrorBoundary.t :=
  ErrorBoundary.with_state b
    {| ErrorBoundary.hasError := true;
       ErrorBoundary.error_ := Some err;
       ErrorBoundary.errorInfo := Some info;
       ErrorBoundary.isRecovering := ErrorBoundary.isRecovering (ErrorBoundary.state b);
       ErrorBoundary.recoveryAttempts := ErrorBoundary.recoveryAttempts (ErrorBoundary.state b);
       ErrorBoundary.autoFixApplied := ErrorBoundary.autoFixApplied (ErrorBoundary.state b) |}.

(** A boundary through three rounds of failure and recovery, a fourth
    failure, a manual retry and a fifth failure. *)
Definition example_boundary_events : list BoundaryEvent :=
  let failure := ChildThrows example_host example_error {| componentStack := Some "in App" |} in
  [failure; TimerFires; failure; TimerFires; failure; TimerFires;
   failure; TimerFires; ManualRetry; failure; TimerFires].

(** No manual retry among the events. *)
Definition no_retry (evs : list BoundaryEvent) : bool :=
  forallb (fun ev => match ev with ManualRetry => false | _ => true end) evs.

(** A boundary that renders its children again after its third
    recovery. *)
Definition example_spent_boundary : ErrorBoundary.t :=
  ErrorBoundary.with_state (ErrorBoundary.new None)
    {| ErrorBoundary.hasError := false; ErrorBoundary.error_ := None;
       ErrorBoundary.errorInfo := None; ErrorBoundary.isRecovering := false;
       ErrorBoundary.recoveryAttempts := 3; ErrorBoundary.autoFixApplied := false |}.


(** The bindings [start] installs for a configuration. *)
Definition configured (cfg : ConsoleInterceptorConfig) : GlobalConsole :=
  {| on_error := if captureErrors cfg then Interceptor error else Original;
     on_warn := if captureWarnings cfg then Interceptor warn else Original;
     on_info := if captureInfo cfg then Interceptor info else Original;
     on_debug := if captureDebug cfg then Interceptor debug else Original;
     on_log := if captureInfo cfg then Interceptor log else Original |}.

(** The console is bound as the state of the interceptor says: to the
    original methods while it is not running, and as its configuration
    asks while it is. *)
Definition console_follows_config (s : Session) : Prop :=
  console s
  = if ConsoleInterceptorClass.isIntercepting (interceptor (world s))
    then configured (ConsoleInterceptorClass.config (interceptor (world s)))
    else originalConsole.

(** A call of the life cycle of the interceptor. *)
Inductive LifecycleCall :=
| CallStart (h : Host) (customConfig : option PartialConfig)
| CallStop (h : Host)
| CallUpdateConfig (h : Host) (newConfig : PartialConfig).

Definition lifecycle_call (c : LifecycleCall) : SM unit :=
  match c with
  | CallStart h customConfig => ConsoleInterceptorLifecycle.start h customConfig
  | CallStop h => ConsoleInterceptorLifecycle.stop h
  | CallUpdateConfig h newConfig => ConsoleInterceptorLifecycle.updateConfig h newConfig
  end.

Fixpoint lifecycle_calls (cs : list LifecycleCall) : SM unit :=
  match cs with
  | [] => sret tt
  | c :: cs' => lifecycle_call c;; lifecycle_calls cs'
  end.

(** The buffer after a call of the level [level] reached the
    interceptor. *)
Definition buffer_after (h : Host) (level : Level) (args : list Arg)
    (this : ConsoleInterceptorClass.t) : list CapturedMessage.t :=
  if ConsoleInterceptor.shouldFilterMessage (ConsoleInterceptorClass.config this)
       (Js.join_space (map ConsoleInterceptor.stringify args))
  then ConsoleInterceptorClass.capturedMessages this
  else take (maxCapturedMessages (ConsoleInterceptorClass.config this))
            (captured h level args :: ConsoleInterceptorClass.capturedMessages this).

(** The interceptor with its flag and its configuration set. *)
Definition interceptor_set (this : ConsoleInterceptorClass.t) (running : bool)
    (cfg : ConsoleInterceptorConfig) : ConsoleInterceptorClass.t :=
  {| ConsoleInterceptorClass.isIntercepting := running;
     ConsoleInterceptorClass.capturedMessages := ConsoleInterceptorClass.capturedMessages this;
     ConsoleInterceptorClass.config := cfg;
     ConsoleInterceptorClass.listeners := ConsoleInterceptorClass.listeners this |}.

(** The session [start] has made before it writes its line: the
    interceptor runs under [cfg] and the console is bound for it. *)
Definition started (cfg : ConsoleInterceptorConfig) (s : Session) : Session :=
  {| world := with_interceptor (world s) (interceptor_set (interceptor (world s)) true cfg);
     console := configured cfg |}.

(** The session [stop] has made before it writes its line. *)
Definition stopped (s : Session) : Session :=
  {| world := with_interceptor (world s)
                (interceptor_set (interceptor (world s)) false
                   (ConsoleInterceptorClass.config (interceptor (world s))));
     console := originalConsole |}.

(** The configuration [start] runs under. *)
Definition start_config (this : ConsoleInterceptorClass.t) (customConfig : option PartialConfig)
  : ConsoleInterceptorConfig :=
  match customConfig with
  | Some custom => spread (ConsoleInterceptorClass.config this) custom
  | None => ConsoleInterceptorClass.config this
  end.

(** What the calls of the life cycle leave alone. *)
Definition lifecycle_frame (s s' : Session) : Prop :=
  monitor (world s') = monitor (world s)
  /\ registry (world s') = registry (world s)
  /\ objects (world s') = objects (world s)
  /\ localStorage (world s') = localStorage (world s)
  /\ ConsoleInterceptorClass.listeners (interceptor (world s'))
     = ConsoleInterceptorClass.listeners (interceptor (world s)).

(** [example_world] with the console bound as its configuration asks. *)
Definition example_session : Session :=
  {| world := example_world; console := configured example_config |}.

(** A session whose interceptor does not run, on the original console. *)
Definition example_idle_session : Session :=
  {| world := with_interceptor example_world
                (interceptor_set (interceptor example_world) false example_config);
     console := originalConsole |}.

(** [example_throwing_listener_world] with an interceptor that does not
    run. *)
Definition example_idle_world : World :=
  with_interceptor example_throwing_listener_world
    (interceptor_set (interceptor example_throwing_listener_world) false example_config).

(** The keys [captureInfo] and [maxCapturedMessages] alone. *)
Definition example_custom_config : PartialConfig :=
  {| has_captureErrors := None; has_captureWarnings := None;
     has_captureInfo := Some true; has_captureDebug := None;
     has_filterPatterns := None; has_maxCapturedMessages := Some 50%nat;
     has_preserveOriginal := None |}.

(** The key [captureErrors] alone, set to [false]. *)
Definition example_errors_off : PartialConfig :=
  {| has_captureErrors := Some false; has_captureWarnings := None;
     has_captureInfo := None; has_captureDebug := None;
     has_filterPatterns := None; has_maxCapturedMessages := None;
     has_preserveOriginal := None |}.

(** The system is in step: it is initialized exactly while the
    interceptor runs, the console is bound as the state of the
    interceptor says, and the references of the registry are to objects
    of the store. *)
Definition system_ok (y : System) : Prop :=
  initialized y = ConsoleInterceptorClass.isIntercepting (interceptor (world (session y)))
  /\ console_follows_config (session y)
  /\ refs_valid (world (session y)).

(** The rounds of [shutdown] and [initialize] that [restart] and its
    timer make. *)
Fixpoint restarts (h : Host) (k : nat) : YM unit :=
  match k with
  | O => yret tt
  | S k' =>
      MonitoringSystemLifecycle.restart h;;
      MonitoringSystemLifecycle.restart_timer_fires h;;
      restarts h k'
  end.

(** A system that is not initialized, over [example_idle_session]. *)
Definition example_system : System :=
  {| session := example_idle_session; initialized := false;
     restart_timers := 0; groups := [] |}.

(** A system that is initialized, over [example_session]. *)
Definition example_running_system : System :=
  {| session := example_session; initialized := true;
     restart_timers := 0; groups := [] |}.

(** The entry of [getFixStats()] for the rule a reference points to. *)
Definition stat_of (objs : list ErrorFix.t) (r : FixRef) : option string * FixStat.t :=
  match objs !! r with
  | Some f =>
      (ErrorFix.id f,
       {| FixStat.successRate := default 0%Q (ErrorFix.successRate f);
          FixStat.timesUsed := default 0 (ErrorFix.timesUsed f);
          FixStat.lastUsed := Js.or_else (ErrorFix.lastUsed f) "Never" |})
  | None => (None, {| FixStat.successRate := 0; FixStat.timesUsed := 0;
                      FixStat.lastUsed := "Never" |})
  end.
(** * Properties *)

(** ** The host clock *)

Example toISOString_epoch :
  JsDate.toISOString 0 = "1970-01-01T00:00:00.000Z".
Proof. reflexivity. Qed.

Example toISOString_2023 :
  JsDate.toISOString 1700000000000 = "2023-11-14T22:13:20.000Z".
Proof. vm_compute. reflexivity. Qed.

Example toISOString_leap_day :
  JsDate.toISOString 1709208000123 = "2024-02-29T12:00:00.123Z".
Proof. vm_compute. reflexivity. Qed.

Example toISOString_bounds :
  JsDate.toISOString JsDate.minTime = "0000-01-01T00:00:00.000Z" /\
  JsDate.toISOString JsDate.maxTime = "9999-12-31T23:59:59.999Z" /\
  JsDate.toISOString (-1) = "1969-12-31T23:59:59.999Z".
Proof. vm_compute. repeat split. Qed.

(** ** The host clock: ISO texts compare as their time values *)

Lemma string_compare_refl (s : string) : String.compare s s = Eq.
Proof.
  induction s as [|c s IH]; simpl; [reflexivity|].
  unfold Ascii.compare. now rewrite N.compare_refl.
Qed.

(** Comparison of two texts with prefixes of the same length. *)
Lemma string_compare_app (a b x y : string) :
  String.length a = String.length b ->
  String.compare (a ++ x) (b ++ y) = lexc (String.compare a b) (String.compare x y).
Proof.
  revert b. induction a as [|c a IH]; intros [|d b] Hlen; simpl in *; try discriminate.
  - reflexivity.
  - destruct (Ascii.compare c d); simpl; [apply IH; lia | reflexivity | reflexivity].
Qed.

Lemma string_compare_app_same (p x y : string) :
  String.compare (p ++ x) (p ++ y) = String.compare x y.
Proof.
  rewrite string_compare_app by reflexivity. now rewrite string_compare_refl.
Qed.

Lemma digit_compare (x y : Z) :
  0 <= x <= 9 -> 0 <= y <= 9 ->
  Ascii.compare (JsDate.digit x) (JsDate.digit y) = (x ?= y).
Proof.
  intros Hx Hy. unfold Ascii.compare, JsDate.digit.
  rewrite !N_ascii_embedding by lia.
  rewrite <- N2Z.inj_compare, !N2Z.inj_add, !Z2N.id by lia.
  apply Z.add_compare_mono_l.
Qed.

Lemma dec_length (w : nat) : forall n, String.length (JsDate.dec w n) = w.
Proof.
  induction w as [|w IH]; intros n; simpl; [reflexivity|].
  assert (Happ : forall a b, String.length (a ++ b) = (String.length a + String.length b)%nat).
  { induction a as [|c a IHa]; intros b; simpl; [reflexivity | now rewrite IHa]. }
  rewrite Happ, IH. simpl. lia.
Qed.

Lemma lexc_compare_base (B x1 y1 x2 y2 : Z) :
  0 <= y1 < B -> 0 <= y2 < B ->
  lexc (x1 ?= x2) (y1 ?= y2) = (x1 * B + y1 ?= x2 * B + y2).
Proof.
  intros H1 H2. symmetry.
  destruct (Z.compare_spec x1 x2) as [->|Hlt|Hgt]; simpl.
  - destruct (Z.compare_spec y1 y2) as [->|Hl|Hg].
    + apply Z.compare_refl.
    + apply Z.compare_lt_iff. lia.
    + apply Z.compare_gt_iff. lia.
  - apply Z.compare_lt_iff. nia.
  - apply Z.compare_gt_iff. nia.
Qed.

(** Zero-padded decimals of one width compare as their numbers. *)
Lemma dec_compare (w : nat) : forall a b,
  0 <= a < 10 ^ Z.of_nat w -> 0 <= b < 10 ^ Z.of_nat w ->
  String.compare (JsDate.dec w a) (JsDate.dec w b) = (a ?= b).
Proof.
  induction w as [|w IH]; intros a b Ha Hb.
  - simpl in *. assert (a = 0) by lia. assert (b = 0) by lia. subst. reflexivity.
  - rewrite Nat2Z.inj_succ, Z.pow_succ_r in Ha, Hb by lia.
    simpl JsDate.dec.
    rewrite string_compare_app by now rewrite !dec_length.
    rewrite IH by (split; [apply Z.div_pos; lia | apply Z.div_lt_upper_bound; lia]).
    simpl String.compare.
    rewrite digit_compare by (pose proof (Z.mod_pos_bound a 10); pose proof (Z.mod_pos_bound b 10); lia).
    replace (match a mod 10 ?= b mod 10 with Eq => Eq | Lt => Lt | Gt => Gt end)
      with (a mod 10 ?= b mod 10) by (destruct (a mod 10 ?= b mod 10); reflexivity).
    rewrite (lexc_compare_base 10) by (apply Z.mod_pos_bound; lia).
    f_equal; rewrite Z.mul_comm; symmetry; apply Z.div_mod; lia.
Qed.

Lemma DaysInYear_cases y :
  JsDate.DaysInYear y = 365 \/ JsDate.DaysInYear y = 366.
Proof.
  unfold JsDate.DaysInYear.
  destruct (y mod 4 =? 0), (y mod 100 =? 0), (y mod 400 =? 0); simpl; auto.
Qed.

Lemma DayFromYear_step y :
  JsDate.DayFromYear (y + 1) = JsDate.DayFromYear y + JsDate.DaysInYear y.
Proof.
  unfold JsDate.DayFromYear, JsDate.DaysInYear.
  destruct (Z.eqb_spec (y mod 4) 0), (Z.eqb_spec (y mod 100) 0),
           (Z.eqb_spec (y mod 400) 0); simpl;
    Z.div_mod_to_equations; lia.
Qed.

Lemma DayFromYear_lt y y' :
  y < y' -> JsDate.DayFromYear y < JsDate.DayFromYear y'.
Proof.
  intros H. unfold JsDate.DayFromYear. Z.div_mod_to_equations. lia.
Qed.

Lemma DayFromYear_le y y' :
  y <= y' -> JsDate.DayFromYear y <= JsDate.DayFromYear y'.
Proof.
  intros H. destruct (Z.eq_dec y y') as [->|Hne]; [lia|].
  apply Z.lt_le_incl, DayFromYear_lt. lia.
Qed.

(** [YearFromDay d] is the year whose days contain [d]. *)
Lemma YearFromDay_bracket d :
  JsDate.DayFromYear (JsDate.YearFromDay d) <= d
  < JsDate.DayFromYear (JsDate.YearFromDay d + 1).
Proof.
  unfold JsDate.YearFromDay.
  set (y0 := 1970 + 400 * d / 146097).
  assert (Hlo : JsDate.DayFromYear (y0 - 1) <= d).
  { unfold JsDate.DayFromYear, y0. Z.div_mod_to_equations. lia. }
  assert (Hhi : d < JsDate.DayFromYear (y0 + 1 + 1)).
  { unfold JsDate.DayFromYear, y0. Z.div_mod_to_equations. lia. }
  cbv zeta.
  destruct (Z.ltb_spec d (JsDate.DayFromYear y0)).
  - replace (y0 - 1 + 1) with y0 by lia. lia.
  - destruct (Z.leb_spec (JsDate.DayFromYear (y0 + 1)) d); lia.
Qed.

Lemma YearFromDay_unique d y :
  JsDate.DayFromYear y <= d < JsDate.DayFromYear (y + 1) -> JsDate.YearFromDay d = y.
Proof.
  intros Hy. pose proof (YearFromDay_bracket d) as Hb.
  destruct (Z.lt_trichotomy (JsDate.YearFromDay d) y) as [Hlt|[Heq|Hgt]]; [|exact Heq|].
  - pose proof (DayFromYear_le (JsDate.YearFromDay d + 1) y ltac:(lia)). lia.
  - pose proof (DayFromYear_le (y + 1) (JsDate.YearFromDay d) ltac:(lia)). lia.
Qed.

Lemma YearFromDay_mono d1 d2 :
  d1 <= d2 -> JsDate.YearFromDay d1 <= JsDate.YearFromDay d2.
Proof.
  intros H. pose proof (YearFromDay_bracket d1). pose proof (YearFromDay_bracket d2).
  destruct (Z.le_gt_cases (JsDate.YearFromDay d1) (JsDate.YearFromDay d2)); [assumption|].
  pose proof (DayFromYear_le (JsDate.YearFromDay d2 + 1) (JsDate.YearFromDay d1) ltac:(lia)).
  lia.
Qed.

Lemma DayWithinYear_bounds d :
  0 <= JsDate.DayWithinYear d < 365 + JsDate.InLeapYear (JsDate.YearFromDay d).
Proof.
  unfold JsDate.DayWithinYear, JsDate.InLeapYear.
  pose proof (YearFromDay_bracket d) as Hb.
  rewrite DayFromYear_step in Hb. lia.
Qed.

Ltac split_ifs :=
  repeat match goal with
         | |- context [Z.ltb ?a ?b] => destruct (Z.ltb_spec a b); cbv iota
         end.

(** Month and day of the month within a year, with their bounds, grow
    with the day of the year. *)
Lemma MonthFromDay_bounds l dwy :
  0 <= l <= 1 -> 0 <= dwy < 365 + l ->
  0 <= JsDate.MonthFromDay l dwy <= 11 /\ 1 <= JsDate.DateFromDay l dwy <= 31.
Proof.
  intros Hl Hd. unfold JsDate.DateFromDay, JsDate.MonthFromDay.
  split_ifs; lia.
Qed.

Lemma MonthFromDay_lt l dwy1 dwy2 :
  0 <= l <= 1 -> 0 <= dwy1 -> dwy1 < dwy2 -> dwy2 < 365 + l ->
  (JsDate.MonthFromDay l dwy1 + 1) * 32 + JsDate.DateFromDay l dwy1
  < (JsDate.MonthFromDay l dwy2 + 1) * 32 + JsDate.DateFromDay l dwy2.
Proof.
  intros Hl H0 H12 H2.
  unfold JsDate.DateFromDay, JsDate.MonthFromDay.
  split_ifs; lia.
Qed.

Lemma InLeapYear_bounds y : 0 <= JsDate.InLeapYear y <= 1.
Proof. unfold JsDate.InLeapYear. destruct (DaysInYear_cases y); lia. Qed.

(** The calendar date of a day number, as one number. *)
Lemma date_key_lt d1 d2 :
  d1 < d2 ->
  JsDate.YearFromDay d1 * 512
  + ((JsDate.MonthFromDay (JsDate.InLeapYear (JsDate.YearFromDay d1)) (JsDate.DayWithinYear d1) + 1) * 32
     + JsDate.DateFromDay (JsDate.InLeapYear (JsDate.YearFromDay d1)) (JsDate.DayWithinYear d1))
  < JsDate.YearFromDay d2 * 512
    + ((JsDate.MonthFromDay (JsDate.InLeapYear (JsDate.YearFromDay d2)) (JsDate.DayWithinYear d2) + 1) * 32
       + JsDate.DateFromDay (JsDate.InLeapYear (JsDate.YearFromDay d2)) (JsDate.DayWithinYear d2)).
Proof.
  intros Hlt.
  pose proof (YearFromDay_mono d1 d2 ltac:(lia)) as Hy.
  pose proof (DayWithinYear_bounds d1) as Hb1.
  pose proof (DayWithinYear_bounds d2) as Hb2.
  pose proof (InLeapYear_bounds (JsDate.YearFromDay d1)) as Hl1.
  pose proof (InLeapYear_bounds (JsDate.YearFromDay d2)) as Hl2.
  pose proof (MonthFromDay_bounds _ _ Hl1 Hb1) as [Hm1 Hd1].
  pose proof (MonthFromDay_bounds _ _ Hl2 Hb2) as [Hm2 Hd2].
  destruct (Z.eq_dec (JsDate.YearFromDay d1) (JsDate.YearFromDay d2)) as [Heq|Hne].
  - assert (Hdwy : JsDate.DayWithinYear d1 < JsDate.DayWithinYear d2).
    { unfold JsDate.DayWithinYear. rewrite Heq. lia. }
    rewrite Heq in *.
    pose proof (MonthFromDay_lt _ _ _ Hl2 (proj1 Hb1) Hdwy (proj2 Hb2)). lia.
  - lia.
Qed.

Lemma compare_of_increasing (f : Z -> Z) :
  (forall x y, x < y -> f x < f y) -> forall a b, (f a ?= f b) = (a ?= b).
Proof.
  intros Hf a b. destruct (Z.compare_spec a b) as [->|Hlt|Hgt].
  - apply Z.compare_refl.
  - apply Z.compare_lt_iff. auto.
  - apply Z.compare_gt_iff. auto.
Qed.

Lemma date_compare d1 d2 :
  lexc (JsDate.YearFromDay d1 ?= JsDate.YearFromDay d2)
    (lexc (JsDate.MonthFromDay (JsDate.InLeapYear (JsDate.YearFromDay d1)) (JsDate.DayWithinYear d1) + 1
           ?= JsDate.MonthFromDay (JsDate.InLeapYear (JsDate.YearFromDay d2)) (JsDate.DayWithinYear d2) + 1)
       (JsDate.DateFromDay (JsDate.InLeapYear (JsDate.YearFromDay d1)) (JsDate.DayWithinYear d1)
        ?= JsDate.DateFromDay (JsDate.InLeapYear (JsDate.YearFromDay d2)) (JsDate.DayWithinYear d2)))
  = (d1 ?= d2).
Proof.
  pose proof (MonthFromDay_bounds _ _ (InLeapYear_bounds (JsDate.YearFromDay d1))
                (DayWithinYear_bounds d1)) as [Hm1 Hd1].
  pose proof (MonthFromDay_bounds _ _ (InLeapYear_bounds (JsDate.YearFromDay d2))
                (DayWithinYear_bounds d2)) as [Hm2 Hd2].
  rewrite (lexc_compare_base 32) by lia.
  rewrite (lexc_compare_base 512) by lia.
  apply (compare_of_increasing
           (fun d => JsDate.YearFromDay d * 512
                     + ((JsDate.MonthFromDay (JsDate.InLeapYear (JsDate.YearFromDay d))
                                             (JsDate.DayWithinYear d) + 1) * 32
                        + JsDate.DateFromDay (JsDate.InLeapYear (JsDate.YearFromDay d))
                                             (JsDate.DayWithinYear d)))).
  intros x y. apply date_key_lt.
Qed.

Lemma time_compare a b :
  lexc (JsDate.HourFromTime a ?= JsDate.HourFromTime b)
    (lexc (JsDate.MinFromTime a ?= JsDate.MinFromTime b)
       (lexc (JsDate.SecFromTime a ?= JsDate.SecFromTime b)
          (JsDate.msFromTime a ?= JsDate.msFromTime b)))
  = (JsDate.TimeWithinDay a ?= JsDate.TimeWithinDay b).
Proof.
  assert (Hk : forall t,
    0 <= JsDate.msFromTime t < 1000
    /\ 0 <= JsDate.SecFromTime t * 1000 + JsDate.msFromTime t < 60000
    /\ 0 <= JsDate.MinFromTime t * 60000
            + (JsDate.SecFromTime t * 1000 + JsDate.msFromTime t) < 3600000
    /\ JsDate.HourFromTime t * 3600000
       + (JsDate.MinFromTime t * 60000 + (JsDate.SecFromTime t * 1000 + JsDate.msFromTime t))
       = JsDate.TimeWithinDay t).
  { intros t.
    unfold JsDate.HourFromTime, JsDate.MinFromTime, JsDate.SecFromTime, JsDate.msFromTime,
      JsDate.TimeWithinDay, JsDate.msPerHour, JsDate.msPerMinute, JsDate.msPerSecond,
      JsDate.msPerDay.
    Z.div_mod_to_equations. lia. }
  destruct (Hk a) as (Ha1 & Ha2 & Ha3 & Ha4), (Hk b) as (Hb1 & Hb2 & Hb3 & Hb4).
  rewrite (lexc_compare_base 1000) by assumption.
  rewrite (lexc_compare_base 60000) by assumption.
  rewrite (lexc_compare_base 3600000) by assumption.
  now rewrite Ha4, Hb4.
Qed.

(** Years of the time values between [minTime] and [maxTime]. *)
Lemma YearFromTime_range t :
  JsDate.minTime <= t <= JsDate.maxTime -> 0 <= JsDate.YearFromTime t <= 9999.
Proof.
  intros Ht. unfold JsDate.YearFromTime.
  assert (Hd : -719528 <= JsDate.Day t <= 2932896).
  { unfold JsDate.Day, JsDate.msPerDay, JsDate.minTime, JsDate.maxTime in *.
    Z.div_mod_to_equations. lia. }
  pose proof (YearFromDay_bracket (JsDate.Day t)) as Hb.
  split.
  - destruct (Z.le_gt_cases 0 (JsDate.YearFromDay (JsDate.Day t))); [assumption|].
    pose proof (DayFromYear_le (JsDate.YearFromDay (JsDate.Day t) + 1) 0 ltac:(lia)) as H0.
    change (JsDate.DayFromYear 0) with (-719528) in H0. lia.
  - destruct (Z.le_gt_cases (JsDate.YearFromDay (JsDate.Day t)) 9999); [assumption|].
    pose proof (DayFromYear_le 10000 (JsDate.YearFromDay (JsDate.Day t)) ltac:(lia)) as H0.
    change (JsDate.DayFromYear 10000) with 2932897 in H0. lia.
Qed.

Lemma lexc_assoc a b c : lexc (lexc a b) c = lexc a (lexc b c).
Proof. destruct a; reflexivity. Qed.

(** The ISO texts of two time values with four-digit years compare as
    the time values do. *)
Theorem toISOString_compare a b :
  JsDate.minTime <= a <= JsDate.maxTime -> JsDate.minTime <= b <= JsDate.maxTime ->
  String.compare (JsDate.toISOString a) (JsDate.toISOString b) = (a ?= b).
Proof.
  intros Ha Hb.
  pose proof (YearFromTime_range a Ha) as Hya.
  pose proof (YearFromTime_range b Hb) as Hyb.
  unfold JsDate.toISOString, JsDate.year_string.
  replace ((0 <=? JsDate.YearFromTime a) && (JsDate.YearFromTime a <=? 9999)) with true
    by (symmetry; apply andb_true_intro; split; apply Z.leb_le; lia).
  replace ((0 <=? JsDate.YearFromTime b) && (JsDate.YearFromTime b <=? 9999)) with true
    by (symmetry; apply andb_true_intro; split; apply Z.leb_le; lia).
  unfold JsDate.MonthFromTime, JsDate.DateFromTime, JsDate.YearFromTime in *.
  set (da := JsDate.Day a) in *. set (db := JsDate.Day b) in *.
  pose proof (MonthFromDay_bounds _ _ (InLeapYear_bounds (JsDate.YearFromDay da))
                (DayWithinYear_bounds da)) as [Hma Hdda].
  pose proof (MonthFromDay_bounds _ _ (InLeapYear_bounds (JsDate.YearFromDay db))
                (DayWithinYear_bounds db)) as [Hmb Hddb].
  assert (Hta : 0 <= JsDate.HourFromTime a < 24 /\ 0 <= JsDate.MinFromTime a < 60
                /\ 0 <= JsDate.SecFromTime a < 60 /\ 0 <= JsDate.msFromTime a < 1000).
  { unfold JsDate.HourFromTime, JsDate.MinFromTime, JsDate.SecFromTime, JsDate.msFromTime,
      JsDate.msPerSecond. repeat split; apply Z.mod_pos_bound; lia. }
  assert (Htb : 0 <= JsDate.HourFromTime b < 24 /\ 0 <= JsDate.MinFromTime b < 60
                /\ 0 <= JsDate.SecFromTime b < 60 /\ 0 <= JsDate.msFromTime b < 1000).
  { unfold JsDate.HourFromTime, JsDate.MinFromTime, JsDate.SecFromTime, JsDate.msFromTime,
      JsDate.msPerSecond. repeat split; apply Z.mod_pos_bound; lia. }
  repeat (rewrite string_compare_app by (rewrite !dec_length; reflexivity);
          rewrite dec_compare by (simpl; lia);
          rewrite (string_compare_app_same (String _ EmptyString))).
  rewrite string_compare_app by (rewrite !dec_length; reflexivity).
  rewrite dec_compare by (simpl; lia).
  change (String.compare "Z" "Z") with Eq.
  replace (lexc (JsDate.msFromTime a ?= JsDate.msFromTime b) Eq)
    with (JsDate.msFromTime a ?= JsDate.msFromTime b)
    by (destruct (JsDate.msFromTime a ?= JsDate.msFromTime b); reflexivity).
  rewrite <- (lexc_assoc (_ + 1 ?= _ + 1)).
  rewrite <- (lexc_assoc (JsDate.YearFromDay da ?= JsDate.YearFromDay db)).
  rewrite date_compare, time_compare.
  rewrite (lexc_compare_base JsDate.msPerDay)
    by (apply Z.mod_pos_bound; reflexivity).
  f_equal; unfold da, db, JsDate.Day, JsDate.TimeWithinDay;
    rewrite Z.mul_comm; symmetry; apply Z.div_mod; discriminate.
Qed.

Lemma gt_toISOString a b :
  JsDate.minTime <= a <= JsDate.maxTime -> JsDate.minTime <= b <= JsDate.maxTime ->
  Js.gt (JsDate.toISOString a) (JsDate.toISOString b) = (b <? a).
Proof.
  intros Ha Hb. unfold Js.gt. rewrite (toISOString_compare a b Ha Hb).
  rewrite Z.ltb_compare, (Z.compare_antisym a b).
  destruct (a ?= b); reflexivity.
Qed.

(** ** The monad *)

Lemma same_state_refl w : same_state w w.
Proof. repeat split. Qed.


Lemma emit_spec e w : emit e w = (Returns tt, with_trace w (trace w ++ [e])).
Proof. reflexivity. Qed.

Lemma bind_returns {A B} (m : M A) (k : A -> M B) w a w' :
  m w = (Returns a, w') -> (m ≫= k) w = k a w'.
Proof. intros H. unfold mbind, M_bind, bind. now rewrite H. Qed.

Lemma bind_throws {A B} (m : M A) (k : A -> M B) w e w' :
  m w = (Throws e, w') -> (m ≫= k) w = (Throws e, w').
Proof. intros H. unfold mbind, M_bind, bind. now rewrite H. Qed.



(** ** The failure store *)



Lemma take_cons_take {A} (n : nat) (x : A) (l : list A) :
  take n (x :: take n l) = take n (x :: l).
Proof.
  destruct n as [|n]; [reflexivity|]. simpl. f_equal.
  rewrite take_take. f_equal. lia.
Qed.

Lemma take_app_take {A} (pre l : list A) : forall n m : nat,
  (n <= m)%nat -> take n (pre ++ take m l) = take n (pre ++ l).
Proof.
  induction pre as [|x pre IH]; intros n m Hnm; simpl.
  - rewrite take_take. f_equal. lia.
  - destruct n as [|n]; [reflexivity|]. simpl. f_equal. apply IH. lia.
Qed.

(** ** The failure store on one stack with the capture layer *)

Lemma reported_app t1 t2 : reported (t1 ++ t2) = (reported t1 ++ reported t2)%list.
Proof.
  induction t1 as [|e t1 IH]; [reflexivity|].
  destruct e; simpl; rewrite IH; reflexivity.
Qed.

Section KeepsLedger.
Variable P : list Effect -> Prop.
Hypothesis P_nil : P [].
Hypothesis P_app : forall t1 t2, P t1 -> P t2 -> P (t1 ++ t2).
Hypothesis P_one : forall e, reported [e] = [] -> P [e].

Lemma keeps_same {A} (m : M A) :
  (forall w, exists o w', m w = (o, w') /\ monitor w' = monitor w /\ trace w' = trace w) ->
  keeps_ledger P m.
Proof.
  intros H w Hcap. destruct (H w) as (o & w' & E & Hm & Ht).
  exists o, w', []. rewrite Hm, Ht, app_nil_r. simpl.
  repeat split; try assumption. now rewrite firstn_all2.
Qed.

Lemma keeps_ret {A} (a : A) : keeps_ledger P (ret a).
Proof. apply keeps_same. intros w. exists (Returns a), w. auto. Qed.

Lemma keeps_throw {A} (e : JsError.t) : keeps_ledger P (@throw A e).
Proof. apply keeps_same. intros w. exists (Throws e), w. auto. Qed.

Lemma keeps_call {A} (o : Outcome A) : keeps_ledger P (call o).
Proof. destruct o; [apply keeps_ret | apply keeps_throw]. Qed.

Lemma keeps_gets {A} (f : World -> A) : keeps_ledger P (gets f).
Proof. apply keeps_same. intros w. exists (Returns (f w)), w. auto. Qed.

Lemma keeps_modify (f : World -> World) :
  (forall w, monitor (f w) = monitor w /\ trace (f w) = trace w) ->
  keeps_ledger P (modify f).
Proof.
  intros H. apply keeps_same. intros w. exists (Returns tt), (f w).
  destruct (H w). auto.
Qed.

Lemma keeps_emit (e : Effect) : reported [e] = [] -> keeps_ledger P (emit e).
Proof.
  intros He w Hcap. exists (Returns tt), (with_trace w (trace w ++ [e])), [e].
  rewrite He. simpl. repeat split; auto. now rewrite firstn_all2.
Qed.

Lemma keeps_bind {A B} (m : M A) (k : A -> M B) :
  keeps_ledger P m -> (forall a, keeps_ledger P (k a)) -> keeps_ledger P (m ≫= k).
Proof.
  intros Hm Hk w Hcap.
  destruct (Hm w Hcap) as (o & w1 & t1 & E1 & Ht1 & Hp1 & Hx1 & Hs1 & He1).
  destruct o as [a|e].
  - assert (Hcap1 : (length (ErrorMonitorClass.errors (monitor w1))
                     <= ErrorMonitorClass.maxStoredErrors (monitor w1))%nat).
    { rewrite He1, Hx1, length_take. lia. }
    destruct (Hk a w1 Hcap1) as (o2 & w2 & t2 & E2 & Ht2 & Hp2 & Hx2 & Hs2 & He2).
    exists o2, w2, (t1 ++ t2)%list.
    split; [erewrite bind_returns by exact E1; exact E2|].
    split; [rewrite Ht2, Ht1, app_assoc; reflexivity|].
    split; [apply P_app; assumption|].
    split; [congruence|]. split; [congruence|].
    rewrite He2, He1, Hx1, reported_app, rev_app_distr, <- app_assoc.
    apply take_app_take. lia.
  - exists (Throws e), w1, t1.
    split; [erewrite bind_throws by exact E1; reflexivity|].
    repeat split; assumption.
Qed.

Lemma keeps_try_catch {A} (m : M A) (handler : JsError.t -> M A) :
  keeps_ledger P m -> (forall e, keeps_ledger P (handler e)) ->
  keeps_ledger P (try_catch m handler).
Proof.
  intros Hm Hh w Hcap.
  destruct (Hm w Hcap) as (o & w1 & t1 & E1 & Ht1 & Hp1 & Hx1 & Hs1 & He1).
  destruct o as [a|e].
  - exists (Returns a), w1, t1. unfold try_catch. rewrite E1. repeat split; assumption.
  - assert (Hcap1 : (length (ErrorMonitorClass.errors (monitor w1))
                     <= ErrorMonitorClass.maxStoredErrors (monitor w1))%nat).
    { rewrite He1, Hx1, length_take. lia. }
    destruct (Hh e w1 Hcap1) as (o2 & w2 & t2 & E2 & Ht2 & Hp2 & Hx2 & Hs2 & He2).
    exists o2, w2, (t1 ++ t2)%list.
    split; [unfold try_catch; rewrite E1; exact E2|].
    split; [rewrite Ht2, Ht1, app_assoc; reflexivity|].
    split; [apply P_app; assumption|].
    split; [congruence|]. split; [congruence|].
    rewrite He2, He1, Hx1, reported_app, rev_app_distr, <- app_assoc.
    apply take_app_take. lia.
Qed.

Lemma keeps_forEach_from {A} (xs : list A) (body : nat -> A -> M unit) :
  (forall i x, keeps_ledger P (body i x)) ->
  forall i, keeps_ledger P (forEach_from i xs body).
Proof.
  intros Hbody. induction xs as [|x xs IH]; intros i; simpl.
  - apply keeps_ret.
  - apply keeps_bind; [apply Hbody | intros _; apply IH].
Qed.

Lemma keeps_if {A} (b : bool) (m1 m2 : M A) :
  keeps_ledger P m1 -> keeps_ledger P m2 -> keeps_ledger P (if b then m1 else m2).
Proof. destruct b; auto. Qed.

(** The methods of the capture layer keep the ledger when the method
    they call does. *)
Lemma reportToErrorMonitor_keeps report h m args :
  (forall h' r, keeps_ledger P (report h' r)) ->
  keeps_ledger P (Reentrant.Capture.reportToErrorMonitor report h m args).
Proof.
  intros Hr. unfold Reentrant.Capture.reportToErrorMonitor.
  apply keeps_try_catch; [apply Hr|].
  intros e. apply keeps_emit. reflexivity.
Qed.

Lemma processMessage_keeps this_reportToErrorMonitor h level args :
  (level = error -> forall m, keeps_ledger P (this_reportToErrorMonitor h m args)) ->
  keeps_ledger P (Reentrant.Capture.processMessage this_reportToErrorMonitor h level args).
Proof.
  intros Hr. unfold Reentrant.Capture.processMessage.
  apply keeps_bind; [apply keeps_gets|]. intros this.
  apply keeps_if; [apply keeps_ret|].
  apply keeps_bind; [apply keeps_modify; intros w; split; reflexivity|]. intros _.
  apply keeps_bind; [apply keeps_gets|]. intros this1.
  apply keeps_bind.
  { apply keeps_if; [|apply keeps_ret].
    apply keeps_modify. intros w. split; reflexivity. }
  intros _.
  apply keeps_bind; [apply keeps_gets|]. intros this2.
  apply keeps_bind.
  { apply keeps_forEach_from. intros i listener.
    apply keeps_try_catch.
    - apply keeps_bind; [apply keeps_emit; reflexivity | intros _; apply keeps_call].
    - intros e. apply keeps_emit. reflexivity. }
  intros _.
  destruct (Level_eqb level error) eqn:Hl; [|apply keeps_ret].
  apply Hr. destruct level; try discriminate Hl. reflexivity.
Qed.

Lemma createInterceptor_keeps this_processMessage level h args :
  keeps_ledger P (this_processMessage h level args) ->
  keeps_ledger P (Reentrant.Capture.createInterceptor this_processMessage level h args).
Proof.
  intros Hp. unfold Reentrant.Capture.createInterceptor.
  apply keeps_bind; [apply keeps_gets|]. intros this.
  apply keeps_bind.
  { apply keeps_if; [apply keeps_emit; reflexivity | apply keeps_ret]. }
  intros _. apply keeps_try_catch; [exact Hp|].
  intros e. apply keeps_emit. reflexivity.
Qed.

(** [persistErrors] keeps the ledger when the console does. *)
Lemma persistErrors_keeps console_call h :
  (forall args, keeps_ledger P (console_call warn h args)) ->
  keeps_ledger P (Reentrant.Store.persistErrors console_call h).
Proof.
  intros Hc. unfold Reentrant.Store.persistErrors.
  apply keeps_bind; [apply keeps_gets|]. intros [item|]; [|apply keeps_ret].
  apply keeps_try_catch; [|intros e; apply Hc].
  apply keeps_bind; [apply keeps_gets|]. intros this.
  apply keeps_if; [|apply keeps_throw].
  apply keeps_modify. intros w. split; reflexivity.
Qed.

(** One [reportError]: the event, enhanced, is put in front of the
    ledger and the ledger cut; what the call stores after that, by the
    lines it writes to the console, comes in front of the event. *)
Lemma reportError_stores console_call h report w :
  (forall args, keeps_ledger P (console_call error h args)) ->
  (forall args, keeps_ledger P (console_call warn h args)) ->
  exists o w' nested,
    Reentrant.Store.reportError console_call h report w = (o, w')
    /\ trace w' =
       (trace w
        ++ Logged (ErrorMonitor.enhance h (ErrorMonitorClass.sessionId (monitor w)) report)
        :: nested)%list
    /\ P nested
    /\ ErrorMonitorClass.maxStoredErrors (monitor w')
       = ErrorMonitorClass.maxStoredErrors (monitor w)
    /\ ErrorMonitorClass.sessionId (monitor w') = ErrorMonitorClass.sessionId (monitor w)
    /\ ErrorMonitorClass.errors (monitor w')
       = take (ErrorMonitorClass.maxStoredErrors (monitor w))
              (rev (reported nested)
               ++ ErrorMonitor.enhance h (ErrorMonitorClass.sessionId (monitor w)) report
               :: ErrorMonitorClass.errors (monitor w)).
Proof.
  intros Herr Hwarn.
  unfold Reentrant.Store.reportError.
  set (e := ErrorMonitor.enhance h _ report).
  set (mx := ErrorMonitorClass.maxStoredErrors (monitor w)).
  set (es := ErrorMonitorClass.errors (monitor w)).
  set (w1 := with_trace
               (with_monitor w (ErrorMonitorClass.with_errors (monitor w) (take mx (e :: es))))
               (trace w ++ [Logged e])).
  assert (Hrest : keeps_ledger P
            (this ← gets monitor;
             forEach (ErrorMonitorClass.listeners this) (fun i listener =>
               try_catch
                 (emit (Notified i e);; call (listener e))
                 (fun x => console_call error h
                             [ArgString "Error in error listener:"; ArgError x]));;
             Reentrant.Store.persistErrors console_call h)).
  { apply keeps_bind; [apply keeps_gets|]. intros this.
    apply keeps_bind; [|intros _; apply persistErrors_keeps, Hwarn].
    apply keeps_forEach_from. intros i listener.
    apply keeps_try_catch; [|intros x; apply Herr].
    apply keeps_bind; [apply keeps_emit; reflexivity | intros _; apply keeps_call]. }
  destruct (Hrest w1) as (o & w' & nested & E & Ht & Hp & Hx & Hs & He).
  { unfold w1. cbn. rewrite length_take. fold mx. lia. }
  exists o, w', nested.
  split.
  - erewrite bind_returns by reflexivity. cbv beta zeta.
    erewrite bind_returns by reflexivity.
    erewrite bind_returns by reflexivity.
    erewrite (bind_returns _ _ _ tt
                (with_monitor w (ErrorMonitorClass.with_errors (monitor w) (take mx (e :: es))))).
    2:{ unfold Js.slice0.
        match goal with |- context [Nat.ltb ?a ?b] => destruct (Nat.ltb_spec a b) as [Hlt|Hge] end.
        - reflexivity.
        - cbn -[take] in Hge. fold e es mx in Hge.
          rewrite (firstn_all2 (n := mx) (e :: es)) by (simpl; lia).
          destruct w as [[? ? ? ?] ? ? ? ? ?]; reflexivity. }
    erewrite bind_returns by reflexivity.
    exact E.
  - split; [rewrite Ht; unfold w1; cbn; rewrite <- app_assoc; reflexivity|].
    split; [exact Hp|].
    split; [rewrite Hx; reflexivity|]. split; [rewrite Hs; reflexivity|].
    rewrite He. unfold w1. cbn -[take]. fold mx.
    apply take_app_take. lia.
Qed.

End KeepsLedger.

(** Every call on the stack keeps the ledger, whatever the depth and
    the console. *)
Lemma within_keeps c : forall depth call,
  keeps_ledger (fun _ => True) (Reentrant.within depth c call).
Proof.
  induction depth as [|d IH]; intros call.
  - apply keeps_throw; auto.
  - destruct call as [method h args|h level args|h m args|h report]; cbn [Reentrant.within].
    + destruct (bound c method) as [|level].
      * apply keeps_emit; auto.
      * apply createInterceptor_keeps; auto.
    + apply processMessage_keeps; auto.
    + apply reportToErrorMonitor_keeps; auto.
    + intros w Hcap.
      destruct (reportError_stores (fun _ => True) I (fun _ _ _ _ => I) (fun _ _ => I)
                  (fun method h args => Reentrant.within d c (Reentrant.console_ method h args))
                  h report w)
        as (o & w' & nested & E & Ht & _ & Hx & Hs & He); [intros; apply IH..|].
      exists o, w', (Logged (ErrorMonitor.enhance h (ErrorMonitorClass.sessionId (monitor w))
                               report) :: nested).
      split; [exact E|]. split; [exact Ht|]. split; [exact I|].
      split; [exact Hx|]. split; [exact Hs|].
      rewrite He. simpl. rewrite <- app_assoc. reflexivity.
Qed.

(** On a console none of whose methods reports to the store, a call of
    the console stores nothing. *)
Lemma console_reports_nothing c depth method h args :
  reports_nothing c ->
  keeps_ledger (fun added => reported added = [])
               (Reentrant.within depth c (Reentrant.console_ method h args)).
Proof.
  intros Hc.
  assert (Happ : forall t1 t2, reported t1 = [] -> reported t2 = [] -> reported (t1 ++ t2) = []).
  { intros t1 t2 H1 H2. now rewrite reported_app, H1, H2. }
  destruct depth as [|d]; [apply keeps_throw; auto|].
  cbn [Reentrant.within].
  destruct (bound c method) as [|level] eqn:Hb.
  - apply keeps_emit; auto.
  - apply createInterceptor_keeps; auto.
    destruct d as [|d]; [apply keeps_throw; auto|].
    cbn [Reentrant.within].
    apply processMessage_keeps; auto.
    intros ->. elim (Hc method). exact Hb.
Qed.

(** What a call of the console adds to the trace. *)
Lemma console_keeps c depth method h args :
  keeps_ledger (fun added => reports_nothing c -> reported added = [])
               (Reentrant.within depth c (Reentrant.console_ method h args)).
Proof.
  intros w Hcap.
  destruct (within_keeps c depth (Reentrant.console_ method h args) w Hcap)
    as (o & w' & added & E & Ht & _ & Hrest).
  exists o, w', added. split; [exact E|]. split; [exact Ht|]. split; [|exact Hrest].
  intros Hc.
  destruct (console_reports_nothing c depth method h args Hc w Hcap)
    as (o2 & w2 & added2 & E2 & Ht2 & Hr2 & _).
  rewrite E in E2. injection E2 as _ <-.
  rewrite Ht in Ht2. apply app_inv_head in Ht2. now subst.
Qed.

(** One [reportError] on a stack with room for it, on any console. *)
Lemma reportError_within_stores c depth h report w :
  exists o w' nested,
    Reentrant.within (S depth) c (Reentrant.reportError_ h report) w = (o, w')
    /\ trace w' =
       (trace w
        ++ Logged (ErrorMonitor.enhance h (ErrorMonitorClass.sessionId (monitor w)) report)
        :: nested)%list
    /\ (reports_nothing c -> reported nested = [])
    /\ ErrorMonitorClass.maxStoredErrors (monitor w')
       = ErrorMonitorClass.maxStoredErrors (monitor w)
    /\ ErrorMonitorClass.sessionId (monitor w') = ErrorMonitorClass.sessionId (monitor w)
    /\ ErrorMonitorClass.errors (monitor w')
       = take (ErrorMonitorClass.maxStoredErrors (monitor w))
              (rev (reported nested)
               ++ ErrorMonitor.enhance h (ErrorMonitorClass.sessionId (monitor w)) report
               :: ErrorMonitorClass.errors (monitor w)).
Proof.
  cbn [Reentrant.within].
  apply (reportError_stores (fun added => reports_nothing c -> reported added = [])).
  - reflexivity.
  - intros t1 t2 H1 H2 Hc. now rewrite reported_app, H1, H2.
  - intros e He _. exact He.
  - intros args. apply console_keeps.
  - intros args. apply console_keeps.
Qed.

Lemma report_all_within_spec depth c calls : forall i w,
  exists w' added,
    forEach_from i calls
      (fun _ call =>
         try_catch (Reentrant.within (S depth) c
                      (Reentrant.reportError_ (fst call) (snd call)))
                   (fun _ => ret tt)) w
      = (Returns tt, w')
    /\ trace w' = (trace w ++ added)%list
    /\ ErrorMonitorClass.maxStoredErrors (monitor w')
       = ErrorMonitorClass.maxStoredErrors (monitor w)
    /\ ErrorMonitorClass.sessionId (monitor w') = ErrorMonitorClass.sessionId (monitor w)
    /\ (calls <> [] \/ (length (ErrorMonitorClass.errors (monitor w))
                        <= ErrorMonitorClass.maxStoredErrors (monitor w))%nat ->
        ErrorMonitorClass.errors (monitor w')
        = take (ErrorMonitorClass.maxStoredErrors (monitor w))
               (rev (reported added) ++ ErrorMonitorClass.errors (monitor w)))
    /\ sublist (enhanced (ErrorMonitorClass.sessionId (monitor w)) calls) (reported added)
    /\ (reports_nothing c ->
        reported added = enhanced (ErrorMonitorClass.sessionId (monitor w)) calls).
Proof.
  induction calls as [|[h r] calls IH]; intros i w.
  - exists w, []. rewrite app_nil_r. split; [reflexivity|]. repeat split.
    + intros [H|H]; [congruence|]. simpl. now rewrite firstn_all2.
    + constructor.
  - destruct (reportError_within_stores c depth h r w)
      as (o & w1 & nested & E1 & Ht1 & Hn1 & Hx1 & Hs1 & He1).
    destruct (IH (S i) w1) as (w2 & added & E2 & Ht2 & Hx2 & Hs2 & He2 & Hsub & Hq).
    rewrite Hx1 in Hx2, He2. rewrite Hs1 in Hs2, Hsub, Hq.
    set (e := ErrorMonitor.enhance h (ErrorMonitorClass.sessionId (monitor w)) r) in *.
    exists w2, (Logged e :: nested ++ added)%list.
    split.
    { cbn [forEach_from fst snd].
      erewrite bind_returns; [exact E2|].
      unfold try_catch. rewrite E1. destruct o as [[]|x]; reflexivity. }
    split; [rewrite Ht2, Ht1, <- app_assoc; reflexivity|].
    split; [exact Hx2|]. split; [exact Hs2|].
    split; [|split].
    + intros _. rewrite He2.
      * rewrite He1. cbn [reported]. rewrite reported_app.
        cbn [rev]. rewrite rev_app_distr, <- !app_assoc. cbn [app].
        apply take_app_take. lia.
      * right. rewrite He1, length_take. lia.
    + cbn [enhanced map fst snd reported]. fold e. rewrite reported_app.
      apply sublist_skip, sublist_inserts_l. exact Hsub.
    + intros Hc. cbn [enhanced map fst snd reported]. fold e.
      rewrite reported_app, (Hn1 Hc), (Hq Hc). reflexivity.
Qed.

(** C4.  For every sequence of [reportError] calls, whatever the
    console is bound to and however deep the stack, also where a
    listener of the store throws and the line [reportError] writes to
    [console.error] is reported to the store again: when the ledger
    starts within its capacity, or at least one report is made, it ends
    with at most [maxStoredErrors] entries, which are the first
    [maxStoredErrors] of the events stored, newest first, followed by
    the old ledger.
    The events stored are those of the calls, in their order, and
    between them the events the lines on the console were reported as;
    they are those of the calls alone where no method of the console
    reports to the store.  One more report puts its event in front of
    the ledger it finds, and what it stores itself in front of that;
    the result is cut to the capacity, which drops the oldest
    entries. *)
Theorem reportError_ledger_capped
    (depth : nat) (c : GlobalConsole) (calls : list (Host * ErrorReport.t)) (w : World) :
  calls <> [] \/ (length (ErrorMonitorClass.errors (monitor w))
                  <= ErrorMonitorClass.maxStoredErrors (monitor w))%nat ->
  exists w' added,
    report_all_within (S depth) c calls w = (Returns tt, w')
    /\ trace w' = (trace w ++ added)%list
    /\ ErrorMonitorClass.maxStoredErrors (monitor w')
       = ErrorMonitorClass.maxStoredErrors (monitor w)
    /\ (length (ErrorMonitorClass.errors (monitor w'))
        <= ErrorMonitorClass.maxStoredErrors (monitor w))%nat
    /\ ErrorMonitorClass.errors (monitor w')
       = take (ErrorMonitorClass.maxStoredErrors (monitor w))
              (rev (reported added) ++ ErrorMonitorClass.errors (monitor w))
    /\ sublist (enhanced (ErrorMonitorClass.sessionId (monitor w)) calls) (reported added)
    /\ (reports_nothing c ->
        reported added = enhanced (ErrorMonitorClass.sessionId (monitor w)) calls)
    /\ forall h report, exists o w'' nested,
         Reentrant.within (S depth) c (Reentrant.reportError_ h report) w' = (o, w'')
         /\ trace w'' =
            (trace w'
             ++ Logged (ErrorMonitor.enhance h (ErrorMonitorClass.sessionId (monitor w)) report)
             :: nested)%list
         /\ (reports_nothing c -> reported nested = [])
         /\ ErrorMonitorClass.errors (monitor w'')
            = take (ErrorMonitorClass.maxStoredErrors (monitor w))
                   (rev (reported nested)
                    ++ ErrorMonitor.enhance h (ErrorMonitorClass.sessionId (monitor w)) report
                    :: ErrorMonitorClass.errors (monitor w')).
Proof.
  intros Hcap.
  destruct (report_all_within_spec depth c calls 0%nat w)
    as (w' & added & E & Ht & Hx & Hs & He & Hsub & Hq).
  specialize (He Hcap).
  exists w', added. split; [exact E|]. split; [exact Ht|]. split; [exact Hx|].
  split; [rewrite He, length_take; lia|]. split; [exact He|].
  split; [exact Hsub|]. split; [exact Hq|].
  intros h report.
  destruct (reportError_within_stores c depth h report w')
    as (o & w'' & nested & E' & Ht' & Hn' & Hx' & Hs' & He').
  rewrite Hs in Ht', He'. rewrite Hx in He'.
  exists o, w'', nested. auto.
Qed.

(** One report into the empty ledger of capacity 100, where the first
    listener of the store throws, on the console [start] has bound,
    with room for nine frames. *)
Lemma reportError_ledger_capped_witness :
  exists w' added,
    report_all_within 9 example_console [(example_host, example_report)]
                      example_throwing_listener_world = (Returns tt, w')
    /\ trace w' = (trace example_throwing_listener_world ++ added)%list
    /\ ErrorMonitorClass.maxStoredErrors (monitor w')
       = ErrorMonitorClass.maxStoredErrors (monitor example_throwing_listener_world)
    /\ (length (ErrorMonitorClass.errors (monitor w'))
        <= ErrorMonitorClass.maxStoredErrors (monitor example_throwing_listener_world))%nat
    /\ ErrorMonitorClass.errors (monitor w')
       = take (ErrorMonitorClass.maxStoredErrors (monitor example_throwing_listener_world))
              (rev (reported added)
               ++ ErrorMonitorClass.errors (monitor example_throwing_listener_world))
    /\ sublist (enhanced (ErrorMonitorClass.sessionId (monitor example_throwing_listener_world))
                         [(example_host, example_report)])
               (reported added)
    /\ (reports_nothing example_console ->
        reported added
        = enhanced (ErrorMonitorClass.sessionId (monitor example_throwing_listener_world))
                   [(example_host, example_report)])
    /\ forall h report, exists o w'' nested,
         Reentrant.within 9 example_console (Reentrant.reportError_ h report) w' = (o, w'')
         /\ trace w'' =
            (trace w'
             ++ Logged (ErrorMonitor.enhance h
                          (ErrorMonitorClass.sessionId (monitor example_throwing_listener_world))
                          report)
             :: nested)%list
         /\ (reports_nothing example_console -> reported nested = [])
         /\ ErrorMonitorClass.errors (monitor w'')
            = take (ErrorMonitorClass.maxStoredErrors (monitor example_throwing_listener_world))
                   (rev (reported nested)
                    ++ ErrorMonitor.enhance h
                         (ErrorMonitorClass.sessionId (monitor example_throwing_listener_world))
                         report
                    :: ErrorMonitorClass.errors (monitor w')).
Proof.
  apply (reportError_ledger_capped 8 example_console [(example_host, example_report)]
           example_throwing_listener_world).
  right. simpl. lia.
Defined.

(** The same report run: with room for nine frames [reportError] is
    entered three times.  The listener that throws is called each time;
    its error is written to [console.error], captured and reported as a
    [console_error] event, until the third call finds no frame for the
    console.  The ledger holds the two events of the console in front
    of the event reported. *)
Example reportError_reenters :
  let w' := snd (Reentrant.within 9 example_console
                   (Reentrant.reportError_ example_host example_report)
                   example_throwing_listener_world) in
  map ErrorReport.type (ErrorMonitorClass.errors (monitor w'))
  = [console_error; console_error; runtime_error]
  /\ map (fun e => JsError.message (ErrorReport.error e)) (ErrorMonitorClass.errors (monitor w'))
     = ["listener crashed"; "listener crashed"; "x is not defined"]
  /\ length (reported (trace w')) = 3%nat
  /\ length (ConsoleInterceptorClass.capturedMessages (interceptor w')) = 2%nat.
Proof. vm_compute. repeat split. Qed.

(** With room for 409 frames [reportError] is entered 103 times: the
    ledger of capacity 100 holds events of the console alone, and the
    event reported has been evicted. *)
Example reportError_reenters_until_the_report_is_evicted :
  let w' := snd (Reentrant.within 409 example_console
                   (Reentrant.reportError_ example_host example_report)
                   example_throwing_listener_world) in
  length (ErrorMonitorClass.errors (monitor w')) = 100%nat
  /\ forallb (fun e => ErrorType_eqb (ErrorReport.type e) console_error)
             (ErrorMonitorClass.errors (monitor w')) = true
  /\ length (reported (trace w')) = 103%nat.
Proof. vm_compute. repeat split. Qed.

(** On the original console the same call stores its event alone. *)
Example reportError_on_the_original_console :
  let w' := snd (Reentrant.within 9 originalConsole
                   (Reentrant.reportError_ example_host example_report)
                   example_throwing_listener_world) in
  map ErrorReport.type (ErrorMonitorClass.errors (monitor w')) = [runtime_error]
  /\ ConsoleInterceptorClass.capturedMessages (interceptor w') = [].
Proof. vm_compute. repeat split. Qed.




(** ** The failure store: the persisted snapshot *)

(** What [loadPersistedErrors] does with a snapshot that holds a list
    of events. *)
Lemma loadPersistedErrors_spec h w data savedAt session :
  localStorage w = Some (Some (Snapshot (Some data) savedAt session)) ->
  ErrorMonitor.loadPersistedErrors h w
  = (Returns tt,
     with_monitor w
       (ErrorMonitorClass.with_errors (monitor w)
          (List.filter
             (fun e => Js.gt (ErrorReport.timestamp e)
                             (JsDate.toISOString (now h - 24 * 60 * 60 * 1000)))
             data ++ ErrorMonitorClass.errors (monitor w))%list)).
Proof.
  intros Hls. unfold ErrorMonitor.loadPersistedErrors.
  erewrite bind_returns by reflexivity. cbv beta. rewrite Hls.
  unfold try_catch. cbv zeta.
  erewrite bind_returns by reflexivity. reflexivity.
Qed.

(** Without a snapshot that holds a list of events the ledger stays as
    it is, and nothing is thrown. *)
Lemma loadPersistedErrors_nothing h w :
  localStorage w = None \/ localStorage w = Some None
  \/ localStorage w = Some (Some Unparsable)
  \/ (exists savedAt session, localStorage w = Some (Some (Snapshot None savedAt session))) ->
  exists w', ErrorMonitor.loadPersistedErrors h w = (Returns tt, w')
             /\ monitor w' = monitor w.
Proof.
  unfold ErrorMonitor.loadPersistedErrors.
  intros [H|[H|[H|(s1 & s2 & H)]]];
    (eexists; split;
     [ erewrite bind_returns by reflexivity; cbv beta; rewrite H; reflexivity
     | reflexivity ]).
Qed.

(** C7.  With a snapshot in [localStorage], [loadPersistedErrors] puts
    in front of the ledger the entries of the snapshot whose timestamp
    is greater, as a text, than the ISO text of the time 24 hours ago,
    and no other.  For an entry whose timestamp is the ISO text of a
    time [t], that is: [t] is later than 24 hours ago.  A snapshot of
    one event aged 25 hours and one aged 1 hour, loaded into an empty
    ledger, leaves the event aged 1 hour alone. *)
Theorem loadPersistedErrors_keeps_last_24_hours
    (h : Host) (w : World) (data : list ErrorReport.t) (savedAt session : string) :
  localStorage w = Some (Some (Snapshot (Some data) savedAt session)) ->
  JsDate.minTime + 25 * 60 * 60 * 1000 <= now h <= JsDate.maxTime ->
  exists w',
    ErrorMonitor.loadPersistedErrors h w = (Returns tt, w')
    /\ ErrorMonitorClass.errors (monitor w') =
       (List.filter
          (fun e => Js.gt (ErrorReport.timestamp e)
                          (JsDate.toISOString (now h - 24 * 60 * 60 * 1000)))
          data ++ ErrorMonitorClass.errors (monitor w))%list
    /\ (forall e t,
          ErrorReport.timestamp e = JsDate.toISOString t ->
          JsDate.minTime <= t <= JsDate.maxTime ->
          ErrorMonitorClass.errors (monitor w) = [] ->
          (In e (ErrorMonitorClass.errors (monitor w'))
           <-> In e data /\ now h - 24 * 60 * 60 * 1000 < t))
    /\ (forall e25 e1,
          ErrorReport.timestamp e25 = JsDate.toISOString (now h - 25 * 60 * 60 * 1000) ->
          ErrorReport.timestamp e1 = JsDate.toISOString (now h - 1 * 60 * 60 * 1000) ->
          data = [e25; e1] \/ data = [e1; e25] ->
          ErrorMonitorClass.errors (monitor w) = [] ->
          ErrorMonitorClass.errors (monitor w') = [e1]).
Proof.
  intros Hls Hnow. unfold JsDate.minTime, JsDate.maxTime in Hnow.
  eexists. split; [apply (loadPersistedErrors_spec h w data savedAt session Hls)|].
  cbn [monitor with_monitor ErrorMonitorClass.errors ErrorMonitorClass.with_errors].
  split; [reflexivity|]. split.
  - intros e t Ht Hrange Hempty. rewrite Hempty, app_nil_r, filter_In, Ht.
    rewrite gt_toISOString
      by (try assumption; unfold JsDate.minTime, JsDate.maxTime; lia).
    rewrite Z.ltb_lt. reflexivity.
  - intros e25 e1 H25 H1 Hdata Hempty. rewrite Hempty, app_nil_r.
    assert (G25 : Js.gt (ErrorReport.timestamp e25)
                    (JsDate.toISOString (now h - 24 * 60 * 60 * 1000)) = false).
    { rewrite H25, gt_toISOString by (unfold JsDate.minTime, JsDate.maxTime; lia).
      apply Z.ltb_ge. lia. }
    assert (G1 : Js.gt (ErrorReport.timestamp e1)
                   (JsDate.toISOString (now h - 24 * 60 * 60 * 1000)) = true).
    { rewrite H1, gt_toISOString by (unfold JsDate.minTime, JsDate.maxTime; lia).
      apply Z.ltb_lt. lia. }
    destruct Hdata as [-> | ->]; simpl; rewrite G25, G1; reflexivity.
Qed.

(** A snapshot of one event aged one hour and one aged twenty-five. *)
Lemma loadPersistedErrors_keeps_last_24_hours_witness :
  exists w',
    ErrorMonitor.loadPersistedErrors example_host example_snapshot_world = (Returns tt, w')
    /\ ErrorMonitorClass.errors (monitor w') = [example_event_aged 3600000]
    /\ (In (example_event_aged 3600000) (ErrorMonitorClass.errors (monitor w'))
        <-> In (example_event_aged 3600000)
               [example_event_aged 3600000; example_event_aged 90000000]
            /\ now example_host - 24 * 60 * 60 * 1000 < now example_host - 3600000).
Proof.
  destruct (loadPersistedErrors_keeps_last_24_hours example_host example_snapshot_world
              [example_event_aged 3600000; example_event_aged 90000000]
              "2023-11-14T21:13:20.000Z" "session_1699900000000_a1b2c3d4e")
    as (w' & E & _ & Hin & Hscenario).
  - reflexivity.
  - unfold JsDate.minTime, JsDate.maxTime. simpl. lia.
  - exists w'. split; [exact E|]. split.
    + apply (Hscenario (example_event_aged 90000000) (example_event_aged 3600000)).
      * reflexivity.
      * reflexivity.
      * right. reflexivity.
      * reflexivity.
    + apply (Hin (example_event_aged 3600000) (now example_host - 3600000)).
      * reflexivity.
      * unfold JsDate.minTime, JsDate.maxTime. simpl. lia.
      * reflexivity.
Defined.

(** The capacity bounds what [reportError] leaves, not what
    [loadPersistedErrors] leaves: after a hundred reports the snapshot
    holds the twenty newest of them, and loading it puts them in front
    of the full ledger. *)
Example loadPersistedErrors_over_capacity :
  let w := snd (report_all (repeat (example_host, example_report) 100) example_world) in
  let w' := snd (ErrorMonitor.loadPersistedErrors example_host w) in
  length (ErrorMonitorClass.errors (monitor w)) = 100%nat
  /\ length (ErrorMonitorClass.errors (monitor w')) = 120%nat
  /\ ErrorMonitorClass.maxStoredErrors (monitor w') = 100%nat.
Proof. vm_compute. repeat split. Qed.

(** ** The facade *)

Lemma getSystemHealth_recentErrors_le_10 h w :
  (health_recentErrors (MonitoringSystem.getSystemHealth h w) <= 10)%nat.
Proof.
  unfold MonitoringSystem.getSystemHealth, ErrorMonitor.getErrorStats, Js.slice0.
  cbn [health_recentErrors recentErrors].
  etransitivity; [apply filter_length_le|].
  rewrite length_take. lia.
Qed.

Lemma getSystemHealth_never_critical h w :
  status (MonitoringSystem.getSystemHealth h w) <> critical.
Proof.
  pose proof (getSystemHealth_recentErrors_le_10 h w) as Hle.
  unfold MonitoringSystem.getSystemHealth in *.
  cbn [status health_recentErrors] in *.
  destruct (Nat.ltb_spec 10 (length (List.filter
     (fun e => Js.gt (ErrorReport.timestamp e) (JsDate.toISOString (now h - 5 * 60 * 1000)))
     (recentErrors (ErrorMonitor.getErrorStats (monitor w)))))) as [Hlt|Hge].
  - lia.
  - destruct (_ <? _)%nat; discriminate.
Qed.

(** C3: the code at a ledger of eleven failures reported within the
    last second.  The count [getSystemHealth] classifies is taken over
    [getErrorStats().recentErrors], the ten newest entries of the
    ledger, so it is ten and the status is [warning]; no ledger at all
    makes the status [critical]. *)
Theorem getSystemHealth_eleven_recent_failures :
  exists w,
    report_all (repeat (example_host, example_report) 11) example_world = (Returns tt, w)
    /\ length (List.filter
                 (fun e => Js.gt (ErrorReport.timestamp e)
                                 (JsDate.toISOString (now example_host - 5 * 60 * 1000)))
                 (ErrorMonitorClass.errors (monitor w))) = 11%nat
    /\ health_recentErrors (MonitoringSystem.getSystemHealth example_host w) = 10%nat
    /\ status (MonitoringSystem.getSystemHealth example_host w) = warning
    /\ forall h w', status (MonitoringSystem.getSystemHealth h w') <> critical.
Proof.
  eexists. split; [vm_compute; reflexivity|].
  split; [vm_compute; reflexivity|].
  split; [vm_compute; reflexivity|].
  split; [vm_compute; reflexivity|].
  apply getSystemHealth_never_critical.
Qed.

(** ** The remediation registry: registration *)

Lemma missing_not_validated f :
  missing_required f ->
  negb (Js.truthy (ErrorFix.id f)) || negb (Js.truthy (ErrorFix.name f))
  || negb (FixRegistry.pattern_truthy (ErrorFix.errorPattern f))
  || negb (bool_decide (is_Some (ErrorFix.fixFunction f))) = true.
Proof.
  intros [H|[H|[H|H]]]; rewrite H; simpl;
    rewrite ?orb_true_r; reflexivity.
Qed.

Lemma required_validated f :
  has_required f ->
  negb (Js.truthy (ErrorFix.id f)) || negb (Js.truthy (ErrorFix.name f))
  || negb (FixRegistry.pattern_truthy (ErrorFix.errorPattern f))
  || negb (bool_decide (is_Some (ErrorFix.fixFunction f))) = false.
Proof.
  intros (H1 & H2 & H3 & H4). rewrite H1, H2, H3. simpl.
  rewrite bool_decide_eq_true_2 by exact H4. reflexivity.
Qed.

Lemma same_id_refl a : FixRegistry.same_id a a = true.
Proof. destruct a; simpl; [apply String.eqb_refl | reflexivity]. Qed.

Lemma same_id_eq a b : FixRegistry.same_id a b = true -> a = b.
Proof.
  destruct a, b; simpl; try discriminate; [|reflexivity].
  intros H. apply String.eqb_eq in H. now subst.
Qed.

(** The duplicate test of [registerFix], as a proposition. *)
Lemma duplicate_test_true f w :
  existsb (fun r => match objects w !! r with
                    | Some g => FixRegistry.same_id (ErrorFix.id g) (ErrorFix.id f)
                    | None => false
                    end) (FixRegistryClass.fixes (registry w)) = true
  <-> id_registered f w.
Proof.
  rewrite existsb_exists. split.
  - intros (r & Hin & Hr). destruct (objects w !! r) as [g|] eqn:E; [|discriminate].
    exists r, g. auto using same_id_eq.
  - intros (r & g & Hin & Hg & Hid). exists r. split; [exact Hin|].
    rewrite Hg, Hid. apply same_id_refl.
Qed.

(** C6.  [registerFix] throws when a required field is absent, and
    throws when the rule has its required fields and a rule of the same
    id is registered; each time the world it leaves is the world it was
    called in, so nothing of the registry has changed. *)
Theorem registerFix_rejects_unchanged (h : Host) (f : ErrorFix.t) (w : World) :
  (missing_required f ->
   FixRegistry.registerFix h f w
   = (Throws (Error_ "Invalid fix registration: missing required fields"), w))
  /\ (has_required f -> id_registered f w ->
      FixRegistry.registerFix h f w
      = (Throws (Error_ ("Fix with ID " ++ Js.dquote ++ Js.or_else (ErrorFix.id f) EmptyString
                         ++ Js.dquote ++ " already exists")), w)).
Proof.
  split.
  - intros Hmiss. unfold FixRegistry.registerFix.
    rewrite (missing_not_validated f Hmiss). reflexivity.
  - intros Hreq Hdup. unfold FixRegistry.registerFix.
    rewrite (required_validated f Hreq).
    erewrite bind_returns by reflexivity.
    erewrite bind_returns by reflexivity.
    apply duplicate_test_true in Hdup. cbv beta. rewrite Hdup. reflexivity.
Qed.

(** A rule with its required fields and a fresh id is registered: its
    completed copy is a new object, and the list of rules is the old
    list and the new reference, sorted. *)
Lemma registerFix_accepts (h : Host) (f : ErrorFix.t) (w : World) :
  has_required f -> ~ id_registered f w ->
  exists w',
    FixRegistry.registerFix h f w = (Returns tt, w')
    /\ objects w' = (objects w ++ [completeFix h f])%list
    /\ FixRegistryClass.fixes (registry w') =
       js_sort (fun a b => FixRegistry.priority_of (objects w') b
                           - FixRegistry.priority_of (objects w') a)
               (FixRegistryClass.fixes (registry w) ++ [length (objects w)])%list
    /\ FixRegistryClass.fixHistory (registry w') = FixRegistryClass.fixHistory (registry w)
    /\ monitor w' = monitor w /\ interceptor w' = interceptor w
    /\ localStorage w' = localStorage w /\ trace w' = trace w.
Proof.
  intros Hreq Hfresh. unfold FixRegistry.registerFix.
  rewrite (required_validated f Hreq).
  erewrite bind_returns by reflexivity.
  erewrite bind_returns by reflexivity. cbv beta.
  destruct (existsb _ _) eqn:Hdup.
  { exfalso. apply Hfresh. now apply duplicate_test_true. }
  eexists. split; [reflexivity|]. repeat split.
Qed.

(** A rule without id, and the rule [memory_leak] registered a second time. *)
Lemma registerFix_rejects_unchanged_witness :
  FixRegistry.registerFix example_host example_rule_without_id example_registry_world
  = (Throws (Error_ "Invalid fix registration: missing required fields"),
     example_registry_world)
  /\ FixRegistry.registerFix example_host FixRegistry.memory_leak example_registry_world
     = (Throws (Error_ ("Fix with ID " ++ Js.dquote
                        ++ Js.or_else (ErrorFix.id FixRegistry.memory_leak) EmptyString
                        ++ Js.dquote ++ " already exists")),
        example_registry_world).
Proof.
  split.
  - apply (proj1 (registerFix_rejects_unchanged
                    example_host example_rule_without_id example_registry_world)).
    left. reflexivity.
  - apply (proj2 (registerFix_rejects_unchanged
                    example_host FixRegistry.memory_leak example_registry_world)).
    + repeat split. simpl. eauto.
    + exists 0%nat. eexists. split; [left; reflexivity|].
      split; reflexivity.
Defined.

(** ** The remediation registry: order *)

Section Sorting.
Context {A : Type} (key : A -> Z).

Let cmp (a b : A) : Z := key b - key a.
Let R (a b : A) : Prop := key b <= key a.

Lemma sort_insert_perm (x : A) (ys : list A) :
  Permutation (sort_insert cmp x ys) (x :: ys).
Proof.
  induction ys as [|y ys IH]; simpl; [reflexivity|].
  destruct (cmp y x <=? 0); [|reflexivity].
  rewrite IH. apply perm_swap.
Qed.

Lemma js_sort_from_perm (xs : list A) : forall acc,
  Permutation (fold_left (fun acc x => sort_insert cmp x acc) xs acc) (acc ++ xs)%list.
Proof.
  induction xs as [|x xs IH]; intros acc; simpl.
  - now rewrite app_nil_r.
  - rewrite IH, sort_insert_perm. apply Permutation_middle.
Qed.

Lemma js_sort_perm (xs : list A) : Permutation (js_sort cmp xs) xs.
Proof. unfold js_sort. now rewrite js_sort_from_perm. Qed.

Lemma sort_insert_sorted (x : A) (ys : list A) :
  StronglySorted R ys -> StronglySorted R (sort_insert cmp x ys).
Proof.
  induction 1 as [|y ys Hs IH Hall]; simpl.
  - repeat constructor.
  - destruct (Z.leb_spec (cmp y x) 0) as [Hle|Hgt].
    + constructor; [exact IH|].
      eapply Permutation_Forall; [symmetry; apply sort_insert_perm|].
      constructor; [unfold R, cmp in *; lia | exact Hall].
    + constructor; [constructor; assumption|].
      constructor; [unfold R, cmp in *; lia|].
      eapply Forall_impl; [exact Hall|]. unfold R, cmp in *. intros z Hz. simpl in *. lia.
Qed.

Lemma js_sort_sorted (xs : list A) : StronglySorted R (js_sort cmp xs).
Proof.
  unfold js_sort.
  assert (H : forall acc, StronglySorted R acc ->
              StronglySorted R (fold_left (fun acc x => sort_insert cmp x acc) xs acc)).
  { induction xs as [|x xs IH]; intros acc Hacc; simpl; [exact Hacc|].
    apply IH, sort_insert_sorted, Hacc. }
  apply H. constructor.
Qed.
End Sorting.

(** ** The remediation registry: matching *)

(** [matchesFix] reads the rule and the host only: it returns, with the
    same answer in every world, and leaves the world as it is. *)
Lemma check_conditions_pure h cs :
  exists b, forall w, FixRegistry.check_conditions h cs w = (Returns b, w).
Proof.
  induction cs as [|c cs [b IH]]; simpl.
  - exists true. reflexivity.
  - destruct (c h) as [[|]|e].
    + exists b. intros w. unfold mbind, M_bind, bind, try_catch. simpl. apply IH.
    + exists false. reflexivity.
    + exists false. reflexivity.
Qed.

Lemma matchesFix_pure h err f :
  exists b, forall w, FixRegistry.matchesFix h err f w = (Returns b, w).
Proof.
  unfold FixRegistry.matchesFix.
  destruct (negb _).
  - exists false. reflexivity.
  - destruct (ErrorFix.conditions f) as [cs|].
    + apply check_conditions_pure.
    + exists true. reflexivity.
Qed.

Lemma matchesFix_decides h err f w :
  FixRegistry.matchesFix h err f w = (Returns true, w)
  \/ FixRegistry.matchesFix h err f w = (Returns false, w).
Proof. destruct (matchesFix_pure h err f) as [[|] H]; rewrite H; auto. Qed.

Lemma deref_valid r f w : objects w !! r = Some f -> FixRegistry.deref r w = (Returns f, w).
Proof.
  intros H. unfold FixRegistry.deref.
  erewrite bind_returns by reflexivity. cbv beta. now rewrite H.
Qed.

(** [matchesFix] computes what the specification calls a match, for
    every rule that has a matcher. *)
Lemma check_conditions_spec h cs w :
  FixRegistry.check_conditions h cs w
  = (Returns (forallb (condition_returns_true h) cs), w).
Proof.
  induction cs as [|c cs IH]; simpl; [reflexivity|].
  unfold mbind, M_bind, bind, try_catch, condition_returns_true, call.
  destruct (c h) as [[|]|e]; simpl; [exact IH | reflexivity | reflexivity].
Qed.

Lemma matchesFix_spec h err f w :
  is_Some (ErrorFix.errorPattern f) ->
  FixRegistry.matchesFix h err f w = (Returns (rule_matches h err f), w).
Proof.
  intros [p Hp]. unfold FixRegistry.matchesFix, rule_matches. rewrite Hp.
  destruct p as [s|r]; unfold matcher_tests_positive;
    (destruct (_ || _); simpl;
     [ destruct (ErrorFix.conditions f) as [cs|]; [apply check_conditions_spec | reflexivity]
     | reflexivity ]).
Qed.

(** The scan of [findFix] returns and leaves the world as it is, and
    its answer, if any, is a reference of the list. *)
Lemma findFix_loop_returns h err w fs :
  Forall (fun r => (r < length (objects w))%nat) fs ->
  FixRegistry.findFix_loop h err fs w = (Returns None, w)
  \/ (exists r before after,
        FixRegistry.findFix_loop h err fs w = (Returns (Some r), w)
        /\ fs = (before ++ r :: after)%list).
Proof.
  induction 1 as [|r fs Hr Hfs IH]; simpl.
  - left. reflexivity.
  - destruct (lookup_lt_is_Some_2 _ _ Hr) as [f Hf].
    erewrite bind_returns by (apply deref_valid; exact Hf).
    destruct (matchesFix_decides h err f w) as [Ht|Hf'].
    + right. exists r, [], fs. erewrite bind_returns by exact Ht. split; reflexivity.
    + erewrite bind_returns by exact Hf'.
      destruct IH as [E|(r' & before & after & E & ->)].
      * left. exact E.
      * right. exists r', (r :: before), after. split; [exact E | reflexivity].
Qed.

(** The scan of [findFix] over rules that have a matcher answers with
    the first reference whose rule matches, or with [None] when no rule
    does. *)
Lemma findFix_loop_spec h err w fs :
  Forall (fun r => exists f, objects w !! r = Some f /\ is_Some (ErrorFix.errorPattern f)) fs ->
  (FixRegistry.findFix_loop h err fs w = (Returns None, w)
   /\ Forall (fun r => ~ matches h err w r) fs)
  \/ (exists r before after,
        FixRegistry.findFix_loop h err fs w = (Returns (Some r), w)
        /\ fs = (before ++ r :: after)%list
        /\ Forall (fun r' => ~ matches h err w r') before
        /\ matches h err w r).
Proof.
  induction 1 as [|r fs (f & Hf & Hp) Hfs IH]; simpl.
  - left. split; [reflexivity | constructor].
  - erewrite bind_returns by (apply deref_valid; exact Hf).
    erewrite bind_returns by (apply matchesFix_spec; exact Hp).
    destruct (rule_matches h err f) eqn:Hm.
    + right. exists r, [], fs.
      repeat split; [constructor|]. exists f. auto.
    + assert (Hno : ~ matches h err w r).
      { intros (g & Hg & Hm'). assert (g = f) as -> by congruence. congruence. }
      destruct IH as [[E Hall]|(r' & before & after & E & -> & Hb & Hm')].
      * left. split; [exact E | constructor; assumption].
      * right. exists r', (r :: before), after.
        repeat split; [exact E | constructor; assumption | exact Hm'].
Qed.

Lemma StronglySorted_suffix {A} (R : A -> A -> Prop) (l1 l2 : list A) :
  StronglySorted R (l1 ++ l2) -> StronglySorted R l2.
Proof.
  induction l1 as [|x l1 IH]; simpl; [auto|].
  intros H. apply StronglySorted_inv in H. tauto.
Qed.

(** On a registry sorted by descending priority the answer of [findFix]
    has the largest priority among the rules that match. *)
Lemma findFix_max_priority h err w r1 :
  rules_have_matchers w -> sorted_by_priority w ->
  In r1 (FixRegistryClass.fixes (registry w)) -> matches h err w r1 ->
  exists r before after,
    FixRegistry.findFix h err w = (Returns (Some r), w)
    /\ FixRegistryClass.fixes (registry w) = (before ++ r :: after)%list
    /\ Forall (fun r' => ~ matches h err w r') before
    /\ matches h err w r
    /\ FixRegistry.priority_of (objects w) r1 <= FixRegistry.priority_of (objects w) r.
Proof.
  intros Hvalid Hsorted Hin Hm.
  unfold FixRegistry.findFix. erewrite bind_returns by reflexivity. cbv beta.
  destruct (findFix_loop_spec h err w _ Hvalid)
    as [[_ Hall]|(r & before & after & E & Hfs & Hb & Hr)].
  - exfalso. rewrite List.Forall_forall in Hall. exact (Hall r1 Hin Hm).
  - exists r, before, after. repeat split; try assumption.
    unfold sorted_by_priority in Hsorted. rewrite Hfs in Hsorted, Hin.
    apply in_app_or in Hin. destruct Hin as [Hin|[->|Hin]].
    + exfalso. rewrite List.Forall_forall in Hb. exact (Hb r1 Hin Hm).
    + lia.
    + apply StronglySorted_suffix in Hsorted.
      apply StronglySorted_inv in Hsorted. destruct Hsorted as [_ Hall].
      rewrite List.Forall_forall in Hall. exact (Hall r1 Hin).
Qed.

(** A call of [registerFix] throws and leaves the world, or registers a
    rule that has a matcher. *)
Lemma registerFix_cases h f w :
  (exists e, FixRegistry.registerFix h f w = (Throws e, w))
  \/ (exists w',
        FixRegistry.registerFix h f w = (Returns tt, w')
        /\ is_Some (ErrorFix.errorPattern f)
        /\ objects w' = (objects w ++ [completeFix h f])%list
        /\ FixRegistryClass.fixes (registry w') =
           js_sort (fun a b => FixRegistry.priority_of (objects w') b
                               - FixRegistry.priority_of (objects w') a)
                   (FixRegistryClass.fixes (registry w) ++ [length (objects w)])%list).
Proof.
  unfold FixRegistry.registerFix.
  destruct (_ || _) eqn:Hcheck.
  - left. eexists. reflexivity.
  - erewrite bind_returns by reflexivity.
    erewrite bind_returns by reflexivity. cbv beta.
    destruct (existsb _ _).
    + left. eexists. reflexivity.
    + right. eexists. split; [reflexivity|]. split; [|split; reflexivity].
      apply orb_false_elim in Hcheck. destruct Hcheck as [Hcheck _].
      apply orb_false_elim in Hcheck. destruct Hcheck as [_ Hp].
      destruct (ErrorFix.errorPattern f) as [p|]; [eexists; reflexivity | discriminate].
Qed.

Lemma rules_have_matchers_refs_valid w : rules_have_matchers w -> refs_valid w.
Proof.
  unfold rules_have_matchers, refs_valid. intros H.
  eapply Forall_impl; [exact H|].
  intros r (f & Hf & _). eapply lookup_lt_Some. exact Hf.
Qed.

Lemma registerFix_keeps_order h f w o w' :
  rules_have_matchers w -> sorted_by_priority w ->
  FixRegistry.registerFix h f w = (o, w') ->
  rules_have_matchers w' /\ sorted_by_priority w'.
Proof.
  intros Hv Hs E.
  destruct (registerFix_cases h f w) as [[e E']|(w1 & E' & Hp & Ho & Hf)];
    rewrite E' in E; injection E as <- <-.
  - split; assumption.
  - unfold rules_have_matchers, sorted_by_priority. rewrite Hf. split.
    + eapply Permutation_Forall; [symmetry; apply js_sort_perm|].
      rewrite Ho. apply Forall_app. split.
      * eapply Forall_impl; [exact Hv|]. simpl. intros r (g & Hg & Hpg).
        exists g. split; [|exact Hpg]. apply lookup_app_l_Some. exact Hg.
      * repeat constructor. exists (completeFix h f). split.
        -- rewrite lookup_app_r by lia. now rewrite Nat.sub_diag.
        -- exact Hp.
    + apply (js_sort_sorted (FixRegistry.priority_of (objects w1))).
Qed.

Lemma register_all_keeps_order calls : forall i w,
  rules_have_matchers w -> sorted_by_priority w ->
  exists w',
    forEach_from i calls
      (fun _ c => try_catch (FixRegistry.registerFix (fst c) (snd c)) (fun _ => ret tt)) w
    = (Returns tt, w')
    /\ rules_have_matchers w' /\ sorted_by_priority w'.
Proof.
  induction calls as [|[h f] calls IH]; intros i w Hv Hs; simpl.
  - exists w. auto.
  - destruct (FixRegistry.registerFix h f w) as [o w1] eqn:E.
    destruct (registerFix_keeps_order h f w o w1 Hv Hs E) as [Hv1 Hs1].
    destruct (IH (S i) w1 Hv1 Hs1) as (w' & E' & Hv' & Hs').
    exists w'. split; [|auto].
    erewrite bind_returns; [exact E'|].
    unfold try_catch. rewrite E. destruct o as [[]|e]; reflexivity.
Qed.

(** C5, as stated, fails: with three registered rules of the priorities
    9, 5 and 3 that all match one error, the rules of the priorities 5
    and 3 are two rules as the claim asks for, and [findFix] returns
    the rule of the priority 9 and not the rule of the priority 5. *)
Lemma findFix_returns_a_third_rule :
  FixRegistryClass.fixes (registry example_three_matching_world) = [2%nat; 1%nat; 0%nat]
  /\ matches example_host example_error example_three_matching_world 1%nat
  /\ matches example_host example_error example_three_matching_world 0%nat
  /\ FixRegistry.priority_of (objects example_three_matching_world) 1%nat = 5
  /\ FixRegistry.priority_of (objects example_three_matching_world) 0%nat = 3
  /\ FixRegistry.findFix example_host example_error example_three_matching_world
     = (Returns (Some 2%nat), example_three_matching_world)
  /\ FixRegistry.findFix example_host example_error example_three_matching_world
     <> (Returns (Some 1%nat), example_three_matching_world).
Proof.
  split; [vm_compute; reflexivity|].
  split; [exists (completeFix example_host FixRegistry.memory_leak);
          split; vm_compute; reflexivity|].
  split; [exists (completeFix example_host example_leak_rule);
          split; vm_compute; reflexivity|].
  split; [vm_compute; reflexivity|]. split; [vm_compute; reflexivity|].
  assert (E : FixRegistry.findFix example_host example_error example_three_matching_world
              = (Returns (Some 2%nat), example_three_matching_world))
    by (vm_compute; reflexivity).
  split; [exact E|]. rewrite E. intros H. discriminate H.
Qed.

(** C5, amended.  From a registry in order (the empty one is), every
    sequence of registrations leaves the rules sorted by descending
    priority.  There, for two registered rules that both match an error,
    the first of a larger priority than the second, [findFix] returns
    the first rule of the list that matches: no rule before it matches
    and it does; its priority is at least that of the first rule; it is
    not the second rule; and it is the first rule when every other rule
    that matches has a smaller priority than the first. *)
Theorem findFix_prefers_higher_priority
    (calls : list (Host * ErrorFix.t)) (w0 : World) :
  rules_have_matchers w0 -> sorted_by_priority w0 ->
  exists w,
    register_all calls w0 = (Returns tt, w)
    /\ sorted_by_priority w
    /\ forall h err r1 r2,
         In r1 (FixRegistryClass.fixes (registry w)) ->
         In r2 (FixRegistryClass.fixes (registry w)) ->
         matches h err w r1 -> matches h err w r2 ->
         FixRegistry.priority_of (objects w) r2 < FixRegistry.priority_of (objects w) r1 ->
         exists r before after,
           FixRegistry.findFix h err w = (Returns (Some r), w)
           /\ FixRegistryClass.fixes (registry w) = (before ++ r :: after)%list
           /\ Forall (fun r' => ~ matches h err w r') before
           /\ matches h err w r
           /\ FixRegistry.priority_of (objects w) r1 <= FixRegistry.priority_of (objects w) r
           /\ r <> r2
           /\ ((forall r', In r' (FixRegistryClass.fixes (registry w)) ->
                           matches h err w r' -> r' <> r1 ->
                           FixRegistry.priority_of (objects w) r'
                           < FixRegistry.priority_of (objects w) r1) ->
               r = r1).
Proof.
  intros Hv0 Hs0.
  destruct (register_all_keeps_order calls 0%nat w0 Hv0 Hs0) as (w & E & Hv & Hs).
  exists w. split; [exact E|]. split; [exact Hs|].
  intros h err r1 r2 Hin1 Hin2 Hm1 Hm2 Hlt.
  destruct (findFix_max_priority h err w r1 Hv Hs Hin1 Hm1)
    as (r & before & after & Ef & Hfs & Hb & Hr & Hle).
  exists r, before, after. repeat split; try assumption.
  - intros ->. lia.
  - intros Hsmaller. destruct (Nat.eq_dec r r1) as [Heq|Hne]; [exact Heq|].
    exfalso. assert (Hin : In r (FixRegistryClass.fixes (registry w))).
    { rewrite Hfs. apply in_or_app. right. left. reflexivity. }
    specialize (Hsmaller r Hin Hr Hne). lia.
Qed.

(** Four rules registered by ascending priority: 3, 5, 7 and 9.  The
    rules of the priorities 3 and 5 match the error; the matcher of the
    rule of the priority 7 does not test positive, and a condition of
    the rule of the priority 9 throws.  The rule of the priority 5 is
    found. *)
Lemma findFix_prefers_higher_priority_witness :
  register_all [(example_host, example_leak_rule); (example_host, FixRegistry.memory_leak);
                (example_host, example_cors_rule); (example_host, example_guarded_rule)]
               example_world = (Returns tt, example_mixed_world)
  /\ FixRegistryClass.fixes (registry example_mixed_world) = [3%nat; 2%nat; 1%nat; 0%nat]
  /\ FixRegistry.priority_of (objects example_mixed_world) 0%nat
     < FixRegistry.priority_of (objects example_mixed_world) 1%nat
  /\ FixRegistry.findFix example_host example_error example_mixed_world
     = (Returns (Some 1%nat), example_mixed_world).
Proof.
  destruct (findFix_prefers_higher_priority
              [(example_host, example_leak_rule); (example_host, FixRegistry.memory_leak);
               (example_host, example_cors_rule); (example_host, example_guarded_rule)]
              example_world)
    as (w & E & _ & H); [constructor | constructor |].
  assert (Hw : w = example_mixed_world).
  { apply (f_equal snd) in E. symmetry. exact E. }
  subst w.
  split; [exact E|].
  split; [vm_compute; reflexivity|]. split; [vm_compute; reflexivity|].
  destruct (H example_host example_error 1%nat 0%nat)
    as (r & before & after & Ef & _ & _ & _ & _ & _ & Hfirst).
  - vm_compute. right. right. left. reflexivity.
  - vm_compute. right. right. right. left. reflexivity.
  - exists (completeFix example_host FixRegistry.memory_leak).
    split; vm_compute; reflexivity.
  - exists (completeFix example_host example_leak_rule).
    split; vm_compute; reflexivity.
  - vm_compute. reflexivity.
  - rewrite Ef. f_equal. f_equal. f_equal. apply Hfirst.
    intros r' Hin (f & Hf & Hm) Hne. vm_compute in Hin.
    destruct Hin as [<-|[<-|[<-|[<-|[]]]]].
    + vm_compute in Hf. injection Hf as <-. vm_compute in Hm. discriminate Hm.
    + vm_compute in Hf. injection Hf as <-. vm_compute in Hm. discriminate Hm.
    + elim Hne. reflexivity.
    + vm_compute. reflexivity.
Defined.

Lemma check_conditions_throw h cs c e w :
  In c cs -> c h = Throws e ->
  FixRegistry.check_conditions h cs w = (Returns false, w).
Proof.
  induction cs as [|c' cs IH]; intros Hin Hc; [destruct Hin|].
  simpl. unfold mbind, M_bind, bind, try_catch.
  destruct (c' h) as [[|]|e'] eqn:E; simpl; try reflexivity.
  destruct Hin as [->|Hin]; [congruence|]. now apply IH.
Qed.

(** C10.  A rule one of whose conditions throws does not match:
    [matchesFix] returns [false] and throws nothing, and the scan of
    [findFix] goes on with the rules behind it, so that its answer is
    the answer for the rest of the list. *)
Theorem matchesFix_condition_throw_is_no_match
    (h : Host) (err : JsError.t) (f : ErrorFix.t) (w : World)
    (cs : list (Host -> Outcome bool)) (c : Host -> Outcome bool) (e : JsError.t) :
  ErrorFix.conditions f = Some cs -> In c cs -> c h = Throws e ->
  FixRegistry.matchesFix h err f w = (Returns false, w)
  /\ (forall r fs, objects w !! r = Some f ->
        FixRegistry.findFix_loop h err (r :: fs) w = FixRegistry.findFix_loop h err fs w)
  /\ (forall r fs, objects w !! r = Some f ->
        FixRegistryClass.fixes (registry w) = r :: fs ->
        FixRegistry.findFix h err w = FixRegistry.findFix_loop h err fs w).
Proof.
  intros Hcs Hin Hc.
  assert (Hm : FixRegistry.matchesFix h err f w = (Returns false, w)).
  { unfold FixRegistry.matchesFix. destruct (negb _); [reflexivity|].
    rewrite Hcs. eapply check_conditions_throw; eassumption. }
  assert (Hloop : forall r fs, objects w !! r = Some f ->
     FixRegistry.findFix_loop h err (r :: fs) w = FixRegistry.findFix_loop h err fs w).
  { intros r fs Hr. simpl.
    erewrite bind_returns by (apply deref_valid; exact Hr).
    erewrite bind_returns by exact Hm. reflexivity. }
  split; [exact Hm|]. split; [exact Hloop|].
  intros r fs Hr Hfs. unfold FixRegistry.findFix.
  erewrite bind_returns by reflexivity. cbv beta. rewrite Hfs. now apply Hloop.
Qed.

(** A rule of priority 9 whose second condition throws, before a rule of
    priority 3: the latter is found. *)
Lemma matchesFix_condition_throw_is_no_match_witness :
  FixRegistryClass.fixes (registry example_guarded_world) = [0%nat; 1%nat]
  /\ FixRegistry.matchesFix example_host example_error
       (completeFix example_host example_guarded_rule) example_guarded_world
     = (Returns false, example_guarded_world)
  /\ FixRegistry.findFix example_host example_error example_guarded_world
     = (Returns (Some 1%nat), example_guarded_world).
Proof.
  destruct (matchesFix_condition_throw_is_no_match
              example_host example_error (completeFix example_host example_guarded_rule)
              example_guarded_world
              [fun _ => Returns true; fun _ => Throws (Error_ "probe is not a function")]
              (fun _ => Throws (Error_ "probe is not a function"))
              (Error_ "probe is not a function"))
    as (Hm & _ & Hfind).
  - reflexivity.
  - right. left. reflexivity.
  - reflexivity.
  - split; [reflexivity|]. split; [exact Hm|].
    rewrite (Hfind 0%nat [1%nat]); reflexivity.
Defined.

(** ** The remediation registry: statistics *)

(** What [applyFix] does when the fix function settles with [b]: the
    rule counts one more application and takes the time of the call; its
    success rate is recomputed when [b] is [true] and kept when it is
    [false]. *)
Lemma applyFix_resolved h r err ctx w f fn (b : bool) :
  objects w !! r = Some f ->
  ErrorFix.fixFunction f = Some fn ->
  fn err ctx h = Returns b ->
  exists w' f',
    FixRegistry.applyFix h r err ctx w = (Returns b, w')
    /\ objects w' = <[r := f']> (objects w)
    /\ ErrorFix.timesUsed f' = Some (default 0 (ErrorFix.timesUsed f) + 1)
    /\ ErrorFix.lastUsed f' = Some (JsDate.toISOString (now h))
    /\ ErrorFix.successRate f' =
       (if b
        then Some ((default 0%Q (ErrorFix.successRate f)
                    * inject_Z (default 0%Z (ErrorFix.timesUsed f) + 1 - 1)%Z + 1)
                   / inject_Z (default 0%Z (ErrorFix.timesUsed f) + 1)%Z)%Q
        else ErrorFix.successRate f)
    /\ ErrorFix.priority f' = ErrorFix.priority f
    /\ ErrorFix.id f' = ErrorFix.id f.
Proof.
  intros Hr Hfn Hb.
  destruct (FixRegistry.applyFix h r err ctx w) as [o w'] eqn:E.
  unfold FixRegistry.applyFix, try_catch in E.
  erewrite bind_returns in E by (apply deref_valid; exact Hr).
  erewrite bind_returns in E by reflexivity.
  rewrite Hfn in E.
  erewrite (bind_returns _ _ _ b) in E by (rewrite Hb; reflexivity).
  cbv zeta in E.
  do 3 erewrite bind_returns in E by reflexivity.
  match type of E with
  | context [Nat.ltb ?a ?b] => destruct (Nat.ltb a b)
  end; injection E as <- <-; eexists; eexists;
    (split; [reflexivity|]); cbn; repeat split; destruct b; reflexivity.
Qed.

(** What [applyFix] does when the fix function throws: it answers
    [false], adds an entry to the history, and leaves every rule as it
    is. *)
Lemma applyFix_rejected h r err ctx w f fn e :
  objects w !! r = Some f ->
  ErrorFix.fixFunction f = Some fn ->
  fn err ctx h = Throws e ->
  exists w',
    FixRegistry.applyFix h r err ctx w = (Returns false, w')
    /\ objects w' = objects w
    /\ length (FixRegistryClass.fixHistory (registry w'))
       = S (length (FixRegistryClass.fixHistory (registry w))).
Proof.
  intros Hr Hfn He. unfold FixRegistry.applyFix.
  eexists. split.
  - unfold try_catch.
    erewrite bind_returns by (apply deref_valid; exact Hr).
    erewrite bind_returns by reflexivity.
    rewrite Hfn.
    erewrite bind_throws by (rewrite He; reflexivity).
    reflexivity.
  - cbn. split; [reflexivity|]. rewrite length_app. simpl. lia.
Qed.

(** C1: the code at two applications of the rule [memory_leak], the
    first a success (the host has [window.gc]), the second a failure (it
    has not).  The rule then counts two applications and its success
    rate is 1, not 1/2: the rate is recomputed in the success branch
    only.  And an application whose fix function throws is recorded in
    the history but changes no statistic of the rule: its count stays
    0 and its [lastUsed] is the time of its registration. *)
Theorem applyFix_success_then_failure :
  FixRegistry.applyFix example_host_gc 0%nat example_error None example_apply_world
    = (Returns true, example_after_success)
  /\ FixRegistry.applyFix example_host 0%nat example_error None example_after_success
     = (Returns false, example_after_failure)
  /\ (exists f rate,
        objects example_after_failure !! 0%nat = Some f
        /\ ErrorFix.timesUsed f = Some 2
        /\ ErrorFix.successRate f = Some rate
        /\ (rate == 1)%Q /\ ~ (rate == 1 # 2)%Q)
  /\ FixRegistry.applyFix example_host_gc 1%nat example_error None example_apply_world
     = (Returns false, example_after_throw)
  /\ objects example_after_throw = objects example_apply_world
  /\ (exists g,
        objects example_after_throw !! 1%nat = Some g
        /\ ErrorFix.timesUsed g = Some 0
        /\ ErrorFix.lastUsed g = Some (JsDate.toISOString (now example_host)))
  /\ length (FixRegistryClass.fixHistory (registry example_after_throw)) = 1%nat.
Proof.
  split; [vm_compute; reflexivity|].
  split; [vm_compute; reflexivity|].
  split.
  { eexists. exists (1 # 1)%Q.
    split; [vm_compute; reflexivity|].
    split; [reflexivity|]. split; [reflexivity|].
    split; [reflexivity | discriminate]. }
  split; [vm_compute; reflexivity|].
  split; [vm_compute; reflexivity|].
  split.
  { eexists. split; [vm_compute; reflexivity|].
    split; [reflexivity | vm_compute; reflexivity]. }
  vm_compute. reflexivity.
Qed.

(** ** The capture layer *)

Lemma shouldFilterMessage_literal cfg patterns p message :
  filterPatterns cfg = Some patterns -> In (PString p) patterns ->
  Js.includes message p = true ->
  ConsoleInterceptor.shouldFilterMessage cfg message = true.
Proof.
  intros Hcfg Hin Hp. unfold ConsoleInterceptor.shouldFilterMessage. rewrite Hcfg.
  apply existsb_exists. exists (PString p). auto.
Qed.

(** C9.  A console call whose joined message contains a literal text of
    [filterPatterns] is dropped at any level: [processMessage] returns
    and leaves the world as it is, so the capture buffer, the store and
    the trace of listener calls are what they were; the interceptor as a
    whole adds nothing but the call of the original console method when
    [preserveOriginal] is set. *)
Theorem processMessage_drops_filtered
    (h : Host) (level : Level) (args : list Arg) (w : World)
    (patterns : list Pattern) (p : string) :
  filterPatterns (ConsoleInterceptorClass.config (interceptor w)) = Some patterns ->
  In (PString p) patterns ->
  Js.includes (Js.join_space (map ConsoleInterceptor.stringify args)) p = true ->
  ConsoleInterceptor.processMessage h level args w = (Returns tt, w)
  /\ exists w',
       ConsoleInterceptor.createInterceptor level h args w = (Returns tt, w')
       /\ ConsoleInterceptorClass.capturedMessages (interceptor w')
          = ConsoleInterceptorClass.capturedMessages (interceptor w)
       /\ ErrorMonitorClass.errors (monitor w') = ErrorMonitorClass.errors (monitor w)
       /\ localStorage w' = localStorage w
       /\ trace w' =
          (trace w ++
           if preserveOriginal (ConsoleInterceptorClass.config (interceptor w))
           then [OriginalSink level args] else [])%list.
Proof.
  intros Hcfg Hin Hp.
  assert (Hdrop : forall w0, interceptor w0 = interceptor w ->
            ConsoleInterceptor.processMessage h level args w0 = (Returns tt, w0)).
  { intros w0 Hw0. unfold ConsoleInterceptor.processMessage.
    erewrite bind_returns by reflexivity. cbv beta. rewrite Hw0.
    now rewrite (shouldFilterMessage_literal _ patterns p _ Hcfg Hin Hp). }
  split; [apply Hdrop; reflexivity|].
  unfold ConsoleInterceptor.createInterceptor.
  destruct (preserveOriginal (ConsoleInterceptorClass.config (interceptor w))) eqn:Hpo.
  - eexists. split.
    + erewrite bind_returns by reflexivity. cbv beta. rewrite Hpo.
      erewrite bind_returns by reflexivity.
      unfold try_catch. rewrite Hdrop by reflexivity. reflexivity.
    + repeat split.
  - exists w. split.
    + erewrite bind_returns by reflexivity. cbv beta. rewrite Hpo.
      erewrite bind_returns by reflexivity.
      unfold try_catch. rewrite Hdrop by reflexivity. reflexivity.
    + repeat split. now rewrite app_nil_r.
Qed.

(** A call of [console.error] whose message contains the filtered text. *)
Lemma processMessage_drops_filtered_witness :
  ConsoleInterceptor.processMessage example_host error
    [ArgString "a noisy-warning of the framework"; ArgOther "42"] example_world
  = (Returns tt, example_world)
  /\ exists w',
       ConsoleInterceptor.createInterceptor error example_host
         [ArgString "a noisy-warning of the framework"; ArgOther "42"] example_world
       = (Returns tt, w')
       /\ ConsoleInterceptorClass.capturedMessages (interceptor w')
          = ConsoleInterceptorClass.capturedMessages (interceptor example_world)
       /\ ErrorMonitorClass.errors (monitor w') = ErrorMonitorClass.errors (monitor example_world)
       /\ localStorage w' = localStorage example_world
       /\ trace w' =
          (trace example_world ++
           if preserveOriginal (ConsoleInterceptorClass.config (interceptor example_world))
           then [OriginalSink error [ArgString "a noisy-warning of the framework"; ArgOther "42"]]
           else [])%list.
Proof.
  apply (processMessage_drops_filtered example_host error
           [ArgString "a noisy-warning of the framework"; ArgOther "42"] example_world
           [PString "noisy-warning"] "noisy-warning").
  - reflexivity.
  - left. reflexivity.
  - vm_compute. reflexivity.
Defined.

(** The same call without the filtered text is captured, delivered to
    the listener and reported to the store. *)
Example createInterceptor_captures_unfiltered :
  exists w' m r,
    ConsoleInterceptor.createInterceptor error example_host
      [ArgString "a warning of the framework"; ArgOther "42"] example_world
    = (Returns tt, w')
    /\ ConsoleInterceptorClass.capturedMessages (interceptor w') = [m]
    /\ CapturedMessage.message m = "a warning of the framework 42"
    /\ In (Delivered 0 m) (trace w')
    /\ ErrorMonitorClass.errors (monitor w') = [r]
    /\ ErrorReport.type r = console_error
    /\ JsError.message (ErrorReport.error r) = "a warning of the framework 42".
Proof.
  eexists. eexists. eexists.
  split; [vm_compute; reflexivity|].
  split; [reflexivity|]. split; [reflexivity|].
  split; [right; left; reflexivity|].
  repeat split.
Qed.

(** ** The recovery boundary *)

(** C2, as stated, fails: the boundary that has used its three
    attempts and fails once more schedules nothing; the manual retry
    then clears the error and leaves [recoveryAttempts] at 3. *)
Lemma handleManualRetry_keeps_attempts_when_exhausted :
  exists w b,
    example_exhausted_boundary example_world = (Returns b, w)
    /\ ErrorBoundary.hasError (ErrorBoundary.state b) = true
    /\ ErrorBoundary.isRecovering (ErrorBoundary.state b) = false
    /\ ErrorBoundary.recoveryAttempts (ErrorBoundary.state b)
       = ErrorBoundary.maxRecoveryAttempts b
    /\ ErrorBoundary.recoveryTimer b
       = Some {| ErrorBoundary.delay := 4000; ErrorBoundary.pending := false |}
    /\ ErrorBoundary.hasError (ErrorBoundary.state (ErrorBoundary.handleManualRetry b)) = false
    /\ ErrorBoundary.recoveryAttempts (ErrorBoundary.state (ErrorBoundary.handleManualRetry b))
       = 3
    /\ ErrorBoundary.recoveryAttempts (ErrorBoundary.state (ErrorBoundary.handleManualRetry b))
       <> 0.
Proof.
  eexists. eexists.
  split; [vm_compute; reflexivity|].
  repeat split. discriminate.
Qed.

(** C2, amended.  In every state of the boundary, [handleManualRetry]
    clears the error, the error info, the recovering flag and the
    auto-fix flag, so that the boundary renders its children again; it
    leaves [recoveryAttempts], the timer and the attempt budget as they
    are. *)
Theorem handleManualRetry_returns_to_stable (b : ErrorBoundary.t) :
  let b' := ErrorBoundary.handleManualRetry b in
  ErrorBoundary.hasError (ErrorBoundary.state b') = false
  /\ ErrorBoundary.error_ (ErrorBoundary.state b') = None
  /\ ErrorBoundary.errorInfo (ErrorBoundary.state b') = None
  /\ ErrorBoundary.isRecovering (ErrorBoundary.state b') = false
  /\ ErrorBoundary.autoFixApplied (ErrorBoundary.state b') = false
  /\ ErrorBoundary.render b' = ErrorBoundary.Children
  /\ ErrorBoundary.recoveryAttempts (ErrorBoundary.state b')
     = ErrorBoundary.recoveryAttempts (ErrorBoundary.state b)
  /\ ErrorBoundary.recoveryTimer b' = ErrorBoundary.recoveryTimer b
  /\ ErrorBoundary.maxRecoveryAttempts b' = ErrorBoundary.maxRecoveryAttempts b.
Proof. repeat split. Qed.

(** After the manual retry of an exhausted boundary the next failure of
    its children is still out of attempts: nothing is scheduled. *)
Example exhausted_after_manual_retry :
  exists w b w' b',
    example_exhausted_boundary example_world = (Returns b, w)
    /\ ErrorBoundary.child_throws example_host example_error
         {| componentStack := Some "in App" |} (ErrorBoundary.handleManualRetry b) w
       = (Returns b', w')
    /\ ErrorBoundary.hasError (ErrorBoundary.state b') = true
    /\ ErrorBoundary.isRecovering (ErrorBoundary.state b') = false
    /\ ErrorBoundary.recoveryTimer b' = ErrorBoundary.recoveryTimer b
    /\ last (trace w') = Some (Console warn "Max recovery attempts reached for error:").
Proof.
  eexists. eexists. eexists. eexists.
  split; [vm_compute; reflexivity|].
  split; [vm_compute; reflexivity|].
  repeat split.
Qed.

(** * Further properties *)

(** ** The failure store: reporting *)

Lemma with_trace_with_trace w a b : with_trace (with_trace w a) b = with_trace w b.
Proof. reflexivity. Qed.

Lemma with_trace_id w : with_trace w (trace w) = w.
Proof. destruct w; reflexivity. Qed.

Lemma store_listeners_run (e : ErrorReport.t) ls : forall i w,
  forEach_from i ls
    (fun i listener =>
       try_catch (emit (Notified i e);; call (listener e))
                 (fun _ => emit (Console error "Error in error listener:"))) w
  = (Returns tt, with_trace w (trace w ++ store_listeners_trace i ls e)).
Proof.
  induction ls as [|l ls IH]; intros i w; simpl.
  - now rewrite app_nil_r, with_trace_id.
  - destruct (l e) as [[]|x] eqn:El.
    + erewrite bind_returns
        by (cbv beta; unfold try_catch, mbind, M_bind, bind, emit, modify; reflexivity).
      rewrite IH. simpl. rewrite <- app_assoc. reflexivity.
    + erewrite bind_returns
        by (cbv beta; unfold try_catch, mbind, M_bind, bind, emit, modify; reflexivity).
      rewrite IH. simpl. rewrite <- !app_assoc. reflexivity.
Qed.

(** [persistErrors], exactly. *)
Lemma persistErrors_run h w :
  ErrorMonitor.persistErrors h w
  = (Returns tt,
     with_trace
       (with_localStorage w
          (persisted h (ErrorMonitorClass.sessionId (monitor w))
                     (ErrorMonitorClass.errors (monitor w)) (localStorage w)))
       (trace w ++ persist_trace h (localStorage w))).
Proof.
  unfold ErrorMonitor.persistErrors, persisted, persist_trace.
  erewrite bind_returns by reflexivity. cbv beta.
  destruct w as [m i r o ls t]. simpl.
  destruct ls as [old|]; [|simpl; now rewrite app_nil_r].
  unfold try_catch. erewrite bind_returns by reflexivity. cbv beta zeta.
  destruct (storage_write_ok h); simpl; [now rewrite app_nil_r | reflexivity].
Qed.

(** The world one [reportError] leaves. *)
Lemma reportError_run h report w :
  let e := ErrorMonitor.enhance h (ErrorMonitorClass.sessionId (monitor w)) report in
  let es := take (ErrorMonitorClass.maxStoredErrors (monitor w))
                 (e :: ErrorMonitorClass.errors (monitor w)) in
  ErrorMonitor.reportError h report w
  = (Returns tt,
     {| monitor := ErrorMonitorClass.with_errors (monitor w) es;
        interceptor := interceptor w;
        registry := registry w;
        objects := objects w;
        localStorage :=
          persisted h (ErrorMonitorClass.sessionId (monitor w)) es (localStorage w);
        trace :=
          (trace w ++ [Logged e]
           ++ store_listeners_trace 0 (ErrorMonitorClass.listeners (monitor w)) e
           ++ persist_trace h (localStorage w))%list |}).
Proof.
  intros e es. unfold ErrorMonitor.reportError.
  erewrite bind_returns by reflexivity. cbv beta zeta. fold e.
  erewrite bind_returns by reflexivity.
  erewrite bind_returns by reflexivity.
  erewrite (bind_returns _ _ _ tt
              (with_monitor w (ErrorMonitorClass.with_errors (monitor w) es))).
  2:{ unfold Js.slice0.
      match goal with |- context [Nat.ltb ?a ?b] => destruct (Nat.ltb_spec a b) as [Hlt|Hge] end.
      - reflexivity.
      - cbn -[take] in Hge. unfold es.
        rewrite (firstn_all2 (n := ErrorMonitorClass.maxStoredErrors (monitor w))
                   (e :: ErrorMonitorClass.errors (monitor w))) by (simpl; lia).
        destruct w as [[? ? ? ?] ? ? ? ? ?]; reflexivity. }
  erewrite bind_returns by reflexivity.
  erewrite bind_returns by reflexivity.
  unfold forEach. erewrite bind_returns by apply store_listeners_run.
  rewrite persistErrors_run. cbn. rewrite <- !app_assoc. reflexivity.
Qed.

Lemma notified_indices_app t1 t2 :
  notified_indices (t1 ++ t2) = (notified_indices t1 ++ notified_indices t2)%list.
Proof.
  induction t1 as [|[] t1 IH]; simpl; rewrite ?IH; reflexivity.
Qed.

Lemma notified_indices_listeners e ls : forall i,
  notified_indices (store_listeners_trace i ls e) = seq i (length ls).
Proof.
  induction ls as [|l ls IH]; intros i; simpl; [reflexivity|].
  f_equal. rewrite notified_indices_app, IH.
  destruct (l e); reflexivity.
Qed.

Lemma store_listeners_original (e : ErrorReport.t) h d ls : forall i w,
  exists t,
    forEach_from i ls
      (fun i listener =>
         try_catch (emit (Notified i e);; call (listener e))
                   (fun x => Reentrant.within (S d) originalConsole
                               (Reentrant.console_ error h
                                  [ArgString "Error in error listener:"; ArgError x]))) w
    = (Returns tt, with_trace w (trace w ++ t)).
Proof.
  induction ls as [|l ls IH]; intros i w; cbn [forEach_from].
  - exists []. now rewrite app_nil_r, with_trace_id.
  - cbv beta. destruct (l e) as [[]|x] eqn:El.
    + erewrite bind_returns
        by (unfold try_catch, mbind, M_bind, bind, emit, modify; reflexivity).
      destruct (IH (S i) (with_trace w (trace w ++ [Notified i e]))) as [t Ht].
      rewrite Ht. eexists. cbn [trace with_trace].
      rewrite with_trace_with_trace, <- app_assoc. reflexivity.
    + erewrite bind_returns
        by (unfold try_catch, mbind, M_bind, bind, emit, modify; reflexivity).
      match goal with |- context [forEach_from _ _ _ ?w1] =>
        destruct (IH (S i) w1) as [t Ht]; rewrite Ht end.
      eexists. cbn [trace with_trace].
      rewrite !with_trace_with_trace, <- !app_assoc. reflexivity.
Qed.

Lemma persistErrors_original h d w :
  exists t,
    Reentrant.Store.persistErrors
      (fun method h args =>
         Reentrant.within (S d) originalConsole (Reentrant.console_ method h args)) h w
    = (Returns tt,
       with_trace
         (with_localStorage w
            (persisted h (ErrorMonitorClass.sessionId (monitor w))
                       (ErrorMonitorClass.errors (monitor w)) (localStorage w)))
         (trace w ++ t)).
Proof.
  unfold Reentrant.Store.persistErrors, persisted.
  erewrite bind_returns by reflexivity. cbv beta.
  destruct w as [m i r o ls t]. simpl.
  destruct ls as [old|]; [|exists []; simpl; now rewrite app_nil_r].
  unfold try_catch. erewrite bind_returns by reflexivity. cbv beta zeta.
  destruct (storage_write_ok h); simpl.
  - exists []. now rewrite app_nil_r.
  - eexists. reflexivity.
Qed.

(** While the console has its original methods, and with room for the
    call and for a call of the console, [reportError] with its lines
    written to the console leaves the state [reportError] with its
    lines kept in the trace leaves: the two differ in how the trace
    shows the lines. *)
Lemma reportError_agrees_on_the_original_console (depth : nat) h report w :
  exists w',
    Reentrant.within (S (S depth)) originalConsole (Reentrant.reportError_ h report) w
    = (Returns tt, w')
    /\ same_state (snd (ErrorMonitor.reportError h report w)) w'.
Proof.
  rewrite reportError_run. cbn [snd].
  change (Reentrant.within (S (S depth)) originalConsole (Reentrant.reportError_ h report))
    with (Reentrant.Store.reportError
            (fun method h args =>
               Reentrant.within (S depth) originalConsole (Reentrant.console_ method h args))
            h report).
  set (e := ErrorMonitor.enhance h (ErrorMonitorClass.sessionId (monitor w)) report).
  set (es := take (ErrorMonitorClass.maxStoredErrors (monitor w))
                  (e :: ErrorMonitorClass.errors (monitor w))).
  set (w1 := with_trace
               (with_monitor w (ErrorMonitorClass.with_errors (monitor w) es))
               (trace w ++ [Logged e])).
  destruct (store_listeners_original e h depth (ErrorMonitorClass.listeners (monitor w))
              0%nat w1) as [t1 Ht1].
  destruct (persistErrors_original h depth (with_trace w1 (trace w1 ++ t1))) as [t2 Ht2].
  eexists. split.
  - unfold Reentrant.Store.reportError.
    erewrite bind_returns by reflexivity. cbv beta zeta. fold e.
    erewrite bind_returns by reflexivity.
    erewrite bind_returns by reflexivity.
    erewrite (bind_returns _ _ _ tt
                (with_monitor w (ErrorMonitorClass.with_errors (monitor w) es))).
    2:{ unfold Js.slice0.
        match goal with |- context [Nat.ltb ?a ?b] => destruct (Nat.ltb_spec a b) as [Hlt|Hge] end.
        - reflexivity.
        - cbn -[take] in Hge. unfold es.
          rewrite (firstn_all2 (n := ErrorMonitorClass.maxStoredErrors (monitor w))
                     (e :: ErrorMonitorClass.errors (monitor w))) by (simpl; lia).
          destruct w as [[? ? ? ?] ? ? ? ? ?]; reflexivity. }
    erewrite bind_returns by reflexivity.
    erewrite bind_returns by reflexivity.
    unfold forEach. erewrite bind_returns by exact Ht1.
    exact Ht2.
  - cbn. repeat split.
Qed.

(** X1.  While the interceptor does not run, [reportError] never
    throws, whatever its listeners and the storage do: it logs the
    enhanced report, then calls every listener once, in the order of
    registration, a listener that throws costing one line on the
    console and nothing else. *)
Theorem reportError_calls_every_listener (h : Host) (report : ErrorReport.t) (w : World)
    (Hidle : interceptor_idle w) :
  exists w' added,
    ErrorMonitor.reportError h report w = (Returns tt, w')
    /\ trace w' = (trace w ++ added)%list
    /\ added =
       (Logged (ErrorMonitor.enhance h (ErrorMonitorClass.sessionId (monitor w)) report)
        :: store_listeners_trace 0 (ErrorMonitorClass.listeners (monitor w))
             (ErrorMonitor.enhance h (ErrorMonitorClass.sessionId (monitor w)) report)
        ++ persist_trace h (localStorage w))%list
    /\ notified_indices added = seq 0 (length (ErrorMonitorClass.listeners (monitor w)))
    /\ ErrorMonitorClass.listeners (monitor w') = ErrorMonitorClass.listeners (monitor w).
Proof.
  eexists. eexists. split; [apply reportError_run|].
  cbn [trace monitor]. split; [reflexivity|]. split; [reflexivity|]. split.
  - cbn [app notified_indices]. rewrite notified_indices_app, notified_indices_listeners.
    unfold persist_trace. destruct (localStorage w); [destruct (storage_write_ok h)|];
      simpl; now rewrite app_nil_r.
  - reflexivity.
Qed.

(** A report into [example_idle_world], whose first listener throws:
    both listeners are called, and the error of the first is written
    to the console. *)
Lemma reportError_calls_every_listener_witness :
  exists w' added,
    ErrorMonitor.reportError example_host example_report example_idle_world = (Returns tt, w')
    /\ trace w' = (trace example_idle_world ++ added)%list
    /\ notified_indices added = [0%nat; 1%nat]
    /\ In (Console error "Error in error listener:") added.
Proof.
  destruct (reportError_calls_every_listener example_host example_report example_idle_world)
    as (w' & added & E & Ht & Ha & Hn & _); [reflexivity|].
  exists w', added. split; [exact E|]. split; [exact Ht|]. split; [exact Hn|].
  rewrite Ha. right. right. left. reflexivity.
Defined.

(** X2.  While the interceptor does not run: after a report,
    [localStorage] holds a snapshot of the twenty newest entries of the
    ledger, with the time of the call and the session id, when it
    exists and the write completes.  Of each entry the snapshot has
    what a JSON text keeps: its type, its timestamp, its session id,
    user agent, url and user id, and its error info.  The storage is
    left as it was when the write throws, which costs a warning and
    does not undo the report. *)
Theorem reportError_persists_newest_twenty (h : Host) (report : ErrorReport.t) (w : World)
    (Hidle : interceptor_idle w) :
  exists w',
    ErrorMonitor.reportError h report w = (Returns tt, w')
    /\ ErrorMonitorClass.errors (monitor w') =
       take (ErrorMonitorClass.maxStoredErrors (monitor w))
            (ErrorMonitor.enhance h (ErrorMonitorClass.sessionId (monitor w)) report
               :: ErrorMonitorClass.errors (monitor w))
    /\ match localStorage w with
       | None => localStorage w' = None
       | Some old =>
           if storage_write_ok h
           then exists stored,
                  localStorage w'
                  = Some (Some (Snapshot (Some stored) (JsDate.toISOString (now h))
                                         (ErrorMonitorClass.sessionId (monitor w))))
                  /\ map json_kept stored
                     = map json_kept (take 20 (ErrorMonitorClass.errors (monitor w')))
           else localStorage w' = Some old
       end
    /\ exists before, trace w' = (before ++ persist_trace h (localStorage w))%list.
Proof.
  eexists. split; [apply reportError_run|].
  cbn [monitor localStorage trace ErrorMonitorClass.errors ErrorMonitorClass.with_errors].
  split; [reflexivity|]. split.
  - unfold persisted. destruct (localStorage w) as [old|]; [|reflexivity].
    destruct (storage_write_ok h); [|reflexivity].
    eexists. split; reflexivity.
  - eexists. rewrite !app_assoc. reflexivity.
Qed.

(** A report into [example_idle_world], whose storage is empty: the
    snapshot has one entry, of the type and the timestamp of the
    report. *)
Lemma reportError_persists_newest_twenty_witness :
  exists w' stored,
    ErrorMonitor.reportError example_host example_report example_idle_world = (Returns tt, w')
    /\ localStorage w'
       = Some (Some (Snapshot (Some stored) "2023-11-14T22:13:20.000Z"
                              "session_1700000000000_k3j9x2m1q"))
    /\ map ErrorReport.type stored = [runtime_error]
    /\ map ErrorReport.timestamp stored = ["2023-11-14T22:13:19.000Z"].
Proof.
  destruct (reportError_persists_newest_twenty example_host example_report example_idle_world)
    as (w' & E & He & Hs & _); [reflexivity|].
  cbn [localStorage example_idle_world with_interceptor example_throwing_listener_world
       with_monitor example_world storage_write_ok example_host] in Hs.
  destruct Hs as (stored & Hl & Hk).
  exists w', stored. split; [exact E|]. split; [exact Hl|].
  rewrite He in Hk.
  split.
  - transitivity (map (fun k => fst (fst (fst (fst (fst (fst k)))))) (map json_kept stored));
      [rewrite map_map; reflexivity | rewrite Hk; reflexivity].
  - transitivity (map (fun k => snd (fst (fst (fst (fst (fst k)))))) (map json_kept stored));
      [rewrite map_map; reflexivity | rewrite Hk; reflexivity].
Defined.

(** ** The failure store: statistics *)

Section Counting.
Context {K : Type} (eqb : K -> K -> bool).
Hypothesis eqb_eq : forall a b, eqb a b = true <-> a = b.

Lemma record_get_bump (k' : K) (m : list (K * Z)) (k : K) :
  record_get eqb (bump eqb k' m) k = record_get eqb m k + (if eqb k' k then 1 else 0).
Proof.
  induction m as [|[a n] m IH]; simpl.
  - destruct (eqb k' k); reflexivity.
  - destruct (eqb a k') eqn:Eak'; simpl.
    + apply eqb_eq in Eak'. subst a. destruct (eqb k' k); lia.
    + destruct (eqb a k) eqn:Eak; [|exact IH].
      apply eqb_eq in Eak. subst a.
      destruct (eqb k' k) eqn:E2; [|lia].
      apply eqb_eq in E2. subst k'.
      rewrite (proj2 (eqb_eq k k) eq_refl) in Eak'. discriminate.
Qed.

Lemma total_count_bump (k : K) (m : list (K * Z)) :
  total_count (bump eqb k m) = total_count m + 1.
Proof.
  induction m as [|[a n] m IH]; simpl; [reflexivity|].
  destruct (eqb a k); unfold total_count in *; simpl in *; lia.
Qed.

Lemma bump_keys (k : K) (m : list (K * Z)) :
  map fst (bump eqb k m) = map fst m /\ In k (map fst m)
  \/ map fst (bump eqb k m) = (map fst m ++ [k])%list /\ ~ In k (map fst m).
Proof.
  induction m as [|[a n] m IH]; simpl.
  - right. auto.
  - destruct (eqb a k) eqn:E; simpl.
    + apply eqb_eq in E. subst. left. auto.
    + assert (Hne : a <> k).
      { intros ->. rewrite (proj2 (eqb_eq k k) eq_refl) in E. discriminate. }
      destruct IH as [[-> Hin]|[-> Hnin]]; [left | right]; intuition.
Qed.

Lemma bump_NoDup (k : K) (m : list (K * Z)) :
  NoDup (map fst m) -> NoDup (map fst (bump eqb k m)).
Proof.
  intros Hnd. destruct (bump_keys k m) as [[-> _]|[-> Hnin]]; [exact Hnd|].
  apply NoDup_app. split; [exact Hnd|]. split; [|apply NoDup_singleton].
  intros x Hx Hx'. apply list_elem_of_In in Hx. apply list_elem_of_In in Hx'.
  destruct Hx' as [<-|[]]. auto.
Qed.

Lemma bump_positive (k : K) (m : list (K * Z)) :
  Forall (fun kv => 0 < snd kv) m -> Forall (fun kv => 0 < snd kv) (bump eqb k m).
Proof.
  induction 1 as [|[a n] m Hn Hm IH]; simpl.
  - repeat constructor.
  - destruct (eqb a k); constructor; simpl in *; auto; lia.
Qed.

(** Counting the keys of a list into an empty record. *)
Lemma count_into_record {A} (key : A -> K) (xs : list A) :
  let m := fold_left (fun acc x => bump eqb (key x) acc) xs [] in
  (forall k, record_get eqb m k = occurrences eqb (map key xs) k)
  /\ total_count m = Z.of_nat (length xs)
  /\ NoDup (map fst m)
  /\ Forall (fun kv => 0 < snd kv) m.
Proof.
  assert (G : forall acc,
    let m := fold_left (fun acc x => bump eqb (key x) acc) xs acc in
    (forall k, record_get eqb m k = record_get eqb acc k + occurrences eqb (map key xs) k)
    /\ total_count m = total_count acc + Z.of_nat (length xs)
    /\ (NoDup (map fst acc) -> NoDup (map fst m))
    /\ (Forall (fun kv => 0 < snd kv) acc -> Forall (fun kv => 0 < snd kv) m)).
  { induction xs as [|x xs IH]; intros acc; simpl.
    - repeat split; auto; intros; unfold occurrences; simpl; lia.
    - destruct (IH (bump eqb (key x) acc)) as (H1 & H2 & H3 & H4).
      repeat split.
      + intros k. rewrite H1, record_get_bump. unfold occurrences. simpl.
        destruct (eqb (key x) k); simpl; lia.
      + rewrite H2, total_count_bump. lia.
      + intros Hnd. apply H3, bump_NoDup, Hnd.
      + intros Hp. apply H4, bump_positive, Hp. }
  destruct (G []) as (H1 & H2 & H3 & H4). simpl.
  repeat split.
  - intros k. rewrite H1. reflexivity.
  - rewrite H2. reflexivity.
  - apply H3. constructor.
  - apply H4. constructor.
Qed.

(** In a record without repeated keys a pair is found by its key. *)
Lemma record_get_In (m : list (K * Z)) (k : K) (n : Z) :
  NoDup (map fst m) -> In (k, n) m -> record_get eqb m k = n.
Proof.
  induction m as [|[a c] m IH]; simpl; intros Hnd Hin; [contradiction|].
  destruct Hin as [Heq|Hin].
  - injection Heq as -> ->. now rewrite (proj2 (eqb_eq k k) eq_refl).
  - apply NoDup_cons in Hnd. destruct Hnd as [Hnin Hnd].
    destruct (eqb a k) eqn:E.
    + apply eqb_eq in E. subst a. exfalso. apply Hnin.
      apply list_elem_of_In. change k with (fst (k, n)). now apply in_map.
    + auto.
Qed.
End Counting.

Lemma ErrorType_eqb_eq a b : ErrorType_eqb a b = true <-> a = b.
Proof. destruct a, b; simpl; split; congruence. Qed.

(** X3.  On a ledger none of whose messages is the name of a property
    that objects inherit, [getErrorStats] counts every entry once under
    its type and once under its message (an empty message under
    ['Unknown error']): the count read at a key, of a type or of a
    message that is no such name, is the number of entries with that
    key; the counts of either record add up to [totalErrors], the
    length of the ledger; and no key is repeated. *)
Theorem getErrorStats_counts_every_entry (this : ErrorMonitorClass.t)
    (Hown : own_keys (map message_key (ErrorMonitorClass.errors this)) = true) :
  let stats := ErrorMonitor.getErrorStats this in
  totalErrors stats = length (ErrorMonitorClass.errors this)
  /\ (forall ty, record_get ErrorType_eqb (errorsByType stats) ty
                 = occurrences ErrorType_eqb
                     (map ErrorReport.type (ErrorMonitorClass.errors this)) ty)
  /\ (forall msg, own_keys [msg] = true ->
                  record_get String.eqb (errorsByMessage stats) msg
                  = occurrences String.eqb
                      (map message_key (ErrorMonitorClass.errors this)) msg)
  /\ total_count (errorsByType stats) = Z.of_nat (totalErrors stats)
  /\ total_count (errorsByMessage stats) = Z.of_nat (totalErrors stats)
  /\ NoDup (map fst (errorsByType stats))
  /\ NoDup (map fst (errorsByMessage stats))
  /\ recentErrors stats = take 10 (ErrorMonitorClass.errors this).
Proof.
  cbv zeta. unfold ErrorMonitor.getErrorStats.
  cbn [totalErrors errorsByType errorsByMessage recentErrors].
  destruct (count_into_record ErrorType_eqb ErrorType_eqb_eq ErrorReport.type
              (ErrorMonitorClass.errors this)) as (T1 & T2 & T3 & _).
  destruct (count_into_record String.eqb String.eqb_eq message_key
              (ErrorMonitorClass.errors this)) as (M1 & M2 & M3 & _).
  repeat split; try assumption. intros msg _. apply M1.
Qed.

(** In [example_ledger], three entries, two of them with the message
    ["Network Error"]. *)
Lemma getErrorStats_counts_every_entry_witness :
  totalErrors (ErrorMonitor.getErrorStats example_ledger) = 3%nat
  /\ record_get String.eqb (errorsByMessage (ErrorMonitor.getErrorStats example_ledger))
       "Network Error" = 2.
Proof.
  pose proof (getErrorStats_counts_every_entry example_ledger eq_refl) as H.
  cbv zeta in H. destruct H as (Ht & _ & Hm & _).
  split; [exact Ht|]. rewrite Hm; reflexivity.
Defined.

Lemma StronglySorted_take {A} (R : A -> A -> Prop) (n : nat) (l : list A) :
  StronglySorted R l -> StronglySorted R (take n l).
Proof.
  intros H. revert n. induction H as [|x l Hs IH Hall]; intros [|n]; simpl;
    try constructor; auto.
  rewrite List.Forall_forall in *. intros y Hy. apply Hall.
  apply list_elem_of_In. apply list_elem_of_In in Hy.
  exact (subseteq_take n l y Hy).
Qed.

Lemma StronglySorted_app_cross {A} (R : A -> A -> Prop) (l1 l2 : list A) :
  StronglySorted R (l1 ++ l2) -> forall x y, In x l1 -> In y l2 -> R x y.
Proof.
  induction l1 as [|a l1 IH]; simpl; intros H x y Hx Hy; [contradiction|].
  apply StronglySorted_inv in H. destruct H as [Hs Hall].
  destruct Hx as [<-|Hx]; [|eauto].
  rewrite List.Forall_forall in Hall. apply Hall, in_or_app. auto.
Qed.

(** X4.  On a ledger none of whose messages is the name of a property
    that objects inherit, [topErrors] lists at most ten keys of
    [errorsByMessage], each with its count, by descending count; a key
    it leaves out is counted no more often than any it lists.
    [lastOccurred] is the timestamp of the first entry of the ledger
    whose message is the key, or [''] when no message is. *)
Theorem getErrorStats_topErrors_are_the_most_frequent (this : ErrorMonitorClass.t)
    (Hown : own_keys (map message_key (ErrorMonitorClass.errors this)) = true) :
  let stats := ErrorMonitor.getErrorStats this in
  length (topErrors stats) = Nat.min 10 (length (errorsByMessage stats))
  /\ StronglySorted (fun a b => TopError.count b <= TopError.count a) (topErrors stats)
  /\ (forall t, In t (topErrors stats) ->
        In (TopError.message t, TopError.count t) (errorsByMessage stats)
        /\ t = top_entry (ErrorMonitorClass.errors this) (TopError.message t) (TopError.count t))
  /\ (forall message count t,
        In (message, count) (errorsByMessage stats) ->
        ~ In (top_entry (ErrorMonitorClass.errors this) message count) (topErrors stats) ->
        In t (topErrors stats) ->
        count <= TopError.count t).
Proof.
  cbv zeta. unfold ErrorMonitor.getErrorStats.
  cbn [topErrors errorsByMessage]. unfold Js.slice0.
  set (es := ErrorMonitorClass.errors this).
  set (ebm := fold_left _ es []).
  set (mk := fun '(message, count) => _).
  assert (Hmk : forall m c, mk (m, c) = top_entry es m c) by reflexivity.
  set (L := js_sort _ (map mk ebm)).
  assert (Hperm : Permutation L (map mk ebm)) by apply (js_sort_perm TopError.count).
  assert (Hsort : StronglySorted (fun a b => TopError.count b <= TopError.count a) L)
    by apply (js_sort_sorted TopError.count).
  assert (Hin : forall t, In t L ->
            In (TopError.message t, TopError.count t) ebm
            /\ t = top_entry es (TopError.message t) (TopError.count t)).
  { intros t Ht. apply (Permutation_in _ Hperm) in Ht.
    apply in_map_iff in Ht. destruct Ht as ([m c] & <- & Hmc).
    rewrite Hmk. simpl. auto. }
  split; [|split; [|split]].
  - rewrite length_take, (Permutation_length Hperm), length_map. lia.
  - now apply StronglySorted_take.
  - intros t Ht. apply Hin. apply list_elem_of_In. apply list_elem_of_In in Ht.
    exact (subseteq_take 10 L t Ht).
  - intros m c t Hmc Hnot Ht.
    assert (HL : In (top_entry es m c) L).
    { apply (Permutation_in _ (Permutation_sym Hperm)).
      rewrite <- Hmk. now apply in_map. }
    rewrite <- (take_drop 10 L) in HL, Hsort.
    apply in_app_or in HL. destruct HL as [HL|HL]; [contradiction|].
    apply (StronglySorted_app_cross _ _ _ Hsort t (top_entry es m c) Ht HL).
Qed.

(** In [example_ledger] the message counted twice comes first, with
    the timestamp of the newest entry that has it. *)
Lemma getErrorStats_topErrors_are_the_most_frequent_witness :
  length (topErrors (ErrorMonitor.getErrorStats example_ledger)) = 2%nat
  /\ StronglySorted (fun a b => TopError.count b <= TopError.count a)
       (topErrors (ErrorMonitor.getErrorStats example_ledger))
  /\ hd_error (topErrors (ErrorMonitor.getErrorStats example_ledger))
     = Some {| TopError.message := "Network Error"; TopError.count := 2;
               TopError.lastOccurred := "2023-11-14T22:13:19.000Z" |}.
Proof.
  pose proof (getErrorStats_topErrors_are_the_most_frequent example_ledger eq_refl) as H.
  cbv zeta in H. destruct H as (Hl & Hs & _).
  split; [exact Hl|]. split; [exact Hs | reflexivity].
Defined.

(** ** The failure store: queries *)

Lemma includes_empty s : Js.includes s EmptyString = true.
Proof. destruct s; reflexivity. Qed.

Lemma prefix_refl s : String.prefix s s = true.
Proof.
  induction s as [|c s IH]; simpl; [reflexivity|].
  destruct (ascii_dec c c); [exact IH | congruence].
Qed.

Lemma includes_refl s : Js.includes s s = true.
Proof.
  destruct s as [|c s]; [reflexivity|].
  unfold Js.includes; fold Js.includes. now rewrite prefix_refl.
Qed.

Lemma filter_all {A} (f : A -> bool) (l : list A) :
  (forall x, In x l -> f x = true) -> List.filter f l = l.
Proof.
  induction l as [|x l IH]; simpl; intros H; [reflexivity|].
  rewrite (H x) by auto. f_equal. auto.
Qed.

Lemma sort_insert_Permutation {A} (cmp : A -> A -> Z) (x : A) (ys : list A) :
  Permutation (sort_insert cmp x ys) (x :: ys).
Proof.
  induction ys as [|y ys IH]; simpl; [reflexivity|].
  destruct (cmp y x <=? 0); [|reflexivity].
  rewrite IH. apply perm_swap.
Qed.

(** [sort] rearranges, whatever the comparison function answers. *)
Lemma js_sort_Permutation {A} (cmp : A -> A -> Z) (xs : list A) :
  Permutation (js_sort cmp xs) xs.
Proof.
  unfold js_sort.
  assert (H : forall acc,
            Permutation (fold_left (fun acc x => sort_insert cmp x acc) xs acc)
                        (acc ++ xs)%list).
  { induction xs as [|x xs IH]; intros acc; simpl.
    - now rewrite app_nil_r.
    - rewrite IH, sort_insert_Permutation. apply Permutation_middle. }
  apply (H []).
Qed.

Lemma total_count_Permutation {K} (m m' : list (K * Z)) :
  Permutation m m' -> total_count m = total_count m'.
Proof.
  unfold total_count. induction 1; simpl; lia.
Qed.

Lemma record_get_nonzero_In {K} (eqb : K -> K -> bool)
    (eqb_eq : forall a b, eqb a b = true <-> a = b) (m : list (K * Z)) (k : K) :
  record_get eqb m k <> 0 -> In (k, record_get eqb m k) m.
Proof.
  induction m as [|[a n] m IH]; simpl; intros H; [congruence|].
  destruct (eqb a k) eqn:E.
  - apply eqb_eq in E. subst. auto.
  - auto.
Qed.

(** X6.  [getErrorTrends] counts every entry of the ledger once, under
    the text of its timestamp before the first [T], where none of these
    texts is the name of a property that objects inherit: a day is
    listed with its count when, and only when, the ledger has an entry
    of that day; no day is listed twice and the counts add up to the
    length of the ledger, whatever the collation of the host. *)
Theorem getErrorTrends_counts_every_entry
    (localeCompare : string -> string -> Z) (this : ErrorMonitorClass.t)
    (Hown : own_keys (map (fun e => JsText.before_T (ErrorReport.timestamp e))
                          (ErrorMonitorClass.errors this)) = true) :
  let trends := ErrorMonitorQueries.getErrorTrends localeCompare this in
  let days := map (fun e => JsText.before_T (ErrorReport.timestamp e))
                  (ErrorMonitorClass.errors this) in
  (forall day count,
     In (day, count) trends <-> 0 < count /\ count = occurrences String.eqb days day)
  /\ NoDup (map fst trends)
  /\ total_count trends = Z.of_nat (length (ErrorMonitorClass.errors this)).
Proof.
  cbv zeta. unfold ErrorMonitorQueries.getErrorTrends.
  set (key := fun e => JsText.before_T (ErrorReport.timestamp e)).
  destruct (count_into_record String.eqb String.eqb_eq key (ErrorMonitorClass.errors this))
    as (Hget & Htot & Hnd & Hpos).
  set (m := fold_left _ (ErrorMonitorClass.errors this) []) in *.
  pose proof (js_sort_Permutation (fun a b => localeCompare (fst a) (fst b)) m) as Hperm.
  split; [|split].
  - intros day count. split.
    + intros Hin. apply (Permutation_in _ Hperm) in Hin.
      rewrite List.Forall_forall in Hpos. split; [exact (Hpos _ Hin)|].
      rewrite <- Hget. symmetry. now apply (record_get_In String.eqb String.eqb_eq).
    + intros [Hc ->]. apply (Permutation_in _ (Permutation_sym Hperm)).
      rewrite <- Hget in *. apply (record_get_nonzero_In String.eqb String.eqb_eq). lia.
  - assert (P : Permutation
                  (map fst (js_sort (fun a b => localeCompare (fst a) (fst b)) m))
                  (map fst m)) by (apply Permutation_map; exact Hperm).
    rewrite P. exact Hnd.
  - rewrite (total_count_Permutation _ _ Hperm). exact Htot.
Qed.

(** In [example_ledger], under the order of the code units, the day
    before comes first with one entry, then the day with two. *)
Lemma getErrorTrends_counts_every_entry_witness :
  ErrorMonitorQueries.getErrorTrends
    (fun a b => match String.compare a b with Lt => -1 | Eq => 0 | Gt => 1 end)
    example_ledger
  = [("2023-11-13", 1); ("2023-11-14", 2)]
  /\ In ("2023-11-14", 2)
        (ErrorMonitorQueries.getErrorTrends
           (fun a b => match String.compare a b with Lt => -1 | Eq => 0 | Gt => 1 end)
           example_ledger).
Proof.
  split; [reflexivity|].
  apply (proj1 (getErrorTrends_counts_every_entry
                  (fun a b => match String.compare a b with Lt => -1 | Eq => 0 | Gt => 1 end)
                  example_ledger eq_refl)).
  split; [lia | reflexivity].
Defined.

(** X7.  [clearErrors] empties the ledger and removes the snapshot, so
    that a later [loadPersistedErrors] brings nothing back. *)
Theorem clearErrors_forgets_the_snapshot (h : Host) (w : World) :
  exists w1 w2,
    ErrorMonitor.clearErrors w = (Returns tt, w1)
    /\ ErrorMonitorClass.errors (monitor w1) = []
    /\ localStorage w1 = match localStorage w with None => None | Some _ => Some None end
    /\ totalErrors (ErrorMonitor.getErrorStats (monitor w1)) = 0%nat
    /\ ErrorMonitor.loadPersistedErrors h w1 = (Returns tt, w2)
    /\ ErrorMonitorClass.errors (monitor w2) = [].
Proof.
  destruct (localStorage w) as [old|] eqn:Els.
  - eexists. eexists. split.
    { unfold ErrorMonitor.clearErrors.
      erewrite bind_returns by reflexivity. erewrite bind_returns by reflexivity.
      cbv beta. cbn [localStorage with_monitor]. rewrite Els. reflexivity. }
    repeat split.
  - eexists. eexists. split.
    { unfold ErrorMonitor.clearErrors.
      erewrite bind_returns by reflexivity. erewrite bind_returns by reflexivity.
      cbv beta. cbn [localStorage with_monitor]. rewrite Els. reflexivity. }
    split; [reflexivity|]. split; [exact Els|]. split; [reflexivity|].
    split.
    + unfold ErrorMonitor.loadPersistedErrors.
      erewrite bind_returns by reflexivity. cbv beta.
      cbn [localStorage with_monitor]. rewrite Els. reflexivity.
    + reflexivity.
Qed.

(** ** The capture layer: what a call leaves *)

Lemma capture_listeners_run (m : CapturedMessage.t) ls : forall i w,
  forEach_from i ls
    (fun i listener =>
       try_catch (emit (Delivered i m);; call (listener m))
                 (fun e => emit (OriginalSink error
                                   [ArgString "Error in console interceptor listener:";
                                    ArgError e]))) w
  = (Returns tt, with_trace w (trace w ++ capture_listeners_trace i ls m)).
Proof.
  induction ls as [|l ls IH]; intros i w; simpl.
  - now rewrite app_nil_r, with_trace_id.
  - destruct (l m) as [[]|x] eqn:El.
    + erewrite bind_returns
        by (cbv beta; unfold try_catch, mbind, M_bind, bind, emit, modify; rewrite ?El; reflexivity).
      rewrite IH. simpl. rewrite <- app_assoc. reflexivity.
    + erewrite bind_returns
        by (cbv beta; unfold try_catch, mbind, M_bind, bind, emit, modify; rewrite ?El; reflexivity).
      rewrite IH. simpl. rewrite <- !app_assoc. reflexivity.
Qed.

Lemma reportToErrorMonitor_run h m args w :
  ConsoleInterceptor.reportToErrorMonitor h m args w
  = ErrorMonitor.reportError h (console_report h m args) w.
Proof.
  unfold ConsoleInterceptor.reportToErrorMonitor, try_catch.
  change (ErrorMonitor.reportError h _ w)
    with (ErrorMonitor.reportError h (console_report h m args) w).
  now rewrite reportError_run.
Qed.

Lemma processMessage_run h level args w :
  ConsoleInterceptor.processMessage h level args w
  = if ConsoleInterceptor.shouldFilterMessage
         (ConsoleInterceptorClass.config (interceptor w))
         (Js.join_space (map ConsoleInterceptor.stringify args))
    then (Returns tt, w)
    else if Level_eqb level error
         then ErrorMonitor.reportError h
                (console_report h (captured h level args) args)
                (after_capture h level args w)
         else (Returns tt, after_capture h level args w).
Proof.
  unfold ConsoleInterceptor.processMessage.
  erewrite bind_returns by reflexivity. cbv beta zeta.
  destruct (ConsoleInterceptor.shouldFilterMessage _ _); [reflexivity|].
  fold (captured h level args). set (m := captured h level args).
  erewrite bind_returns by reflexivity.
  erewrite bind_returns by reflexivity.
  erewrite (bind_returns _ _ _ tt
     (with_interceptor w
        (ConsoleInterceptorClass.with_capturedMessages (interceptor w)
           (take (maxCapturedMessages (ConsoleInterceptorClass.config (interceptor w)))
                 (m :: ConsoleInterceptorClass.capturedMessages (interceptor w)))))).
  2:{ unfold Js.slice0.
      match goal with |- context [Nat.ltb ?a ?b] => destruct (Nat.ltb_spec a b) as [Hlt|Hge] end.
      - reflexivity.
      - cbn -[take] in Hge.
        rewrite (firstn_all2
                   (n := maxCapturedMessages (ConsoleInterceptorClass.config (interceptor w)))
                   (m :: ConsoleInterceptorClass.capturedMessages (interceptor w)))
          by (simpl; lia).
        destruct w as [? [? ? ? ?] ? ? ? ?]; reflexivity. }
  erewrite bind_returns by reflexivity.
  unfold forEach. erewrite bind_returns by apply capture_listeners_run.
  cbn [interceptor with_interceptor with_trace trace ConsoleInterceptorClass.listeners
       ConsoleInterceptorClass.with_capturedMessages].
  fold (after_capture h level args w).
  destruct (Level_eqb level error); [apply reportToErrorMonitor_run | reflexivity].
Qed.

(** The interceptor, exactly. *)
Lemma createInterceptor_run level h args w :
  ConsoleInterceptor.createInterceptor level h args w
  = ConsoleInterceptor.processMessage h level args
      (if preserveOriginal (ConsoleInterceptorClass.config (interceptor w))
       then with_trace w (trace w ++ [OriginalSink level args]) else w).
Proof.
  unfold ConsoleInterceptor.createInterceptor.
  erewrite bind_returns by reflexivity. cbv beta.
  set (w0 := if preserveOriginal _ then _ else w).
  erewrite (bind_returns _ _ _ tt w0)
    by (unfold w0; destruct (preserveOriginal _); reflexivity).
  unfold try_catch. rewrite processMessage_run.
  destruct (ConsoleInterceptor.shouldFilterMessage _ _); [reflexivity|].
  destruct (Level_eqb level error); [|reflexivity].
  now rewrite reportError_run.
Qed.

(** ** The capture layer: a call that passes the filter *)

Lemma delivered_indices_app t1 t2 :
  delivered_indices (t1 ++ t2) = (delivered_indices t1 ++ delivered_indices t2)%list.
Proof.
  induction t1 as [|e t1 IH]; [reflexivity|].
  destruct e; simpl; now rewrite IH.
Qed.

Lemma delivered_indices_listeners m ls : forall i,
  delivered_indices (capture_listeners_trace i ls m) = seq i (length ls).
Proof.
  induction ls as [|l ls IH]; intros i; [reflexivity|].
  cbn [capture_listeners_trace length seq app delivered_indices].
  rewrite delivered_indices_app, IH. destruct (l m); reflexivity.
Qed.

(** X8.  A console call below the level [error] that no filter pattern
    matches, whatever the capture listeners do: the interceptor returns,
    the call is at the head of the buffer, cut to [maxCapturedMessages];
    the original method is called first when [preserveOriginal] is set,
    then every listener once, in the order of registration; the failure
    store and [localStorage] are not touched. *)
Theorem createInterceptor_captures_and_delivers
    (level : Level) (h : Host) (args : list Arg) (w : World)
    (Hlevel : level <> error)
    (Hpass : ConsoleInterceptor.shouldFilterMessage
               (ConsoleInterceptorClass.config (interceptor w))
               (Js.join_space (map ConsoleInterceptor.stringify args)) = false) :
  exists w' delivered,
    ConsoleInterceptor.createInterceptor level h args w = (Returns tt, w')
    /\ ConsoleInterceptorClass.capturedMessages (interceptor w')
       = take (maxCapturedMessages (ConsoleInterceptorClass.config (interceptor w)))
              (captured h level args
                 :: ConsoleInterceptorClass.capturedMessages (interceptor w))
    /\ trace w'
       = (trace w
          ++ (if preserveOriginal (ConsoleInterceptorClass.config (interceptor w))
              then [OriginalSink level args] else [])
          ++ delivered)%list
    /\ delivered_indices delivered
       = seq 0 (length (ConsoleInterceptorClass.listeners (interceptor w)))
    /\ Forall (fun e => match e with
                        | Delivered _ m => m = captured h level args
                        | OriginalSink l _ => l = error
                        | _ => False
                        end) delivered
    /\ monitor w' = monitor w
    /\ localStorage w' = localStorage w
    /\ registry w' = registry w
    /\ objects w' = objects w.
Proof.
  exists (with_trace
            (after_capture h level args w)
            (trace w
             ++ (if preserveOriginal (ConsoleInterceptorClass.config (interceptor w))
                 then [OriginalSink level args] else [])
             ++ capture_listeners_trace 0
                  (ConsoleInterceptorClass.listeners (interceptor w))
                  (captured h level args))%list).
  exists (capture_listeners_trace 0
            (ConsoleInterceptorClass.listeners (interceptor w))
            (captured h level args)).
  split.
  - rewrite createInterceptor_run, processMessage_run.
    assert (Hl : Level_eqb level error = false) by (destruct level; try reflexivity; now elim Hlevel).
    rewrite Hl.
    destruct (preserveOriginal _) eqn:Hp.
    + cbn [interceptor with_trace]. rewrite Hpass.
      unfold after_capture. cbn [interceptor with_trace with_interceptor trace].
      now rewrite <- app_assoc.
    + rewrite Hpass. unfold after_capture, with_trace; simpl. reflexivity.
  - split; [reflexivity|]. split; [reflexivity|].
    split; [apply delivered_indices_listeners|].
    split; [|repeat split].
    generalize 0%nat.
    induction (ConsoleInterceptorClass.listeners (interceptor w)) as [|l ls IH]; intros i.
    + constructor.
    + cbn [capture_listeners_trace]. apply List.Forall_app. split; [|apply IH].
      constructor; [reflexivity|]. destruct (l _); constructor; [reflexivity|constructor].
Qed.



Lemma createInterceptor_captures_and_delivers_witness :
  exists w',
    ConsoleInterceptor.createInterceptor warn example_host
      [ArgString "disk almost full"] example_capture_world = (Returns tt, w')
    /\ ConsoleInterceptorClass.capturedMessages (interceptor w')
       = [captured example_host warn [ArgString "disk almost full"];
          captured example_host warn [ArgString "first"]]
    /\ delivered_indices (trace w') = [0%nat; 1%nat]
    /\ monitor w' = monitor example_capture_world.
Proof.
  destruct (createInterceptor_captures_and_delivers warn example_host
              [ArgString "disk almost full"] example_capture_world)
    as (w' & delivered & Hrun & Hbuf & Htrace & Hidx & _ & Hmon & _).
  - discriminate.
  - reflexivity.
  - exists w'. split; [exact Hrun|]. split; [exact Hbuf|].
    split; [|exact Hmon].
    rewrite Htrace, !delivered_indices_app, Hidx. reflexivity.
Defined.


(** ** The capture layer: the queries *)

Lemma Level_eqb_eq a b : Level_eqb a b = true <-> a = b.
Proof. destruct a, b; simpl; split; congruence. Qed.

(** Counting the keys of a list into a record that has them all. *)
Lemma count_into_full_record {K A} (eqb : K -> K -> bool)
    (eqb_eq : forall a b, eqb a b = true <-> a = b)
    (key : A -> K) (xs : list A) : forall acc,
  (forall k, In k (map fst acc)) ->
  let m := fold_left (fun acc x => bump eqb (key x) acc) xs acc in
  (forall k, record_get eqb m k = record_get eqb acc k + occurrences eqb (map key xs) k)
  /\ total_count m = total_count acc + Z.of_nat (length xs)
  /\ map fst m = map fst acc.
Proof.
  induction xs as [|x xs IH]; intros acc Hall; simpl.
  - repeat split; intros; unfold occurrences; simpl; lia.
  - assert (Hk : map fst (bump eqb (key x) acc) = map fst acc).
    { destruct (bump_keys eqb eqb_eq (key x) acc) as [[-> _]|[_ Hn]];
        [reflexivity | elim Hn; apply Hall]. }
    destruct (IH (bump eqb (key x) acc)) as (H1 & H2 & H3).
    { intros k. rewrite Hk. apply Hall. }
    repeat split.
    + intros k. rewrite H1, (record_get_bump eqb eqb_eq). unfold occurrences. simpl.
      destruct (eqb (key x) k); simpl; lia.
    + rewrite H2, (total_count_bump eqb). lia.
    + now rewrite H3.
Qed.

(** X10.  [getStats] counts every captured message once, under its
    level: the record keeps its five keys, the count of a level is the
    number of messages [getMessagesByLevel] returns for it, the counts
    add up to [totalMessages], and [recentMessages] is what
    [getCapturedMessages(5)] returns. *)
Theorem getStats_counts_every_message (this : ConsoleInterceptorClass.t) :
  let stats := ConsoleInterceptorQueries.getStats this in
  map fst (ConsoleInterceptorQueries.messagesByLevel stats) = [error; warn; info; debug; log]
  /\ (forall level,
        record_get Level_eqb (ConsoleInterceptorQueries.messagesByLevel stats) level
        = Z.of_nat (length (ConsoleInterceptorQueries.getMessagesByLevel this level None)))
  /\ total_count (ConsoleInterceptorQueries.messagesByLevel stats)
     = Z.of_nat (ConsoleInterceptorQueries.totalMessages stats)
  /\ ConsoleInterceptorQueries.totalMessages stats
     = length (ConsoleInterceptorQueries.getCapturedMessages this None)
  /\ ConsoleInterceptorQueries.recentMessages stats
     = ConsoleInterceptorQueries.getCapturedMessages this (Some 5).
Proof.
  cbv zeta. unfold ConsoleInterceptorQueries.getStats.
  cbn [ConsoleInterceptorQueries.messagesByLevel ConsoleInterceptorQueries.totalMessages
       ConsoleInterceptorQueries.recentMessages].
  destruct (count_into_full_record Level_eqb Level_eqb_eq CapturedMessage.level
              (ConsoleInterceptorClass.capturedMessages this)
              [(error, 0); (warn, 0); (info, 0); (debug, 0); (log, 0)])
    as (H1 & H2 & H3).
  { intros []; simpl; tauto. }
  split; [exact H3|]. split; [|split; [exact H2|split; reflexivity]].
  intros level. rewrite H1.
  unfold ConsoleInterceptorQueries.getMessagesByLevel, ConsoleInterceptorQueries.limited,
    occurrences.
  replace (record_get Level_eqb [(error, 0); (warn, 0); (info, 0); (debug, 0); (log, 0)] level)
    with 0 by (destruct level; reflexivity).
  rewrite Z.add_0_l. f_equal. clear.
  induction (ConsoleInterceptorClass.capturedMessages this) as [|m ms IH]; [reflexivity|].
  simpl. destruct (Level_eqb (CapturedMessage.level m) level); simpl; now rewrite IH.
Qed.

(** X11.  [searchMessages] with the empty query answers the whole
    buffer; the name of a level, in any case of its letters, finds every
    message [getMessagesByLevel] returns for that level; a message is
    found by its own text; and what is found is found in the order of
    the buffer. *)
Theorem searchMessages_finds_text_and_level (this : ConsoleInterceptorClass.t) :
  ConsoleInterceptorQueries.searchMessages this EmptyString
  = ConsoleInterceptorQueries.getCapturedMessages this None
  /\ (forall level query m,
        JsText.toLowerCase query = Level_text level ->
        In m (ConsoleInterceptorQueries.getMessagesByLevel this level None) ->
        In m (ConsoleInterceptorQueries.searchMessages this query))
  /\ (forall query m,
        JsText.toLowerCase query = JsText.toLowerCase (CapturedMessage.message m) ->
        In m (ConsoleInterceptorClass.capturedMessages this) ->
        In m (ConsoleInterceptorQueries.searchMessages this query))
  /\ (forall query,
        sublist (ConsoleInterceptorQueries.searchMessages this query)
                (ConsoleInterceptorClass.capturedMessages this)).
Proof.
  unfold ConsoleInterceptorQueries.searchMessages,
    ConsoleInterceptorQueries.getMessagesByLevel,
    ConsoleInterceptorQueries.getCapturedMessages, ConsoleInterceptorQueries.limited.
  split; [|split; [|split]].
  - apply filter_all. intros m _. simpl. now rewrite includes_empty.
  - intros level query m Hq Hin. apply filter_In in Hin as [Hin Hl].
    apply Level_eqb_eq in Hl. apply filter_In. split; [exact Hin|].
    cbv zeta. rewrite Hq, Hl.
    replace (JsText.toLowerCase (Level_text level)) with (Level_text level)
      by (destruct level; reflexivity).
    rewrite includes_refl. apply orb_true_r.
  - intros query m Hq Hin. apply filter_In. split; [exact Hin|].
    cbv zeta. rewrite Hq, includes_refl. reflexivity.
  - intros query. cbv zeta.
    induction (ConsoleInterceptorClass.capturedMessages this) as [|m ms IH];
      simpl; [constructor|].
    destruct (_ || _); [apply sublist_skip | apply sublist_cons]; exact IH.
Qed.

(** The query ["WARN"] finds the two warnings of the buffer of
    [example_capture_world]. *)
Lemma searchMessages_finds_text_and_level_witness :
  In (captured example_host warn [ArgString "second"])
     (ConsoleInterceptorQueries.searchMessages (interceptor example_capture_world) "WARN").
Proof.
  apply (proj1 (proj2 (searchMessages_finds_text_and_level
                         (interceptor example_capture_world))) warn).
  - reflexivity.
  - right. left. reflexivity.
Defined.

(** ** The remediation registry: what its calls keep

    The lines [applyFix], [importRegistry] and [attemptAutoRecovery]
    write to the console are entries of the trace in their embeddings:
    what a running interceptor makes of them is not followed.  The
    lemmas below are about these embeddings; the properties state of
    the failure store and of the capture layer only what holds while
    the interceptor does not run. *)

(** The world one [applyFix] leaves when the fix function settles. *)
Lemma applyFix_resolved_run h r err ctx w f fn (b : bool) :
  objects w !! r = Some f ->
  ErrorFix.fixFunction f = Some fn ->
  fn err ctx h = Returns b ->
  FixRegistry.applyFix h r err ctx w
  = (Returns b,
     {| monitor := monitor w;
        interceptor := interceptor w;
        registry :=
          FixRegistryClass.with_fixHistory (registry w)
            (let hs := (FixRegistryClass.fixHistory (registry w) ++ [attempt h r b err])%list in
             if (100 <? length hs)%nat then Js.slice_last 50 hs else hs);
        objects := <[r := applied h f b]> (objects w);
        localStorage := localStorage w;
        trace := (trace w ++ [Console log "Applying fix:"])%list |}).
Proof.
  intros Hr Hfn Hb.
  unfold FixRegistry.applyFix, try_catch.
  erewrite bind_returns by (apply deref_valid; exact Hr).
  erewrite bind_returns by reflexivity.
  rewrite Hfn.
  erewrite (bind_returns _ _ _ b) by (rewrite Hb; reflexivity).
  cbv zeta.
  do 3 erewrite bind_returns by reflexivity.
  cbn [registry with_registry with_objects with_trace FixRegistryClass.fixHistory
       FixRegistryClass.with_fixHistory FixRegistryClass.fixes].
  fold (attempt h r b err).
  match goal with
  | |- context [Nat.ltb ?a ?b] => destruct (Nat.ltb a b)
  end; erewrite bind_returns by reflexivity; unfold applied; rewrite Hfn;
    destruct b; reflexivity.
Qed.

(** The world one [applyFix] leaves when the fix function throws. *)
Lemma applyFix_rejected_run h r err ctx w f fn e :
  objects w !! r = Some f ->
  ErrorFix.fixFunction f = Some fn ->
  fn err ctx h = Throws e ->
  FixRegistry.applyFix h r err ctx w
  = (Returns false,
     {| monitor := monitor w;
        interceptor := interceptor w;
        registry :=
          FixRegistryClass.with_fixHistory (registry w)
            (FixRegistryClass.fixHistory (registry w) ++ [attempt h r false err])%list;
        objects := objects w;
        localStorage := localStorage w;
        trace := (trace w ++ [Console log "Applying fix:"; Console error "Failed to apply fix"])%list |}).
Proof.
  intros Hr Hfn He. unfold FixRegistry.applyFix, try_catch.
  erewrite bind_returns by (apply deref_valid; exact Hr).
  erewrite bind_returns by reflexivity.
  rewrite Hfn.
  erewrite bind_throws by (rewrite He; reflexivity).
  erewrite bind_returns by apply emit_spec.
  erewrite bind_returns by reflexivity.
  cbn. rewrite <- app_assoc. reflexivity.
Qed.

(** A call of [registerFix] throws and leaves the world, or the rule
    has its required fields and a new id, and is registered. *)
Lemma registerFix_outcomes h f w :
  (exists e, FixRegistry.registerFix h f w = (Throws e, w))
  \/ (has_required f /\ ~ id_registered f w
      /\ FixRegistry.registerFix h f w
         = (Returns tt,
            {| monitor := monitor w;
               interceptor := interceptor w;
               registry :=
                 FixRegistryClass.with_fixes (registry w)
                   (js_sort (fun a b =>
                               FixRegistry.priority_of (objects w ++ [completeFix h f]) b
                               - FixRegistry.priority_of (objects w ++ [completeFix h f]) a)
                            (FixRegistryClass.fixes (registry w) ++ [length (objects w)]));
               objects := (objects w ++ [completeFix h f])%list;
               localStorage := localStorage w;
               trace := trace w |})).
Proof.
  unfold FixRegistry.registerFix.
  destruct (_ || _) eqn:Hval.
  - left. eexists. reflexivity.
  - erewrite bind_returns by reflexivity.
    erewrite bind_returns by reflexivity. cbv beta.
    destruct (existsb _ _) eqn:Hdup.
    + left. eexists. reflexivity.
    + right. split; [|split; [|reflexivity]].
      * apply orb_false_iff in Hval as [Hval H4].
        apply orb_false_iff in Hval as [Hval H3].
        apply orb_false_iff in Hval as [H1 H2].
        apply negb_false_iff in H1, H2, H3, H4.
        apply bool_decide_eq_true in H4. repeat split; assumption.
      * intros Hreg. apply duplicate_test_true in Hreg. congruence.
Qed.

Section Placement.
Context {A : Type} (key : A -> Z).

Let cmp (a b : A) : Z := key b - key a.
Let R (a b : A) : Prop := key b <= key a.

Lemma sort_insert_last (x : A) (ys : list A) :
  Forall (fun y => key x <= key y) ys -> sort_insert cmp x ys = (ys ++ [x])%list.
Proof.
  induction 1 as [|y ys Hy Hys IH]; simpl; [reflexivity|].
  destruct (Z.leb_spec (cmp y x) 0) as [_|Hgt]; [now rewrite IH|].
  unfold cmp in Hgt. lia.
Qed.

Lemma js_sort_sorted_from (xs : list A) : forall acc,
  StronglySorted R (acc ++ xs) ->
  fold_left (fun acc x => sort_insert cmp x acc) xs acc = (acc ++ xs)%list.
Proof.
  induction xs as [|x xs IH]; intros acc Hs; simpl; [now rewrite app_nil_r|].
  rewrite sort_insert_last.
  - rewrite IH; rewrite <- app_assoc; [reflexivity | exact Hs].
  - clear IH. induction acc as [|a acc IHa]; [constructor|].
    simpl in Hs. apply StronglySorted_inv in Hs as [Hs Hall].
    constructor; [|apply IHa, Hs].
    rewrite List.Forall_forall in Hall. apply (Hall x).
    apply in_or_app. right. left. reflexivity.
Qed.

(** A sorted array is left as it is. *)
Lemma js_sort_sorted_id (xs : list A) : StronglySorted R xs -> js_sort cmp xs = xs.
Proof. intros Hs. unfold js_sort. now rewrite js_sort_sorted_from. Qed.

(** An element pushed behind a sorted array is moved behind the
    elements that are not smaller, and before the smaller ones. *)
Lemma sort_insert_behind (x : A) (ys : list A) :
  StronglySorted R ys ->
  sort_insert cmp x ys
  = (List.filter (fun y => key x <=? key y) ys
     ++ x :: List.filter (fun y => key y <? key x) ys)%list.
Proof.
  induction 1 as [|y ys Hs IH Hall]; simpl; [reflexivity|].
  destruct (Z.leb_spec (cmp y x) 0) as [Hle|Hgt]; unfold cmp in *.
  - rewrite IH.
    destruct (Z.leb_spec (key x) (key y)); [|lia].
    destruct (Z.ltb_spec (key y) (key x)); [lia|]. reflexivity.
  - destruct (Z.leb_spec (key x) (key y)); [lia|].
    destruct (Z.ltb_spec (key y) (key x)); [|lia].
    assert (H1 : List.filter (fun y => key x <=? key y) ys = []).
    { clear -Hall Hgt. induction Hall as [|z ys Hz _ IHz]; simpl; [reflexivity|].
      unfold R in Hz. destruct (Z.leb_spec (key x) (key z)); [lia | exact IHz]. }
    assert (H2 : List.filter (fun y => key y <? key x) ys = ys).
    { clear -Hall Hgt. induction Hall as [|z ys Hz _ IHz]; simpl; [reflexivity|].
      unfold R in Hz. destruct (Z.ltb_spec (key z) (key x)); [now rewrite IHz | lia]. }
    rewrite H1, H2. reflexivity.
Qed.

Lemma js_sort_push (x : A) (ys : list A) :
  StronglySorted R ys ->
  js_sort cmp (ys ++ [x])
  = (List.filter (fun y => key x <=? key y) ys
     ++ x :: List.filter (fun y => key y <? key x) ys)%list.
Proof.
  intros Hs. unfold js_sort. rewrite fold_left_app. simpl.
  fold (js_sort cmp ys). rewrite (js_sort_sorted_id ys Hs).
  apply sort_insert_behind, Hs.
Qed.
End Placement.

Lemma filter_ext_in {A} (p q : A -> bool) (l : list A) :
  (forall x, In x l -> p x = q x) -> List.filter p l = List.filter q l.
Proof.
  induction l as [|x l IH]; intros H; simpl; [reflexivity|].
  rewrite (H x) by (left; reflexivity).
  rewrite IH by (intros y Hy; apply H; right; exact Hy). reflexivity.
Qed.

Lemma StronglySorted_ext_in {A} (R1 R2 : A -> A -> Prop) (l : list A) :
  (forall x y, In x l -> In y l -> R1 x y -> R2 x y) ->
  StronglySorted R1 l -> StronglySorted R2 l.
Proof.
  intros H Hs. induction Hs as [|x l Hs IH Hall]; constructor.
  - apply IH. intros a b Ha Hb. apply H; right; assumption.
  - rewrite List.Forall_forall in *. intros y Hy.
    apply H; [left; reflexivity | right; exact Hy | apply Hall, Hy].
Qed.

Lemma StronglySorted_filter {A} (R : A -> A -> Prop) (p : A -> bool) (l : list A) :
  StronglySorted R l -> StronglySorted R (List.filter p l).
Proof.
  induction 1 as [|x l Hs IH Hall]; simpl; [constructor|].
  destruct (p x); [|exact IH]. constructor; [exact IH|].
  rewrite List.Forall_forall in *. intros y Hy. apply filter_In in Hy as [Hy _]. auto.
Qed.

(** The objects of the store keep their place when one is added. *)
Lemma id_of_app_l objs g r :
  (r < length objs)%nat -> id_of (objs ++ [g]) r = id_of objs r.
Proof. intros H. unfold id_of. now rewrite lookup_app_l. Qed.

Lemma priority_of_app_l objs g r :
  (r < length objs)%nat ->
  FixRegistry.priority_of (objs ++ [g]) r = FixRegistry.priority_of objs r.
Proof. intros H. unfold FixRegistry.priority_of. now rewrite lookup_app_l. Qed.

Lemma priority_of_new objs g :
  FixRegistry.priority_of (objs ++ [g]) (length objs) = ErrorFix.priority g.
Proof.
  unfold FixRegistry.priority_of.
  rewrite lookup_app_r by lia. now rewrite Nat.sub_diag.
Qed.

Lemma id_of_new objs g : id_of (objs ++ [g]) (length objs) = ErrorFix.id g.
Proof.
  unfold id_of. rewrite lookup_app_r by lia. now rewrite Nat.sub_diag.
Qed.

Lemma registry_ok_refs_valid w : registry_ok w -> refs_valid w.
Proof.
  intros (Hreq & _ & _). unfold refs_valid.
  eapply Forall_impl; [exact Hreq|]. simpl. intros r (f & Hf & _).
  apply lookup_lt_is_Some. eauto.
Qed.

Lemma id_registered_id_of f w :
  id_registered f w
  <-> In (ErrorFix.id f) (map (id_of (objects w)) (FixRegistryClass.fixes (registry w)))
      /\ exists r g, In r (FixRegistryClass.fixes (registry w)) /\ objects w !! r = Some g
                     /\ ErrorFix.id g = ErrorFix.id f.
Proof.
  split.
  - intros (r & g & Hin & Hg & Hid). split; [|eauto].
    apply in_map_iff. exists r. split; [|exact Hin]. unfold id_of. now rewrite Hg.
  - intros [_ H]. exact H.
Qed.

(** Where the new rule goes: behind the rules of its priority and above,
    before the rules of a smaller priority. *)
Lemma registerFix_placement h f w :
  registry_ok w ->
  js_sort (fun a b =>
             FixRegistry.priority_of (objects w ++ [completeFix h f]) b
             - FixRegistry.priority_of (objects w ++ [completeFix h f]) a)
          (FixRegistryClass.fixes (registry w) ++ [length (objects w)])
  = (List.filter (fun r => ErrorFix.priority f <=? FixRegistry.priority_of (objects w) r)
                 (FixRegistryClass.fixes (registry w))
     ++ length (objects w)
     :: List.filter (fun r => FixRegistry.priority_of (objects w) r <? ErrorFix.priority f)
                    (FixRegistryClass.fixes (registry w)))%list.
Proof.
  intros Hok. pose proof (registry_ok_refs_valid w Hok) as Hv.
  destruct Hok as (_ & _ & Hs). unfold refs_valid in Hv. unfold sorted_by_priority in Hs.
  rewrite List.Forall_forall in Hv.
  rewrite (js_sort_push (FixRegistry.priority_of (objects w ++ [completeFix h f]))).
  - rewrite priority_of_new. cbn [completeFix ErrorFix.with_stats ErrorFix.priority].
    f_equal; [|f_equal]; apply filter_ext_in; intros r Hr;
      now rewrite priority_of_app_l by (apply Hv, Hr).
  - eapply StronglySorted_ext_in; [|exact Hs]. cbv beta. intros a b Ha Hb Hab.
    now rewrite !priority_of_app_l by (apply Hv; assumption).
Qed.

Lemma has_required_completeFix h f : has_required f -> has_required (completeFix h f).
Proof. intros H. exact H. Qed.

Lemma NoDup_map_inv {A B} (g : A -> B) (l : list A) : NoDup (map g l) -> NoDup l.
Proof.
  induction l as [|x l IH]; simpl; intros H; [constructor|].
  apply NoDup_cons in H as [Hx Hl]. apply NoDup_cons. split; [|auto].
  intros Hin. apply Hx. apply list_elem_of_In, in_map, list_elem_of_In, Hin.
Qed.

(** A registration that is accepted keeps the registry in order. *)
Lemma registerFix_keeps_ok h f w w' :
  registry_ok w -> has_required f -> ~ id_registered f w ->
  objects w' = (objects w ++ [completeFix h f])%list ->
  FixRegistryClass.fixes (registry w')
  = js_sort (fun a b => FixRegistry.priority_of (objects w') b
                        - FixRegistry.priority_of (objects w') a)
            (FixRegistryClass.fixes (registry w) ++ [length (objects w)]) ->
  registry_ok w'.
Proof.
  intros Hok Hreq Hfresh Ho Hf.
  pose proof (registry_ok_refs_valid w Hok) as Hv. unfold refs_valid in Hv.
  destruct Hok as (Hall & Hnd & Hs).
  assert (Hperm : Permutation (FixRegistryClass.fixes (registry w'))
                    (FixRegistryClass.fixes (registry w) ++ [length (objects w)])).
  { rewrite Hf. apply js_sort_Permutation. }
  split; [|split].
  - eapply Permutation_Forall; [symmetry; exact Hperm|].
    apply Forall_app. split.
    + rewrite List.Forall_forall in *. intros r Hr.
      destruct (Hall r Hr) as (g & Hg & Hgr). exists g. split; [|exact Hgr].
      rewrite Ho. rewrite lookup_app_l by (apply Hv, Hr). exact Hg.
    + constructor; [|constructor]. exists (completeFix h f). split.
      * rewrite Ho, lookup_app_r by lia. now rewrite Nat.sub_diag.
      * apply has_required_completeFix, Hreq.
  - rewrite (Permutation_map (id_of (objects w')) Hperm).
    rewrite map_app. cbn [map]. rewrite Ho, id_of_new.
    replace (map (id_of (objects w ++ [completeFix h f])) (FixRegistryClass.fixes (registry w)))
      with (map (id_of (objects w)) (FixRegistryClass.fixes (registry w))).
    2:{ apply map_ext_in. intros r Hr. symmetry. apply id_of_app_l.
        rewrite List.Forall_forall in Hv. apply Hv, Hr. }
    apply NoDup_app. split; [exact Hnd|]. split; [|apply NoDup_singleton].
    intros x Hx Hx'. apply list_elem_of_In in Hx'. destruct Hx' as [<-|[]].
    apply Hfresh. apply list_elem_of_In, in_map_iff in Hx.
    destruct Hx as (r & Hid & Hr). rewrite List.Forall_forall in Hall.
    destruct (Hall r Hr) as (g & Hg & _). exists r, g. repeat split; try assumption.
    unfold id_of in Hid. now rewrite Hg in Hid.
  - unfold sorted_by_priority. rewrite Hf.
    apply (js_sort_sorted (FixRegistry.priority_of (objects w'))).
Qed.

(** The world one [removeFix] leaves. *)
Lemma removeFix_run fixId w :
  FixRegistry.removeFix fixId w
  = match list_find
            (fun r => match objects w !! r with
                      | Some g => FixRegistry.same_id (ErrorFix.id g) (Some fixId)
                      | None => false
                      end = true)
            (FixRegistryClass.fixes (registry w)) with
    | Some (index, _) =>
        (Returns true,
         with_registry w
           (FixRegistryClass.with_fixes (registry w)
              (delete index (FixRegistryClass.fixes (registry w)))))
    | None => (Returns false, w)
    end.
Proof.
  unfold FixRegistry.removeFix.
  erewrite bind_returns by reflexivity.
  erewrite bind_returns by reflexivity. cbv beta zeta.
  destruct (list_find _ _) as [[index r]|]; reflexivity.
Qed.

Lemma is_id_id_of objs fixId r :
  match objs !! r with
  | Some g => FixRegistry.same_id (ErrorFix.id g) (Some fixId)
  | None => false
  end = FixRegistry.same_id (id_of objs r) (Some fixId).
Proof. unfold id_of. destruct (objs !! r); reflexivity. Qed.

(** Deleting the first element found deletes every element found, where
    one element at most can be found. *)
Lemma delete_found {A} (p : A -> bool) (l : list A) :
  (forall i j x y, l !! i = Some x -> l !! j = Some y -> p x = true -> p y = true -> i = j) ->
  match list_find (fun x => p x = true) l with
  | Some (i, _) => delete i l = List.filter (fun x => negb (p x)) l /\ existsb p l = true
  | None => List.filter (fun x => negb (p x)) l = l /\ existsb p l = false
  end.
Proof.
  induction l as [|x l IH]; intros Huniq; simpl; [auto|].
  destruct (decide (p x = true)) as [Hx|Hx]; simpl.
  - rewrite Hx. simpl. split; [|reflexivity].
    symmetry. apply filter_all. intros y Hy.
    destruct (p y) eqn:Hpy; [|reflexivity]. exfalso.
    apply list_elem_of_In, list_elem_of_lookup in Hy as [j Hj].
    discriminate (Huniq 0%nat (S j) x y eq_refl Hj Hx Hpy).
  - apply not_true_is_false in Hx. rewrite Hx. simpl.
    assert (Huniq' : forall i j a b, l !! i = Some a -> l !! j = Some b ->
                       p a = true -> p b = true -> i = j).
    { intros i j a b Ha Hb Hpa Hpb.
      assert (S i = S j) by (eapply Huniq; eauto). lia. }
    specialize (IH Huniq').
    destruct (list_find _ l) as [[i y]|]; simpl.
    + destruct IH as [-> ->]. auto.
    + destruct IH as [-> ->]. auto.
Qed.

Lemma lookup_map {A B} (g : A -> B) (l : list A) : forall i x,
  l !! i = Some x -> map g l !! i = Some (g x).
Proof.
  induction l as [|z l IH]; intros [|i] x H; simpl in *; try discriminate.
  - congruence.
  - auto.
Qed.

Lemma unique_id objs (fs : list FixRef) fixId :
  NoDup (map (id_of objs) fs) ->
  forall i j x y, fs !! i = Some x -> fs !! j = Some y ->
    FixRegistry.same_id (id_of objs x) (Some fixId) = true ->
    FixRegistry.same_id (id_of objs y) (Some fixId) = true -> i = j.
Proof.
  intros Hnd i j x y Hx Hy Hpx Hpy.
  apply same_id_eq in Hpx, Hpy.
  apply (NoDup_lookup (map (id_of objs) fs) i j (Some fixId) Hnd).
  - rewrite <- Hpx. apply lookup_map, Hx.
  - rewrite <- Hpy. apply lookup_map, Hy.
Qed.

(** On a registry in order, [removeFix] answers whether a rule of the
    id is registered, and leaves the rules of the other ids. *)
Lemma removeFix_ok fixId w :
  registry_ok w ->
  FixRegistry.removeFix fixId w
  = (Returns (existsb (fun r => FixRegistry.same_id (id_of (objects w) r) (Some fixId))
                      (FixRegistryClass.fixes (registry w))),
     with_registry w
       (FixRegistryClass.with_fixes (registry w)
          (List.filter (fun r => negb (FixRegistry.same_id (id_of (objects w) r) (Some fixId)))
                       (FixRegistryClass.fixes (registry w))))).
Proof.
  intros (_ & Hnd & _). rewrite removeFix_run.
  pose proof (delete_found
                (fun r => FixRegistry.same_id (id_of (objects w) r) (Some fixId))
                (FixRegistryClass.fixes (registry w))
                (unique_id _ _ fixId Hnd)) as H.
  assert (Hfind :
    list_find (fun r => match objects w !! r with
                        | Some g => FixRegistry.same_id (ErrorFix.id g) (Some fixId)
                        | None => false
                        end = true) (FixRegistryClass.fixes (registry w))
    = list_find (fun r => FixRegistry.same_id (id_of (objects w) r) (Some fixId) = true)
                (FixRegistryClass.fixes (registry w))).
  { clear. induction (FixRegistryClass.fixes (registry w)) as [|r l IH]; simpl; [reflexivity|].
    rewrite <- (is_id_id_of (objects w) fixId r).
    destruct (decide _); [reflexivity|].
    rewrite IH. reflexivity. }
  rewrite Hfind.
  destruct (list_find _ _) as [[i r]|].
  - destruct H as [-> ->]. reflexivity.
  - destruct H as [-> ->]. destruct w as [? ? [? ?] ? ? ?]; reflexivity.
Qed.

Lemma NoDup_map_filter {A B} (g : A -> B) (p : A -> bool) (l : list A) :
  NoDup (map g l) -> NoDup (map g (List.filter p l)).
Proof.
  induction l as [|x l IH]; simpl; intros H; [constructor|].
  apply NoDup_cons in H as [Hx Hl]. destruct (p x); [|auto].
  simpl. apply NoDup_cons. split; [|auto].
  intros Hin. apply Hx. apply list_elem_of_In in Hin. apply list_elem_of_In.
  apply in_map_iff in Hin as (y & Hy & Hin). apply filter_In in Hin as [Hin _].
  apply in_map_iff. eauto.
Qed.

(** A removal keeps the registry in order. *)
Lemma removeFix_keeps_ok w w' (p : FixRef -> bool) :
  registry_ok w ->
  objects w' = objects w ->
  FixRegistryClass.fixes (registry w') = List.filter p (FixRegistryClass.fixes (registry w)) ->
  registry_ok w'.
Proof.
  intros (Hall & Hnd & Hs) Ho Hf. unfold registry_ok, sorted_by_priority.
  rewrite Ho, Hf. split; [|split].
  - rewrite List.Forall_forall in *. intros r Hr. apply filter_In in Hr as [Hr _]. auto.
  - apply NoDup_map_filter, Hnd.
  - apply StronglySorted_filter, Hs.
Qed.

Lemma id_of_insert objs r f f' r' :
  objs !! r = Some f -> ErrorFix.id f' = ErrorFix.id f ->
  id_of (<[r := f']> objs) r' = id_of objs r'.
Proof.
  intros Hr Hid. unfold id_of. destruct (decide (r = r')) as [<-|Hne].
  - rewrite list_lookup_insert_eq by (apply lookup_lt_is_Some; eauto). now rewrite Hr.
  - now rewrite list_lookup_insert_ne.
Qed.

Lemma priority_of_insert objs r f f' r' :
  objs !! r = Some f -> ErrorFix.priority f' = ErrorFix.priority f ->
  FixRegistry.priority_of (<[r := f']> objs) r' = FixRegistry.priority_of objs r'.
Proof.
  intros Hr Hid. unfold FixRegistry.priority_of. destruct (decide (r = r')) as [<-|Hne].
  - rewrite list_lookup_insert_eq by (apply lookup_lt_is_Some; eauto). now rewrite Hr.
  - now rewrite list_lookup_insert_ne.
Qed.

(** An application rewrites the statistics of one rule and nothing
    else of the rules: the registry stays in order. *)
Lemma applied_keeps_ok h r f b w w' :
  registry_ok w ->
  objects w !! r = Some f ->
  objects w' = <[r := applied h f b]> (objects w) ->
  FixRegistryClass.fixes (registry w') = FixRegistryClass.fixes (registry w) ->
  registry_ok w'.
Proof.
  intros (Hall & Hnd & Hs) Hr Ho Hf. unfold registry_ok, sorted_by_priority.
  rewrite Ho, Hf. split; [|split].
  - rewrite List.Forall_forall in *. intros r' Hr'.
    destruct (Hall r' Hr') as (g & Hg & Hreq).
    destruct (decide (r = r')) as [<-|Hne].
    + exists (applied h f b). split.
      * apply list_lookup_insert_eq. apply lookup_lt_is_Some. eauto.
      * assert (g = f) as -> by congruence. exact Hreq.
    + exists g. split; [|exact Hreq]. now rewrite list_lookup_insert_ne.
  - erewrite map_ext; [exact Hnd|]. intros r'. now apply (id_of_insert _ _ f).
  - eapply StronglySorted_ext_in; [|exact Hs]. cbv beta. intros a c _ _ Hac.
    now rewrite !(priority_of_insert _ _ f) by (assumption || reflexivity).
Qed.

Lemma unchanged_rules_keep_ok w w' :
  registry_ok w -> objects w' = objects w ->
  FixRegistryClass.fixes (registry w') = FixRegistryClass.fixes (registry w) ->
  registry_ok w'.
Proof.
  intros Hok Ho Hf. unfold registry_ok, sorted_by_priority. rewrite Ho, Hf. exact Hok.
Qed.

(** [applyFix] on a rule of the store with a fix function: it returns,
    and leaves the rules to [applied], or as they are when the fix
    function throws. *)
Lemma applyFix_frame h r err ctx w f :
  objects w !! r = Some f -> is_Some (ErrorFix.fixFunction f) ->
  exists (b : bool) w',
    FixRegistry.applyFix h r err ctx w = (Returns b, w')
    /\ FixRegistryClass.fixes (registry w') = FixRegistryClass.fixes (registry w)
    /\ (objects w' = <[r := applied h f b]> (objects w) \/ objects w' = objects w)
    /\ monitor w' = monitor w /\ interceptor w' = interceptor w
    /\ localStorage w' = localStorage w.
Proof.
  intros Hr [fn Hfn].
  destruct (fn err ctx h) as [b|e] eqn:Hb.
  - exists b. eexists. split; [eapply applyFix_resolved_run; eassumption|].
    cbn. repeat split. left. reflexivity.
  - exists false. eexists. split; [eapply applyFix_rejected_run; eassumption|].
    cbn. repeat split. right. reflexivity.
Qed.

Lemma applyFix_keeps_ok h r err ctx w f :
  registry_ok w -> objects w !! r = Some f -> is_Some (ErrorFix.fixFunction f) ->
  exists (b : bool) w',
    FixRegistry.applyFix h r err ctx w = (Returns b, w')
    /\ registry_ok w'
    /\ length (objects w') = length (objects w)
    /\ monitor w' = monitor w /\ interceptor w' = interceptor w
    /\ localStorage w' = localStorage w.
Proof.
  intros Hok Hr Hfn.
  destruct (applyFix_frame h r err ctx w f Hr Hfn)
    as (b & w' & E & Hf & Ho & Hm & Hi & Hl).
  exists b, w'. split; [exact E|]. split; [|split; [|auto]].
  - destruct Ho as [Ho|Ho].
    + eapply applied_keeps_ok; eassumption.
    + eapply unchanged_rules_keep_ok; eassumption.
  - destruct Ho as [-> | ->]; [apply length_insert | reflexivity].
Qed.

Lemma registry_call_keeps_ok c w :
  registry_ok w ->
  exists w',
    registry_call c w = (Returns tt, w')
    /\ registry_ok w'
    /\ (length (objects w) <= length (objects w'))%nat
    /\ monitor w' = monitor w /\ interceptor w' = interceptor w
    /\ localStorage w' = localStorage w.
Proof.
  intros Hok. destruct c as [h f|fixId|h i err ctx|h err]; cbn [registry_call].
  - unfold try_catch.
    destruct (registerFix_outcomes h f w) as [[e E]|(Hreq & Hfresh & E)]; rewrite E.
    + exists w. split; [reflexivity|]. split; [exact Hok|]. split; [lia|]. auto.
    + eexists. split; [reflexivity|].
      split; [eapply registerFix_keeps_ok; try eassumption; reflexivity|].
      cbn. rewrite length_app. split; [lia|]. auto.
  - erewrite bind_returns by (apply removeFix_ok, Hok).
    eexists. split; [reflexivity|].
    split; [eapply removeFix_keeps_ok; [exact Hok| |]; reflexivity|].
    cbn. split; [lia|]. auto.
  - erewrite bind_returns by reflexivity. cbv beta.
    unfold FixRegistry.getAllFixes.
    destruct (FixRegistryClass.fixes (registry w) !! i) as [r|] eqn:Hi.
    + destruct Hok as (Hall & Hrest). pose proof Hall as Hall'.
      rewrite List.Forall_forall in Hall'.
      destruct (Hall' r) as (f & Hf & Hreq).
      { apply list_elem_of_In. eapply list_elem_of_lookup_2. exact Hi. }
      destruct (applyFix_keeps_ok h r err ctx w f (conj Hall Hrest) Hf (proj2 (proj2 (proj2 Hreq))))
        as (b & w' & E & Hok' & Hlen & Hm).
      exists w'. erewrite bind_returns by exact E.
      split; [reflexivity|]. split; [exact Hok'|]. split; [lia | exact Hm].
    + exists w. split; [reflexivity|]. split; [exact Hok|]. split; [lia|]. auto.
  - assert (Hfind : FixRegistry.findFix h err w
                    = FixRegistry.findFix_loop h err (FixRegistryClass.fixes (registry w)) w)
      by reflexivity.
    destruct (findFix_loop_returns h err w _ (registry_ok_refs_valid w Hok))
      as [E|(r & before & after & E & Hfs)].
    + erewrite bind_returns by (rewrite Hfind; exact E).
      exists w. split; [reflexivity|]. split; [exact Hok|]. split; [lia|]. auto.
    + erewrite bind_returns by (rewrite Hfind; exact E). cbv beta iota.
      destruct Hok as (Hall & Hrest). pose proof Hall as Hall'.
      rewrite List.Forall_forall in Hall'.
      destruct (Hall' r) as (f & Hf & Hreq).
      { rewrite Hfs. apply in_or_app. right. left. reflexivity. }
      destruct (applyFix_keeps_ok h r err None w f (conj Hall Hrest) Hf (proj2 (proj2 (proj2 Hreq))))
        as (b & w' & E' & Hok' & Hlen & Hm).
      exists w'. erewrite bind_returns by exact E'.
      split; [reflexivity|]. split; [exact Hok'|]. split; [lia | exact Hm].
Qed.

(** X12.  From a registry in order (the empty one is), every sequence
    of registrations, removals and applications returns and leaves the
    registry in order: its rules have their required fields, no two of
    them share an id, and they are listed by descending priority.  The
    object store never shrinks. *)
Theorem registry_stays_in_order (calls : list RegistryCall) (w : World)
    (Hok : registry_ok w) :
  exists w',
    registry_calls calls w = (Returns tt, w')
    /\ registry_ok w'
    /\ (length (objects w) <= length (objects w'))%nat.
Proof.
  unfold registry_calls, forEach. generalize 0%nat. revert w Hok.
  induction calls as [|c calls IH]; intros w Hok i; simpl.
  - exists w. split; [reflexivity|]. split; [exact Hok|]. lia.
  - destruct (registry_call_keeps_ok c w Hok) as (w1 & E & Hok1 & Hlen1 & _).
    destruct (IH w1 Hok1 (S i)) as (w' & E' & Hok' & Hlen').
    exists w'. erewrite bind_returns by exact E.
    split; [exact E'|]. split; [exact Hok'|]. lia.
Qed.

Lemma registry_ok_empty w :
  FixRegistryClass.fixes (registry w) = [] -> registry_ok w.
Proof.
  intros H. unfold registry_ok, sorted_by_priority. rewrite H.
  split; [constructor|]. split; constructor.
Qed.

Lemma registry_stays_in_order_witness :
  exists w',
    registry_calls example_registry_calls example_world = (Returns tt, w')
    /\ registry_ok w'
    /\ (0 < length (objects w'))%nat.
Proof.
  destruct (registry_stays_in_order example_registry_calls example_world)
    as (w' & E & Hok & Hlen).
  - apply registry_ok_empty. reflexivity.
  - exists w'. split; [exact E|]. split; [exact Hok|].
    assert (Hw : w' = snd (registry_calls example_registry_calls example_world))
      by (rewrite E; reflexivity).
    rewrite Hw. vm_compute. lia.
Defined.

Lemma existsb_same_id objs fs fixId :
  existsb (fun r => FixRegistry.same_id (id_of objs r) (Some fixId)) fs = true
  <-> In (Some fixId) (map (id_of objs) fs).
Proof.
  rewrite existsb_exists, in_map_iff. split.
  - intros (r & Hr & Hid). exists r. split; [apply same_id_eq, Hid | exact Hr].
  - intros (r & Hid & Hr). exists r. split; [exact Hr|]. rewrite Hid. apply same_id_refl.
Qed.

(** X13.  On a registry in order, [removeFix] returns [true] exactly
    when a rule of the id is registered.  Afterwards no rule of that id
    is registered; the other rules are there in the order they had;
    the registry is in order; and the objects, the history and the rest
    of the world are as they were.  When no rule has the id the world
    is not changed at all. *)
Theorem removeFix_removes_the_rule_of_the_id (fixId : string) (w : World)
    (Hok : registry_ok w) :
  exists (removed : bool) w',
    FixRegistry.removeFix fixId w = (Returns removed, w')
    /\ (removed = true
        <-> In (Some fixId) (map (id_of (objects w)) (FixRegistryClass.fixes (registry w))))
    /\ FixRegistryClass.fixes (registry w')
       = List.filter (fun r => negb (FixRegistry.same_id (id_of (objects w) r) (Some fixId)))
                     (FixRegistryClass.fixes (registry w))
    /\ ~ In (Some fixId) (map (id_of (objects w')) (FixRegistryClass.fixes (registry w')))
    /\ (removed = false -> w' = w)
    /\ registry_ok w'
    /\ objects w' = objects w
    /\ FixRegistryClass.fixHistory (registry w') = FixRegistryClass.fixHistory (registry w)
    /\ monitor w' = monitor w /\ interceptor w' = interceptor w
    /\ localStorage w' = localStorage w /\ trace w' = trace w.
Proof.
  eexists. eexists. split; [apply removeFix_ok, Hok|].
  split; [apply existsb_same_id|].
  cbn [registry with_registry FixRegistryClass.fixes FixRegistryClass.with_fixes objects
       FixRegistryClass.fixHistory monitor interceptor localStorage trace].
  split; [reflexivity|]. split; [|split; [|split]].
  - intros Hin. apply in_map_iff in Hin as (r & Hid & Hr).
    apply filter_In in Hr as [_ Hr]. rewrite Hid, same_id_refl in Hr. discriminate.
  - intros Hno. rewrite filter_all; [destruct w as [? ? [? ?] ? ? ?]; reflexivity|].
    intros r Hr. apply negb_true_iff.
    destruct (FixRegistry.same_id _ _) eqn:E; [|reflexivity].
    rewrite <- Hno. symmetry. apply existsb_exists. eauto.
  - eapply removeFix_keeps_ok; [exact Hok| |]; reflexivity.
  - repeat split; reflexivity.
Qed.

Lemma example_priority_world_ok : registry_ok example_priority_world.
Proof.
  apply (registerFix_keeps_ok example_host FixRegistry.memory_leak
           (snd (FixRegistry.registerFix example_host example_leak_rule example_world))).
  - apply (registerFix_keeps_ok example_host example_leak_rule example_world).
    + apply registry_ok_empty. reflexivity.
    + repeat split. simpl. eauto.
    + intros (r & g & [] & _).
    + reflexivity.
    + reflexivity.
  - repeat split. simpl. eauto.
  - intros (r & g & Hr & Hg & Hid). destruct Hr as [<-|[]].
    vm_compute in Hg. injection Hg as <-. discriminate.
  - reflexivity.
  - reflexivity.
Qed.

(** [example_priority_world] lists [memory_leak] (reference 1, priority
    5) before [example_leak_rule] (reference 0, priority 3). *)
Lemma removeFix_removes_the_rule_of_the_id_witness :
  exists w',
    FixRegistry.removeFix "memory-leak" example_priority_world = (Returns true, w')
    /\ FixRegistryClass.fixes (registry w') = [0%nat].
Proof.
  destruct (removeFix_removes_the_rule_of_the_id "memory-leak" example_priority_world
              example_priority_world_ok)
    as (removed & w' & E & Hiff & Hf & _).
  exists w'. split; [|exact Hf].
  rewrite E. f_equal. f_equal. apply Hiff. left. reflexivity.
Defined.

Lemma filter_split_sorted {A} (key : A -> Z) (k : Z) (l : list A) :
  StronglySorted (fun a b => key b <= key a) l ->
  (List.filter (fun y => k <=? key y) l ++ List.filter (fun y => key y <? k) l)%list = l.
Proof.
  induction 1 as [|y l Hs IH Hall]; simpl; [reflexivity|].
  destruct (Z.leb_spec k (key y)).
  - destruct (Z.ltb_spec (key y) k); [lia|]. simpl. now rewrite IH.
  - destruct (Z.ltb_spec (key y) k); [|lia].
    assert (H1 : List.filter (fun y => k <=? key y) l = []).
    { clear -Hall H. induction Hall as [|z l Hz _ IHz]; simpl; [reflexivity|].
      destruct (Z.leb_spec k (key z)); [lia | exact IHz]. }
    assert (H2 : List.filter (fun y => key y <? k) l = l).
    { clear -Hall H. induction Hall as [|z l Hz _ IHz]; simpl; [reflexivity|].
      destruct (Z.ltb_spec (key z) k); [now rewrite IHz | lia]. }
    rewrite H1, H2. reflexivity.
Qed.

(** X14.  A rule with its required fields and a new id is registered
    as a completed copy, a new object of the store; in the list it
    stands behind every rule of its own priority or a larger one and
    before every rule of a smaller priority, and the rules that were
    registered keep their order: among rules of one priority the one
    registered first comes first.  The registry stays in order. *)
Theorem registerFix_places_behind_equal_priority (h : Host) (f : ErrorFix.t) (w : World)
    (Hok : registry_ok w) (Hreq : has_required f) (Hfresh : ~ id_registered f w) :
  exists w',
    FixRegistry.registerFix h f w = (Returns tt, w')
    /\ objects w' = (objects w ++ [completeFix h f])%list
    /\ FixRegistryClass.fixes (registry w')
       = (List.filter (fun r => ErrorFix.priority f <=? FixRegistry.priority_of (objects w) r)
                      (FixRegistryClass.fixes (registry w))
          ++ length (objects w)
          :: List.filter (fun r => FixRegistry.priority_of (objects w) r <? ErrorFix.priority f)
                         (FixRegistryClass.fixes (registry w)))%list
    /\ (List.filter (fun r => ErrorFix.priority f <=? FixRegistry.priority_of (objects w) r)
                    (FixRegistryClass.fixes (registry w))
        ++ List.filter (fun r => FixRegistry.priority_of (objects w) r <? ErrorFix.priority f)
                       (FixRegistryClass.fixes (registry w)))%list
       = FixRegistryClass.fixes (registry w)
    /\ registry_ok w'.
Proof.
  destruct (registerFix_outcomes h f w) as [[e E]|(_ & _ & E)].
  - exfalso. destruct (registerFix_accepts h f w Hreq Hfresh) as (w' & E' & _).
    rewrite E in E'. discriminate.
  - eexists. split; [exact E|].
    cbn [objects registry FixRegistryClass.fixes FixRegistryClass.with_fixes].
    split; [reflexivity|]. split; [apply registerFix_placement, Hok|].
    split.
    + apply (filter_split_sorted (FixRegistry.priority_of (objects w))). apply Hok.
    + eapply registerFix_keeps_ok; try eassumption; reflexivity.
Qed.

(** [example_leak_rule] has the priority 3 and [memory_leak], registered
    after it, the priority 5: [memory_leak] (reference 1) is listed
    first. *)
Lemma registerFix_places_behind_equal_priority_witness :
  exists w',
    FixRegistry.registerFix example_host FixRegistry.memory_leak
      (snd (FixRegistry.registerFix example_host example_leak_rule example_world))
    = (Returns tt, w')
    /\ FixRegistryClass.fixes (registry w') = [1%nat; 0%nat].
Proof.
  destruct (registerFix_places_behind_equal_priority example_host FixRegistry.memory_leak
              (snd (FixRegistry.registerFix example_host example_leak_rule example_world)))
    as (w' & E & _ & Hf & _).
  - apply (registerFix_keeps_ok example_host example_leak_rule example_world).
    + apply registry_ok_empty. reflexivity.
    + repeat split. simpl. eauto.
    + intros (r & g & [] & _).
    + reflexivity.
    + reflexivity.
  - repeat split. simpl. eauto.
  - intros (r & g & Hr & Hg & Hid). destruct Hr as [<-|[]].
    vm_compute in Hg. injection Hg as <-. discriminate.
  - exists w'. split; [exact E | exact Hf].
Defined.

(** X15.  Registering a rule and removing it by its id gives the list
    of rules back as it was, and the id can be registered again; the
    object registered stays in the store, where the references of the
    history find it. *)
Theorem registerFix_then_removeFix (h : Host) (f : ErrorFix.t) (fixId : string) (w : World)
    (Hok : registry_ok w) (Hreq : has_required f) (Hid : ErrorFix.id f = Some fixId)
    (Hfresh : ~ id_registered f w) :
  exists w1 w2 w3,
    FixRegistry.registerFix h f w = (Returns tt, w1)
    /\ FixRegistry.removeFix fixId w1 = (Returns true, w2)
    /\ FixRegistryClass.fixes (registry w2) = FixRegistryClass.fixes (registry w)
    /\ FixRegistryClass.fixHistory (registry w2) = FixRegistryClass.fixHistory (registry w)
    /\ objects w2 = (objects w ++ [completeFix h f])%list
    /\ registry_ok w2
    /\ FixRegistry.registerFix h f w2 = (Returns tt, w3).
Proof.
  destruct (registerFix_outcomes h f w) as [[e E]|(_ & _ & E)].
  { exfalso. destruct (registerFix_accepts h f w Hreq Hfresh) as (w' & E' & _).
    rewrite E in E'. discriminate. }
  pose proof (registry_ok_refs_valid w Hok) as Hv. unfold refs_valid in Hv.
  rewrite List.Forall_forall in Hv.
  set (w1 := {| monitor := monitor w; interceptor := interceptor w;
                registry := _; objects := _; localStorage := _; trace := _ |}) in E.
  assert (Hok1 : registry_ok w1)
    by (eapply registerFix_keeps_ok; try eassumption; reflexivity).
  assert (Hold : forall r, In r (FixRegistryClass.fixes (registry w)) ->
            FixRegistry.same_id (id_of (objects w1) r) (Some fixId) = false).
  { intros r Hr. cbn [w1 objects]. rewrite id_of_app_l by (apply Hv, Hr).
    destruct (FixRegistry.same_id _ _) eqn:Hs; [|reflexivity].
    exfalso. apply Hfresh. apply same_id_eq in Hs.
    destruct Hok as (Hall & _). rewrite List.Forall_forall in Hall.
    destruct (Hall r Hr) as (g & Hg & _). exists r, g. repeat split; try assumption.
    unfold id_of in Hs. rewrite Hg in Hs. congruence. }
  assert (Hfs1 : List.filter
                   (fun r => negb (FixRegistry.same_id (id_of (objects w1) r) (Some fixId)))
                   (FixRegistryClass.fixes (registry w1))
                 = FixRegistryClass.fixes (registry w)).
  { cbn [w1 registry FixRegistryClass.fixes FixRegistryClass.with_fixes].
    rewrite (registerFix_placement h f w Hok).
    rewrite List.filter_app. cbn [List.filter].
    replace (id_of (objects w1) (length (objects w))) with (Some fixId)
      by (cbn [w1 objects]; rewrite id_of_new; symmetry; exact Hid).
    rewrite same_id_refl. cbn [negb].
    assert (Hkeep : forall p,
              List.filter
                (fun r => negb (FixRegistry.same_id (id_of (objects w1) r) (Some fixId)))
                (List.filter p (FixRegistryClass.fixes (registry w)))
              = List.filter p (FixRegistryClass.fixes (registry w))).
    { intros p. apply filter_all. intros r Hr.
      apply filter_In in Hr as [Hr _]. now rewrite Hold. }
    rewrite !Hkeep.
    apply (filter_split_sorted (FixRegistry.priority_of (objects w))). apply Hok. }
  set (w2 := with_registry w1
               (FixRegistryClass.with_fixes (registry w1) (FixRegistryClass.fixes (registry w)))).
  assert (E2 : FixRegistry.removeFix fixId w1 = (Returns true, w2)).
  { rewrite (removeFix_ok fixId w1 Hok1). rewrite Hfs1. f_equal. f_equal.
    apply existsb_exists. exists (length (objects w)). split.
    - cbn [w1 registry FixRegistryClass.fixes FixRegistryClass.with_fixes].
      rewrite (registerFix_placement h f w Hok). apply in_or_app. right. left. reflexivity.
    - cbn [w1 objects]. rewrite id_of_new. cbn. rewrite Hid. apply same_id_refl. }
  assert (Hok2 : registry_ok w2).
  { apply (removeFix_keeps_ok w1 w2
             (fun r => negb (FixRegistry.same_id (id_of (objects w1) r) (Some fixId))) Hok1).
    - reflexivity.
    - cbn [w2 registry with_registry FixRegistryClass.fixes FixRegistryClass.with_fixes].
      symmetry. exact Hfs1. }
  assert (Hfresh2 : ~ id_registered f w2).
  { intros (r & g & Hr & Hg & Hgid).
    cbn [w2 registry with_registry FixRegistryClass.fixes FixRegistryClass.with_fixes] in Hr.
    specialize (Hold r Hr). cbn [w2 objects with_registry] in Hg.
    unfold id_of in Hold. rewrite Hg, Hgid, Hid, same_id_refl in Hold. discriminate. }
  destruct (registerFix_accepts h f w2 Hreq Hfresh2) as (w3 & E3 & _).
  exists w1, w2, w3. split; [exact E|]. split; [exact E2|].
  split; [reflexivity|]. split; [reflexivity|]. split; [reflexivity|].
  split; [exact Hok2 | exact E3].
Qed.

Lemma registerFix_then_removeFix_witness :
  exists w1 w2,
    FixRegistry.registerFix example_host FixRegistry.memory_leak example_world = (Returns tt, w1)
    /\ FixRegistry.removeFix "memory-leak" w1 = (Returns true, w2)
    /\ FixRegistryClass.fixes (registry w2) = [].
Proof.
  destruct (registerFix_then_removeFix example_host FixRegistry.memory_leak "memory-leak"
              example_world)
    as (w1 & w2 & w3 & E1 & E2 & Hf & _).
  - apply registry_ok_empty. reflexivity.
  - repeat split. simpl. eauto.
  - reflexivity.
  - intros (r & g & [] & _).
  - exists w1, w2. auto.
Defined.

From Stdlib Require Import Lqa.

(** ** The remediation registry: the history *)

(** X16.  [applyFix] on a rule of the store never throws, and the
    attempt is the newest entry of [getFixHistory()].  When the fix
    function settles, the history is the old one and the attempt, cut
    to its last 50 entries once it has more than 100: a history of 100
    entries at most stays so.  When the fix function throws, [applyFix]
    answers [false] and the attempt is added without the cut. *)
Theorem applyFix_records_the_attempt
    (h : Host) (r : FixRef) (err : JsError.t) (ctx : option (list (string * JsValue)))
    (w : World) (f : ErrorFix.t)
    (fn : JsError.t -> option (list (string * JsValue)) -> Host -> Outcome bool)
    (Hr : objects w !! r = Some f) (Hfn : ErrorFix.fixFunction f = Some fn) :
  exists (b : bool) w',
    FixRegistry.applyFix h r err ctx w = (Returns b, w')
    /\ b = match fn err ctx h with Returns b => b | Throws _ => false end
    /\ hd_error (FixRegistryQueries.getFixHistory (registry w')) = Some (attempt h r b err)
    /\ FixRegistryClass.fixHistory (registry w')
       = (let hs := (FixRegistryClass.fixHistory (registry w) ++ [attempt h r b err])%list in
          match fn err ctx h with
          | Returns _ => if (100 <? length hs)%nat then drop (length hs - 50) hs else hs
          | Throws _ => hs
          end)
    /\ (forall b', fn err ctx h = Returns b' ->
          (length (FixRegistryClass.fixHistory (registry w)) <= 100)%nat ->
          (length (FixRegistryClass.fixHistory (registry w')) <= 100)%nat)
    /\ FixRegistryClass.fixes (registry w') = FixRegistryClass.fixes (registry w).
Proof.
  assert (Hhd : forall (hs : list FixAttempt.t) a n, (n <= length hs)%nat ->
            hd_error (rev (drop n (hs ++ [a]))) = Some a).
  { intros hs a n Hn. rewrite drop_app_le by exact Hn. now rewrite rev_app_distr. }
  destruct (fn err ctx h) as [b|e] eqn:Hb.
  - exists b. eexists. split; [eapply applyFix_resolved_run; eassumption|].
    cbn [registry FixRegistryClass.fixHistory FixRegistryClass.with_fixHistory
         FixRegistryClass.fixes].
    unfold FixRegistryQueries.getFixHistory, Js.slice_last.
    cbn [FixRegistryClass.fixHistory FixRegistryClass.with_fixHistory].
    set (hs := FixRegistryClass.fixHistory (registry w)).
    split; [reflexivity|]. cbv zeta. rewrite length_app. cbn [length].
    destruct (Nat.ltb_spec 100 (length hs + 1)) as [Hlt|Hge].
    + split; [apply Hhd; lia|]. split; [reflexivity|]. split; [|reflexivity].
      intros _ _ Hle. rewrite length_drop, length_app. simpl. lia.
    + split; [now rewrite rev_app_distr|]. split; [reflexivity|]. split; [|reflexivity].
      intros _ _ Hle. rewrite length_app. simpl. lia.
  - exists false. eexists. split; [eapply applyFix_rejected_run; eassumption|].
    cbn [registry FixRegistryClass.fixHistory FixRegistryClass.with_fixHistory
         FixRegistryClass.fixes].
    unfold FixRegistryQueries.getFixHistory.
    cbn [FixRegistryClass.fixHistory FixRegistryClass.with_fixHistory].
    split; [reflexivity|]. split; [now rewrite rev_app_distr|].
    split; [reflexivity|]. split; [|reflexivity]. intros b' Hb'. discriminate.
Qed.

(** The second application of [memory_leak] in [example_after_success],
    on a host without [window.gc]. *)
Lemma applyFix_records_the_attempt_witness :
  exists w',
    FixRegistry.applyFix example_host 0%nat example_error None example_after_success
    = (Returns false, w')
    /\ hd_error (FixRegistryQueries.getFixHistory (registry w'))
       = Some (attempt example_host 0%nat false example_error).
Proof.
  destruct (applyFix_records_the_attempt example_host 0%nat example_error None
              example_after_success
              (applied example_host_gc (completeFix example_host FixRegistry.memory_leak) true)
              (fun _ _ h => match window_location_href h, window_gc h with
                            | Some _, Some true => Returns true
                            | _, _ => Returns false
                            end))
    as (b & w' & E & Hb & Hhd & _).
  - reflexivity.
  - reflexivity.
  - exists w'. cbn in Hb. subst b. auto.
Defined.

(** ** The remediation registry: the success rate *)

(** One step of the rate kept by [applyFix]: a success after [n]
    applications counted leaves a rate between 0 and 1 when the rate
    was, and the rate 1 when the rate was 1 or no application was
    counted. *)
Lemma rate_after_success (q : Q) (n : Z) :
  0 <= n -> (0 <= q)%Q -> (q <= 1)%Q ->
  let q' := ((q * inject_Z (n + 1 - 1) + 1) / inject_Z (n + 1))%Q in
  (0 <= q')%Q /\ (q' <= 1)%Q /\ (n = 0 \/ (q == 1)%Q -> (q' == 1)%Q).
Proof.
  intros Hn Hq0 Hq1 q'.
  assert (HN : (0 <= inject_Z n)%Q) by (change 0%Q with (inject_Z 0); now rewrite <- Zle_Qle).
  assert (Hpos : (0 < inject_Z (n + 1))%Q)
    by (change 0%Q with (inject_Z 0); rewrite <- Zlt_Qlt; lia).
  assert (Hn1 : (inject_Z (n + 1) == inject_Z n + 1)%Q) by (rewrite inject_Z_plus; reflexivity).
  assert (Hqn : (q * inject_Z n <= inject_Z n)%Q).
  { rewrite <- (Qmult_1_l (inject_Z n)) at 2. apply Qmult_le_compat_r; assumption. }
  assert (Hqn0 : (0 <= q * inject_Z n)%Q) by (apply Qmult_le_0_compat; assumption).
  assert (Hne : ~ (inject_Z (n + 1) == 0)%Q).
  { intros H0. rewrite H0 in Hpos. now apply Qlt_irrefl in Hpos. }
  split; [|split].
  - unfold q'. replace (n + 1 - 1) with n by lia.
    apply Qle_shift_div_l; [exact Hpos|]. lra.
  - unfold q'. replace (n + 1 - 1) with n by lia.
    apply Qle_shift_div_r; [exact Hpos|]. lra.
  - intros Hone. unfold q'. replace (n + 1 - 1) with n by lia.
    assert (Hnum : (q * inject_Z n + 1 == inject_Z (n + 1))%Q).
    { destruct Hone as [-> | Hq]; [|rewrite Hq, Hn1; ring].
      change (inject_Z 0) with 0%Q. change (inject_Z (0 + 1)) with 1%Q. ring. }
    rewrite Hnum. field. exact Hne.
Qed.

Lemma apply_each_rate r calls : forall w f fn (n k : Z) (q : Q),
  objects w !! r = Some f -> ErrorFix.fixFunction f = Some fn ->
  ErrorFix.timesUsed f = Some n -> ErrorFix.successRate f = Some q ->
  0 <= k <= n -> (0 <= q)%Q -> (q <= 1)%Q ->
  (k = 0 -> (q == 0)%Q) -> (k = n -> 0 < n -> (q == 1)%Q) ->
  exists bs w' f' q',
    apply_each r calls w = (Returns bs, w')
    /\ length bs = length calls
    /\ objects w' !! r = Some f'
    /\ ErrorFix.timesUsed f' = Some (n + settled fn calls)
    /\ ErrorFix.successRate f' = Some q'
    /\ (0 <= q')%Q /\ (q' <= 1)%Q
    /\ (k + successes bs = 0 -> (q' == 0)%Q)
    /\ (k + successes bs = n + settled fn calls -> 0 < n + settled fn calls -> (q' == 1)%Q)
    /\ 0 <= successes bs <= settled fn calls
    /\ settled fn calls <= Z.of_nat (length calls).
Proof.
  induction calls as [|[[h err] ctx] calls IH];
    intros w f fn n k q Hr Hfn Hn Hq Hk Hq0 Hq1 Hzero Hone.
  - exists [], w, f, q. unfold settled, successes. cbn.
    rewrite !Z.add_0_r. repeat split; auto; lia.
  - cbn [apply_each].
    destruct (fn err ctx h) as [b|e] eqn:Hb.
    + erewrite bind_returns by (eapply applyFix_resolved_run; eassumption).
      set (w1 := {| monitor := monitor w; interceptor := _; registry := _;
                    objects := _; localStorage := _; trace := _ |}).
      assert (Hr1 : objects w1 !! r = Some (applied h f b)).
      { cbn [w1 objects]. apply list_lookup_insert_eq. apply lookup_lt_is_Some. eauto. }
      assert (Hset : settled fn ((h, err, ctx) :: calls) = 1 + settled fn calls).
      { unfold settled. cbn [List.filter fst snd]. rewrite Hb. cbn [length]. lia. }
      destruct b.
      * destruct (rate_after_success q n (proj1 (conj (Z.le_trans _ _ _ (proj1 Hk) (proj2 Hk)) I))
                    Hq0 Hq1) as (Hq0' & Hq1' & Hone').
        destruct (IH w1 (applied h f true) fn (n + 1) (k + 1)
                    ((q * inject_Z (n + 1 - 1) + 1) / inject_Z (n + 1))%Q)
          as (bs & w' & f' & q' & E & Hlen & Hr' & Hn' & Hq' & H0 & H1 & Hz & Ho & Hs & Hs').
        { exact Hr1. }
        { exact Hfn. }
        { cbn. now rewrite Hn. }
        { cbn. now rewrite Hn, Hq. }
        { lia. }
        { exact Hq0'. }
        { exact Hq1'. }
        { intros; lia. }
        { intros Hkn _. apply Hone'.
          destruct (Z.eq_dec n 0) as [Hn0|Hn0]; [left; exact Hn0 | right; apply Hone; lia]. }
        exists (true :: bs), w', f', q'.
        erewrite bind_returns by exact E.
        assert (Hsucc : successes (true :: bs) = 1 + successes bs)
          by (unfold successes; cbn [List.filter length]; lia).
        rewrite Hset, Hsucc.
        replace (n + (1 + settled fn calls)) with (n + 1 + settled fn calls) by lia.
        replace (k + (1 + successes bs)) with (k + 1 + successes bs) by lia.
        split; [reflexivity|]. split; [simpl; lia|].
        repeat split; try assumption; try lia.
        cbn [length]. lia.
      * destruct (IH w1 (applied h f false) fn (n + 1) k q)
          as (bs & w' & f' & q' & E & Hlen & Hr' & Hn' & Hq' & H0 & H1 & Hz & Ho & Hs & Hs').
        { exact Hr1. }
        { exact Hfn. }
        { cbn. now rewrite Hn. }
        { cbn. exact Hq. }
        { lia. }
        { exact Hq0. }
        { exact Hq1. }
        { exact Hzero. }
        { intros; lia. }
        exists (false :: bs), w', f', q'.
        erewrite bind_returns by exact E.
        assert (Hsucc : successes (false :: bs) = successes bs) by reflexivity.
        rewrite Hset, Hsucc.
        replace (n + (1 + settled fn calls)) with (n + 1 + settled fn calls) by lia.
        split; [reflexivity|]. split; [simpl; lia|].
        repeat split; try assumption; try lia.
        cbn [length]. lia.
    + erewrite bind_returns by (eapply applyFix_rejected_run; eassumption).
      set (w1 := {| monitor := monitor w; interceptor := _; registry := _;
                    objects := _; localStorage := _; trace := _ |}).
      assert (Hset : settled fn ((h, err, ctx) :: calls) = settled fn calls).
      { unfold settled. cbn [List.filter fst snd]. now rewrite Hb. }
      destruct (IH w1 f fn n k q)
        as (bs & w' & f' & q' & E & Hlen & Hr' & Hn' & Hq' & H0 & H1 & Hz & Ho & Hs & Hs');
        try assumption.
      exists (false :: bs), w', f', q'.
      erewrite bind_returns by exact E.
      assert (Hsucc : successes (false :: bs) = successes bs) by reflexivity.
      rewrite Hset, Hsucc.
      split; [reflexivity|]. split; [simpl; lia|].
      repeat split; try assumption; try lia.
      cbn [length]. lia.
Qed.

(** X17.  A rule as [registerFix] leaves one given without statistics
    (no application counted, rate 0) is applied any number of times,
    the fix function answering or throwing as it does.  Every call
    returns; [timesUsed] is the number of the calls on which the fix
    function settled, the calls on which it throws not counted; and
    [successRate] stays between 0 and 1: it is 0 as long as no call
    succeeded, and 1 when every call on which the fix function settled
    succeeded and one did. *)
Theorem applyFix_counts_the_settled_calls
    (r : FixRef) (calls : list (Host * JsError.t * option (list (string * JsValue))))
    (w : World) (f : ErrorFix.t)
    (fn : JsError.t -> option (list (string * JsValue)) -> Host -> Outcome bool)
    (Hr : objects w !! r = Some f) (Hfn : ErrorFix.fixFunction f = Some fn)
    (Hn : ErrorFix.timesUsed f = Some 0) (Hq : ErrorFix.successRate f = Some 0%Q) :
  exists bs w' f' q,
    apply_each r calls w = (Returns bs, w')
    /\ length bs = length calls
    /\ objects w' !! r = Some f'
    /\ ErrorFix.timesUsed f' = Some (settled fn calls)
    /\ settled fn calls <= Z.of_nat (length calls)
    /\ successes bs <= settled fn calls
    /\ ErrorFix.successRate f' = Some q
    /\ (0 <= q)%Q /\ (q <= 1)%Q
    /\ (successes bs = 0 -> (q == 0)%Q)
    /\ (successes bs = settled fn calls -> 0 < settled fn calls -> (q == 1)%Q).
Proof.
  destruct (apply_each_rate r calls w f fn 0 0 0%Q Hr Hfn Hn Hq)
    as (bs & w' & f' & q & E & Hlen & Hr' & Hn' & Hq' & H0 & H1 & Hz & Ho & Hs & Hs');
    try lia; try discriminate; try reflexivity.
  rewrite !Z.add_0_l in *.
  exists bs, w', f', q. repeat split; try assumption; try lia.
Qed.

(** [memory_leak] in [example_apply_world], applied on a host with
    [window.gc] and on one without: two calls counted, one of them a
    success. *)
Lemma applyFix_counts_the_settled_calls_witness :
  exists bs w' f' q,
    apply_each 0%nat [(example_host_gc, example_error, None);
                      (example_host, example_error, None)] example_apply_world
    = (Returns bs, w')
    /\ bs = [true; false]
    /\ objects w' !! 0%nat = Some f'
    /\ ErrorFix.timesUsed f' = Some 2
    /\ ErrorFix.successRate f' = Some q
    /\ (0 <= q)%Q /\ (q <= 1)%Q.
Proof.
  destruct (applyFix_counts_the_settled_calls 0%nat
              [(example_host_gc, example_error, None); (example_host, example_error, None)]
              example_apply_world
              (completeFix example_host FixRegistry.memory_leak)
              (fun _ _ h => match window_location_href h, window_gc h with
                            | Some _, Some true => Returns true
                            | _, _ => Returns false
                            end))
    as (bs & w' & f' & q & E & _ & Hr & Hn & _ & _ & Hq & H0 & H1 & _).
  - reflexivity.
  - reflexivity.
  - reflexivity.
  - reflexivity.
  - exists bs, w', f', q. split; [exact E|].
    split; [|auto].
    assert (Hbs : Returns bs
                  = fst (apply_each 0%nat [(example_host_gc, example_error, None);
                                           (example_host, example_error, None)]
                                    example_apply_world))
      by (rewrite E; reflexivity).
    vm_compute in Hbs. injection Hbs as ->. reflexivity.
Defined.

(** ** The remediation registry: the import *)

Lemma registerFix_without_function h f w :
  ErrorFix.fixFunction f = None ->
  FixRegistry.registerFix h f w
  = (Throws (Error_ "Invalid fix registration: missing required fields"), w).
Proof.
  intros H. unfold FixRegistry.registerFix.
  rewrite missing_not_validated; [reflexivity|].
  right. right. right. exact H.
Qed.

Lemma import_items_run h items : forall i w,
  Forall (fun item => match item with
                      | ItemObject f => ErrorFix.fixFunction f = None
                      | _ => True
                      end) items ->
  exists o w',
    forEach_from i items (fun _ item =>
      match item with
      | ItemNull => throw (Error_ "TypeError")
      | ItemPrimitive => ret tt
      | ItemObject f =>
          if Js.truthy (ErrorFix.id f) && Js.truthy (ErrorFix.name f)
             && FixRegistry.pattern_truthy (ErrorFix.errorPattern f)
          then try_catch (FixRegistry.registerFix h f)
                         (fun _ => emit (Console warn "Failed to import fix"))
          else ret tt
      end) w = (o, w')
    /\ same_state w w'
    /\ (o = Returns tt /\ ~ In ItemNull items
        \/ (exists e, o = Throws e) /\ In ItemNull items)
    /\ exists added, trace w' = (trace w ++ added)%list
                     /\ Forall (fun e => e = Console warn "Failed to import fix") added.
Proof.
  induction items as [|item items IH]; intros i w Hall; cbn [forEach_from].
  - exists (Returns tt), w. split; [reflexivity|]. split; [apply same_state_refl|].
    split; [left; split; [reflexivity | intros []]|].
    exists []. split; [now rewrite app_nil_r | constructor].
  - apply Forall_cons in Hall as [Hitem Hall].
    destruct item as [| |f].
    + exists (Throws (Error_ "TypeError")), w.
      split; [reflexivity|]. split; [apply same_state_refl|].
      split; [right; split; [eauto | left; reflexivity]|].
      exists []. split; [now rewrite app_nil_r | constructor].
    + destruct (IH (S i) w Hall) as (o & w' & E & Hs & Ho & Ht).
      exists o, w'. split; [erewrite bind_returns by reflexivity; exact E|].
      split; [exact Hs|]. split; [|exact Ht].
      destruct Ho as [[-> Hn]|[He Hin]]; [left | right].
      * split; [reflexivity|]. intros [H|H]; [discriminate | auto].
      * split; [exact He | right; exact Hin].
    + destruct (Js.truthy (ErrorFix.id f) && Js.truthy (ErrorFix.name f)
                && FixRegistry.pattern_truthy (ErrorFix.errorPattern f)).
      * destruct (IH (S i) (with_trace w (trace w ++ [Console warn "Failed to import fix"]))
                    Hall) as (o & w' & E & Hs & Ho & added & Ht & Hadded).
        exists o, w'. split.
        { erewrite bind_returns; [exact E|].
          unfold try_catch. rewrite (registerFix_without_function h f w Hitem).
          apply emit_spec. }
        split; [exact Hs|]. split.
        { destruct Ho as [[-> Hn]|[He Hin]]; [left | right].
          - split; [reflexivity|]. intros [H|H]; [discriminate | auto].
          - split; [exact He | right; exact Hin]. }
        exists (Console warn "Failed to import fix" :: added). split.
        { rewrite Ht. cbn [trace with_trace]. now rewrite <- app_assoc. }
        constructor; [reflexivity | exact Hadded].
      * destruct (IH (S i) w Hall) as (o & w' & E & Hs & Ho & Ht).
        exists o, w'. split; [erewrite bind_returns by reflexivity; exact E|].
        split; [exact Hs|]. split; [|exact Ht].
        destruct Ho as [[-> Hn]|[He Hin]]; [left | right].
        -- split; [reflexivity|]. intros [H|H]; [discriminate | auto].
        -- split; [exact He | right; exact Hin].
Qed.

(** X18.  [importRegistry] registers nothing from a text whose rules
    have no [fixFunction], as every text is that [exportRegistry]
    wrote, JSON having no functions: [registerFix] rejects every rule
    that passes the test of [importRegistry].  The registry and the
    rules are as they were.  While the interceptor does not run, each
    rejected rule costs one warning on the console and nothing else,
    and the call returns, unless the text is no JSON, or is [null], or
    its array [fixes] holds a [null]: then it throws ['Invalid registry
    data format'] after one line on [console.error]. *)
Theorem importRegistry_registers_nothing (h : Host) (parsed : Parsed) (w : World)
    (Hjson : match parsed with
             | ParsedValue (Some items) =>
                 Forall (fun item => match item with
                                     | ItemObject f => ErrorFix.fixFunction f = None
                                     | _ => True
                                     end) items
             | _ => True
             end) :
  exists o w' added,
    FixRegistryQueries.importRegistry h parsed w = (o, w')
    /\ registry w' = registry w /\ objects w' = objects w
    /\ (interceptor_idle w ->
        monitor w' = monitor w /\ interceptor w' = interceptor w
        /\ localStorage w' = localStorage w
        /\ trace w' = (trace w ++ added)%list
        /\ Forall (fun e => e = Console warn "Failed to import fix"
                            \/ e = Console error "Failed to import fix registry:") added
        /\ (o = Returns tt \/ o = Throws (Error_ "Invalid registry data format"))
        /\ (o = Returns tt
            <-> match parsed with
                | ParsedValue None => True
                | ParsedValue (Some items) => ~ In ItemNull items
                | _ => False
                end)).
Proof.
  unfold FixRegistryQueries.importRegistry.
  destruct parsed as [| |[items|]]; unfold try_catch at 1.
  - exists (Throws (Error_ "Invalid registry data format")). eexists. eexists.
    split; [reflexivity|]. cbn. split; [reflexivity|]. split; [reflexivity|]. intros _.
    repeat split; auto; try (intros H; discriminate H || elim H).
    all: try (constructor; [right; reflexivity | constructor]).
  - exists (Throws (Error_ "Invalid registry data format")). eexists. eexists.
    split; [reflexivity|]. cbn. split; [reflexivity|]. split; [reflexivity|]. intros _.
    repeat split; auto; try (intros H; discriminate H || elim H).
    all: try (constructor; [right; reflexivity | constructor]).
  - unfold forEach.
    destruct (import_items_run h items 0%nat w Hjson)
      as (o & w' & E & (Hm & Hi & Hreg & Hobj & Hls) & Ho & added & Ht & Hadded).
    rewrite E.
    destruct Ho as [[-> Hn]|[[e ->] Hin]].
    + exists (Returns tt), w', added. split; [reflexivity|].
      split; [exact Hreg|]. split; [exact Hobj|]. intros _.
      repeat split; auto.
      eapply Forall_impl; [exact Hadded|]. simpl. auto.
    + exists (Throws (Error_ "Invalid registry data format")). eexists.
      exists (added ++ [Console error "Failed to import fix registry:"])%list.
      split; [reflexivity|]. cbn. split; [exact Hreg|]. split; [exact Hobj|]. intros _.
      rewrite Ht, <- app_assoc.
      repeat split; auto; try (intros H; discriminate H || (exfalso; auto)).
      apply Forall_app. split.
      * eapply Forall_impl; [exact Hadded|]. simpl. auto.
      * constructor; [right; reflexivity | constructor].
  - exists (Returns tt), w, []. split; [reflexivity|].
    split; [reflexivity|]. split; [reflexivity|]. intros _.
    rewrite app_nil_r. repeat split; auto.
Qed.

(** A text exported by [exportRegistry] and read back: the rule
    [memory_leak], which is not registered in [example_world], passes
    the test of [importRegistry] and is not registered. *)
Lemma importRegistry_registers_nothing_witness :
  exists o w',
    FixRegistryQueries.importRegistry example_host
      (ParsedValue (Some [ItemObject example_imported_rule])) example_world
    = (o, w')
    /\ FixRegistryClass.fixes (registry w') = []
    /\ objects w' = [].
Proof.
  destruct (importRegistry_registers_nothing example_host
              (ParsedValue (Some [ItemObject example_imported_rule])) example_world)
    as (o & w' & added & E & Hreg & Hobj & _).
  - repeat constructor.
  - exists o, w'. split; [exact E|]. rewrite Hreg, Hobj. split; reflexivity.
Defined.

(** ** The boundary *)

(** [applyFix] returns, whatever it is given; with its lines kept in
    the trace it touches the registry and the rules only. *)
Lemma applyFix_total h r err ctx w :
  exists (b : bool) w',
    FixRegistry.applyFix h r err ctx w = (Returns b, w')
    /\ monitor w' = monitor w /\ interceptor w' = interceptor w
    /\ localStorage w' = localStorage w.
Proof.
  destruct (objects w !! r) as [f|] eqn:Hr.
  - destruct (ErrorFix.fixFunction f) as [fn|] eqn:Hfn.
    + destruct (applyFix_frame h r err ctx w f Hr (ex_intro _ fn Hfn))
        as (b & w' & E & _ & _ & Hm & Hi & Hl).
      exists b, w'. auto.
    + exists false. eexists. split.
      * unfold FixRegistry.applyFix, try_catch.
        erewrite bind_returns by (apply deref_valid; exact Hr).
        erewrite bind_returns by reflexivity.
        rewrite Hfn. erewrite bind_throws by reflexivity.
        erewrite bind_returns by apply emit_spec.
        erewrite bind_returns by reflexivity. reflexivity.
      * cbn. auto.
  - exists false. eexists. split.
    + unfold FixRegistry.applyFix, try_catch.
      erewrite bind_throws.
      2:{ unfold FixRegistry.deref. erewrite bind_returns by reflexivity.
          cbv beta. rewrite Hr. reflexivity. }
      erewrite bind_returns by apply emit_spec.
      erewrite bind_returns by reflexivity. reflexivity.
    + cbn. auto.
Qed.

(** The search of [findFix] leaves the failure store alone. *)
Lemma findFix_loop_frame h err fs : forall w,
  exists o w', FixRegistry.findFix_loop h err fs w = (o, w') /\ w' = w.
Proof.
  induction fs as [|r fs IH]; intros w; simpl.
  - eexists. eexists. split; reflexivity.
  - destruct (objects w !! r) as [f|] eqn:Hr.
    + erewrite bind_returns by (apply deref_valid; exact Hr).
      destruct (matchesFix_decides h err f w) as [E|E];
        erewrite bind_returns by exact E.
      * eexists. eexists. split; reflexivity.
      * apply IH.
    + eexists. eexists. split; [|reflexivity].
      erewrite bind_throws; [reflexivity|].
      unfold FixRegistry.deref. erewrite bind_returns by reflexivity.
      cbv beta. rewrite Hr. reflexivity.
Qed.

(** What [attemptAutoRecovery] leaves of the boundary: it returns; the
    attempts, the budget and the handler are as they were; and either
    the timer is as it was, or there was room in the budget and a new
    timer is set. *)
Lemma attemptAutoRecovery_boundary h err b w :
  exists b' w',
    ErrorBoundary.attemptAutoRecovery h err b w = (Returns b', w')
    /\ monitor w' = monitor w /\ interceptor w' = interceptor w
    /\ localStorage w' = localStorage w
    /\ ErrorBoundary.recoveryAttempts (ErrorBoundary.state b')
       = ErrorBoundary.recoveryAttempts (ErrorBoundary.state b)
    /\ ErrorBoundary.maxRecoveryAttempts b' = ErrorBoundary.maxRecoveryAttempts b
    /\ ErrorBoundary.props_onError b' = ErrorBoundary.props_onError b
    /\ ErrorBoundary.hasError (ErrorBoundary.state b')
       = ErrorBoundary.hasError (ErrorBoundary.state b)
    /\ ErrorBoundary.error_ (ErrorBoundary.state b') = ErrorBoundary.error_ (ErrorBoundary.state b)
    /\ ErrorBoundary.errorInfo (ErrorBoundary.state b')
       = ErrorBoundary.errorInfo (ErrorBoundary.state b)
    /\ (ErrorBoundary.recoveryTimer b' = ErrorBoundary.recoveryTimer b
        \/ ErrorBoundary.recoveryAttempts (ErrorBoundary.state b)
           < ErrorBoundary.maxRecoveryAttempts b
           /\ ErrorBoundary.recoveryTimer b'
              = Some {| ErrorBoundary.delay :=
                          2000 + ErrorBoundary.recoveryAttempts (ErrorBoundary.state b) * 1000;
                        ErrorBoundary.pending := true |}).
Proof.
  unfold ErrorBoundary.attemptAutoRecovery.
  destruct (Z.leb_spec (ErrorBoundary.maxRecoveryAttempts b)
              (ErrorBoundary.recoveryAttempts (ErrorBoundary.state b))) as [Hmax|Hroom].
  - eexists. eexists. split.
    + erewrite bind_returns by apply emit_spec. reflexivity.
    + cbn. repeat split; auto.
  - unfold try_catch.
    assert (Hfind : FixRegistry.findFix h err w
                    = FixRegistry.findFix_loop h err (FixRegistryClass.fixes (registry w)) w)
      by reflexivity.
    destruct (findFix_loop_frame h err (FixRegistryClass.fixes (registry w)) w)
      as (o & w1 & E & ->).
    rewrite <- Hfind in E.
    destruct o as [[r|]|e].
    + erewrite bind_returns by exact E. cbv beta iota.
      erewrite bind_returns by apply emit_spec.
      destruct (applyFix_total h r err None
                  (with_trace w (trace w ++ [Console log "Applying auto-fix:"])))
        as (s & w' & E' & Hm & Hi & Hl).
      erewrite bind_returns by exact E'.
      destruct s; eexists; eexists; (split; [reflexivity|]);
        cbn; repeat split; auto; right; split; auto.
    + erewrite bind_returns by exact E. cbv beta iota.
      eexists. eexists. split; [reflexivity|].
      cbn. repeat split; auto.
    + erewrite bind_throws by exact E.
      eexists. eexists. split.
      * erewrite bind_returns by apply emit_spec. reflexivity.
      * cbn. repeat split; auto.
Qed.

Lemma reportError_after_report h report w :
  ErrorMonitor.reportError h report w = (Returns tt, after_report h report w).
Proof. apply reportError_run. Qed.

(** A render failure of the children, as far as the handler: the
    failure is reported, then the handler is called, and recovery is
    attempted when the handler returns. *)
Lemma child_throws_run h err info b w :
  ErrorBoundary.child_throws h err info b w
  = match ErrorBoundary.props_onError b with
    | Some (Throws e) => (Throws e, after_report h (boundary_report h err info) w)
    | _ => ErrorBoundary.attemptAutoRecovery h err (caught err info b)
             (after_report h (boundary_report h err info) w)
    end.
Proof.
  unfold ErrorBoundary.child_throws, ErrorBoundary.componentDidCatch.
  cbv zeta. fold (boundary_report h err info).
  erewrite bind_returns by apply reportError_after_report.
  cbn [ErrorBoundary.props_onError ErrorBoundary.with_state].
  destruct (ErrorBoundary.props_onError b) as [[[]|e]|].
  - erewrite bind_returns by reflexivity. reflexivity.
  - erewrite bind_throws by reflexivity. reflexivity.
  - erewrite bind_returns by reflexivity. reflexivity.
Qed.

Lemma boundary_event_within_budget ev b w :
  within_budget b -> handler_returns b = true ->
  exists b' w',
    boundary_event ev b w = (Returns b', w')
    /\ within_budget b' /\ handler_returns b' = true
    /\ ErrorBoundary.maxRecoveryAttempts b' = ErrorBoundary.maxRecoveryAttempts b
    /\ ErrorBoundary.recoveryAttempts (ErrorBoundary.state b)
       <= ErrorBoundary.recoveryAttempts (ErrorBoundary.state b').
Proof.
  intros [Hrange Hpend] Hh. destruct ev as [h err ei| | |]; cbn [boundary_event].
  - rewrite child_throws_run.
    unfold handler_returns in Hh.
    destruct (attemptAutoRecovery_boundary h err (caught err ei b)
                (after_report h (boundary_report h err ei) w))
      as (b' & w' & E & _ & Hi & _ & Ha & Hm & Hp & _ & _ & _ & Ht).
    cbn [caught ErrorBoundary.with_state ErrorBoundary.state ErrorBoundary.recoveryAttempts
         ErrorBoundary.maxRecoveryAttempts ErrorBoundary.props_onError
         ErrorBoundary.recoveryTimer] in Ha, Hm, Hp, Ht.
    exists b', w'. split.
    { destruct (ErrorBoundary.props_onError b) as [[[]|e]|]; [exact E | discriminate | exact E]. }
    unfold within_budget, handler_returns, timer_pending.
    rewrite Ha, Hm, Hp. split; [|split; [exact Hh|split; [reflexivity|lia]]].
    split; [exact Hrange|].
    destruct Ht as [-> | [Hroom ->]]; [exact Hpend | intros _; exact Hroom].
  - exists (ErrorBoundary.recoveryTimer_fires b), w. split; [reflexivity|].
    unfold ErrorBoundary.recoveryTimer_fires, within_budget, handler_returns, timer_pending in *.
    destruct (ErrorBoundary.recoveryTimer b) as [tm|] eqn:Htm.
    + destruct (ErrorBoundary.pending tm) eqn:Hp.
      * specialize (Hpend eq_refl). cbn. repeat split; try lia; try assumption;
          try (intros H; discriminate H).
      * rewrite Htm, Hp. repeat split; try lia; try assumption.
    + rewrite Htm. repeat split; try lia; try assumption.
  - exists (ErrorBoundary.handleManualRetry b), w. split; [reflexivity|].
    unfold within_budget, handler_returns, timer_pending in *. cbn.
    repeat split; try lia; try assumption.
  - exists (ErrorBoundary.componentWillUnmount b), w. split; [reflexivity|].
    unfold ErrorBoundary.componentWillUnmount, within_budget, handler_returns, timer_pending in *.
    destruct (ErrorBoundary.recoveryTimer b) as [tm|] eqn:Htm.
    + cbn. repeat split; try lia; try assumption; try (intros H; discriminate H).
    + rewrite Htm. repeat split; try lia; try assumption.
Qed.

(** X19.  A boundary whose attempts are within its budget (a new one
    is) and whose [onError] handler does not throw, through any
    sequence of failures of its children, firings of its timer, manual
    retries and its unmounting: every event returns, the attempts never
    decrease and never exceed [maxRecoveryAttempts], and a timer is
    pending only while an attempt is left. *)
Theorem boundary_attempts_stay_within_budget
    (evs : list BoundaryEvent) (b : ErrorBoundary.t) (w : World)
    (Hb : within_budget b) (Hh : handler_returns b = true) :
  exists b' w',
    boundary_events evs b w = (Returns b', w')
    /\ ErrorBoundary.recoveryAttempts (ErrorBoundary.state b)
       <= ErrorBoundary.recoveryAttempts (ErrorBoundary.state b')
       <= ErrorBoundary.maxRecoveryAttempts b
    /\ ErrorBoundary.maxRecoveryAttempts b' = ErrorBoundary.maxRecoveryAttempts b
    /\ (timer_pending b' = true ->
        ErrorBoundary.recoveryAttempts (ErrorBoundary.state b')
        < ErrorBoundary.maxRecoveryAttempts b).
Proof.
  revert b w Hb Hh. induction evs as [|ev evs IH]; intros b w Hb Hh; cbn [boundary_events].
  - exists b, w. split; [reflexivity|]. destruct Hb as [Hr Hp]. repeat split; auto; lia.
  - destruct (boundary_event_within_budget ev b w Hb Hh)
      as (b1 & w1 & E & Hb1 & Hh1 & Hm1 & Hle1).
    destruct (IH b1 w1 Hb1 Hh1) as (b' & w' & E' & Hle' & Hm' & Hp').
    exists b', w'. erewrite bind_returns by exact E.
    split; [exact E'|]. rewrite Hm1 in *. repeat split; try lia; try congruence.
    exact Hp'.
Qed.

Lemma within_budget_new onError : within_budget (ErrorBoundary.new onError).
Proof. split; [cbn; lia | intros H; discriminate H]. Qed.

Lemma boundary_attempts_stay_within_budget_witness :
  exists b' w',
    boundary_events example_boundary_events (ErrorBoundary.new None) example_priority_world
    = (Returns b', w')
    /\ ErrorBoundary.recoveryAttempts (ErrorBoundary.state b') <= 3.
Proof.
  destruct (boundary_attempts_stay_within_budget example_boundary_events
              (ErrorBoundary.new None) example_priority_world)
    as (b' & w' & E & Hle & _).
  - apply within_budget_new.
  - reflexivity.
  - exists b', w'. split; [exact E|]. apply Hle.
Defined.

(** X20.  A boundary that has used up its attempts and whose children
    throw: the boundary keeps the error and its info and nothing else
    of it changes; no rule is searched or applied and no timer is set.
    While the interceptor does not run, the state is the state
    [reportError] leaves for the failure, with one warning written
    after it.  From then on the
    boundary shows the error display through every further failure,
    firing of a timer and unmounting, until a manual retry. *)
Theorem exhausted_boundary_stays_failed
    (h : Host) (err : JsError.t) (info : ErrorInfo) (b : ErrorBoundary.t) (w : World)
    (evs : list BoundaryEvent)
    (Hb : within_budget b)
    (Hmax : ErrorBoundary.recoveryAttempts (ErrorBoundary.state b)
            = ErrorBoundary.maxRecoveryAttempts b)
    (Hh : handler_returns b = true)
    (Hevs : no_retry evs = true) :
  exists w1 b' w',
    ErrorBoundary.child_throws h err info b w = (Returns (caught err info b), w1)
    /\ registry w1 = registry w /\ objects w1 = objects w
    /\ (interceptor_idle w ->
        let reported_ := snd (ErrorMonitor.reportError h (boundary_report h err info) w) in
        w1 = with_trace reported_
               (trace reported_ ++ [Console warn "Max recovery attempts reached for error:"]))
    /\ boundary_events (ChildThrows h err info :: evs) b w = (Returns b', w')
    /\ ErrorBoundary.render b' = ErrorBoundary.ErrorDisplay
    /\ ErrorBoundary.recoveryAttempts (ErrorBoundary.state b')
       = ErrorBoundary.maxRecoveryAttempts b
    /\ timer_pending b' = false
    /\ registry w' = registry w /\ objects w' = objects w.
Proof.
  assert (Hstep : forall h err info b w,
            ErrorBoundary.maxRecoveryAttempts b
              <= ErrorBoundary.recoveryAttempts (ErrorBoundary.state b) ->
            handler_returns b = true ->
            ErrorBoundary.child_throws h err info b w
            = (Returns (caught err info b),
               with_trace (after_report h (boundary_report h err info) w)
                 (trace (after_report h (boundary_report h err info) w)
                  ++ [Console warn "Max recovery attempts reached for error:"]))).
  { clear. intros h err info b w Hmax Hh. rewrite child_throws_run.
    assert (E : ErrorBoundary.attemptAutoRecovery h err (caught err info b)
                  (after_report h (boundary_report h err info) w)
                = (Returns (caught err info b),
                   with_trace (after_report h (boundary_report h err info) w)
                     (trace (after_report h (boundary_report h err info) w)
                      ++ [Console warn "Max recovery attempts reached for error:"]))).
    { unfold ErrorBoundary.attemptAutoRecovery.
      cbn [caught ErrorBoundary.with_state ErrorBoundary.state ErrorBoundary.recoveryAttempts
           ErrorBoundary.maxRecoveryAttempts].
      destruct (Z.leb_spec (ErrorBoundary.maxRecoveryAttempts b)
                  (ErrorBoundary.recoveryAttempts (ErrorBoundary.state b))); [|lia].
      erewrite bind_returns by apply emit_spec. reflexivity. }
    unfold handler_returns in Hh.
    destruct (ErrorBoundary.props_onError b) as [[[]|e]|]; [exact E | discriminate | exact E]. }
  assert (Hrest : forall evs b w,
            no_retry evs = true ->
            ErrorBoundary.hasError (ErrorBoundary.state b) = true ->
            ErrorBoundary.maxRecoveryAttempts b
              <= ErrorBoundary.recoveryAttempts (ErrorBoundary.state b) ->
            timer_pending b = false -> handler_returns b = true ->
            exists b' w',
              boundary_events evs b w = (Returns b', w')
              /\ ErrorBoundary.hasError (ErrorBoundary.state b') = true
              /\ ErrorBoundary.recoveryAttempts (ErrorBoundary.state b')
                 = ErrorBoundary.recoveryAttempts (ErrorBoundary.state b)
              /\ timer_pending b' = false
              /\ registry w' = registry w /\ objects w' = objects w).
  { clear -Hstep. induction evs as [|ev evs IH]; intros b w Hno He Hmax Hp Hh.
    - exists b, w. repeat split; auto.
    - cbn [no_retry forallb] in Hno. apply andb_true_iff in Hno as [Hev Hno].
      cbn [boundary_events].
      destruct ev as [h err ei| | |]; try discriminate; cbn [boundary_event].
      + erewrite bind_returns by (apply Hstep; assumption).
        destruct (IH (caught err ei b)
                     (with_trace (after_report h (boundary_report h err ei) w)
                        (trace (after_report h (boundary_report h err ei) w)
                         ++ [Console warn "Max recovery attempts reached for error:"])))
          as (b' & w' & E & H1 & H2 & H3 & H4 & H5); try assumption; try reflexivity.
        exists b', w'. repeat split; assumption.
      + erewrite bind_returns by reflexivity.
        assert (Hsame : ErrorBoundary.recoveryTimer_fires b = b).
        { unfold ErrorBoundary.recoveryTimer_fires. unfold timer_pending in Hp.
          destruct (ErrorBoundary.recoveryTimer b) as [tm|]; [|reflexivity].
          now rewrite Hp. }
        rewrite Hsame. apply IH; assumption.
      + erewrite bind_returns by reflexivity.
        destruct (IH (ErrorBoundary.componentWillUnmount b) w)
          as (b' & w' & E & H1 & H2 & H3 & H4 & H5); try assumption.
        * unfold ErrorBoundary.componentWillUnmount.
          destruct (ErrorBoundary.recoveryTimer b); exact He.
        * unfold ErrorBoundary.componentWillUnmount.
          destruct (ErrorBoundary.recoveryTimer b); exact Hmax.
        * unfold ErrorBoundary.componentWillUnmount, timer_pending.
          destruct (ErrorBoundary.recoveryTimer b) eqn:Ht; [reflexivity|].
          now rewrite Ht.
        * unfold ErrorBoundary.componentWillUnmount, handler_returns in *.
          destruct (ErrorBoundary.recoveryTimer b); exact Hh.
        * exists b', w'. split; [exact E|]. split; [exact H1|]. split; [|auto].
          rewrite H2. unfold ErrorBoundary.componentWillUnmount.
          destruct (ErrorBoundary.recoveryTimer b); reflexivity. }
  assert (Hnp : timer_pending b = false).
  { destruct Hb as [_ Hp]. destruct (timer_pending b); [|reflexivity].
    specialize (Hp eq_refl). lia. }
  destruct (Hrest evs (caught err info b)
              (with_trace (after_report h (boundary_report h err info) w)
                 (trace (after_report h (boundary_report h err info) w)
                  ++ [Console warn "Max recovery attempts reached for error:"])))
    as (b' & w' & E & H1 & H2 & H3 & H4 & H5); try assumption; try reflexivity.
  { cbn. lia. }
  eexists. exists b', w'. split; [apply Hstep; [lia | exact Hh]|].
  split; [reflexivity|]. split; [reflexivity|].
  split; [intros _; cbv zeta; rewrite reportError_after_report; reflexivity|].
  split.
  { cbn [boundary_events boundary_event].
    erewrite bind_returns by (apply Hstep; [lia | exact Hh]). exact E. }
  split; [unfold ErrorBoundary.render; now rewrite H1|].
  split; [rewrite H2; exact Hmax|]. split; [exact H3|]. split; assumption.
Qed.

Lemma exhausted_boundary_stays_failed_witness :
  exists b' w',
    boundary_events
      [ChildThrows example_host example_error {| componentStack := Some "in App" |};
       TimerFires;
       ChildThrows example_host example_error {| componentStack := Some "in App" |};
       Unmount]
      example_spent_boundary example_priority_world
    = (Returns b', w')
    /\ ErrorBoundary.render b' = ErrorBoundary.ErrorDisplay
    /\ registry w' = registry example_priority_world.
Proof.
  destruct (exhausted_boundary_stays_failed example_host example_error
              {| componentStack := Some "in App" |}
              example_spent_boundary example_priority_world
              [TimerFires;
               ChildThrows example_host example_error {| componentStack := Some "in App" |};
               Unmount])
    as (w1 & b' & w' & _ & _ & _ & _ & E & Hr & _ & _ & Hreg & _).
  - split; [cbn; lia | intros H; discriminate H].
  - reflexivity.
  - reflexivity.
  - reflexivity.
  - exists b', w'. auto.
Defined.

Lemma findFix_valid h err w :
  refs_valid w ->
  exists found, FixRegistry.findFix h err w = (Returns found, w).
Proof.
  intros Hv.
  assert (Hfind : FixRegistry.findFix h err w
                  = FixRegistry.findFix_loop h err (FixRegistryClass.fixes (registry w)) w)
    by reflexivity.
  rewrite Hfind.
  destruct (findFix_loop_returns h err w _ Hv) as [E|(r & _ & _ & E & _)]; eauto.
Qed.

(** The answer of the search depends on the rules only. *)
Lemma findFix_loop_objects h err fs : forall v v',
  objects v' = objects v ->
  fst (FixRegistry.findFix_loop h err fs v') = fst (FixRegistry.findFix_loop h err fs v).
Proof.
  induction fs as [|r fs IH]; intros v v' Hobj; [reflexivity|].
  cbn [FixRegistry.findFix_loop].
  destruct (objects v !! r) as [f|] eqn:Hr.
  - assert (Hr' : objects v' !! r = Some f) by (now rewrite Hobj).
    rewrite (bind_returns _ _ v f v (deref_valid r f v Hr)).
    rewrite (bind_returns _ _ v' f v' (deref_valid r f v' Hr')).
    destruct (matchesFix_pure h err f) as [m Hp].
    rewrite (bind_returns _ _ v m v (Hp v)).
    rewrite (bind_returns _ _ v' m v' (Hp v')).
    destruct m; [reflexivity | apply IH, Hobj].
  - assert (Hd : forall u, objects u = objects v ->
                   FixRegistry.deref r u = (Throws (Error_ "TypeError"), u)).
    { intros u Hu. unfold FixRegistry.deref.
      erewrite bind_returns by reflexivity. cbv beta. rewrite Hu, Hr. reflexivity. }
    rewrite (bind_throws _ _ v _ v (Hd v eq_refl)).
    rewrite (bind_throws _ _ v' _ v' (Hd v' Hobj)). reflexivity.
Qed.

(** X21.  A boundary with an attempt left, whose handler does not
    throw, on a registry whose references are sound: when its children
    throw and the recovery it attempts has settled, it shows the error
    display and one timer is set, of the delay 2000 + 1000 * attempts,
    whatever the registry finds and whatever the fix answers;
    [autoFixApplied] is set only if a rule was found.  While the
    interceptor does not run, the store is as the report of the failure
    left it.  When the timer fires the boundary renders its children
    again and counts one more attempt, once; when the boundary is
    unmounted before, the timer changes nothing. *)
Theorem child_throws_schedules_one_recovery
    (h : Host) (err : JsError.t) (info : ErrorInfo) (b : ErrorBoundary.t) (w : World)
    (Hv : refs_valid w)
    (Hroom : ErrorBoundary.recoveryAttempts (ErrorBoundary.state b)
             < ErrorBoundary.maxRecoveryAttempts b)
    (Hh : handler_returns b = true) :
  exists b' w' (fixed : bool),
    ErrorBoundary.child_throws h err info b w = (Returns b', w')
    /\ ErrorBoundary.recoveryTimer b'
       = Some {| ErrorBoundary.delay :=
                   2000 + ErrorBoundary.recoveryAttempts (ErrorBoundary.state b) * 1000;
                 ErrorBoundary.pending := true |}
    /\ ErrorBoundary.state b'
       = {| ErrorBoundary.hasError := true;
            ErrorBoundary.error_ := Some err;
            ErrorBoundary.errorInfo := Some info;
            ErrorBoundary.isRecovering := true;
            ErrorBoundary.recoveryAttempts := ErrorBoundary.recoveryAttempts (ErrorBoundary.state b);
            ErrorBoundary.autoFixApplied :=
              if fixed then true else ErrorBoundary.autoFixApplied (ErrorBoundary.state b) |}
    /\ (fixed = true -> exists r, FixRegistry.findFix h err w = (Returns (Some r), w))
    /\ ErrorBoundary.render b' = ErrorBoundary.ErrorDisplay
    /\ (interceptor_idle w ->
        monitor w' = monitor (after_report h (boundary_report h err info) w))
    /\ ErrorBoundary.state (ErrorBoundary.recoveryTimer_fires b')
       = {| ErrorBoundary.hasError := false;
            ErrorBoundary.error_ := None;
            ErrorBoundary.errorInfo := None;
            ErrorBoundary.isRecovering := false;
            ErrorBoundary.recoveryAttempts :=
              ErrorBoundary.recoveryAttempts (ErrorBoundary.state b) + 1;
            ErrorBoundary.autoFixApplied :=
              if fixed then true else ErrorBoundary.autoFixApplied (ErrorBoundary.state b) |}
    /\ ErrorBoundary.recoveryTimer_fires (ErrorBoundary.recoveryTimer_fires b')
       = ErrorBoundary.recoveryTimer_fires b'
    /\ ErrorBoundary.recoveryTimer_fires (ErrorBoundary.componentWillUnmount b')
       = ErrorBoundary.componentWillUnmount b'
    /\ ErrorBoundary.state (ErrorBoundary.componentWillUnmount b') = ErrorBoundary.state b'.
Proof.
  set (w1 := after_report h (boundary_report h err info) w).
  assert (Hv1 : refs_valid w1) by exact Hv.
  destruct (findFix_valid h err w1 Hv1) as [found E].
  assert (Hrun : ErrorBoundary.child_throws h err info b w
                 = ErrorBoundary.attemptAutoRecovery h err (caught err info b) w1).
  { rewrite child_throws_run. unfold handler_returns in Hh. fold w1.
    destruct (ErrorBoundary.props_onError b) as [[[]|e]|]; [reflexivity | discriminate | reflexivity]. }
  rewrite Hrun. unfold ErrorBoundary.attemptAutoRecovery.
  cbn [caught ErrorBoundary.with_state ErrorBoundary.state ErrorBoundary.recoveryAttempts
       ErrorBoundary.maxRecoveryAttempts].
  destruct (Z.leb_spec (ErrorBoundary.maxRecoveryAttempts b)
              (ErrorBoundary.recoveryAttempts (ErrorBoundary.state b))); [lia|].
  unfold try_catch. erewrite bind_returns by exact E.
  destruct found as [r|].
  - erewrite bind_returns by apply emit_spec.
    destruct (applyFix_total h r err None
                (with_trace w1 (trace w1 ++ [Console log "Applying auto-fix:"])))
      as (s & w' & E' & Hm & _).
    erewrite bind_returns by exact E'.
    assert (Hfound : exists r, FixRegistry.findFix h err w = (Returns (Some r), w)).
    { destruct (findFix_valid h err w Hv) as [found' E0].
      pose proof (findFix_loop_objects h err (FixRegistryClass.fixes (registry w)) w w1 eq_refl)
        as Hsame.
      change (FixRegistry.findFix_loop h err (FixRegistryClass.fixes (registry w)) w1)
        with (FixRegistry.findFix h err w1) in Hsame.
      change (FixRegistry.findFix_loop h err (FixRegistryClass.fixes (registry w)) w)
        with (FixRegistry.findFix h err w) in Hsame.
      rewrite E, E0 in Hsame. cbn in Hsame. injection Hsame as <-. eauto. }
    destruct s; eexists; eexists; [exists true | exists false];
      (split; [reflexivity|]); cbn; repeat split; auto; try discriminate.
  - eexists. eexists. exists false. split; [reflexivity|].
    cbn. repeat split; auto; discriminate.
Qed.

(** A new boundary over [example_priority_world]: the first timer has
    the delay 2000. *)
Lemma child_throws_schedules_one_recovery_witness :
  exists b' w',
    ErrorBoundary.child_throws example_host example_error
      {| componentStack := Some "in App" |} (ErrorBoundary.new None) example_priority_world
    = (Returns b', w')
    /\ ErrorBoundary.recoveryTimer b'
       = Some {| ErrorBoundary.delay := 2000; ErrorBoundary.pending := true |}.
Proof.
  destruct (child_throws_schedules_one_recovery example_host example_error
              {| componentStack := Some "in App" |} (ErrorBoundary.new None)
              example_priority_world)
    as (b' & w' & fixed & E & Ht & _).
  - apply registry_ok_refs_valid, example_priority_world_ok.
  - cbn. lia.
  - reflexivity.
  - exists b', w'. split; [exact E | exact Ht].
Defined.



(** ** The global console and the life cycle of the interceptor *)

Lemma sbind_returns {A B} (m : SM A) (k : A -> SM B) s a s' :
  m s = (Returns a, s') -> (m ≫= k) s = k a s'.
Proof. intros H. unfold mbind, SM_bind, sbind. now rewrite H. Qed.

(** A call below the level [error] that reaches the interceptor: it
    returns, and changes the buffer and the trace only. *)
Lemma createInterceptor_below_error level h args w :
  level <> error ->
  exists w',
    ConsoleInterceptor.createInterceptor level h args w = (Returns tt, w')
    /\ ConsoleInterceptorClass.isIntercepting (interceptor w')
       = ConsoleInterceptorClass.isIntercepting (interceptor w)
    /\ ConsoleInterceptorClass.config (interceptor w')
       = ConsoleInterceptorClass.config (interceptor w)
    /\ ConsoleInterceptorClass.listeners (interceptor w')
       = ConsoleInterceptorClass.listeners (interceptor w)
    /\ ConsoleInterceptorClass.capturedMessages (interceptor w')
       = buffer_after h level args (interceptor w)
    /\ monitor w' = monitor w /\ registry w' = registry w
    /\ objects w' = objects w /\ localStorage w' = localStorage w.
Proof.
  intros Hl.
  assert (Hle : Level_eqb level error = false) by (destruct level; try reflexivity; now elim Hl).
  rewrite createInterceptor_run, processMessage_run, Hle.
  unfold buffer_after.
  replace (ConsoleInterceptorClass.config
             (interceptor
                (if preserveOriginal (ConsoleInterceptorClass.config (interceptor w))
                 then with_trace w (trace w ++ [OriginalSink level args]) else w)))
    with (ConsoleInterceptorClass.config (interceptor w))
    by (destruct (preserveOriginal _); reflexivity).
  destruct (ConsoleInterceptor.shouldFilterMessage _ _).
  - eexists. split; [reflexivity|].
    destruct (preserveOriginal _); repeat split; reflexivity.
  - eexists. split; [reflexivity|].
    destruct (preserveOriginal _); repeat split; reflexivity.
Qed.

(** What a call of a method other than [console.error] leaves, on a
    console that is bound as configured. *)
Lemma console_call_below_error h method args s :
  method <> error ->
  (bound (console s) method = Original \/ bound (console s) method = Interceptor method) ->
  exists w',
    console_call h method args s = (Returns tt, with_world s w')
    /\ ConsoleInterceptorClass.isIntercepting (interceptor w')
       = ConsoleInterceptorClass.isIntercepting (interceptor (world s))
    /\ ConsoleInterceptorClass.config (interceptor w')
       = ConsoleInterceptorClass.config (interceptor (world s))
    /\ ConsoleInterceptorClass.listeners (interceptor w')
       = ConsoleInterceptorClass.listeners (interceptor (world s))
    /\ ConsoleInterceptorClass.capturedMessages (interceptor w')
       = match bound (console s) method with
         | Original => ConsoleInterceptorClass.capturedMessages (interceptor (world s))
         | Interceptor _ => buffer_after h method args (interceptor (world s))
         end
    /\ monitor w' = monitor (world s) /\ registry w' = registry (world s)
    /\ objects w' = objects (world s) /\ localStorage w' = localStorage (world s).
Proof.
  intros Hm Hb. unfold console_call.
  erewrite sbind_returns by reflexivity. cbv beta.
  destruct Hb as [Hb|Hb]; rewrite Hb.
  - eexists. split; [reflexivity|]. repeat split; reflexivity.
  - destruct (createInterceptor_below_error method h args (world s) Hm)
      as (w' & E & H1 & H2 & H3 & H4 & H5).
    exists w'. split; [unfold lift; now rewrite E|]. auto.
Qed.

Lemma lift_returns {A} (m : M A) s a w' :
  m (world s) = (Returns a, w') -> lift m s = (Returns a, with_world s w').
Proof. intros H. unfold lift. now rewrite H. Qed.

(** [start] on an interceptor that runs: a warning, and nothing else. *)
Lemma start_run_running h customConfig s :
  ConsoleInterceptorClass.isIntercepting (interceptor (world s)) = true ->
  ConsoleInterceptorLifecycle.start h customConfig s
  = console_call h warn [ArgString "Console interceptor is already running"] s.
Proof.
  intros Hrun. unfold ConsoleInterceptorLifecycle.start.
  erewrite sbind_returns by (apply lift_returns; reflexivity).
  cbv beta. rewrite Hrun. destruct s; reflexivity.
Qed.

(** [start] on an interceptor that does not run, on the original
    console: the configuration is merged, the flag set, the console
    bound, and the line written through the console as it is then. *)
Lemma start_run_idle h customConfig s :
  ConsoleInterceptorClass.isIntercepting (interceptor (world s)) = false ->
  console s = originalConsole ->
  ConsoleInterceptorLifecycle.start h customConfig s
  = console_call h log [ArgString "🔍 Console interceptor started - monitoring for errors"]
      (started (start_config (interceptor (world s)) customConfig) s).
Proof.
  destruct s as [w c]. cbn [world console]. intros Hidle ->.
  unfold ConsoleInterceptorLifecycle.start.
  erewrite sbind_returns by reflexivity.
  cbv beta. cbn [world]. rewrite Hidle.
  set (cfg := start_config (interceptor w) customConfig).
  erewrite (sbind_returns _ _ _ tt
              {| world := with_interceptor w (interceptor_set (interceptor w) false cfg);
                 console := originalConsole |}).
  2:{ unfold cfg, start_config. destruct customConfig as [custom|].
      - unfold lift, ConsoleInterceptorLifecycle.set_config, modify, interceptor_set.
        cbn. rewrite Hidle. reflexivity.
      - unfold sret. f_equal. f_equal. destruct w as [? [? ? ? ?] ? ? ? ?]. cbn in *.
        rewrite Hidle. reflexivity. }
  erewrite sbind_returns by reflexivity.
  erewrite sbind_returns by reflexivity.
  cbn [with_world world console interceptor with_interceptor
       ConsoleInterceptorClass.config interceptor_set].
  unfold started, configured.
  destruct (captureErrors cfg), (captureWarnings cfg), (captureInfo cfg), (captureDebug cfg);
    reflexivity.
Qed.

Lemma stop_run_idle h s :
  ConsoleInterceptorClass.isIntercepting (interceptor (world s)) = false ->
  ConsoleInterceptorLifecycle.stop h s = (Returns tt, s).
Proof.
  intros Hidle. unfold ConsoleInterceptorLifecycle.stop.
  erewrite sbind_returns by (apply lift_returns; reflexivity).
  cbv beta. rewrite Hidle. destruct s; reflexivity.
Qed.

Lemma stop_run_running h s :
  ConsoleInterceptorClass.isIntercepting (interceptor (world s)) = true ->
  ConsoleInterceptorLifecycle.stop h s
  = console_call h log [ArgString "🔍 Console interceptor stopped"] (stopped s).
Proof.
  intros Hrun. unfold ConsoleInterceptorLifecycle.stop.
  erewrite sbind_returns by (apply lift_returns; reflexivity).
  cbv beta. rewrite Hrun. cbn [negb].
  erewrite sbind_returns by reflexivity.
  erewrite sbind_returns by (apply lift_returns; reflexivity).
  reflexivity.
Qed.

Lemma bound_configured cfg method :
  bound (configured cfg) method = Original
  \/ bound (configured cfg) method = Interceptor method.
Proof.
  destruct method; cbn;
    [destruct (captureErrors cfg) | destruct (captureWarnings cfg)
     | destruct (captureInfo cfg) | destruct (captureDebug cfg)
     | destruct (captureInfo cfg)]; auto.
Qed.

Lemma bound_follows_config s method :
  console_follows_config s ->
  bound (console s) method = Original \/ bound (console s) method = Interceptor method.
Proof.
  unfold console_follows_config. intros ->.
  destruct (ConsoleInterceptorClass.isIntercepting _);
    [apply bound_configured | left; destruct method; reflexivity].
Qed.

Lemma lifecycle_frame_refl s : lifecycle_frame s s.
Proof. repeat split. Qed.

Lemma lifecycle_frame_trans s1 s2 s3 :
  lifecycle_frame s1 s2 -> lifecycle_frame s2 s3 -> lifecycle_frame s1 s3.
Proof.
  intros (A1 & A2 & A3 & A4 & A5) (B1 & B2 & B3 & B4 & B5).
  repeat split; congruence.
Qed.

Lemma console_call_keeps h method args s :
  method <> error -> console_follows_config s ->
  exists s',
    console_call h method args s = (Returns tt, s')
    /\ console_follows_config s' /\ lifecycle_frame s s'
    /\ console s' = console s
    /\ ConsoleInterceptorClass.isIntercepting (interceptor (world s'))
       = ConsoleInterceptorClass.isIntercepting (interceptor (world s))
    /\ ConsoleInterceptorClass.config (interceptor (world s'))
       = ConsoleInterceptorClass.config (interceptor (world s))
    /\ ConsoleInterceptorClass.capturedMessages (interceptor (world s'))
       = match bound (console s) method with
         | Original => ConsoleInterceptorClass.capturedMessages (interceptor (world s))
         | Interceptor _ => buffer_after h method args (interceptor (world s))
         end.
Proof.
  intros Hm Hs.
  destruct (console_call_below_error h method args s Hm (bound_follows_config s method Hs))
    as (w' & E & H1 & H2 & H3 & H4 & H5 & H6 & H7 & H8).
  exists (with_world s w'). split; [exact E|].
  split; [unfold console_follows_config in *; cbn; now rewrite H1, H2|].
  split; [repeat split; assumption|]. auto.
Qed.

Lemma start_keeps h customConfig s :
  console_follows_config s ->
  exists s',
    ConsoleInterceptorLifecycle.start h customConfig s = (Returns tt, s')
    /\ console_follows_config s' /\ lifecycle_frame s s'
    /\ ConsoleInterceptorClass.isIntercepting (interceptor (world s')) = true
    /\ ConsoleInterceptorClass.config (interceptor (world s'))
       = if ConsoleInterceptorClass.isIntercepting (interceptor (world s))
         then ConsoleInterceptorClass.config (interceptor (world s))
         else start_config (interceptor (world s)) customConfig.
Proof.
  intros Hs.
  destruct (ConsoleInterceptorClass.isIntercepting (interceptor (world s))) eqn:Hrun.
  - rewrite (start_run_running h customConfig s Hrun).
    destruct (console_call_keeps h warn [ArgString "Console interceptor is already running"] s)
      as (s' & E & Hs' & Hf & _ & Hi & Hc & _); [discriminate | exact Hs |].
    exists s'. split; [exact E|]. split; [exact Hs'|]. split; [exact Hf|].
    split; [congruence | exact Hc].
  - assert (Hc : console s = originalConsole).
    { unfold console_follows_config in Hs. now rewrite Hrun in Hs. }
    rewrite (start_run_idle h customConfig s Hrun Hc).
    set (s1 := started (start_config (interceptor (world s)) customConfig) s).
    assert (Hs1 : console_follows_config s1) by reflexivity.
    destruct (console_call_keeps h log
                [ArgString "🔍 Console interceptor started - monitoring for errors"] s1)
      as (s' & E & Hs' & Hf & _ & Hi & Hcfg & _); [discriminate | exact Hs1 |].
    exists s'. split; [exact E|]. split; [exact Hs'|].
    split; [eapply lifecycle_frame_trans; [|exact Hf]; repeat split|].
    split; [rewrite Hi; reflexivity | rewrite Hcfg; reflexivity].
Qed.

Lemma stop_keeps h s :
  console_follows_config s ->
  exists s',
    ConsoleInterceptorLifecycle.stop h s = (Returns tt, s')
    /\ console_follows_config s' /\ lifecycle_frame s s'
    /\ ConsoleInterceptorClass.isIntercepting (interceptor (world s')) = false
    /\ console s' = originalConsole
    /\ ConsoleInterceptorClass.config (interceptor (world s'))
       = ConsoleInterceptorClass.config (interceptor (world s))
    /\ ConsoleInterceptorClass.capturedMessages (interceptor (world s'))
       = ConsoleInterceptorClass.capturedMessages (interceptor (world s)).
Proof.
  intros Hs.
  destruct (ConsoleInterceptorClass.isIntercepting (interceptor (world s))) eqn:Hrun.
  - rewrite (stop_run_running h s Hrun).
    assert (Hs1 : console_follows_config (stopped s)) by reflexivity.
    destruct (console_call_keeps h log [ArgString "🔍 Console interceptor stopped"] (stopped s))
      as (s' & E & Hs' & Hf & Hc & Hi & Hcfg & Hbuf); [discriminate | exact Hs1 |].
    exists s'. split; [exact E|]. split; [exact Hs'|].
    split; [eapply lifecycle_frame_trans; [|exact Hf]; repeat split|].
    split; [rewrite Hi; reflexivity|]. split; [rewrite Hc; reflexivity|].
    split; [rewrite Hcfg; reflexivity | rewrite Hbuf; reflexivity].
  - rewrite (stop_run_idle h s Hrun). exists s.
    split; [reflexivity|]. split; [exact Hs|]. split; [apply lifecycle_frame_refl|].
    split; [exact Hrun|]. split; [|split; reflexivity].
    unfold console_follows_config in Hs. now rewrite Hrun in Hs.
Qed.

Lemma updateConfig_keeps h newConfig s :
  console_follows_config s ->
  exists s',
    ConsoleInterceptorLifecycle.updateConfig h newConfig s = (Returns tt, s')
    /\ console_follows_config s' /\ lifecycle_frame s s'
    /\ ConsoleInterceptorClass.isIntercepting (interceptor (world s'))
       = ConsoleInterceptorClass.isIntercepting (interceptor (world s))
    /\ ConsoleInterceptorClass.config (interceptor (world s'))
       = spread (ConsoleInterceptorClass.config (interceptor (world s))) newConfig.
Proof.
  intros Hs. unfold ConsoleInterceptorLifecycle.updateConfig.
  erewrite sbind_returns by (apply lift_returns; reflexivity).
  cbv beta zeta. cbn [world with_world].
  destruct (ConsoleInterceptorClass.isIntercepting (interceptor (world s))) eqn:Hrun.
  - destruct (stop_keeps h (with_world s (world s)))
      as (s1 & E1 & Hs1 & Hf1 & Hi1 & Hc1 & Hcfg1 & _); [destruct s; exact Hs|].
    erewrite sbind_returns by exact E1.
    erewrite sbind_returns by (apply lift_returns; reflexivity).
    erewrite sbind_returns by (apply lift_returns; reflexivity).
    set (s2 := with_world (with_world s1 (world s1)) _).
    assert (Hs2 : console_follows_config s2).
    { unfold console_follows_config, s2. cbn. now rewrite Hi1. }
    destruct (start_keeps h None s2 Hs2) as (s' & E & Hs' & Hf & Hi & Hcfg).
    exists s'. split; [exact E|]. split; [exact Hs'|].
    split.
    { eapply lifecycle_frame_trans; [|exact Hf].
      destruct Hf1 as (A1 & A2 & A3 & A4 & A5). repeat split; assumption. }
    split; [exact Hi|]. rewrite Hcfg. unfold s2. cbn. rewrite Hi1, Hcfg1. reflexivity.
  - erewrite sbind_returns by reflexivity.
    erewrite sbind_returns by (apply lift_returns; reflexivity).
    erewrite sbind_returns by (apply lift_returns; reflexivity).
    eexists. split; [reflexivity|].
    split.
    { unfold console_follows_config in *. cbn. rewrite Hrun in *. exact Hs. }
    split; [repeat split|]. split; [cbn; exact Hrun | reflexivity].
Qed.

(** X23.  From a session whose console is bound as the state of the
    interceptor says, every sequence of calls of [start], [stop] and
    [updateConfig] returns and leaves the console bound as the state of
    the interceptor says: to the original methods while it does not
    run, and while it runs to an interceptor for exactly the methods
    its configuration asks for.  The calls leave the failure store, the
    registry, [localStorage] and the capture listeners alone. *)
Theorem console_follows_the_configuration (cs : list LifecycleCall) (s : Session)
    (Hs : console_follows_config s) :
  exists s',
    lifecycle_calls cs s = (Returns tt, s')
    /\ console_follows_config s'
    /\ lifecycle_frame s s'.
Proof.
  revert s Hs. induction cs as [|c cs IH]; intros s Hs; cbn [lifecycle_calls].
  - exists s. split; [reflexivity|]. split; [exact Hs | apply lifecycle_frame_refl].
  - assert (Hstep : exists s1, lifecycle_call c s = (Returns tt, s1)
                               /\ console_follows_config s1 /\ lifecycle_frame s s1).
    { destruct c as [h custom|h|h newConfig]; cbn [lifecycle_call].
      - destruct (start_keeps h custom s Hs) as (s1 & E & H1 & H2 & _). eauto.
      - destruct (stop_keeps h s Hs) as (s1 & E & H1 & H2 & _). eauto.
      - destruct (updateConfig_keeps h newConfig s Hs) as (s1 & E & H1 & H2 & _). eauto. }
    destruct Hstep as (s1 & E & Hs1 & Hf1).
    destruct (IH s1 Hs1) as (s' & E' & Hs' & Hf').
    exists s'. erewrite sbind_returns by exact E.
    split; [exact E'|]. split; [exact Hs'|].
    eapply lifecycle_frame_trans; eassumption.
Qed.

Lemma console_follows_the_configuration_witness :
  exists s',
    lifecycle_calls
      [CallStart example_host (Some example_custom_config);
       CallUpdateConfig example_host example_errors_off;
       CallStop example_host;
       CallStart example_host (Some example_custom_config)]
      example_session
    = (Returns tt, s')
    /\ console_follows_config s'.
Proof.
  destruct (console_follows_the_configuration
              [CallStart example_host (Some example_custom_config);
               CallUpdateConfig example_host example_errors_off;
               CallStop example_host;
               CallStart example_host (Some example_custom_config)]
              example_session)
    as (s' & E & Hs' & _).
  - reflexivity.
  - exists s'. auto.
Defined.

(** X24.  [start] on an interceptor that does not run, on the original
    console, then [stop]: [start] merges the custom configuration, sets
    the flag and binds the console for the merged configuration before
    it writes its line, so that with [captureInfo] the interceptor
    captures the line of its own start; [stop] gives the console its
    original methods back and clears the flag, and keeps the merged
    configuration and the buffer. *)
Theorem start_then_stop_restores_the_console
    (h h' : Host) (customConfig : option PartialConfig) (s : Session)
    (Hidle : ConsoleInterceptorClass.isIntercepting (interceptor (world s)) = false)
    (Hc : console s = originalConsole) :
  exists s1 s2,
    ConsoleInterceptorLifecycle.start h customConfig s = (Returns tt, s1)
    /\ ConsoleInterceptorClass.isIntercepting (interceptor (world s1)) = true
    /\ ConsoleInterceptorClass.config (interceptor (world s1))
       = start_config (interceptor (world s)) customConfig
    /\ console s1 = configured (start_config (interceptor (world s)) customConfig)
    /\ ConsoleInterceptorClass.capturedMessages (interceptor (world s1))
       = (if captureInfo (start_config (interceptor (world s)) customConfig)
          then buffer_after h log
                 [ArgString "🔍 Console interceptor started - monitoring for errors"]
                 (interceptor_set (interceptor (world s)) true
                    (start_config (interceptor (world s)) customConfig))
          else ConsoleInterceptorClass.capturedMessages (interceptor (world s)))
    /\ ConsoleInterceptorLifecycle.stop h' s1 = (Returns tt, s2)
    /\ ConsoleInterceptorClass.isIntercepting (interceptor (world s2)) = false
    /\ console s2 = originalConsole
    /\ ConsoleInterceptorClass.config (interceptor (world s2))
       = start_config (interceptor (world s)) customConfig
    /\ ConsoleInterceptorClass.capturedMessages (interceptor (world s2))
       = ConsoleInterceptorClass.capturedMessages (interceptor (world s1))
    /\ lifecycle_frame s s2.
Proof.
  set (cfg := start_config (interceptor (world s)) customConfig).
  rewrite (start_run_idle h customConfig s Hidle Hc). fold cfg.
  assert (Hs1 : console_follows_config (started cfg s)) by reflexivity.
  destruct (console_call_keeps h log
              [ArgString "🔍 Console interceptor started - monitoring for errors"]
              (started cfg s))
    as (s1 & E1 & Hf1 & Hfr1 & Hc1 & Hi1 & Hcfg1 & Hbuf1); [discriminate | exact Hs1 |].
  destruct (stop_keeps h' s1 Hf1) as (s2 & E2 & Hf2 & Hfr2 & Hi2 & Hc2 & Hcfg2 & Hbuf2).
  exists s1, s2. split; [exact E1|].
  split; [rewrite Hi1; reflexivity|]. split; [rewrite Hcfg1; reflexivity|].
  split; [rewrite Hc1; reflexivity|].
  split.
  { rewrite Hbuf1. cbn [started console configured bound on_log].
    destruct (captureInfo cfg); reflexivity. }
  split; [exact E2|]. split; [exact Hi2|]. split; [exact Hc2|].
  split; [rewrite Hcfg2, Hcfg1; reflexivity|]. split; [exact Hbuf2|].
  eapply lifecycle_frame_trans; [|exact Hfr2].
  eapply lifecycle_frame_trans; [|exact Hfr1]. repeat split.
Qed.

(** With [captureInfo] the line of the start is the newest entry of
    the buffer. *)
Lemma start_then_stop_restores_the_console_witness :
  exists s1 s2,
    ConsoleInterceptorLifecycle.start example_host (Some example_custom_config)
      example_idle_session = (Returns tt, s1)
    /\ hd_error (ConsoleInterceptorClass.capturedMessages (interceptor (world s1)))
       = Some (captured example_host log
                 [ArgString "🔍 Console interceptor started - monitoring for errors"])
    /\ ConsoleInterceptorLifecycle.stop example_host s1 = (Returns tt, s2)
    /\ console s2 = originalConsole.
Proof.
  destruct (start_then_stop_restores_the_console example_host example_host
              (Some example_custom_config) example_idle_session)
    as (s1 & s2 & E1 & _ & _ & _ & Hbuf & E2 & _ & Hc2 & _).
  - reflexivity.
  - reflexivity.
  - exists s1, s2. split; [exact E1|]. split; [|auto].
    rewrite Hbuf. reflexivity.
Defined.

(** X25.  [updateConfig] merges the new keys into the configuration,
    and on an interceptor that runs the console is bound for the merged
    configuration when the call returns: a method whose capture was
    turned off has its original back, one whose capture was turned on
    is intercepted.  On an interceptor that does not run the console
    keeps its original methods.  The flag is as it was. *)
Theorem updateConfig_rebinds_the_console
    (h : Host) (newConfig : PartialConfig) (s : Session)
    (Hs : console_follows_config s) :
  exists s',
    ConsoleInterceptorLifecycle.updateConfig h newConfig s = (Returns tt, s')
    /\ ConsoleInterceptorLifecycle.getConfig (interceptor (world s'))
       = spread (ConsoleInterceptorClass.config (interceptor (world s))) newConfig
    /\ ConsoleInterceptorLifecycle.isRunning (interceptor (world s'))
       = ConsoleInterceptorLifecycle.isRunning (interceptor (world s))
    /\ console s'
       = (if ConsoleInterceptorLifecycle.isRunning (interceptor (world s))
          then configured (spread (ConsoleInterceptorClass.config (interceptor (world s)))
                             newConfig)
          else originalConsole)
    /\ lifecycle_frame s s'.
Proof.
  destruct (updateConfig_keeps h newConfig s Hs) as (s' & E & Hs' & Hf & Hi & Hcfg).
  exists s'. split; [exact E|].
  unfold ConsoleInterceptorLifecycle.getConfig, ConsoleInterceptorLifecycle.isRunning.
  split; [exact Hcfg|]. split; [exact Hi|]. split; [|exact Hf].
  unfold console_follows_config in Hs'. rewrite Hs', Hi, Hcfg. reflexivity.
Qed.

(** Turning [captureErrors] off in [example_session] gives
    [console.error] its original back and leaves [console.warn]
    intercepted. *)
Lemma updateConfig_rebinds_the_console_witness :
  exists s',
    ConsoleInterceptorLifecycle.updateConfig example_host example_errors_off example_session
    = (Returns tt, s')
    /\ bound (console s') error = Original
    /\ bound (console s') warn = Interceptor warn.
Proof.
  destruct (updateConfig_rebinds_the_console example_host example_errors_off example_session)
    as (s' & E & _ & _ & Hc & _).
  - reflexivity.
  - exists s'. split; [exact E|]. rewrite Hc. split; reflexivity.
Defined.

(** ** The life cycle of the monitoring system *)

Ltac tidy :=
  cbn [session world console initialized restart_timers groups
       with_session with_world with_console with_initialized with_restart_timers with_groups].

Lemma ybind_returns {A B} (m : YM A) (k : A -> YM B) y a y' :
  m y = (Returns a, y') -> (m ≫= k) y = k a y'.
Proof. intros H. unfold mbind, YM_bind, ybind. now rewrite H. Qed.

Lemma on_session_returns {A} (m : SM A) y a s' :
  m (session y) = (Returns a, s') -> on_session m y = (Returns a, with_session y s').
Proof. intros H. unfold on_session. now rewrite H. Qed.

Lemma on_world_returns {A} (m : M A) y a w' :
  m (world (session y)) = (Returns a, w') ->
  on_world m y = (Returns a, with_session y (with_world (session y) w')).
Proof. intros H. unfold on_world. apply on_session_returns. now apply lift_returns. Qed.

(** A line written with [console.log] while it has its original: it
    goes to the original console. *)
Lemma console_log_original h text y :
  bound (console (session y)) log = Original ->
  MonitoringSystemLifecycle.console_log h text y
  = (Returns tt,
     with_session y
       (with_world (session y)
          (with_trace (world (session y))
             (trace (world (session y)) ++ [OriginalSink log [ArgString text]])))).
Proof.
  intros Hb. unfold MonitoringSystemLifecycle.console_log.
  apply on_session_returns. unfold console_call.
  erewrite sbind_returns by reflexivity. cbv beta. rewrite Hb. reflexivity.
Qed.

(** [loadPersistedErrors] returns, and changes the ledger and the
    trace only. *)
Lemma loadPersistedErrors_frame h w :
  exists w',
    ErrorMonitor.loadPersistedErrors h w = (Returns tt, w')
    /\ interceptor w' = interceptor w /\ registry w' = registry w
    /\ objects w' = objects w /\ localStorage w' = localStorage w
    /\ ErrorMonitorClass.listeners (monitor w') = ErrorMonitorClass.listeners (monitor w)
    /\ ErrorMonitorClass.maxStoredErrors (monitor w')
       = ErrorMonitorClass.maxStoredErrors (monitor w)
    /\ ErrorMonitorClass.sessionId (monitor w') = ErrorMonitorClass.sessionId (monitor w).
Proof.
  unfold ErrorMonitor.loadPersistedErrors.
  erewrite bind_returns by reflexivity. cbv beta.
  destruct (localStorage w) as [[[|[data|] savedAt session]|]|] eqn:Hls;
    unfold try_catch;
    eexists; (split; [reflexivity|]); repeat split; assumption.
Qed.

(** [getFixStats] returns on a registry whose references are sound,
    and changes nothing. *)
Lemma getFixStats_loop_returns fs : forall w stats,
  Forall (fun r => (r < length (objects w))%nat) fs ->
  exists stats', FixRegistryQueries.getFixStats_loop fs stats w = (Returns stats', w).
Proof.
  induction fs as [|r fs IH]; intros w stats Hv; cbn [FixRegistryQueries.getFixStats_loop].
  - eexists. reflexivity.
  - apply Forall_cons in Hv as [Hr Hv].
    destruct (lookup_lt_is_Some_2 _ _ Hr) as [f Hf].
    erewrite bind_returns by (apply deref_valid; exact Hf).
    apply IH, Hv.
Qed.

Lemma getFixStats_returns w :
  refs_valid w ->
  exists stats, FixRegistryQueries.getFixStats w = (Returns stats, w).
Proof.
  intros Hv. unfold FixRegistryQueries.getFixStats.
  erewrite bind_returns by reflexivity. cbv beta.
  apply getFixStats_loop_returns, Hv.
Qed.

(** [displaySystemStatus] while [console.log] has its original: it
    returns, and writes to the console only. *)
Lemma displaySystemStatus_original h y :
  bound (console (session y)) log = Original ->
  refs_valid (world (session y)) ->
  exists t g,
    MonitoringSystemLifecycle.displaySystemStatus h y
    = (Returns tt,
       {| session := with_world (session y)
                       (with_trace (world (session y)) (trace (world (session y)) ++ t));
          initialized := initialized y;
          restart_timers := restart_timers y;
          groups := (groups y ++ g)%list |}).
Proof.
  intros Hb Hv. unfold MonitoringSystemLifecycle.displaySystemStatus.
  erewrite ybind_returns by (apply on_world_returns; reflexivity).
  erewrite ybind_returns by (apply on_world_returns; reflexivity).
  destruct (getFixStats_returns (world (session y)) Hv) as [stats E].
  erewrite ybind_returns by (apply on_world_returns; exact E).
  erewrite ybind_returns by reflexivity.
  erewrite ybind_returns by (apply console_log_original; exact Hb).
  erewrite ybind_returns by (apply console_log_original; exact Hb).
  erewrite ybind_returns by (apply console_log_original; exact Hb).
  erewrite ybind_returns by (apply console_log_original; exact Hb).
  eexists. eexists. unfold MonitoringSystemLifecycle.console_groupEnd, ymodify.
  cbn. rewrite <- !app_assoc. reflexivity.
Qed.

(** [initialize] on a system that is not initialized and in step. *)
Lemma initialize_fresh h y :
  system_ok y -> initialized y = false ->
  exists y' w1,
    ErrorMonitor.loadPersistedErrors h
      (with_trace (world (session y))
         (trace (world (session y))
          ++ [OriginalSink log
                [ArgString "🚀 Initializing Self-Healing Monitoring System..."]]))
    = (Returns tt, w1)
    /\ MonitoringSystemLifecycle.initialize h y = (Returns tt, y')
    /\ initialized y' = true
    /\ restart_timers y' = restart_timers y
    /\ ConsoleInterceptorClass.isIntercepting (interceptor (world (session y'))) = true
    /\ ConsoleInterceptorClass.config (interceptor (world (session y')))
       = spread (ConsoleInterceptorClass.config (interceptor (world (session y))))
                MonitoringSystemLifecycle.initial_config
    /\ console (session y')
       = configured (spread (ConsoleInterceptorClass.config (interceptor (world (session y))))
                            MonitoringSystemLifecycle.initial_config)
    /\ ConsoleInterceptorClass.listeners (interceptor (world (session y')))
       = (ConsoleInterceptorClass.listeners (interceptor (world (session y)))
          ++ [monitoring_capture_listener])%list
    /\ ConsoleInterceptorClass.capturedMessages (interceptor (world (session y')))
       = ConsoleInterceptorClass.capturedMessages (interceptor (world (session y)))
    /\ ErrorMonitorClass.listeners (monitor (world (session y')))
       = (ErrorMonitorClass.listeners (monitor (world (session y)))
          ++ [monitoring_report_listener])%list
    /\ ErrorMonitorClass.errors (monitor (world (session y')))
       = ErrorMonitorClass.errors (monitor w1)
    /\ registry (world (session y')) = registry (world (session y))
    /\ objects (world (session y')) = objects (world (session y))
    /\ localStorage (world (session y')) = localStorage (world (session y)).
Proof.
  destruct y as [[w c] ini timers g]. unfold system_ok.
  cbn [session world console initialized restart_timers].
  intros (Hflag & Hc & Hv) Hini. rewrite Hini in Hflag. symmetry in Hflag. subst ini.
  unfold console_follows_config in Hc. cbn [session world console] in Hc.
  rewrite Hflag in Hc. subst c.
  set (w0 := with_trace w (trace w ++ [OriginalSink log
               [ArgString "🚀 Initializing Self-Healing Monitoring System..."]])).
  destruct (loadPersistedErrors_frame h w0)
    as (w1 & Eload & Hi1 & Hr1 & Ho1 & Hl1 & Hml1 & Hmm1 & Hms1).
  unfold MonitoringSystemLifecycle.initialize.
  erewrite ybind_returns by reflexivity. cbv beta. cbn [initialized].
  erewrite ybind_returns by (apply console_log_original; reflexivity).
  tidy. fold w0.
  unfold ytry_catch.
  erewrite ybind_returns by (apply on_world_returns; exact Eload).
  tidy.
  erewrite ybind_returns by (apply console_log_original; reflexivity).
  tidy.
  set (w2 := with_trace w1 _).
  assert (Hidle2 : ConsoleInterceptorClass.isIntercepting (interceptor w2) = false).
  { unfold w2. cbn [interceptor with_trace]. rewrite Hi1. exact Hflag. }
  set (cfg := spread (ConsoleInterceptorClass.config (interceptor w))
                     MonitoringSystemLifecycle.initial_config).
  assert (Hcfg2 : start_config (interceptor w2) (Some MonitoringSystemLifecycle.initial_config)
                  = cfg).
  { unfold start_config, cfg, w2. cbn [interceptor with_trace]. now rewrite Hi1. }
  erewrite ybind_returns.
  2:{ apply on_session_returns.
      etransitivity; [apply start_run_idle; [exact Hidle2 | reflexivity]|].
      cbn [session world with_session with_world].
      rewrite Hcfg2.
      unfold console_call. erewrite sbind_returns by reflexivity. cbv beta.
      cbn [started console world]. reflexivity. }
  tidy.
  set (w3 := with_trace _ _).
  erewrite ybind_returns by (apply console_log_original; reflexivity).
  tidy.
  erewrite ybind_returns by (apply on_world_returns; reflexivity).
  tidy.
  erewrite ybind_returns by (apply console_log_original; reflexivity).
  tidy.
  erewrite ybind_returns by reflexivity.
  tidy.
  erewrite ybind_returns by (apply console_log_original; reflexivity).
  tidy.
  match goal with
  | |- context [MonitoringSystemLifecycle.displaySystemStatus h ?y9] =>
      destruct (displaySystemStatus_original h y9) as (t & g' & Edisp)
  end.
  { reflexivity. }
  { unfold refs_valid. cbn. rewrite Ho1, Hr1. exact Hv. }
  rewrite Edisp.
  eexists. exists w1. split; [exact Eload|]. split; [reflexivity|].
  cbn. rewrite Hi1, Hr1, Ho1, Hl1, Hml1. repeat split; reflexivity.
Qed.

(** A line written with [console.log] on a console bound as
    configured: it returns and changes the buffer and the trace only. *)
Lemma console_log_keeps h text y :
  console_follows_config (session y) ->
  exists s',
    MonitoringSystemLifecycle.console_log h text y = (Returns tt, with_session y s')
    /\ console_follows_config s' /\ lifecycle_frame (session y) s'
    /\ console s' = console (session y)
    /\ ConsoleInterceptorClass.isIntercepting (interceptor (world s'))
       = ConsoleInterceptorClass.isIntercepting (interceptor (world (session y)))
    /\ ConsoleInterceptorClass.config (interceptor (world s'))
       = ConsoleInterceptorClass.config (interceptor (world (session y))).
Proof.
  intros Hs.
  destruct (console_call_keeps h log [ArgString text] (session y))
    as (s' & E & Hs' & Hf & Hc & Hi & Hcfg & _); [discriminate | exact Hs |].
  exists s'. split; [apply on_session_returns; exact E|]. auto.
Qed.

(** [initialize] on a system that is initialized: a warning. *)
Lemma initialize_again h y :
  system_ok y -> initialized y = true ->
  exists s',
    MonitoringSystemLifecycle.initialize h y = (Returns tt, with_session y s')
    /\ console_follows_config s' /\ lifecycle_frame (session y) s'
    /\ console s' = console (session y)
    /\ ConsoleInterceptorClass.isIntercepting (interceptor (world s'))
       = ConsoleInterceptorClass.isIntercepting (interceptor (world (session y)))
    /\ ConsoleInterceptorClass.config (interceptor (world s'))
       = ConsoleInterceptorClass.config (interceptor (world (session y))).
Proof.
  intros (_ & Hs & _) Hini. unfold MonitoringSystemLifecycle.initialize.
  erewrite ybind_returns by reflexivity. cbv beta. rewrite Hini.
  destruct (console_call_keeps h warn [ArgString "Monitoring system is already initialized"]
              (session y))
    as (s' & E & Hs' & Hf & Hc & Hi & Hcfg & _); [discriminate | exact Hs |].
  exists s'. split; [apply on_session_returns; exact E|]. auto.
Qed.

(** [shutdown] on a system that is initialized and in step. *)
Lemma shutdown_running h y :
  system_ok y -> initialized y = true ->
  exists s',
    MonitoringSystemLifecycle.shutdown h y
    = (Returns tt, with_initialized (with_session y s') false)
    /\ console s' = originalConsole
    /\ ConsoleInterceptorClass.isIntercepting (interceptor (world s')) = false
    /\ ConsoleInterceptorClass.config (interceptor (world s'))
       = ConsoleInterceptorClass.config (interceptor (world (session y)))
    /\ lifecycle_frame (session y) s'.
Proof.
  intros (_ & Hs & _) Hini. unfold MonitoringSystemLifecycle.shutdown.
  erewrite ybind_returns by reflexivity. cbv beta. rewrite Hini. cbn [negb].
  destruct (console_log_keeps h "🛑 Shutting down monitoring system..." y Hs)
    as (s1 & E1 & Hs1 & Hf1 & Hc1 & Hi1 & Hcfg1).
  erewrite ybind_returns by exact E1.
  destruct (stop_keeps h s1 Hs1) as (s2 & E2 & Hs2 & Hf2 & Hi2 & Hc2 & Hcfg2 & _).
  unfold ytry_catch.
  erewrite ybind_returns by (apply on_session_returns; exact E2).
  erewrite ybind_returns by reflexivity.
  tidy.
  erewrite console_log_original by (tidy; rewrite Hc2; reflexivity).
  tidy.
  exists (with_world s2
            (with_trace (world s2)
               (trace (world s2)
                ++ [OriginalSink log [ArgString "✅ Monitoring system shutdown complete"]]))).
  split; [reflexivity|]. tidy. cbn [interceptor with_trace].
  split; [exact Hc2|]. split; [exact Hi2|]. split; [congruence|].
  eapply lifecycle_frame_trans; [exact Hf1|].
  eapply lifecycle_frame_trans; [exact Hf2|]. repeat split.
Qed.

(** X26.  [initialize] on a system in step returns and leaves it
    initialized and in step.  On a system that is not initialized it
    loads the snapshot, starts the interceptor with errors and warnings
    captured and info and debug not, and adds one listener to the
    capture layer and one to the failure store; the lines it writes go
    to the original console and not to the buffer.  On a system that is
    initialized it writes a warning and adds nothing. *)
Theorem initialize_adds_its_listeners_once (h : Host) (y : System) (Hok : system_ok y) :
  exists y',
    MonitoringSystemLifecycle.initialize h y = (Returns tt, y')
    /\ MonitoringSystemLifecycle.isInitialized y' = true
    /\ system_ok y'
    /\ ErrorMonitorClass.listeners (monitor (world (session y')))
       = (ErrorMonitorClass.listeners (monitor (world (session y)))
          ++ if initialized y then [] else [monitoring_report_listener])%list
    /\ ConsoleInterceptorClass.listeners (interceptor (world (session y')))
       = (ConsoleInterceptorClass.listeners (interceptor (world (session y)))
          ++ if initialized y then [] else [monitoring_capture_listener])%list
    /\ ConsoleInterceptorClass.config (interceptor (world (session y')))
       = (if initialized y
          then ConsoleInterceptorClass.config (interceptor (world (session y)))
          else spread (ConsoleInterceptorClass.config (interceptor (world (session y))))
                      MonitoringSystemLifecycle.initial_config)
    /\ (initialized y = false ->
        ConsoleInterceptorClass.capturedMessages (interceptor (world (session y')))
        = ConsoleInterceptorClass.capturedMessages (interceptor (world (session y))))
    /\ restart_timers y' = restart_timers y
    /\ registry (world (session y')) = registry (world (session y))
    /\ objects (world (session y')) = objects (world (session y))
    /\ localStorage (world (session y')) = localStorage (world (session y)).
Proof.
  destruct (initialized y) eqn:Hini.
  - destruct (initialize_again h y Hok Hini)
      as (s' & E & Hs' & (Hm & Hr & Ho & Hl & Hcl) & Hc & Hi & Hcfg).
    exists (with_session y s'). split; [exact E|].
    unfold MonitoringSystemLifecycle.isInitialized. tidy.
    destruct Hok as (Hflag & _ & Hv).
    split; [exact Hini|]. split.
    { unfold system_ok, refs_valid. tidy. rewrite Hi, Ho, Hr. repeat split; assumption. }
    rewrite Hm, Hcl, !app_nil_r. repeat split; try assumption. intros H; discriminate H.
  - destruct (initialize_fresh h y Hok Hini)
      as (y' & w1 & _ & E & H1 & H2 & H3 & H4 & H5 & H6 & H7 & H8 & H9 & H10 & H11 & H12).
    exists y'. split; [exact E|]. split; [exact H1|]. split.
    { destruct Hok as (_ & _ & Hv). unfold system_ok, console_follows_config, refs_valid.
      rewrite H1, H3, H4, H5, H10, H11. repeat split. exact Hv. }
    repeat split; try assumption. intros _. assumption.
Qed.

Lemma system_ok_example : system_ok example_system.
Proof. split; [reflexivity|]. split; [reflexivity | constructor]. Qed.

Lemma initialize_adds_its_listeners_once_witness :
  exists y',
    MonitoringSystemLifecycle.initialize example_host example_system = (Returns tt, y')
    /\ MonitoringSystemLifecycle.isInitialized y' = true
    /\ length (ErrorMonitorClass.listeners (monitor (world (session y')))) = 1%nat.
Proof.
  destruct (initialize_adds_its_listeners_once example_host example_system system_ok_example)
    as (y' & E & Hini & _ & Hl & _).
  exists y'. split; [exact E|]. split; [exact Hini|]. rewrite Hl. reflexivity.
Defined.

(** One round of [restart] and its timer, on a system that is
    initialized and in step. *)
Lemma restart_round h y :
  system_ok y -> initialized y = true ->
  exists y',
    (MonitoringSystemLifecycle.restart h;; MonitoringSystemLifecycle.restart_timer_fires h) y
    = (Returns tt, y')
    /\ system_ok y' /\ initialized y' = true
    /\ restart_timers y' = restart_timers y
    /\ ErrorMonitorClass.listeners (monitor (world (session y')))
       = (ErrorMonitorClass.listeners (monitor (world (session y)))
          ++ [monitoring_report_listener])%list
    /\ ConsoleInterceptorClass.listeners (interceptor (world (session y')))
       = (ConsoleInterceptorClass.listeners (interceptor (world (session y)))
          ++ [monitoring_capture_listener])%list.
Proof.
  intros Hok Hini.
  destruct (shutdown_running h y Hok Hini)
    as (s1 & E1 & Hc1 & Hi1 & Hcfg1 & (Hm1 & Hr1 & Ho1 & Hl1 & Hcl1)).
  unfold MonitoringSystemLifecycle.restart, MonitoringSystemLifecycle.restart_timer_fires.
  erewrite ybind_returns.
  2:{ erewrite ybind_returns by exact E1. reflexivity. }
  erewrite ybind_returns by reflexivity. cbv beta. tidy.
  erewrite ybind_returns by reflexivity. tidy.
  set (y1 := {| session := s1; initialized := false;
                restart_timers := restart_timers y; groups := groups y |}).
  assert (Hok1 : system_ok y1).
  { destruct Hok as (_ & _ & Hv). unfold system_ok, console_follows_config, refs_valid, y1.
    tidy. rewrite Hi1, Hc1, Ho1, Hr1. repeat split. exact Hv. }
  destruct (initialize_fresh h y1 Hok1 eq_refl)
    as (y' & w1 & _ & E & H1 & H2 & H3 & H4 & H5 & H6 & H7 & H8 & H9 & H10 & H11 & H12).
  exists y'. split; [exact E|]. split.
  { destruct Hok1 as (_ & _ & Hv1). unfold system_ok, console_follows_config, refs_valid.
    rewrite H1, H3, H4, H5, H10, H11. repeat split. exact Hv1. }
  split; [exact H1|]. split; [exact H2|].
  rewrite H8, H6. unfold y1. tidy. rewrite Hm1, Hcl1. split; reflexivity.
Qed.

(** X27.  [shutdown] stops the interceptor and removes no listener, and
    the [initialize] that the timer of [restart] runs adds its two
    listeners again: after [k] rounds of [restart] a system that was
    initialized and in step is so again, and the failure store and the
    capture layer each have [k] listeners more. *)
Theorem restart_adds_listeners_every_time (h : Host) (k : nat) (y : System)
    (Hok : system_ok y) (Hini : initialized y = true) :
  exists y',
    restarts h k y = (Returns tt, y')
    /\ system_ok y' /\ initialized y' = true
    /\ restart_timers y' = restart_timers y
    /\ ErrorMonitorClass.listeners (monitor (world (session y')))
       = (ErrorMonitorClass.listeners (monitor (world (session y)))
          ++ repeat monitoring_report_listener k)%list
    /\ ConsoleInterceptorClass.listeners (interceptor (world (session y')))
       = (ConsoleInterceptorClass.listeners (interceptor (world (session y)))
          ++ repeat monitoring_capture_listener k)%list.
Proof.
  revert y Hok Hini. induction k as [|k IH]; intros y Hok Hini; cbn [restarts repeat].
  - exists y. rewrite !app_nil_r. split; [reflexivity|]. split; [exact Hok|].
    split; [exact Hini|]. repeat split.
  - destruct (restart_round h y Hok Hini) as (y1 & E1 & Hok1 & Hini1 & Ht1 & Hl1 & Hc1).
    destruct (IH y1 Hok1 Hini1) as (y' & E & Hok' & Hini' & Ht' & Hl' & Hc').
    exists y'. split.
    { unfold mbind, YM_bind, ybind in *.
      destruct (MonitoringSystemLifecycle.restart h y) as [[[]|e] y0]; [|discriminate].
      rewrite E1. exact E. }
    split; [exact Hok'|]. split; [exact Hini'|]. split; [congruence|].
    rewrite Hl', Hc', Hl1, Hc1, <- !app_assoc. split; reflexivity.
Qed.

Lemma restart_adds_listeners_every_time_witness :
  exists y',
    restarts example_host 2 example_running_system = (Returns tt, y')
    /\ length (ErrorMonitorClass.listeners (monitor (world (session y')))) = 2%nat
    /\ length (ConsoleInterceptorClass.listeners (interceptor (world (session y')))) = 3%nat.
Proof.
  destruct (restart_adds_listeners_every_time example_host 2 example_running_system)
    as (y' & E & _ & _ & _ & Hl & Hc).
  - split; [reflexivity|]. split; [reflexivity | constructor].
  - reflexivity.
  - exists y'. split; [exact E|]. rewrite Hl, Hc. split; reflexivity.
Defined.

(** ** The remediation registry: the statistics *)

Lemma record_set_new {V} (k : option string) (v : V) (m : list (option string * V)) :
  ~ In k (map fst m) -> FixRegistryQueries.record_set k v m = (m ++ [(k, v)])%list.
Proof.
  induction m as [|[k' v'] m IH]; simpl; intros Hn; [reflexivity|].
  destruct (FixRegistry.same_id k' k) eqn:E.
  - apply same_id_eq in E. subst. tauto.
  - rewrite IH by tauto. reflexivity.
Qed.

Lemma getFixStats_loop_run w fs : forall stats,
  Forall (fun r => (r < length (objects w))%nat) fs ->
  NoDup (map fst stats ++ map (id_of (objects w)) fs) ->
  FixRegistryQueries.getFixStats_loop fs stats w
  = (Returns (stats ++ map (stat_of (objects w)) fs)%list, w).
Proof.
  induction fs as [|r fs IH]; intros stats Hv Hnd; cbn [FixRegistryQueries.getFixStats_loop map].
  - now rewrite app_nil_r.
  - apply Forall_cons in Hv as [Hr Hv].
    destruct (lookup_lt_is_Some_2 _ _ Hr) as [f Hf].
    erewrite bind_returns by (apply deref_valid; exact Hf).
    assert (Hid : id_of (objects w) r = ErrorFix.id f) by (unfold id_of; now rewrite Hf).
    cbn [map] in Hnd. rewrite Hid in Hnd.
    apply NoDup_app in Hnd as (Hs & Hdis & Hfs).
    apply NoDup_cons in Hfs as [Hfresh Hfs].
    rewrite record_set_new.
    2:{ intros Hin. apply (Hdis (ErrorFix.id f)); [apply list_elem_of_In, Hin|].
        apply list_elem_of_here. }
    rewrite IH.
    + unfold stat_of at 2. rewrite Hf. rewrite <- app_assoc. reflexivity.
    + exact Hv.
    + rewrite map_app. cbn [map fst]. rewrite <- app_assoc. cbn [app].
      apply NoDup_app. split; [exact Hs|]. split.
      * intros x Hx Hx'. apply list_elem_of_In in Hx'. destruct Hx' as [<-|Hx'].
        -- apply (Hdis (ErrorFix.id f) Hx). apply list_elem_of_here.
        -- apply (Hdis x Hx). apply list_elem_of_further, list_elem_of_In, Hx'.
      * apply NoDup_cons. split; assumption.
Qed.

(** X28.  On a registry in order none of whose rules has the id
    ['__proto__'], [getFixStats] returns, changes nothing, and has one
    entry for each registered rule, under the id of the rule and with
    its statistics: as many keys as [getAllFixes()] has rules, and no
    rule hidden behind another of its id. *)
Theorem getFixStats_has_one_entry_per_rule (w : World) (Hok : registry_ok w)
    (Hproto : ~ In (Some "__proto__")
                   (map (id_of (objects w)) (FixRegistry.getAllFixes (registry w)))) :
  exists stats,
    FixRegistryQueries.getFixStats w = (Returns stats, w)
    /\ Permutation stats (map (stat_of (objects w)) (FixRegistry.getAllFixes (registry w)))
    /\ length stats = length (FixRegistry.getAllFixes (registry w))
    /\ NoDup (map fst stats).
Proof.
  pose proof (registry_ok_refs_valid w Hok) as Hv.
  destruct Hok as (Hall & Hnd & _).
  exists (map (stat_of (objects w)) (FixRegistryClass.fixes (registry w))).
  unfold FixRegistry.getAllFixes.
  assert (Hkeys : map fst (map (stat_of (objects w)) (FixRegistryClass.fixes (registry w)))
                  = map (id_of (objects w)) (FixRegistryClass.fixes (registry w))).
  { rewrite map_map. apply map_ext. intros r. unfold stat_of, id_of.
    destruct (objects w !! r); reflexivity. }
  split.
  - unfold FixRegistryQueries.getFixStats.
    erewrite bind_returns by reflexivity. cbv beta.
    rewrite getFixStats_loop_run; [reflexivity | exact Hv | exact Hnd].
  - split; [reflexivity|].
    split; [apply length_map | rewrite Hkeys; exact Hnd].
Qed.

(** In [example_priority_world] the record has two entries, one of them
    for [memory_leak]. *)
Lemma getFixStats_has_one_entry_per_rule_witness :
  exists stats,
    FixRegistryQueries.getFixStats example_priority_world = (Returns stats, example_priority_world)
    /\ length stats = 2%nat
    /\ In (Some "memory-leak") (map fst stats).
Proof.
  destruct (getFixStats_has_one_entry_per_rule example_priority_world example_priority_world_ok)
    as (stats & E & Hp & Hl & _).
  - vm_compute. intros [H|[H|[]]]; discriminate H.
  - exists stats. split; [exact E|]. split; [exact Hl|].
    apply (Permutation_in _ (Permutation_map fst (Permutation_sym Hp))).
    left. reflexivity.
Defined.
